(* ===== verification/_CoqProject ===== *)
-Q . S2P
Prelude.v
GoBytes.v
GoText.v
GoNet.v
Json.v
Sha256.v
Common.v
CommonSet.v
MasterKey.v
Enclave.v
Seed.v
Heartbeat.v
Node.v
Cluster.v
KeyStore.v
Api.v
JsonText.v
Crypto.v
Valkey.v
Session.v
Aes.v
Tdx.v
KeyService.v
Journal.v
Server.v
Http.v
Requests.v
CertStorage.v
Transport.v
Bootstrap.v
Service.v
Lifecycle.v
Main.v
