(* ===== verification/Prelude.v ===== *)
(** * betterkey: a verification development (root file)

    betterkey is a cluster of key servers for confidential virtual machines.
    The nodes attest each other over TLS, agree on one master key, seal it to
    their enclaves, and release keys derived from it to VMs that attest
    themselves.  This library models the Go code under src/ and proves what
    makes it correct.  This file documents the whole and holds what every
    component shares: Go's errors, results with panics, the state monad of
    stateful code, proof automation and generic lemmas.

    ** The parts and where they are modelled

    - GoBytes, GoText, GoNet, Json, Sha256: the parts of Go's standard library
      that the code's results depend on (encoding/hex, encoding/base64,
      strconv, strings, path, math/big, net.ParseIP and address texts,
      encoding/json, crypto/sha256), executable, with their round trips.
    - Common (internal/common/common.go, services.go): configuration and
      data records with their JSON, the vault built on the master secret.
      CommonSet (set.go): the string set.
    - MasterKey (internal/sgx/enclave.go): the sealed key file and its cache.
      Enclave (the same file, crypto/x509.go): certificates with quotes, the
      check of a peer's certificate, the policy on enclaves.
    - Transport (internal/cluster/transport/tls.go): memberlist's packets and
      streams over TLS, the accept loops, addresses.
    - Seed (cluster/seed.go, the messages of state.go): the exchange of the
      generated key.  Heartbeat (heartbeat.go).  Node (node.go, state.go,
      query.go, validate.go, common/net.go): everything one node does.
      Cluster: all nodes together, as a step relation.
    - KeyStore: the interface common.KeyStore as records of operations, with
      the promise [StoreLaws]; web/store.go, the prefixing store.  Valkey
      (internal/db/valkey.go): the implementation that keeps the promise.
    - Api (pkg/api), Crypto (internal/crypto), Aes (pkg/aes), Tdx
      (internal/tdx): messages, key generation, randomness and signatures,
      AES-GCM framing, TDX quotes and event logs.
    - Session, KeyService, Server (internal/web): sessions, the derivation of
      keys, and the HTTP routes from request body to reply.  Http
      (web/response.go, middleware.go): how a reply gets onto a connection.
      JsonText: what is decoded from JSON is valid text.  Requests: the
      handler of /key/finalize cut at its accesses to the store, and the
      requests of several servers at the same time.
    - CertStorage (internal/web/cert): certificates and locks in the key
      store.  Journal (providers/journal): what the server did, into S3.
    - Bootstrap (internal/cluster/bootstrap.go): from a node that is READY to
      the key server with its key, and the signals.  Service: the cluster of
      nodes and servers as one service.  Lifecycle (Start and
      Shutdown of node.go, notifyStateChange of state.go): the goroutines and
      channels of a node that is shut down.  Main (cmd/bootstrap/main.go,
      ParseConfig of common.go, NewKeyServer of web/server.go, providers/dns):
      flags, file, environment, and what is made of them.

    Definitions have the names of the code where Rocq allows it.  Record
    fields have a short prefix where Go's names repeat (hb_Nonce is
    HeartBeat.Nonce).

    ** How the code is represented

    A string and a slice of bytes are [list byte]; an int that the code
    computes with is a [Z], with its range where overflow can happen.  A Go
    map is a [gmap]; where iteration order matters the order is an argument.
    [res] is a value, an error or a panic; [M W] is a computation on a world
    [W].  Where Go returns a value together with an error, so does the model.
    A nil interface and an interface that holds a nil pointer are different
    values of [Vault].  A section under a mutex is one step; what a function
    reads before it takes the lock is an argument of that step
    ([Heartbeat.hb_step]).  An exit of the process is a status ([Main.main]).

    A component's surroundings are its world: a node's struct, disk,
    goroutines and sent messages ([Node.World]), the database, the sockets
    ([Transport.Net]).  Third-party code is a class of operations
    (ego's ecrypto and attestation, x509 and the curves, the HKDF and AEAD
    libraries, the TDX and CCEL parsers, Valkey's commands, the S3 client,
    certmagic), with its documented behaviour as a class of laws where a
    theorem needs it; the modules named Toy give instances of all of them, on
    which the witnesses run.

    Concurrency is interleaving: a node's goroutines and callbacks are the
    actions of [Node.act], a cluster steps by one action of one node
    ([Cluster.step]), messages that were sent may be lost, delayed, reordered
    and duplicated.  [Transport.step] moves one goroutine of a transport,
    [Bootstrap.sys_step] adds the process around a node,
    [Lifecycle.life_act] adds to a node's actions the shutdown and what a
    closed channel does to them, and [Requests.srv_step] moves one of the
    requests at a set of servers by one piece ([phase_step]);
    [phases_are_the_handler] ties the pieces to [handleKeyRequestFinalize].

    ** What is proved

    - Agreement on the key.  In a cluster of honest nodes all master keys are
      equal and no node panics ([Cluster.master_keys_agree],
      [Cluster.honest_nodes_do_not_panic]); all key servers derive the same
      keys ([Bootstrap.key_servers_agree]).  The other side of it: a
      single seed never becomes READY.  A slave hands out the key once it has
      come from all the seed nodes, and its cleanup waits for that
      ([Seed.seed_completes]).  After [Shutdown] the loops of a node take all
      that their channels hold and return, and a READY node shuts down
      without a panic ([Lifecycle]).
    - Who may take part.  A certificate is accepted exactly when it carries
      a verified quote for its own key from the configured enclave, honest
      nodes accept each other, and memberlist sees traffic of accepted peers
      only ([Enclave], [Transport.only_attested_peers_are_routed]); this is
      what makes the assumption of honest peers in Cluster reasonable.
    - Who gets a key.  A key leaves the server only after session, quote,
      nonce, registers and Secure Boot were checked, and is derived from the
      attested measurements; an attested VM does get it, whichever servers of
      the cluster it talks to and for every key type that can be derived, and
      the session is used up ([Service.cluster_serves_vms], with
      [Server.key_outcome]); every request is answered, unless an event log
      that replays to the VM's registers is malformed
      ([Server.finalize_always_replies], [Tdx.EventLog_accepts],
      [Session.session_lifetime]), and the answer arrives
      ([Http.responses_are_delivered]).  With requests at several servers
      interleaved, a released key still belongs to a fresh and attested
      session, two releases of one session must overlap, and a sealing
      session releases none ([Requests]).
    - How it is set up.  The program starts only with a complete
      configuration and exits with 0, 1 or 2 or panics otherwise
      ([Main.main_starts_configured]), and unless told
      otherwise it verifies the quotes of key requests
      ([Main.quotes_verified_by_default]) but not the nonces of sealing
      requests ([Main.seal_nonce_unchecked_by_default]).
    - What a key is.  Sealed payloads open under the key of the VM's
      measurements, signatures verify and P-256 keys exist when the derived
      scalar fills its 32 bytes, RSA keys are stable; P-384 fails, and context and id are joined
      ambiguously ([KeyService], [Crypto], [Aes]).
    - Storage.  The Valkey service implements the abstract key store, with
      deadlines, and sessions, RSA keys and certificates rely on the
      interface only ([Valkey.entry_lifetime]); a stored certificate stays
      until it is deleted, and the lock of [CertStorage]
      excludes others until its deadline and is acquired after it.
    - The network.  Framing routes packets and streams, the delays of the
      accept loop are bounded, listeners are well-formed; a silent peer
      blocks a listener ([Transport]).
    - The rest.  Heartbeats are accepted under the same key, and with
      punctual ticks only those are lost that a tick overtakes on their way
      into the buffer ([Heartbeat]); restart of a node with its sealed
      key ([MasterKey]), the journal's marker comes last ([Journal]) and the
      journal holds one record for each attested request, with its outcome
      ([Server.journal_records_attested_requests]).

    ** Fuel and bounds

    Loops over data are structural.  [CertStorage.Lock] takes fuel, and
    [lock_is_acquired] says how many attempts are enough; [manage] recurses on
    the configured number of retries.  Goroutines that retry forever are
    steps and need no fuel.  Parsers of JSON recurse on fuel that is the
    length of the input.  Session times are below 10^13 milliseconds and
    integers in JSON fit in 64 bits where a statement says so.

    ** What is not modelled

    Logging.  Third-party code, which is a parameter wherever the program
    calls it: memberlist, chi and net/http ([ServeHTTP] is the choice of a
    route), the env and toml packages, [memberlist.Create], which is taken to
    succeed ([Node.Start] would end the process with [log.Fatalf]), the certmagic and DNS clients, the
    attestation and cryptographic libraries.  The getters [KVDatabase] and
    [NodeTls], which return a field.  [NewKeyServer_http] is not part of
    [Bootstrap.start_server], which makes the handlers' state only, since the
    network side of a server does not touch it.  In Requests the handlers for
    sessions and sealing run without interruption, since they access the
    store once.  A spawned journal goroutine is the record it writes,
    attached to the reply ([logJournal]). *)

From stdpp Require Export prelude list gmap sets strings sorting.
From Stdlib.Strings Require Export Byte.
From Stdlib Require Import ZArith Lia.

#[global] Set Default Goal Selector "!".

(** ** Bytes and strings

    A Go [string] and a Go [[]byte] are both sequences of bytes; the
    conversions between them copy, so both are modelled by [list byte]. *)

Notation bytes := (list byte).

#[global] Instance byte_eq_dec : EqDecision byte := Byte.byte_eq_dec.

#[global] Instance byte_countable : Countable byte.
Proof. apply (inj_countable Byte.to_N Byte.of_N), Byte.of_to_N. Defined.

#[global] Instance byte_inhabited : Inhabited byte := populate x00.

Declare Scope go_scope.
Delimit Scope go_scope with go.

(** [$"abc"] is the Go string literal "abc". *)
Notation "$ s" := (String.list_byte_of_string s%string)
  (at level 1, s constr at level 0, format "$ s") : go_scope.
#[global] Open Scope go_scope.
#[global] Arguments String.list_byte_of_string : simpl never.

(** ** Errors

    Go compares [error] values by identity: the sentinels are constructors,
    [fmt.Errorf] with [%w] builds a value different from what it wraps. *)

Inductive error :=
  | ErrNoEncryptionService       (* common.ErrNoEncryptionService *)
  | ErrHeartBeatNonceMismatched  (* common.ErrHeartBeatNonceMismatched *)
  | ErrValkeyNil                 (* valkey.Nil *)
  | ErrNotExist                  (* fs.ErrNotExist, os.ErrNotExist *)
  | ErrCtx                       (* the error of a cancelled context *)
  | ErrString (msg : bytes)      (* errors.New, and errors of libraries *)
  | ErrWrap (msg : bytes) (e : error). (* fmt.Errorf("msg: %w", e) *)

#[global] Instance error_eq_dec : EqDecision error.
Proof. solve_decision. Defined.

(** [err.Error()] *)
Fixpoint Error (e : error) : bytes :=
  match e with
  | ErrNoEncryptionService => $"no encryption service (missing masterkey)"
  | ErrHeartBeatNonceMismatched => $"nonce mismatched"
  | ErrValkeyNil => $"valkey nil message"
  | ErrNotExist => $"file does not exist"
  | ErrCtx => $"context canceled"
  | ErrString msg => msg
  | ErrWrap msg e => msg ++ $": " ++ Error e
  end.

(** ** Results

    [(T, error)] results and panics.  A Go function that returns a
    meaningful value together with a non-nil error returns a pair in the
    model instead. *)

Inductive res (A : Type) :=
  | Ok (a : A)
  | Err (e : error)
  | Panic (msg : bytes).
Arguments Ok {A} a.
Arguments Err {A} e.
Arguments Panic {A} msg.

#[global] Instance res_ret : MRet res := λ A a, Ok a.
#[global] Instance res_bind : MBind res := λ A B f m,
  match m with Ok a => f a | Err e => Err e | Panic p => Panic p end.
#[global] Instance res_fmap : FMap res := λ A B f m,
  match m with Ok a => Ok (f a) | Err e => Err e | Panic p => Panic p end.

Definition is_ok {A} (r : res A) : bool :=
  match r with Ok _ => true | _ => false end.

(** The error component of a result: [nil] is [None]. *)
Definition err_of {A} (r : res A) : option error :=
  match r with Err e => Some e | _ => None end.

(** [fmt.Errorf("msg: %w", err)] on the error path. *)
Definition wrap {A} (msg : bytes) (r : res A) : res A :=
  match r with Err e => Err (ErrWrap msg e) | r => r end.

(** Replace the error of a result. *)
Definition orelse {A} (r : res A) (e : error) : res A :=
  match r with Err _ => Err e | r => r end.

Definition of_option {A} (o : option A) (e : error) : res A :=
  match o with Some a => Ok a | None => Err e end.

(** The slice expressions [s[:n]] and [s[n:]].  Go checks the first against
    the capacity, which is not modelled, and the second against the length;
    where the code writes both, as in [a, b := s[:n], s[n:]], the pair panics
    exactly when [n] exceeds the length. *)
Definition slice_out_of_range : bytes := $"runtime error: slice bounds out of range".
Definition slice_to (s : bytes) (n : nat) : res bytes :=
  if decide (n ≤ length s) then Ok (take n s) else Panic slice_out_of_range.
Definition slice_from (s : bytes) (n : nat) : res bytes :=
  if decide (n ≤ length s) then Ok (drop n s) else Panic slice_out_of_range.

(** A result whose error the code looks at; panics propagate. *)
Definition catch_res {A} (r : res A) : res (A + error) :=
  match r with Ok a => Ok (inl a) | Err e => Ok (inr e) | Panic p => Panic p end.

(** Dereferencing a pointer: a nil dereference panics. *)
Definition nil_deref : bytes :=
  $"runtime error: invalid memory address or nil pointer dereference".
Definition deref {A} (p : option A) : res A :=
  match p with Some a => Ok a | None => Panic nil_deref end.

(** ** Stateful code *)

Definition M (W A : Type) : Type := W → res A * W.

#[global] Instance M_ret {W} : MRet (M W) := λ A a w, (Ok a, w).
#[global] Instance M_bind {W} : MBind (M W) := λ A B f m w,
  match m w with
  | (Ok a, w') => f a w'
  | (Err e, w') => (Err e, w')
  | (Panic p, w') => (Panic p, w')
  end.

(** A pure result inside stateful code. *)
Definition lift {W A} (r : res A) : M W A := λ w, (r, w).

(** Run [m] and hand its result, error included, to [k]: the shape of
    [x, err := m(); if err != nil { ... }].  Panics propagate. *)
Definition catch {W A B} (m : M W A) (k : A + error → M W B) : M W B := λ w,
  match m w with
  | (Ok a, w') => k (inl a) w'
  | (Err e, w') => k (inr e) w'
  | (Panic p, w') => (Panic p, w')
  end.

(** ** Automation *)

(** Case analysis on every [match] of the goal, keeping the equations. *)
Ltac crush_match :=
  repeat (case_match; simplify_eq/=; try done).

(** Split hypotheses and existential packages, then simplify. *)
Ltac inv_all :=
  repeat match goal with
  | H : _ ∧ _ |- _ => destruct H
  | H : ∃ _, _ |- _ => destruct H
  | H : Some _ = Some _ |- _ => injection H as H
  | H : Ok _ = Ok _ |- _ => injection H as H
  | H : (_, _) = (_, _) |- _ => injection H as H
  end; simplify_eq/=.

Create HintDb betterkey.

(** ** Generic lemmas *)

Section results.
Context {A B : Type}.

Lemma res_bind_Ok (m : res A) (f : A → res B) b :
  m ≫= f = Ok b ↔ ∃ a, m = Ok a ∧ f a = Ok b.
Proof. destruct m; naive_solver. Qed.

Lemma res_bind_Panic (m : res A) (f : A → res B) p :
  m ≫= f = Panic p ↔ m = Panic p ∨ ∃ a, m = Ok a ∧ f a = Panic p.
Proof. destruct m; naive_solver. Qed.

Lemma wrap_Ok (msg : bytes) (r : res A) a : wrap msg r = Ok a ↔ r = Ok a.
Proof. destruct r; naive_solver. Qed.

Lemma orelse_Ok (r : res A) e a : orelse r e = Ok a ↔ r = Ok a.
Proof. destruct r; naive_solver. Qed.

Lemma of_option_Ok (o : option A) e a : of_option o e = Ok a ↔ o = Some a.
Proof. destruct o; naive_solver. Qed.

Lemma deref_Ok (p : option A) a : deref p = Ok a ↔ p = Some a.
Proof. destruct p; naive_solver. Qed.
End results.

#[export] Hint Rewrite @res_bind_Ok @wrap_Ok @orelse_Ok @of_option_Ok @deref_Ok
  : betterkey.

(** [inv_res] turns hypotheses [... = Ok _] about binds into equations on
    the intermediate results. *)
Ltac inv_res :=
  repeat match goal with
  | H : mbind _ _ = Ok _ |- _ => apply res_bind_Ok in H as (? & ? & H)
  | H : wrap _ _ = Ok _ |- _ => apply wrap_Ok in H
  | H : orelse _ _ = Ok _ |- _ => apply orelse_Ok in H
  | H : of_option _ _ = Ok _ |- _ => apply of_option_Ok in H
  | H : deref _ = Ok _ |- _ => apply deref_Ok in H
  end; simplify_eq/=.
