(* ===== verification/GoBytes.v ===== *)
(** * Bytes: order, sorting, hex and base64

    Bytes as numbers, the bytewise order of strings and [sort.Strings],
    [encoding/hex] and [encoding/base64] (StdEncoding), executable, with their
    round trips. *)

From S2P Require Import Prelude.
From Stdlib Require Import ZArith NArith Lia.

(** ** Bytes as numbers *)

Definition byte_of_N (n : N) : byte := default x00 (Byte.of_N n).

Lemma byte_of_to_N b : byte_of_N (Byte.to_N b) = b.
Proof. unfold byte_of_N. by rewrite Byte.of_to_N. Qed.

Lemma byte_to_of_N n : (n < 256)%N → Byte.to_N (byte_of_N n) = n.
Proof.
  intros Hn. unfold byte_of_N. destruct (Byte.of_N n) as [b|] eqn:E; simpl.
  - by apply Byte.to_of_N.
  - apply Byte.of_N_None_iff in E. lia.
Qed.

Lemma byte_to_N_lt b : (Byte.to_N b < 256)%N.
Proof. pose proof (Byte.to_N_bounded b). lia. Qed.

#[export] Instance byte_to_N_inj : Inj (=) (=) Byte.to_N.
Proof. intros a b E. by rewrite <- (byte_of_to_N a), E, byte_of_to_N. Qed.

(** ** Bytewise order, [sort.Strings] *)

Fixpoint bytes_leb (x y : bytes) : bool :=
  match x, y with
  | [], _ => true
  | _ :: _, [] => false
  | a :: x', b :: y' =>
      match (Byte.to_N a ?= Byte.to_N b)%N with
      | Lt => true
      | Eq => bytes_leb x' y'
      | Gt => false
      end
  end.

Definition bytes_le (x y : bytes) : Prop := Is_true (bytes_leb x y).

#[export] Instance bytes_le_dec : RelDecision bytes_le.
Proof. intros x y. unfold bytes_le. apply _. Defined.

#[export] Instance bytes_le_total : Total bytes_le.
Proof.
  unfold Total, bytes_le. intros x. induction x as [|a x IH]; intros [|b y]; simpl; auto.
  rewrite (N.compare_antisym (Byte.to_N a)).
  destruct (Byte.to_N a ?= Byte.to_N b)%N eqn:E; simpl; auto.
Qed.

#[export] Instance bytes_le_trans : Transitive bytes_le.
Proof.
  unfold bytes_le. intros x. induction x as [|a x IH]; intros [|b y] [|c z]; simpl; auto; try done.
  destruct (N.compare_spec (Byte.to_N a) (Byte.to_N b)) as [E|E|E];
    destruct (N.compare_spec (Byte.to_N b) (Byte.to_N c)) as [F|F|F]; try done;
    destruct (N.compare_spec (Byte.to_N a) (Byte.to_N c)) as [G|G|G]; try done; try lia.
  intros. eauto.
Qed.

#[export] Instance bytes_le_antisymm : AntiSymm (=) bytes_le.
Proof.
  unfold bytes_le. intros x. induction x as [|a x IH]; intros [|b y]; simpl; auto; try done.
  rewrite (N.compare_antisym (Byte.to_N a)).
  destruct (N.compare_spec (Byte.to_N a) (Byte.to_N b)) as [E|E|E]; simpl; try done.
  intros. apply (inj Byte.to_N) in E as ->. f_equal. auto.
Qed.

Definition sort_Strings (l : list bytes) : list bytes := merge_sort bytes_le l.

Lemma sort_Strings_perm l : sort_Strings l ≡ₚ l.
Proof. apply merge_sort_Permutation. Qed.

Lemma sort_Strings_sorted l : StronglySorted bytes_le (sort_Strings l).
Proof. apply StronglySorted_merge_sort; apply _. Qed.

(** The order in which Go's map iteration delivers the elements does not
    change the sorted slice. *)
Lemma sort_Strings_unique l1 l2 : l1 ≡ₚ l2 → sort_Strings l1 = sort_Strings l2.
Proof.
  intros HP. apply (StronglySorted_unique bytes_le).
  - apply sort_Strings_sorted.
  - apply sort_Strings_sorted.
  - by rewrite !sort_Strings_perm.
Qed.

(** ** [encoding/hex] *)

Definition hexdigit (n : N) : byte :=
  byte_of_N (if (n <? 10)%N then 48 + n else 87 + n)%N.

Definition unhex (b : byte) : option N :=
  let n := Byte.to_N b in
  if ((48 <=? n) && (n <=? 57))%N then Some (n - 48)%N
  else if ((97 <=? n) && (n <=? 102))%N then Some (n - 87)%N
  else if ((65 <=? n) && (n <=? 70))%N then Some (n - 55)%N
  else None.

Fixpoint hex_EncodeToString (l : bytes) : bytes :=
  match l with
  | [] => []
  | b :: l =>
      hexdigit (Byte.to_N b / 16) :: hexdigit (Byte.to_N b mod 16) :: hex_EncodeToString l
  end.

Fixpoint hex_DecodeString (s : bytes) : res bytes :=
  match s with
  | [] => Ok []
  | [a] => Err (ErrString (match unhex a with
                           | Some _ => $"encoding/hex: odd length hex string"
                           | None => $"encoding/hex: invalid byte"
                           end))
  | a :: b :: s =>
      match unhex a, unhex b with
      | Some x, Some y => l ← hex_DecodeString s; mret (byte_of_N (x * 16 + y) :: l)
      | _, _ => Err (ErrString ($"encoding/hex: invalid byte"))
      end
  end.

Lemma unhex_hi b : unhex (hexdigit (Byte.to_N b / 16)) = Some (Byte.to_N b / 16)%N.
Proof. destruct b; reflexivity. Qed.
Lemma unhex_lo b : unhex (hexdigit (Byte.to_N b mod 16)) = Some (Byte.to_N b mod 16)%N.
Proof. destruct b; reflexivity. Qed.

Lemma hex_round_trip l : hex_DecodeString (hex_EncodeToString l) = Ok l.
Proof.
  induction l as [|b l IH]; [done|]. simpl. rewrite unhex_hi, unhex_lo, IH. simpl.
  unfold mret, res_ret. do 2 f_equal. rewrite <- (byte_of_to_N b) at 3. f_equal.
  pose proof (N.div_mod (Byte.to_N b) 16). lia.
Qed.

#[export] Instance hex_inj : Inj (=) (=) hex_EncodeToString.
Proof. intros x y E. pose proof (hex_round_trip x). rewrite E, hex_round_trip in H. by simplify_eq. Qed.

Lemma hex_length l : length (hex_EncodeToString l) = 2 * length l.
Proof. induction l; simpl; lia. Qed.

Lemma list_ind2 {A} (P : list A → Prop) :
  P [] → (∀ a, P [a]) → (∀ a b l, P l → P (a :: b :: l)) → ∀ l, P l.
Proof. intros H0 H1 H2. fix IH 1. intros [|a [|b l]]; [done..|]. apply H2, IH. Qed.

Lemma hex_safe s p : hex_DecodeString s ≠ Panic p.
Proof.
  induction s as [|a|a b s IH] using list_ind2; simpl; [done|by case_match|].
  repeat case_match; simplify_eq/=; try done. by destruct (hex_DecodeString s); simplify_eq/=.
Qed.

#[export] Hint Rewrite hex_round_trip : betterkey.

(** ** [encoding/base64], StdEncoding

    Three bytes are one 24-bit group of four 6-bit digits.  The decoder
    skips CR and LF, requires the padding and, not being strict, ignores
    the unused low bits of the last digit. *)

Definition b64char (n : N) : byte :=
  byte_of_N (if n <? 26 then 65 + n
             else if n <? 52 then 71 + n
             else if n <? 62 then n - 4
             else if n =? 62 then 43 else 47)%N.

Definition b64val (b : byte) : option N :=
  let n := Byte.to_N b in
  if ((65 <=? n) && (n <=? 90))%N then Some (n - 65)%N
  else if ((97 <=? n) && (n <=? 122))%N then Some (n - 71)%N
  else if ((48 <=? n) && (n <=? 57))%N then Some (n + 4)%N
  else if (n =? 43)%N then Some 62%N
  else if (n =? 47)%N then Some 63%N
  else None.

Definition b64pad : byte := "="%byte.

Definition group24 (a b c : byte) : N :=
  (Byte.to_N a * 65536 + Byte.to_N b * 256 + Byte.to_N c)%N.
Definition digit6 (g : N) (i : N) : N := ((g / 2 ^ (18 - 6 * i)) mod 64)%N.

Fixpoint b64_EncodeToString (l : bytes) : bytes :=
  match l with
  | a :: b :: c :: l =>
      let g := group24 a b c in
      b64char (digit6 g 0) :: b64char (digit6 g 1) :: b64char (digit6 g 2)
        :: b64char (digit6 g 3) :: b64_EncodeToString l
  | [a; b] =>
      let g := group24 a b x00 in
      [b64char (digit6 g 0); b64char (digit6 g 1); b64char (digit6 g 2); b64pad]
  | [a] =>
      let g := group24 a x00 x00 in
      [b64char (digit6 g 0); b64char (digit6 g 1); b64pad; b64pad]
  | [] => []
  end.

(** The 24-bit group of four digits, and its bytes. *)
Definition ungroup (a b c d : N) : N := (a * 262144 + b * 4096 + c * 64 + d)%N.
Definition byte24 (g : N) (i : N) : byte := byte_of_N ((g / 2 ^ (16 - 8 * i)) mod 256)%N.

Fixpoint b64_quads (s : bytes) : option bytes :=
  match s with
  | [] => Some []
  | a :: b :: c :: d :: s =>
      x ← b64val a; y ← b64val b;
      if decide (c = b64pad) then
        if decide (d = b64pad ∧ s = []) then Some [byte24 (ungroup x y 0 0) 0] else None
      else z ← b64val c;
        if decide (d = b64pad) then
          if decide (s = []) then
            Some [byte24 (ungroup x y z 0) 0; byte24 (ungroup x y z 0) 1]
          else None
        else w ← b64val d;
          let g := ungroup x y z w in
          l ← b64_quads s; Some (byte24 g 0 :: byte24 g 1 :: byte24 g 2 :: l)
  | _ => None
  end.

Definition is_newline (b : byte) : bool := bool_decide (b = x0a) || bool_decide (b = x0d).

Definition b64_DecodeString (s : bytes) : res bytes :=
  of_option (b64_quads (filter (λ b, is_newline b = false) s))
            (ErrString ($"illegal base64 data")).

Lemma b64val_char n : (n < 64)%N → b64val (b64char n) = Some n.
Proof.
  intros Hn. rewrite <- (N2Nat.id n) in *. assert (N.to_nat n < 64) as Hm by lia.
  clear Hn. revert Hm. generalize (N.to_nat n) as m. clear n. intros m Hm.
  do 64 (destruct m as [|m]; [reflexivity|]). lia.
Qed.

Lemma b64char_plain n : (n < 64)%N → is_newline (b64char n) = false ∧ b64char n ≠ b64pad.
Proof.
  intros Hn. rewrite <- (N2Nat.id n) in *. assert (N.to_nat n < 64) as Hm by lia.
  clear Hn. revert Hm. generalize (N.to_nat n) as m. clear n. intros m Hm.
  do 64 (destruct m as [|m]; [done|]). lia.
Qed.

Lemma digit6_lt g i : (digit6 g i < 64)%N.
Proof. unfold digit6. apply N.mod_lt. lia. Qed.

Lemma group24_lt a b c : (group24 a b c < 16777216)%N.
Proof.
  unfold group24. pose proof (byte_to_N_lt a). pose proof (byte_to_N_lt b).
  pose proof (byte_to_N_lt c). lia.
Qed.

Lemma ungroup_digits g : (g < 16777216)%N →
  ungroup (digit6 g 0) (digit6 g 1) (digit6 g 2) (digit6 g 3) = g.
Proof.
  intros Hg. unfold ungroup, digit6.
  change (2 ^ (18 - 6 * 0))%N with (64 * 64 * 64)%N.
  change (2 ^ (18 - 6 * 1))%N with (64 * 64)%N.
  change (2 ^ (18 - 6 * 2))%N with 64%N. change (2 ^ (18 - 6 * 3))%N with 1%N.
  rewrite <- !N.Div0.div_div, N.div_1_r.
  pose proof (N.div_mod g 64). pose proof (N.div_mod (g / 64) 64).
  pose proof (N.div_mod (g / 64 / 64) 64).
  rewrite (N.mod_small (g / 64 / 64 / 64)); [lia|].
  rewrite !N.Div0.div_div. apply N.Div0.div_lt_upper_bound. lia.
Qed.

Lemma digits256 (x y z : N) : (x < 256 → y < 256 → z < 256 →
  ((x * 65536 + y * 256 + z) / 65536) mod 256 = x ∧
  ((x * 65536 + y * 256 + z) / 256) mod 256 = y ∧
  ((x * 65536 + y * 256 + z) / 1) mod 256 = z)%N.
Proof.
  intros Hx Hy Hz. split_and!.
  - replace ((x * 65536 + y * 256 + z) / 65536)%N with x; [by apply N.mod_small|].
    apply N.div_unique with (y * 256 + z)%N; lia.
  - replace ((x * 65536 + y * 256 + z) / 256)%N with (x * 256 + y)%N.
    + symmetry. apply N.mod_unique with x; lia.
    + apply N.div_unique with z; lia.
  - rewrite N.div_1_r. symmetry. apply N.mod_unique with (x * 256 + y)%N; lia.
Qed.

Lemma byte24_group a b c :
  byte24 (group24 a b c) 0 = a ∧ byte24 (group24 a b c) 1 = b ∧ byte24 (group24 a b c) 2 = c.
Proof.
  destruct (digits256 (Byte.to_N a) (Byte.to_N b) (Byte.to_N c)) as (E1 & E2 & E3);
    [apply byte_to_N_lt..|].
  unfold byte24, group24.
  change (2 ^ (16 - 8 * 0))%N with 65536%N. change (2 ^ (16 - 8 * 1))%N with 256%N.
  change (2 ^ (16 - 8 * 2))%N with 1%N.
  by rewrite E1, E2, E3, !byte_of_to_N.
Qed.

Lemma list_ind3 {A} (P : list A → Prop) :
  P [] → (∀ a, P [a]) → (∀ a b, P [a; b]) →
  (∀ a b c l, P l → P (a :: b :: c :: l)) → ∀ l, P l.
Proof.
  intros H0 H1 H2 H3. fix IH 1. intros [|a [|b [|c l]]]; [done..|]. apply H3, IH.
Qed.

Lemma b64_encode_no_newline l :
  filter (λ b, is_newline b = false) (b64_EncodeToString l) = b64_EncodeToString l.
Proof.
  assert (∀ g i, is_newline (b64char (digit6 g i)) = false) as Hd.
  { intros g i. apply b64char_plain, digit6_lt. }
  induction l as [|a|a b|a b c l IH] using list_ind3; cbn [b64_EncodeToString]; [done|..];
    rewrite !filter_cons, ?decide_True by (apply Hd || done); by rewrite ?IH.
Qed.

Lemma digit6_pad1 a b : digit6 (group24 a b x00) 3 = 0%N.
Proof.
  unfold digit6, group24. change (2 ^ (18 - 6 * 3))%N with 1%N.
  rewrite N.div_1_r. change (Byte.to_N x00) with 0%N.
  replace (Byte.to_N a * 65536 + Byte.to_N b * 256 + 0)%N
    with ((Byte.to_N a * 1024 + Byte.to_N b * 4) * 64)%N by lia.
  apply N.Div0.mod_mul.
Qed.

(** [DecodeString (EncodeToString l)] returns [l]. *)
Lemma b64_round_trip l : b64_DecodeString (b64_EncodeToString l) = Ok l.
Proof.
  unfold b64_DecodeString. rewrite b64_encode_no_newline, of_option_Ok.
  assert (∀ g i, b64val (b64char (digit6 g i)) = Some (digit6 g i)) as Hv.
  { intros. apply b64val_char, digit6_lt. }
  assert (∀ g i, b64char (digit6 g i) ≠ b64pad) as Hp.
  { intros. apply b64char_plain, digit6_lt. }
  induction l as [|a|a b|a b c l IH] using list_ind3; cbn [b64_EncodeToString b64_quads].
  - done.
  - destruct a; vm_compute; reflexivity.
  - rewrite !Hv. simpl. rewrite !decide_False by apply Hp. simpl.
    pose proof (ungroup_digits (group24 a b x00) (group24_lt _ _ _)) as Hg.
    rewrite digit6_pad1 in Hg. rewrite Hg.
    by destruct (byte24_group a b x00) as (-> & -> & _).
  - rewrite !Hv. simpl. rewrite !decide_False by apply Hp. simpl.
    rewrite IH. simpl. rewrite ungroup_digits by apply group24_lt.
    by destruct (byte24_group a b c) as (-> & -> & ->).
Qed.

#[export] Hint Rewrite b64_round_trip : betterkey.

#[export] Instance b64_inj : Inj (=) (=) b64_EncodeToString.
Proof. intros x y E. pose proof (b64_round_trip x). rewrite E, b64_round_trip in H. by simplify_eq. Qed.

Lemma b64_empty l : b64_EncodeToString l = [] ↔ l = [].
Proof. split; [|by intros ->]. by destruct l as [|a [|b [|c l]]]. Qed.
