(* ===== verification/GoText.v ===== *)
(** * Decimal numbers, [strings] and [path], integer encodings

    The other text functions of the Go standard library that betterkey
    calls: [strconv.Itoa]/[FormatInt]/[Atoi]/[ParseInt], the verbs [%d] and
    [%013d], [strings.Cut], [strings.ToLower], [path.Join] and
    [filepath.Join] (which agree on Linux), [big.Int.SetBytes]/[Bytes] and
    [binary.LittleEndian.Uint16]. *)

From S2P Require Import Prelude GoBytes.
From Stdlib Require Import ZArith NArith Lia.

(** ** Decimal numbers *)

Definition digit (n : N) : byte := byte_of_N (48 + n).
Definition undigit (b : byte) : option N :=
  let n := Byte.to_N b in
  if ((48 <=? n) && (n <=? 57))%N then Some (n - 48)%N else None.

(** Least significant digit last; [fuel] bounds the number of digits. *)
Fixpoint digits_aux (fuel : nat) (n : N) (acc : bytes) : bytes :=
  match fuel with
  | O => acc
  | S fuel =>
      let acc := digit (n mod 10) :: acc in
      if (n / 10 =? 0)%N then acc else digits_aux fuel (n / 10) acc
  end.

(** A number below [2 ^ k] has at most [k] decimal digits. *)
Definition digits (n : N) : bytes := digits_aux (S (N.size_nat n)) n [].

(** [strconv.FormatInt(z, 10)], [strconv.Itoa], the verb [%d]. *)
Definition FormatInt (z : Z) : bytes :=
  if (z <? 0)%Z then "-"%byte :: digits (Z.to_N (- z)) else digits (Z.to_N z).

Lemma FormatInt_nonneg z : (0 ≤ z)%Z → FormatInt z = digits (Z.to_N z).
Proof. intros Hz. unfold FormatInt. by rewrite (proj2 (Z.ltb_ge _ _)). Qed.

Fixpoint parse_digits (s : bytes) (v : N) : option N :=
  match s with
  | [] => Some v
  | b :: s => d ← undigit b; parse_digits s (v * 10 + d)
  end.

Definition int64_min : Z := - 2 ^ 63.
Definition int64_max : Z := 2 ^ 63 - 1.
Definition uint64_max : Z := 2 ^ 64 - 1.
Definition is_int64 (z : Z) : bool := (int64_min <=? z)%Z && (z <=? int64_max)%Z.

(** The magnitude: a non-empty run of digits. *)
Definition parse_nat (s : bytes) : option N :=
  match s with [] => None | _ => parse_digits s 0 end.

(** The optional sign. *)
Definition split_sign (s : bytes) : Z * bytes :=
  match s with
  | b :: s' =>
      if decide (b = "-"%byte) then (-1, s')%Z
      else if decide (b = "+"%byte) then (1, s')%Z else (1, s)%Z
  | [] => (1, [])%Z
  end.

(** [strconv.ParseInt(s, 10, 64)]; [strconv.Atoi] is the same function on a
    64-bit platform.  Overflow is an error. *)
Definition ParseInt (s : bytes) : res Z :=
  let '(sign, m) := split_sign s in
  match parse_nat m with
  | Some n =>
      if is_int64 (sign * Z.of_N n) then Ok (sign * Z.of_N n)%Z
      else Err (ErrString ($"strconv.ParseInt: value out of range"))
  | None => Err (ErrString ($"strconv.ParseInt: invalid syntax"))
  end.

Definition pad_zeros (w : nat) (s : bytes) : bytes := replicate (w - length s) "0"%byte ++ s.

(** The verb [%013d]: the sign counts for the width. *)
Definition Sprintf_013d (z : Z) : bytes :=
  if (z <? 0)%Z then "-"%byte :: pad_zeros 12 (digits (Z.to_N (- z)))
  else pad_zeros 13 (digits (Z.to_N z)).

Lemma undigit_digit n : (n < 10)%N → undigit (digit n) = Some n.
Proof.
  intros Hn. unfold undigit, digit. rewrite byte_to_of_N by lia.
  rewrite !(proj2 (N.leb_le _ _)) by lia. simpl. f_equal. lia.
Qed.

Lemma parse_digits_aux fuel n acc v :
  (n < 2 ^ N.of_nat fuel)%N →
  ∃ k, parse_digits (digits_aux (S fuel) n acc) v = parse_digits acc (v * 10 ^ k + n).
Proof.
  revert n acc v. induction fuel as [|fuel IH]; intros n acc v Hn.
  - assert (n = 0%N) as -> by (simpl in Hn; lia). exists 1%N.
    change (digits_aux 1 0 acc) with (digit 0 :: acc). cbn [parse_digits].
    rewrite undigit_digit by lia. simpl. f_equal; lia.
  - cbn [digits_aux]. destruct (N.eqb_spec (n / 10) 0) as [E|E].
    + exists 1%N. cbn [parse_digits]. rewrite undigit_digit by (apply N.mod_lt; lia). simpl.
      f_equal. rewrite N.pow_1_r. pose proof (N.div_mod n 10). lia.
    + destruct (IH (n / 10)%N (digit (n mod 10) :: acc) v) as [k Hk].
      { apply N.Div0.div_lt_upper_bound. rewrite Nat2N.inj_succ, N.pow_succ_r' in Hn. lia. }
      exists (k + 1)%N. cbn [digits_aux] in Hk. rewrite Hk. cbn [parse_digits].
      rewrite undigit_digit by (apply N.mod_lt; lia). simpl. f_equal.
      rewrite N.pow_add_r, N.pow_1_r, N.mul_assoc. pose proof (N.div_mod n 10). lia.
Qed.

Lemma N_lt_pow2_size n : (n < 2 ^ N.of_nat (N.size_nat n))%N.
Proof.
  destruct n as [|p]; [simpl; lia|]. simpl.
  induction p as [p IH|p IH|]; cbn [Pos.size_nat]; rewrite ?Nat2N.inj_succ, ?N.pow_succ_r'; lia.
Qed.

Lemma parse_digits_digits n : parse_digits (digits n) 0 = Some n.
Proof.
  unfold digits. destruct (parse_digits_aux (N.size_nat n) n [] 0) as [k ->].
  { apply N_lt_pow2_size. }
  done.
Qed.

Lemma digits_aux_nonnil fuel n acc : digits_aux (S fuel) n acc ≠ [].
Proof.
  revert n acc. induction fuel as [|fuel IH]; intros n acc; cbn [digits_aux];
    destruct (_ =? 0)%N; try done. apply IH.
Qed.

Lemma parse_nat_digits n : parse_nat (digits n) = Some n.
Proof.
  rewrite <- parse_digits_digits. unfold parse_nat.
  destruct (digits n) eqn:E; [|done]. by apply digits_aux_nonnil in E.
Qed.

Lemma split_sign_digits n : split_sign (digits n) = (1%Z, digits n).
Proof.
  pose proof (parse_nat_digits n) as H. unfold split_sign, parse_nat in *.
  destruct (digits n) as [|b l]; [done|].
  do 2 (case_decide; [by subst|]). done.
Qed.

(** Every 64-bit integer is read back from its decimal text. *)
Lemma ParseInt_FormatInt z : is_int64 z = true → ParseInt (FormatInt z) = Ok z.
Proof.
  intros Hz. unfold ParseInt, FormatInt. destruct (Z.ltb_spec z 0) as [Hn|Hn].
  - cbn [split_sign]. rewrite decide_True by done. rewrite parse_nat_digits.
    replace (-1 * Z.of_N (Z.to_N (- z)))%Z with z by lia. by rewrite Hz.
  - rewrite split_sign_digits, parse_nat_digits.
    replace (1 * Z.of_N (Z.to_N z))%Z with z by lia. by rewrite Hz.
Qed.

#[export] Instance digits_inj : Inj (=) (=) digits.
Proof. intros n m E. pose proof (parse_nat_digits n). rewrite E, parse_nat_digits in H. by simplify_eq. Qed.

(** ** [strings] *)

(** [strings.Cut(s, sep)] for a one-byte separator: before, after, found. *)
Fixpoint Cut (s : bytes) (sep : byte) : bytes * bytes * bool :=
  match s with
  | [] => ([], [], false)
  | b :: s' =>
      if decide (b = sep) then ([], s', true)
      else let '(x, y, ok) := Cut s' sep in (b :: x, y, ok)
  end.

Lemma Cut_app s t sep : sep ∉ s → Cut (s ++ sep :: t) sep = (s, t, true).
Proof.
  induction s as [|b s IH]; simpl; intros Hs.
  - by rewrite decide_True.
  - rewrite not_elem_of_cons in Hs. destruct Hs. rewrite decide_False by congruence.
    by rewrite IH.
Qed.

Lemma Cut_none s sep : sep ∉ s → Cut s sep = (s, [], false).
Proof.
  induction s as [|b s IH]; simpl; intros Hs; [done|].
  rewrite not_elem_of_cons in Hs. destruct Hs. rewrite decide_False by congruence.
  by rewrite IH.
Qed.

(** [strings.ToLower] on ASCII text. *)
Definition lower (b : byte) : byte :=
  let n := Byte.to_N b in
  if ((65 <=? n) && (n <=? 90))%N then byte_of_N (n + 32) else b.
Definition ToLower (s : bytes) : bytes := map lower s.

Definition HasPrefix (s p : bytes) : bool := bool_decide (p `prefix_of` s).

(** [strings.Split(s, sep)] for a one-byte separator. *)
Fixpoint Split (s : bytes) (sep : byte) : list bytes :=
  match s with
  | [] => [[]]
  | b :: s' =>
      if decide (b = sep) then [] :: Split s' sep
      else match Split s' sep with
           | x :: l => (b :: x) :: l
           | [] => [[b]]
           end
  end.

(** [strings.Join(l, sep)] for a one-byte separator. *)
Fixpoint Join (l : list bytes) (sep : byte) : bytes :=
  match l with
  | [] => []
  | [x] => x
  | x :: l => x ++ sep :: Join l sep
  end.

(** ** [path] *)

Definition slash : byte := "/"%byte.

(** One element of the path on the stack of the elements kept so far
    (innermost first): [.] and empty elements vanish, [..] removes the
    previous element, is kept when there is none and is dropped at a root. *)
Definition clean_step (rooted : bool) (stack : list bytes) (e : bytes) : list bytes :=
  if decide (e = [] ∨ e = $".") then stack
  else if decide (e = $"..") then
    match stack with
    | x :: st => if decide (x = $"..") then e :: stack else st
    | [] => if rooted then [] else [e]
    end
  else e :: stack.

(** [path.Clean], [filepath.Clean] on Linux. *)
Definition path_Clean (p : bytes) : bytes :=
  let rooted := HasPrefix p [slash] in
  let st := foldl (clean_step rooted) [] (Split p slash) in
  let q := Join (reverse st) slash in
  if rooted then slash :: q else if decide (q = []) then $"." else q.

(** [path.Join], [filepath.Join]: empty elements are skipped, the result is
    cleaned, and joining nothing gives the empty string. *)
Definition path_Join (elems : list bytes) : bytes :=
  match filter (λ e, e ≠ []) elems with
  | [] => []
  | l => path_Clean (Join l slash)
  end.

(** *** Numbers of a fixed width *)

(** The [w] last decimal digits. *)
Fixpoint fixed_digits (w : nat) (n : N) : bytes :=
  match w with O => [] | S w => fixed_digits w (n / 10) ++ [digit (n mod 10)] end.

Lemma fixed_digits_length w n : length (fixed_digits w n) = w.
Proof. revert n. induction w as [|w IH]; intros n; simpl; [done|]. rewrite length_app, IH. simpl. lia. Qed.

Lemma fixed_digits_zero w : fixed_digits w 0 = replicate w "0"%byte.
Proof.
  induction w as [|w IH]; [done|]. rewrite replicate_S_end. cbn [fixed_digits].
  change (0 / 10)%N with 0%N. by rewrite IH.
Qed.

Lemma digits_aux_fixed f n acc w : (n < 2 ^ N.of_nat f)%N → (n < 10 ^ N.of_nat w)%N → w ≠ 0 →
  ∃ k, k < w ∧ replicate k "0"%byte ++ digits_aux (S f) n acc = fixed_digits w n ++ acc.
Proof.
  revert n acc w. induction f as [|f IH]; intros n acc [|w] Hf Hw Hw0; try done.
  - simpl in Hf. assert (n = 0%N) as -> by lia. exists w. split; [lia|].
    rewrite fixed_digits_zero, replicate_S_end, <- (assoc_L (++)). done.
  - remember (S f) as g eqn:Hg. cbn [digits_aux fixed_digits].
    destruct (N.eqb_spec (n / 10) 0) as [E|E].
    + exists w. split; [lia|]. rewrite E, fixed_digits_zero, <- (assoc_L (++)). done.
    + destruct w as [|w].
      { exfalso. apply E. apply N.div_small. simpl in Hw. lia. }
      destruct (IH (n / 10)%N (digit (n mod 10) :: acc) (S w)) as (k & Hk & Heq); [..|done|].
      * rewrite Hg, Nat2N.inj_succ, N.pow_succ_r' in Hf. apply N.Div0.div_lt_upper_bound. lia.
      * rewrite (Nat2N.inj_succ (S w)), N.pow_succ_r' in Hw. apply N.Div0.div_lt_upper_bound. lia.
      * exists k. subst g. split; [lia|]. rewrite Heq. by rewrite <- (assoc_L (++)).
Qed.

Lemma pad_zeros_digits w n : w ≠ 0 → (n < 10 ^ N.of_nat w)%N → pad_zeros w (digits n) = fixed_digits w n.
Proof.
  intros Hw0 Hw. unfold digits, pad_zeros.
  destruct (digits_aux_fixed (N.size_nat n) n [] w (N_lt_pow2_size n) Hw Hw0) as (k & Hk & Heq).
  rewrite app_nil_r in Heq. rewrite <- Heq. f_equal. f_equal.
  apply (f_equal length) in Heq. rewrite fixed_digits_length, length_app, length_replicate in Heq. lia.
Qed.

(** Strings of equal length are ordered before what follows them. *)
Lemma bytes_leb_app x y s t : length x = length y → bytes_leb x y = false →
  bytes_leb (x ++ s) (y ++ t) = false.
Proof.
  revert y. induction x as [|a x IH]; intros [|b y] Hl Hxy; simplify_eq/=.
  destruct (Byte.to_N a ?= Byte.to_N b)%N; auto.
Qed.

Lemma bytes_leb_app_same x s t : bytes_leb (x ++ s) (x ++ t) = bytes_leb s t.
Proof. induction x as [|a x IH]; simpl; [done|]. by rewrite N.compare_refl. Qed.

Lemma fixed_digits_lt w n m : (n < m)%N → (m < 10 ^ N.of_nat w)%N →
  bytes_leb (fixed_digits w m) (fixed_digits w n) = false.
Proof.
  revert n m. induction w as [|w IH]; intros n m Hnm Hm; [simpl in Hm; lia|]. simpl.
  rewrite Nat2N.inj_succ, N.pow_succ_r' in Hm. assert (n = 10 * (n / 10) + n mod 10 ∧ m = 10 * (m / 10) + m mod 10)%N as [Hn10 Hm10]
    by (split; apply N.div_mod; lia).
  assert (n mod 10 < 10 ∧ m mod 10 < 10)%N as [??] by (split; apply N.mod_lt; lia).
  destruct (N.lt_ge_cases (n / 10) (m / 10)) as [Hlt|Hge].
  - apply bytes_leb_app; [by rewrite !fixed_digits_length|]. apply IH; [done|].
    apply N.Div0.div_lt_upper_bound. lia.
  - pose proof (N.Div0.div_le_mono n m 10 ltac:(lia)) as Hle.
    assert (n / 10 = m / 10)%N as Heq by lia. rewrite Heq in *. rewrite bytes_leb_app_same. simpl.
    unfold digit. rewrite !byte_to_of_N by lia.
    by rewrite (proj2 (N.compare_gt_iff _ _)) by lia.
Qed.

(** ** Integers and bytes *)

(** [new(big.Int).SetBytes(l)]: big-endian, unsigned. *)
Definition SetBytes (l : bytes) : Z := foldl (λ v b, (v * 256 + Z.of_N (Byte.to_N b))%Z) 0%Z l.

(** [n.Bytes()]: the shortest big-endian encoding, empty for zero. *)
Fixpoint Bytes_aux (fuel : nat) (n : N) (acc : bytes) : bytes :=
  match fuel with
  | O => acc
  | S fuel => if (n =? 0)%N then acc else Bytes_aux fuel (n / 256) (byte_of_N (n mod 256) :: acc)
  end.
Definition Bytes (z : Z) : bytes := Bytes_aux (N.size_nat (Z.to_N z)) (Z.to_N z) [].

Lemma Bytes_aux_app fuel n acc : Bytes_aux fuel n acc = Bytes_aux fuel n [] ++ acc.
Proof.
  revert n acc. induction fuel as [|fuel IH]; intros n acc; cbn [Bytes_aux]; [done|].
  destruct (n =? 0)%N; [done|]. rewrite (IH _ (_ :: acc)), (IH _ [_]). by rewrite <- (assoc_L (++)).
Qed.

Lemma SetBytes_snoc l b : SetBytes (l ++ [b]) = (SetBytes l * 256 + Z.of_N (Byte.to_N b))%Z.
Proof. unfold SetBytes. by rewrite foldl_app. Qed.

Lemma SetBytes_Bytes z : (0 ≤ z)%Z → SetBytes (Bytes z) = z.
Proof.
  intros Hz. rewrite <- (Z2N.id z) at 2 by done. unfold Bytes.
  pose proof (N_lt_pow2_size (Z.to_N z)) as Hf. revert Hf.
  generalize (N.size_nat (Z.to_N z)). generalize (Z.to_N z). clear.
  intros n f. revert n. induction f as [|f IH]; intros n Hn; cbn [Bytes_aux].
  - change (2 ^ N.of_nat 0)%N with 1%N in Hn. assert (n = 0%N) as -> by lia. done.
  - destruct (N.eqb_spec n 0) as [->|Hn0]; [done|].
    rewrite Bytes_aux_app, SetBytes_snoc, IH.
    + rewrite byte_to_of_N by (apply N.mod_lt; lia). pose proof (N.div_mod n 256). lia.
    + rewrite Nat2N.inj_succ, N.pow_succ_r' in Hn. apply N.Div0.div_lt_upper_bound. lia.
Qed.

(** [binary.LittleEndian.Uint16(l)]: panics on fewer than two bytes. *)
Definition LittleEndian_Uint16 (l : bytes) : res Z :=
  match l with
  | a :: b :: _ => Ok (Z.of_N (Byte.to_N a) + 256 * Z.of_N (Byte.to_N b))%Z
  | _ => Panic ($"runtime error: index out of range")
  end.

Example path_Join_ex1 : path_Join [$"/sealed"; $"node1"] = $"/sealed/node1".
Proof. vm_compute. reflexivity. Qed.
Example path_Join_ex2 : path_Join [$"a/../../b"; $"x"; []] = $"../b/x".
Proof. vm_compute. reflexivity. Qed.
Example Sprintf_013d_ex : Sprintf_013d 1718000000000 = $"1718000000000" ∧
  Sprintf_013d 42 = $"0000000000042" ∧ Sprintf_013d (-7) = $"-000000000007".
Proof. vm_compute. done. Qed.
Example Bytes_ex : Bytes 65536 = [x01; x00; x00] ∧ Bytes 0 = [] ∧ SetBytes [x01; x00] = 256%Z.
Proof. vm_compute. done. Qed.

(** The encoding of [n] takes at most [k] bytes exactly when [n < 256 ^ k]. *)
Lemma Bytes_aux_length fuel n acc k :
  (n < 2 ^ N.of_nat fuel)%N →
  length (Bytes_aux fuel n acc) ≤ k + length acc ↔ (n < 256 ^ N.of_nat k)%N.
Proof.
  revert n acc k. induction fuel as [|fuel IH]; intros n acc k Hn; cbn [Bytes_aux].
  - assert (n = 0%N) as -> by (simpl in Hn; lia).
    split; [intros _; apply N.neq_0_lt_0, N.pow_nonzero; lia | lia].
  - assert (∀ f m l, length l ≤ length (Bytes_aux f m l)) as Hge.
    { induction f as [|f IHf]; intros m l; cbn [Bytes_aux]; [done|].
      destruct (m =? 0)%N; [done|]. etrans; [|apply IHf]. simpl. lia. }
    destruct (N.eqb_spec n 0) as [->|Hn0].
    + split; [intros _; apply N.neq_0_lt_0, N.pow_nonzero; lia | lia].
    + destruct k as [|k].
      * pose proof (Hge fuel (n / 256)%N (byte_of_N (n mod 256) :: acc)) as H.
        simpl in H |- *. split; lia.
      * specialize (IH (n / 256)%N (byte_of_N (n mod 256) :: acc) k). simpl in IH.
        rewrite Nat2N.inj_succ, N.pow_succ_r' in *.
        replace (S k + length acc) with (k + S (length acc)) by lia.
        rewrite IH by (apply N.Div0.div_lt_upper_bound; lia).
        split; intros; [|apply N.Div0.div_lt_upper_bound; lia].
        pose proof (N.div_mod n 256). pose proof (N.mod_lt n 256). lia.
Qed.

Lemma Bytes_length_le z k : (0 ≤ z)%Z →
  length (Bytes z) ≤ k ↔ (z < 256 ^ Z.of_nat k)%Z.
Proof.
  intros Hz. unfold Bytes.
  rewrite <- (Nat.add_0_r k) at 1. change 0 with (length (@nil byte)).
  rewrite Bytes_aux_length by apply N_lt_pow2_size. simpl.
  rewrite <- (nat_N_Z k). rewrite <- (Z2N.id (256 ^ _)) by lia.
  rewrite Z2N.inj_pow by lia. rewrite N2Z.id. change (Z.to_N 256) with 256%N. lia.
Qed.

Lemma SetBytes_range l : (0 ≤ SetBytes l < 256 ^ Z.of_nat (length l))%Z.
Proof.
  induction l as [|b l IH] using rev_ind; [done|].
  unfold SetBytes in *. rewrite foldl_app, length_app. simpl.
  pose proof (byte_to_N_lt b). rewrite Nat2Z.inj_add, Z.pow_add_r by lia.
  change (256 ^ Z.of_nat 1)%Z with 256%Z. lia.
Qed.
