(* ===== verification/GoNet.v ===== *)
(** * Addresses of package net

    [net.ParseIP], [IP.To4], [IP.IsLoopback], [IP.String] and
    [TCPAddr.String], as the standard library defines them.  A nil [net.IP]
    is [None]; [ParseIP] returns 16 bytes. *)

From S2P Require Import Prelude GoBytes GoText.
From Stdlib Require Import ZArith Lia.

Local Open Scope N_scope.

Definition dot : byte := "."%byte.
Definition colon_ : byte := ":"%byte.
Definition percent : byte := "%"%byte.

(** ** Parsing *)

(** The loop of [parseIPv4Fields]: [start] and [prev_dot] describe the
    position, [fields] holds the numbers that are complete. *)
Fixpoint parse4 (s : bytes) (start prev_dot : bool) (val digLen : N) (fields : bytes) : option bytes :=
  match s with
  | [] => if (length fields <? 3)%nat then None else Some (fields ++ [byte_of_N val])
  | a :: s =>
      match undigit a with
      | Some d =>
          if (digLen =? 1) && (val =? 0) then None
          else let val := val * 10 + d in
               if 255 <? val then None else parse4 s false false val (digLen + 1) fields
      | None =>
          if bool_decide (a = dot) then
            if start || bool_decide (s = []) || prev_dot then None
            else if (length fields =? 3)%nat then None
            else parse4 s false true 0 0 (fields ++ [byte_of_N val])
          else None
      end
  end.
Definition parseIPv4 (s : bytes) : option bytes := parse4 s true false 0 0 [].

(** A group of at most four hexadecimal digits: their number, the value and
    the rest. *)
Fixpoint take_hex (s : bytes) (off acc : N) : option (N * N * bytes) :=
  match s with
  | [] => Some (off, acc, [])
  | a :: s' =>
      match unhex a with
      | Some d => if 3 <? off then None else take_hex s' (off + 1) (acc * 16 + d)
      | None => Some (off, acc, s)
      end
  end.

(** The loop of [parseIPv6] for the groups that are left: [ip] holds the bytes
    so far, [ellipsis] where the double colon was. *)
Fixpoint parse6 (groups : nat) (s ip : bytes) (ellipsis : option nat) : option (bytes * bytes * option nat) :=
  match groups with
  | O => Some (s, ip, ellipsis)
  | S groups =>
      match take_hex s 0 0 with
      | None => None
      | Some (off, acc, rest) =>
          if off =? 0 then None
          else
            let ip' := ip ++ [byte_of_N (acc / 256); byte_of_N (acc mod 256)] in
            match rest with
            | [] => Some ([], ip', ellipsis)
            | a :: rest =>
                if bool_decide (a = dot) then
                  if bool_decide (ellipsis = None) && negb (length ip =? 12)%nat then None
                  else if (16 <? length ip + 4)%nat then None
                  else match parseIPv4 s with Some f => Some ([], ip ++ f, ellipsis) | None => None end
                else if bool_decide (a = colon_) then
                  match rest with
                  | [] => None
                  | b :: rest' =>
                      if bool_decide (b = colon_) then
                        match ellipsis with
                        | Some _ => None
                        | None => match rest' with
                                  | [] => Some ([], ip', Some (length ip'))
                                  | _ => parse6 groups rest' ip' (Some (length ip'))
                                  end
                        end
                      else parse6 groups rest ip' ellipsis
                  end
                else None
            end
      end
  end.

(** An address with a zone is no [net.IP]. *)
Definition parseIPv6 (s : bytes) : option bytes :=
  if bool_decide (percent ∈ s) then None
  else
    let loop := match s with
                | a :: b :: s' =>
                    if bool_decide (a = colon_) && bool_decide (b = colon_) then
                      match s' with [] => Some ([], [], Some O) | _ => parse6 8 s' [] (Some O) end
                    else parse6 8 s [] None
                | _ => parse6 8 s [] None
                end in
    match loop with
    | Some ([], ip, ellipsis) =>
        if (length ip <? 16)%nat then
          match ellipsis with
          | None => None
          | Some e => Some (take e ip ++ replicate (16 - length ip) x00 ++ drop e ip)
          end
        else match ellipsis with Some _ => None | None => Some ip end
    | _ => None
    end.

Definition v4InV6Prefix : bytes := replicate 10 x00 ++ [xff; xff].

(** The first of the three characters decides. *)
Fixpoint ParseIP_scan (whole s : bytes) : option bytes :=
  match s with
  | [] => None
  | a :: s =>
      if bool_decide (a = dot) then (λ f, v4InV6Prefix ++ f) <$> parseIPv4 whole
      else if bool_decide (a = colon_) then parseIPv6 whole
      else if bool_decide (a = percent) then None
      else ParseIP_scan whole s
  end.
Definition ParseIP (s : bytes) : option bytes := ParseIP_scan s s.

(** ** Forms *)

Definition To4 (ip : bytes) : option bytes :=
  if (length ip =? 4)%nat then Some ip
  else if (length ip =? 16)%nat && bool_decide (take 12 ip = v4InV6Prefix) then Some (drop 12 ip)
  else None.

Definition IPv6loopback : bytes := replicate 15 x00 ++ [x01].
Definition IsLoopback (ip : bytes) : bool :=
  match To4 ip with
  | Some ip4 => bool_decide (head ip4 = Some x7f)
  | None => bool_decide (ip = IPv6loopback)
  end.

(** ** Printing *)

Definition dotted (ip4 : bytes) : bytes := Join (map (λ b, digits (Byte.to_N b)) ip4) dot.

(** A 16-bit group without leading zeros. *)
Definition hex16 (n : N) : bytes :=
  (if 4096 <=? n then [hexdigit (n / 4096)] else []) ++
  (if 256 <=? n then [hexdigit (n / 256 mod 16)] else []) ++
  (if 16 <=? n then [hexdigit (n / 16 mod 16)] else []) ++
  [hexdigit (n mod 16)].
Fixpoint groups16 (ip : bytes) : list N :=
  match ip with
  | a :: b :: ip => Byte.to_N a * 256 + Byte.to_N b :: groups16 ip
  | _ => []
  end.
Fixpoint zeros (l : list N) : nat := match l with 0 :: l => S (zeros l) | _ => O end.
(** The first longest run of at least two zero groups. *)
Definition longest_run (gs : list N) : nat * nat :=
  foldl (λ p i, let j := (i + zeros (drop i gs))%nat in
                if (2 <=? j - i)%nat && (p.2 - p.1 <? j - i)%nat then (i, j) else p)
        (255, 255)%nat (seq 0 8).
Fixpoint print6 (fuel i : nat) (gs : list N) (run : nat * nat) : bytes :=
  match fuel with
  | O => []
  | S fuel =>
      if (8 <=? i)%nat then []
      else if (i =? run.1)%nat then
        $"::" ++ (if (8 <=? run.2)%nat then []
                  else hex16 (default 0 (gs !! run.2)) ++ print6 fuel (S run.2) gs run)
      else (if (0 <? i)%nat then [colon_] else []) ++ hex16 (default 0 (gs !! i)) ++ print6 fuel (S i) gs run
  end.

(** [IP.String] of an address of 4 or 16 bytes. *)
Definition IP_String (ip : bytes) : bytes :=
  match To4 ip with
  | Some ip4 => dotted ip4
  | None => let gs := groups16 ip in print6 8 0 gs (longest_run gs)
  end.

Record TCPAddr := { ta_IP : option bytes; ta_Port : Z }.
Definition JoinHostPort (host port : bytes) : bytes :=
  if bool_decide (colon_ ∈ host) || bool_decide (percent ∈ host)
  then $"[" ++ host ++ $"]:" ++ port else host ++ [colon_] ++ port.
Definition TCPAddr_String (a : TCPAddr) : bytes :=
  JoinHostPort (match ta_IP a with Some ip => IP_String ip | None => [] end) (FormatInt (ta_Port a)).

(** ** Examples *)

Definition loopback4 : bytes := v4InV6Prefix ++ [x7f; x00; x00; x01].
Example parse_v4 : ParseIP ($"127.0.0.1") = Some loopback4.
Proof. by vm_compute. Qed.
Example parse_v4_bad : map ParseIP [$"256.0.0.1"; $"1.2.3"; $"1.2.3.4.5"; $"01.2.3.4"; $"1..2.3"; $".1.2.3"; $"1.2.3."; $"host"; []]
  = replicate 9 None.
Proof. by vm_compute. Qed.
Example parse_v6 : ParseIP ($"::1") = Some IPv6loopback ∧ ParseIP ($"::") = Some (replicate 16 x00) ∧
  ParseIP ($"::ffff:127.0.0.1") = Some loopback4 ∧
  ParseIP ($"2001:db8:0:0:1:0:0:1") = ParseIP ($"2001:DB8::1:0:0:1").
Proof. split_and!; by vm_compute. Qed.
Example parse_v6_bad : map ParseIP [$"1:2:3:4:5:6:7"; $"1::2::3"; $"1:2:3:4:5:6:7:8:9"; $"fe80::1%eth0"; $"12345::"; $":1"; $"1:"; $"1:2:3:4:5:6:7::8"]
  = replicate 8 None.
Proof. by vm_compute. Qed.
Example print_v6 : IP_String <$> ParseIP ($"2001:db8:0:0:1:0:0:1") = Some ($"2001:db8::1:0:0:1").
Proof. by vm_compute. Qed.
Example addr_strings : TCPAddr_String {| ta_IP := ParseIP ($"0.0.0.0"); ta_Port := 7946 |} = $"0.0.0.0:7946" ∧
  TCPAddr_String {| ta_IP := ParseIP ($"::1"); ta_Port := 80 |} = $"[::1]:80" ∧
  TCPAddr_String {| ta_IP := None; ta_Port := 80 |} = $":80".
Proof. split_and!; by vm_compute. Qed.

(** ** Properties *)

Lemma digits_byte b : let n := Byte.to_N b in
  digits n = if n <? 10 then [digit n]
             else if n <? 100 then [digit (n / 10); digit (n mod 10)]
             else [digit (n / 100); digit (n / 10 mod 10); digit (n mod 10)].
Proof. destruct b; reflexivity. Qed.

Lemma parse4_digit d s start prev_dot val digLen fields : d < 10 → (digLen =? 1) && (val =? 0) = false →
  val * 10 + d < 256 →
  parse4 (digit d :: s) start prev_dot val digLen fields = parse4 s false false (val * 10 + d) (digLen + 1) fields.
Proof.
  intros Hd Hz Hv. cbn [parse4]. rewrite undigit_digit by done. rewrite Hz.
  destruct (N.ltb_spec 255 (val * 10 + d)) as [Hlt|_]; [lia|done].
Qed.

(** Reading the digits of a byte, whatever comes after. *)
Lemma parse4_digits b s start prev_dot fields : ∃ digLen,
  parse4 (digits (Byte.to_N b) ++ s) start prev_dot 0 0 fields =
  parse4 s false false (Byte.to_N b) digLen fields.
Proof.
  rewrite digits_byte. pose proof (byte_to_N_lt b) as Hb. set (n := Byte.to_N b) in *. clearbody n.
  pose proof (N.div_mod n 10 ltac:(done)) as E1. pose proof (N.mod_lt n 10 ltac:(done)) as L1.
  pose proof (N.div_mod (n / 10) 10 ltac:(done)) as E2. pose proof (N.mod_lt (n / 10) 10 ltac:(done)) as L2.
  replace (n / 100) with (n / 10 / 10) by (by rewrite N.Div0.div_div).
  set (r := n mod 10) in *. set (q := n / 10) in *. set (r2 := q mod 10) in *. set (q2 := q / 10) in *.
  clearbody r q r2 q2.
  assert (∀ m k, k ≠ 1 ∨ m ≠ 0 → (k =? 1) && (m =? 0) = false) as Hz.
  { intros m k Hmk. apply andb_false_iff. rewrite !N.eqb_neq. done. }
  destruct (N.ltb_spec n 10) as [H10|H10]; [|destruct (N.ltb_spec n 100) as [H100|H100]]; cbn [app].
  - rewrite parse4_digit by (done || lia). by eexists.
  - rewrite !parse4_digit by (try apply Hz; lia). eexists. f_equal. lia.
  - rewrite !parse4_digit by (try apply Hz; lia). eexists. f_equal. lia.
Qed.

Lemma parse4_field b s fields start prev_dot : (length fields < 3)%nat → s ≠ [] →
  parse4 (digits (Byte.to_N b) ++ dot :: s) start prev_dot 0 0 fields = parse4 s false true 0 0 (fields ++ [b]).
Proof.
  intros Hl Hs. destruct (parse4_digits b (dot :: s) start prev_dot fields) as [k ->].
  cbn [parse4]. change (undigit dot) with (@None N). cbv iota.
  rewrite bool_decide_true, (bool_decide_false (s = [])) by done. cbn [orb].
  destruct (Nat.eqb_spec (length fields) 3) as [?|_]; [lia|]. by rewrite byte_of_to_N.
Qed.

Lemma parse4_last b fields start prev_dot : length fields = 3%nat →
  parse4 (digits (Byte.to_N b)) start prev_dot 0 0 fields = Some (fields ++ [b]).
Proof.
  intros Hl. destruct (parse4_digits b [] start prev_dot fields) as [k Hk]. rewrite app_nil_r in Hk.
  rewrite Hk. cbn [parse4]. rewrite Hl. by rewrite byte_of_to_N.
Qed.

(** [parseIPv4] does not look at its first position when it starts with a digit. *)
Lemma parseIPv4_dotted a b c d : parseIPv4 (dotted [a; b; c; d]) = Some [a; b; c; d].
Proof.
  unfold parseIPv4, dotted. cbn [map Join].
  assert (∀ (x : byte) s, digits (Byte.to_N x) ++ dot :: s ≠ []) as Hn by (intros x s; by destruct (digits _)).
  rewrite parse4_field, parse4_field, parse4_field by (done || simpl; lia || apply digits_aux_nonnil).
  by apply parse4_last.
Qed.

Lemma digits_no_colon b : Forall (λ x, x ≠ dot ∧ x ≠ colon_ ∧ x ≠ percent) (digits (Byte.to_N b)).
Proof. destruct b; repeat constructor; done. Qed.

Lemma ParseIP_scan_skip whole l s : Forall (λ x, x ≠ dot ∧ x ≠ colon_ ∧ x ≠ percent) l →
  ParseIP_scan whole (l ++ s) = ParseIP_scan whole s.
Proof. induction 1 as [|x l (H1 & H2 & H3) _ IH]; [done|]. simpl. by rewrite !bool_decide_false. Qed.

(** Every IPv4 address is parsed from its dotted form. *)
Lemma ParseIP_dotted a b c d : ParseIP (dotted [a; b; c; d]) = Some (v4InV6Prefix ++ [a; b; c; d]).
Proof.
  unfold ParseIP. unfold dotted at 2. cbn [map Join].
  rewrite ParseIP_scan_skip by apply digits_no_colon. cbn [ParseIP_scan].
  rewrite bool_decide_true by done. by rewrite parseIPv4_dotted.
Qed.

Lemma To4_v4 a b c d : To4 (v4InV6Prefix ++ [a; b; c; d]) = Some [a; b; c; d].
Proof. reflexivity. Qed.
