(* ===== verification/Json.v ===== *)
(** * [encoding/json]

    The part of Go's [encoding/json] that betterkey uses: JSON values,
    [Marshal] (compact output, HTML escaping, replacement of invalid UTF-8),
    the parser behind [Unmarshal] and [Decoder.Decode] (escapes, surrogate
    pairs, replacement of invalid UTF-8, white space), and decoding of
    objects into structs (exact, then case-insensitive field names, unknown
    names ignored, later duplicates win, [null] leaves a field unchanged).
    The main results are [dec_enc_str] (a valid UTF-8 string survives the
    round trip) and [Unmarshal_Marshal].  Go's nesting limit of 10000 is not
    modelled. *)

From S2P Require Import Prelude GoBytes GoText.
From Stdlib Require Import ZArith NArith Lia.

(** ** UTF-8 *)

Definition in_range (lo hi : N) (b : byte) : bool :=
  ((lo <=? Byte.to_N b) && (Byte.to_N b <=? hi))%N.
Definition cont (b : byte) : bool := in_range 128 191 b.

(** What the first byte announces: the width, and for wider runes the range
    of the second byte ([utf8.first] and [acceptRanges] of Go). *)
Inductive lead := L1 | L2 (lo hi : N) | L3 (lo hi : N) | L4 (lo hi : N) | Lbad.

Definition lead_of (b : byte) : lead :=
  let n := Byte.to_N b in
  if (n <? 128)%N then L1
  else if (n <? 194)%N then Lbad
  else if (n <? 224)%N then L2 128 191
  else if (n =? 224)%N then L3 160 191
  else if (n =? 237)%N then L3 128 159
  else if (n <? 240)%N then L3 128 191
  else if (n =? 240)%N then L4 144 191
  else if (n <? 244)%N then L4 128 191
  else if (n =? 244)%N then L4 128 143
  else Lbad.

(** The first rune of a non-empty string: its bytes and the rest, or [None]
    when the string does not start with a valid rune. *)
Definition next_rune (s : bytes) : option (bytes * bytes) :=
  match s with
  | [] => None
  | a :: s1 =>
      match lead_of a with
      | L1 => Some ([a], s1)
      | L2 lo hi =>
          match s1 with
          | b :: s2 => if in_range lo hi b then Some ([a; b], s2) else None
          | _ => None
          end
      | L3 lo hi =>
          match s1 with
          | b :: c :: s3 => if in_range lo hi b && cont c then Some ([a; b; c], s3) else None
          | _ => None
          end
      | L4 lo hi =>
          match s1 with
          | b :: c :: d :: s4 =>
              if in_range lo hi b && cont c && cont d then Some ([a; b; c; d], s4) else None
          | _ => None
          end
      | Lbad => None
      end
  end.

(** A string made of valid runes. *)
Inductive valid_utf8 : bytes → Prop :=
  | valid_nil : valid_utf8 []
  | valid_rune c s : next_rune (c ++ s) = Some (c, s) → valid_utf8 s → valid_utf8 (c ++ s).

(** Executable test, with the length as fuel. *)
Fixpoint utf8_ok (fuel : nat) (s : bytes) : bool :=
  match s, fuel with
  | [], _ => true
  | _, O => false
  | _, S fuel => match next_rune s with Some (_, r) => utf8_ok fuel r | None => false end
  end.

Lemma next_rune_app s c r : next_rune s = Some (c, r) → s = c ++ r ∧ c ≠ [].
Proof. unfold next_rune. intros H. repeat case_match; simplify_eq/=; done. Qed.

Lemma utf8_ok_valid fuel s : utf8_ok fuel s = true → valid_utf8 s.
Proof.
  revert s. induction fuel as [|fuel IH]; intros [|a s]; try done; [constructor..|].
  cbn [utf8_ok]. destruct (next_rune (a :: s)) as [[c r]|] eqn:E; [|done].
  intros H. destruct (next_rune_app _ _ _ E) as [Es _]. rewrite Es in E |- *.
  constructor; auto.
Qed.

(** Every ASCII string is valid. *)
Lemma ascii_valid s : Forall (λ b, Byte.to_N b < 128)%N s → valid_utf8 s.
Proof.
  induction 1 as [|b s Hb _ IH]; [constructor|].
  apply (valid_rune [b] s); [|done]. simpl. unfold lead_of.
  by rewrite (proj2 (N.ltb_lt _ _)).
Qed.

Lemma valid_utf8_app s t : valid_utf8 s → valid_utf8 t → valid_utf8 (s ++ t).
Proof.
  induction 1 as [|c s Hc Hs IH]; intros Ht; [done|].
  rewrite <- app_assoc. constructor; [|auto].
  destruct (next_rune_app _ _ _ Hc) as [_ Hn]. destruct c as [|a c]; [done|].
  clear -Hc. simpl in *. unfold next_rune in *.
  destruct (lead_of a); [ | | | |done];
    repeat (case_match; simplify_eq/=; try done).
  all: destruct c as [|b0 [|b1 [|b2 [|b3 c]]]]; simplify_eq/=; try done;
    repeat match goal with H : ?x = true |- _ => rewrite H; clear H end; done.
Qed.

Lemma next_rune_ext c s t : next_rune (c ++ s) = Some (c, s) → next_rune (c ++ t) = Some (c, t).
Proof.
  intros Hc. destruct (next_rune_app _ _ _ Hc) as [_ Hn]. destruct c as [|a c]; [done|].
  clear Hn. simpl in *. unfold next_rune in *.
  destruct (lead_of a); [ | | | |done];
    repeat (case_match; simplify_eq/=; try done).
  all: destruct c as [|b0 [|b1 [|b2 [|b3 c]]]]; simplify_eq/=; try done;
    repeat match goal with H : ?x = true |- _ => rewrite H; clear H end; done.
Qed.

(** ** Strings *)

Definition quote : byte := x22.
Definition backslash : byte := "\"%byte.

(** [\u00XX] *)
Definition esc_u00 (a : byte) : bytes :=
  $"\u00" ++ [hexdigit (Byte.to_N a / 16); hexdigit (Byte.to_N a mod 16)].

(** One ASCII character of an encoded string, with [escapeHTML]. *)
Definition esc_ascii (a : byte) : bytes :=
  if Byte.eqb a quote || Byte.eqb a backslash then [backslash; a]
  else if Byte.eqb a x08 then $"\b"
  else if Byte.eqb a x0c then $"\f"
  else if Byte.eqb a x0a then $"\n"
  else if Byte.eqb a x0d then $"\r"
  else if Byte.eqb a x09 then $"\t"
  else if (Byte.to_N a <? 32)%N || Byte.eqb a "<"%byte || Byte.eqb a ">"%byte
          || Byte.eqb a "&"%byte then esc_u00 a
  else [a].

(** The line separators U+2028 and U+2029 are escaped. *)
Definition enc_rune (c : bytes) : bytes :=
  match c with
  | [a] => esc_ascii a
  | _ => if decide (c = [xe2; x80; xa8]) then $"\u2028"
         else if decide (c = [xe2; x80; xa9]) then $"\u2029"
         else c
  end.

Fixpoint enc_str_aux (fuel : nat) (s : bytes) : bytes :=
  match fuel, s with
  | S fuel, _ :: s' =>
      match next_rune s with
      | Some (c, r) => enc_rune c ++ enc_str_aux fuel r
      | None => $"\ufffd" ++ enc_str_aux fuel s'
      end
  | _, _ => []
  end.
Definition enc_str (s : bytes) : bytes := enc_str_aux (length s) s.

(** [utf8.EncodeRune], for code points outside the surrogates. *)
Definition encode_rune (n : N) : bytes :=
  if (n <? 128)%N then [byte_of_N n]
  else if (n <? 2048)%N then [byte_of_N (192 + n / 64); byte_of_N (128 + n mod 64)]
  else if (n <? 65536)%N then
    [byte_of_N (224 + n / 4096); byte_of_N (128 + n / 64 mod 64); byte_of_N (128 + n mod 64)]
  else [byte_of_N (240 + n / 262144); byte_of_N (128 + n / 4096 mod 64);
        byte_of_N (128 + n / 64 mod 64); byte_of_N (128 + n mod 64)].

Definition replacement : bytes := [xef; xbf; xbd].

(** The four digits after [\u]. *)
Definition getu4 (s : bytes) : option (N * bytes) :=
  match s with
  | a :: b :: c :: d :: r =>
      x ← unhex a; y ← unhex b; z ← unhex c; w ← unhex d;
      Some (x * 4096 + y * 256 + z * 16 + w, r)%N
  | _ => None
  end.

(** A [\u] escape: a surrogate must be followed by the second half of a
    pair, otherwise it stands for U+FFFD. *)
Definition unescape_u (s : bytes) : option (bytes * bytes) :=
  '(n, r) ← getu4 s;
  if ((55296 <=? n) && (n <? 57344))%N then
    match r with
    | b :: u :: r' =>
        if Byte.eqb b backslash && Byte.eqb u "u"%byte then
          '(m, r'') ← getu4 r';
          if ((n <? 56320) && (56320 <=? m) && (m <? 57344))%N
          then Some (encode_rune (65536 + (n - 55296) * 1024 + (m - 56320)), r'')
          else Some (replacement, r)
        else Some (replacement, r)
    | _ => Some (replacement, r)
    end
  else Some (encode_rune n, r).

(** The text after a backslash. *)
Definition unescape (s : bytes) : option (bytes * bytes) :=
  match s with
  | [] => None
  | e :: r =>
      if Byte.eqb e quote || Byte.eqb e backslash || Byte.eqb e "/"%byte then Some ([e], r)
      else if Byte.eqb e "b"%byte then Some ([x08], r)
      else if Byte.eqb e "f"%byte then Some ([x0c], r)
      else if Byte.eqb e "n"%byte then Some ([x0a], r)
      else if Byte.eqb e "r"%byte then Some ([x0d], r)
      else if Byte.eqb e "t"%byte then Some ([x09], r)
      else if Byte.eqb e "u"%byte then unescape_u r
      else None
  end.

(** The text after the opening quote: the string and what follows it. *)
Fixpoint dec_str (fuel : nat) (s : bytes) : option (bytes * bytes) :=
  match fuel, s with
  | S fuel, a :: s' =>
      if Byte.eqb a quote then Some ([], s')
      else
        '(c, r) ← (if Byte.eqb a backslash then unescape s'
                   else if (Byte.to_N a <? 32)%N then None
                   else match next_rune s with
                        | Some (c, r) => Some (c, r)
                        | None => Some (replacement, s')
                        end);
        '(x, r) ← dec_str fuel r; Some (c ++ x, r)
  | _, _ => None
  end.

Lemma enc_str_fuel f s : length s ≤ f → enc_str_aux f s = enc_str s.
Proof.
  unfold enc_str. remember (length s) as n eqn:En. revert f s En.
  induction (lt_wf n) as [n _ IH]. intros f s -> Hf.
  destruct s as [|a s']; [by destruct f|]. destruct f as [|f]; [simpl in Hf; lia|].
  simpl length in *. cbn [enc_str_aux].
  destruct (next_rune (a :: s')) as [[c r]|] eqn:E.
  - destruct (next_rune_app _ _ _ E) as [Es Hc]. destruct c as [|b c]; [done|].
    assert (length r ≤ length s'). { apply (f_equal length) in Es. simpl in Es.
      rewrite length_app in Es. lia. }
    f_equal. rewrite (IH (length r)) by (simpl; lia).
    symmetry. apply (IH (length r)); simpl; lia.
  - f_equal. rewrite (IH (length s')) by (simpl; lia). done.
Qed.

Lemma enc_str_rune c s : next_rune (c ++ s) = Some (c, s) →
  enc_str (c ++ s) = enc_rune c ++ enc_str s.
Proof.
  intros Hc. destruct (next_rune_app _ _ _ Hc) as [_ Hn]. destruct c as [|a c]; [done|].
  unfold enc_str at 1. simpl length. cbn [enc_str_aux app] in *. rewrite Hc. f_equal.
  apply enc_str_fuel. rewrite length_app. lia.
Qed.

(** An encoded rune is decoded in one step. *)
Lemma dec_str_rune fuel c t : (∃ s, next_rune (c ++ s) = Some (c, s)) →
  dec_str (S fuel) (enc_rune c ++ t) = '(x, r) ← dec_str fuel t; Some (c ++ x, r).
Proof.
  intros [s Hc]. apply (next_rune_ext c s t) in Hc.
  destruct (next_rune_app _ _ _ Hc) as [_ Hn].
  destruct c as [|a [|b c]]; [done| |].
  - assert (Byte.to_N a < 128)%N as Ha.
    { simpl in Hc. unfold lead_of in Hc. destruct (N.ltb_spec (Byte.to_N a) 128); [done|].
      repeat case_match; simplify_eq/=. }
    clear -Ha. destruct a; try reflexivity; exfalso; vm_compute in Ha; done.
  - unfold enc_rune. case_decide as E1; [by rewrite E1|]. case_decide as E2; [by rewrite E2|].
    cbn [dec_str app] in *.
    assert (lead_of a ≠ L1) as Hl. { intros Hl. simpl in Hc. by rewrite Hl in Hc. }
    assert (Byte.eqb a quote = false) as -> by (by destruct a).
    assert (Byte.eqb a backslash = false) as -> by (by destruct a).
    assert ((Byte.to_N a <? 32)%N = false) as -> by (by destruct a).
    by rewrite Hc.
Qed.

(** A valid string is read back from its encoding. *)
Lemma dec_enc_str s t fuel : valid_utf8 s → length s < fuel →
  dec_str fuel (enc_str s ++ quote :: t) = Some (s, t).
Proof.
  intros Hs. revert fuel. induction Hs as [|c s Hc Hs IH]; intros fuel Hf.
  - destruct fuel; [simpl in Hf; lia|]. done.
  - destruct (next_rune_app _ _ _ Hc) as [_ Hn]. destruct fuel as [|fuel]; [lia|].
    rewrite enc_str_rune by done. rewrite <- app_assoc, dec_str_rune by eauto.
    rewrite IH; [done|]. destruct c; [done|]. rewrite length_app in Hf. simpl in Hf. lia.
Qed.

Lemma enc_rune_length c : length c ≤ length (enc_rune c).
Proof.
  destruct c as [|a [|b c]]; [done| |].
  - destruct a; vm_compute; lia.
  - unfold enc_rune. case_decide as E; [by rewrite E; vm_compute; lia|].
    case_decide as E2; [by rewrite E2; vm_compute; lia|done].
Qed.

Lemma enc_str_length s : valid_utf8 s → length s ≤ length (enc_str s).
Proof.
  induction 1 as [|c s Hc Hs IH]; [done|]. rewrite enc_str_rune by done.
  rewrite !length_app. pose proof (enc_rune_length c). lia.
Qed.

(** ** Values *)

Inductive json :=
  | JNull
  | JBool (b : bool)
  | JNum (lit : bytes)            (* the literal, as scanned *)
  | JStr (s : bytes)
  | JArr (l : list json)
  | JObj (kvs : list (bytes * json)). (* in order, duplicates kept *)

Section json_ind.
Variable P : json → Prop.
Hypotheses (Hnull : P JNull) (Hbool : ∀ b, P (JBool b)) (Hnum : ∀ n, P (JNum n))
  (Hstr : ∀ s, P (JStr s)) (Harr : ∀ l, Forall P l → P (JArr l))
  (Hobj : ∀ kvs, Forall (λ kv, P kv.2) kvs → P (JObj kvs)).
Fixpoint json_nested_ind (v : json) : P v :=
  match v with
  | JNull => Hnull
  | JBool b => Hbool b
  | JNum n => Hnum n
  | JStr s => Hstr s
  | JArr l => Harr l ((fix go l : Forall P l :=
      match l with [] => Forall_nil_2 _ | x :: l => Forall_cons_2 _ _ _ (json_nested_ind x) (go l) end) l)
  | JObj kvs => Hobj kvs ((fix go l : Forall (λ kv, P kv.2) l :=
      match l with
      | [] => Forall_nil_2 _
      | kv :: l => Forall_cons_2 _ _ _ (json_nested_ind kv.2) (go l)
      end) kvs)
  end.
End json_ind.

Definition comma : byte := ","%byte.
Definition colon : byte := ":"%byte.
Definition quoted (s : bytes) : bytes := quote :: enc_str s ++ [quote].
#[global] Arguments quoted : simpl never.

(** [json.Marshal] of a value. *)
Fixpoint Marshal (v : json) : bytes :=
  match v with
  | JNull => $"null"
  | JBool true => $"true"
  | JBool false => $"false"
  | JNum lit => lit
  | JStr s => quoted s
  | JArr l => "["%byte :: Join (map Marshal l) comma ++ ["]"%byte]
  | JObj kvs =>
      "{"%byte :: Join (map (λ kv, quoted kv.1 ++ colon :: Marshal kv.2) kvs) comma ++ ["}"%byte]
  end.

Definition is_space (b : byte) : bool :=
  Byte.eqb b x20 || Byte.eqb b x09 || Byte.eqb b x0a || Byte.eqb b x0d.
Fixpoint skip_ws (s : bytes) : bytes :=
  match s with b :: s' => if is_space b then skip_ws s' else s | [] => [] end.

Definition is_digit (b : byte) : bool := in_range 48 57 b.
Fixpoint span_digits (s : bytes) : bytes * bytes :=
  match s with
  | b :: s' => if is_digit b then let '(x, r) := span_digits s' in (b :: x, r) else ([], s)
  | [] => ([], [])
  end.

(** The integer part: [0], or digits without a leading zero. *)
Definition scan_int (s : bytes) : option (bytes * bytes) :=
  match s with
  | b :: s' =>
      if Byte.eqb b "0"%byte then Some ([b], s')
      else if is_digit b then Some (span_digits s) else None
  | [] => None
  end.

Definition scan_frac (s : bytes) : option (bytes * bytes) :=
  match s with
  | b :: s' =>
      if Byte.eqb b "."%byte then
        match span_digits s' with ([], _) => None | (x, r) => Some (b :: x, r) end
      else Some ([], s)
  | [] => Some ([], [])
  end.

Definition scan_exp (s : bytes) : option (bytes * bytes) :=
  match s with
  | e :: s' =>
      if Byte.eqb e "e"%byte || Byte.eqb e "E"%byte then
        let '(sg, s'') := match s' with
          | b :: t => if Byte.eqb b "+"%byte || Byte.eqb b "-"%byte then ([b], t) else ([], s')
          | [] => ([], [])
          end in
        match span_digits s'' with ([], _) => None | (x, r) => Some (e :: sg ++ x, r) end
      else Some ([], s)
  | [] => Some ([], [])
  end.

Definition scan_number (s : bytes) : option (bytes * bytes) :=
  let '(sg, s) := match s with
    | b :: t => if Byte.eqb b "-"%byte then ([b], t) else ([], s)
    | [] => ([], [])
    end in
  '(i, r) ← scan_int s; '(f, r) ← scan_frac r; '(e, r) ← scan_exp r;
  Some (sg ++ i ++ f ++ e, r).

Definition parse_string (s : bytes) : option (bytes * bytes) :=
  match s with
  | b :: r => if Byte.eqb b quote then dec_str (length s) r else None
  | [] => None
  end.

(** [Some r] when [s] is the literal [p] followed by [r]. *)
Fixpoint literal (p s : bytes) : option bytes :=
  match p, s with
  | [], _ => Some s
  | a :: p, b :: s => if Byte.eqb a b then literal p s else None
  | _, [] => None
  end.

(** One value and the text after it; [fuel] bounds the nesting and the
    number of members. *)
Fixpoint parse_value (fuel : nat) (s : bytes) : option (json * bytes) :=
  match fuel with
  | O => None
  | S fuel =>
      match skip_ws s with
      | [] => None
      | b :: r =>
          if Byte.eqb b quote then '(x, t) ← parse_string (b :: r); Some (JStr x, t)
          else if Byte.eqb b "n"%byte then t ← literal ($"null") (b :: r); Some (JNull, t)
          else if Byte.eqb b "t"%byte then t ← literal ($"true") (b :: r); Some (JBool true, t)
          else if Byte.eqb b "f"%byte then t ← literal ($"false") (b :: r); Some (JBool false, t)
          else if Byte.eqb b "["%byte then
            match literal ($"]") (skip_ws r) with
            | Some t => Some (JArr [], t)
            | None => '(l, t) ← parse_elems fuel r; Some (JArr l, t)
            end
          else if Byte.eqb b "{"%byte then
            match literal ($"}") (skip_ws r) with
            | Some t => Some (JObj [], t)
            | None => '(l, t) ← parse_members fuel r; Some (JObj l, t)
            end
          else '(n, t) ← scan_number (b :: r); Some (JNum n, t)
      end
  end
with parse_elems (fuel : nat) (s : bytes) : option (list json * bytes) :=
  match fuel with
  | O => None
  | S fuel =>
      '(v, r) ← parse_value fuel s;
      match skip_ws r with
      | b :: t =>
          if Byte.eqb b comma then '(l, t) ← parse_elems fuel t; Some (v :: l, t)
          else if Byte.eqb b "]"%byte then Some ([v], t) else None
      | [] => None
      end
  end
with parse_members (fuel : nat) (s : bytes) : option (list (bytes * json) * bytes) :=
  match fuel with
  | O => None
  | S fuel =>
      '(k, r) ← parse_string (skip_ws s);
      r ← literal ($":") (skip_ws r);
      '(v, r) ← parse_value fuel r;
      match skip_ws r with
      | b :: t =>
          if Byte.eqb b comma then '(l, t) ← parse_members fuel t; Some ((k, v) :: l, t)
          else if Byte.eqb b "}"%byte then Some ([(k, v)], t) else None
      | [] => None
      end
  end.

Definition err_syntax : error := ErrString ($"invalid JSON").

(** The syntax check and parse of [json.Unmarshal]: one value, white space
    around it. *)
Definition Unmarshal (s : bytes) : res json :=
  match parse_value (S (length s)) s with
  | Some (v, r) => if decide (skip_ws r = []) then Ok v else Err err_syntax
  | None => Err err_syntax
  end.

(** ** The round trip *)

(** Values [Marshal] produces from Go data: integer literals, valid text. *)
Fixpoint wf (v : json) : Prop :=
  match v with
  | JNull | JBool _ => True
  | JNum lit => ∃ z, lit = FormatInt z
  | JStr s => valid_utf8 s
  | JArr l => foldr (λ x P, wf x ∧ P) True l
  | JObj kvs => foldr (λ kv P, valid_utf8 kv.1 ∧ wf kv.2 ∧ P) True kvs
  end.

Fixpoint jsize (v : json) : nat :=
  match v with
  | JArr l => S (foldr (λ x n, S (jsize x + n)) 0 l)
  | JObj kvs => S (foldr (λ kv n, S (jsize kv.2 + n)) 0 kvs)
  | _ => 1
  end.

(** Text that may follow a value. *)
Definition delim (t : bytes) : Prop :=
  match t with
  | [] => True
  | b :: _ => is_digit b = false ∧ b ∉ [".";"e";"E"]%byte
  end.

Lemma byte_eqb_ne (a b : byte) : a ≠ b → Byte.eqb a b = false.
Proof. intros Hn. apply not_true_is_false. by intros H%Byte.byte_dec_bl. Qed.

Lemma digits_are_digits n : Forall (λ b, is_digit b = true) (digits n).
Proof.
  assert (∀ m, (m < 10)%N → is_digit (digit m) = true) as Hd.
  { intros m Hm. unfold is_digit, in_range, digit. rewrite byte_to_of_N by lia.
    apply andb_true_intro. rewrite !N.leb_le. lia. }
  unfold digits. generalize (S (N.size_nat n)) as f. intros f.
  assert (Forall (λ b, is_digit b = true) (@nil byte)) as H by constructor.
  revert H. generalize (@nil byte) as acc. revert n.
  induction f as [|f IH]; intros n acc H; cbn [digits_aux]; [done|].
  assert (Forall (λ b, is_digit b = true) (digit (n mod 10) :: acc)).
  { constructor; [|done]. apply Hd, N.mod_lt. lia. }
  destruct (_ =? 0)%N; auto.
Qed.

Lemma digits_aux_head f n acc : n ≠ 0%N → (n < 2 ^ N.of_nat f)%N →
  ∃ d l, digits_aux (S f) n acc = digit d :: l ∧ (0 < d < 10)%N.
Proof.
  revert n acc. induction f as [|f IH]; intros n acc Hn Hf; [simpl in Hf; lia|].
  cbn [digits_aux]. destruct (N.eqb_spec (n / 10) 0) as [E|E].
  - eexists _, _. split; [done|]. pose proof (N.mod_lt n 10). pose proof (N.div_mod n 10). lia.
  - apply (IH (n / 10)%N); [done|]. apply N.Div0.div_lt_upper_bound.
    rewrite Nat2N.inj_succ, N.pow_succ_r' in Hf. lia.
Qed.

Lemma span_digits_app s t : Forall (λ b, is_digit b = true) s →
  (match t with [] => True | b :: _ => is_digit b = false end) →
  span_digits (s ++ t) = (s, t).
Proof.
  intros Hs Ht. induction Hs as [|b s Hb Hs IH]; simpl.
  - destruct t as [|b t]; [done|]. simpl. by rewrite Ht.
  - by rewrite Hb, IH.
Qed.

Lemma scan_tail t : delim t → scan_frac t = Some ([], t) ∧ scan_exp t = Some ([], t).
Proof.
  destruct t as [|b t]; [done|]. intros [_ Hb].
  rewrite !not_elem_of_cons in Hb. destruct Hb as (H1 & H2 & H3 & _).
  simpl. by rewrite !byte_eqb_ne by done.
Qed.

Lemma scan_int_digits n t : delim t → scan_int (digits n ++ t) = Some (digits n, t).
Proof.
  intros Ht. destruct (decide (n = 0%N)) as [->|Hn]; [by change (digits 0) with ["0"%byte]|].
  destruct (digits_aux_head (N.size_nat n) n []) as (d & l & E & Hd);
    [done|apply N_lt_pow2_size|].
  pose proof (digits_are_digits n) as HF. unfold digits in *. rewrite E in *. simpl.
  assert (Byte.eqb (digit d) "0"%byte = false) as ->.
  { apply not_true_is_false. intros Hd0. apply Byte.byte_dec_bl in Hd0.
    apply (f_equal Byte.to_N) in Hd0. unfold digit in Hd0. rewrite byte_to_of_N in Hd0 by lia.
    change (Byte.to_N "0"%byte) with 48%N in Hd0. lia. }
  rewrite (Forall_inv HF). change (digit d :: l ++ t) with ((digit d :: l) ++ t).
  rewrite span_digits_app; [done|exact (Forall_inv_tail HF)|]. destruct t; [done|]. apply Ht.
Qed.

Lemma scan_number_int z t : delim t → scan_number (FormatInt z ++ t) = Some (FormatInt z, t).
Proof.
  intros Ht. destruct (scan_tail t Ht) as [Hf He].
  unfold scan_number, FormatInt. destruct (z <? 0)%Z; simpl.
  - rewrite scan_int_digits by done. simpl. rewrite Hf. simpl. rewrite He. simpl.
    by rewrite app_nil_r.
  - pose proof (digits_are_digits (Z.to_N z)) as HF.
    pose proof (scan_int_digits (Z.to_N z) t Ht) as Hi.
    destruct (digits (Z.to_N z)) as [|b l] eqn:E.
    + by apply digits_aux_nonnil in E.
    + assert (Byte.eqb b "-"%byte = false) as Hb.
      { apply Forall_inv in HF. by destruct b. }
      cbn [app] in Hi |- *. rewrite Hb, Hi. simpl. rewrite Hf. simpl. rewrite He. simpl.
      by rewrite app_nil_r.
Qed.

(** The first byte of an encoded value. *)
Lemma Marshal_head v : wf v → ∃ b r, Marshal v = b :: r ∧ is_space b = false ∧ b ∉ ["]"; "}"]%byte.
Proof.
  destruct v as [|[]|lit|s|l|l]; intros Hv; try (eexists _, _; split; [reflexivity|];
    split; [done|]; by apply (bool_decide_unpack _)).
  destruct Hv as [z ->]. simpl. unfold FormatInt. destruct (z <? 0)%Z.
  { eexists _, _; split; [reflexivity|]; split; [done|]; by apply (bool_decide_unpack _). }
  pose proof (digits_are_digits (Z.to_N z)) as HF.
  destruct (digits (Z.to_N z)) as [|b l] eqn:E; [by apply digits_aux_nonnil in E|].
  exists b, l. split; [done|]. apply Forall_inv in HF. clear E.
  split; [by destruct b|]. rewrite !not_elem_of_cons. split_and!; [by intros ->..|].
  by apply not_elem_of_nil.
Qed.

Lemma skip_ws_Marshal v t : wf v → skip_ws (Marshal v ++ t) = Marshal v ++ t.
Proof. intros Hv. destruct (Marshal_head v Hv) as (b & r & -> & Hs & _). simpl. by rewrite Hs. Qed.

Lemma parse_quoted s t : valid_utf8 s → parse_string (quoted s ++ t) = Some (s, t).
Proof.
  intros Hs. unfold parse_string, quoted. cbn [app]. change (Byte.eqb quote quote) with true.
  cbv iota. rewrite <- app_assoc. apply dec_enc_str; [done|].
  pose proof (enc_str_length s Hs). simpl length. rewrite !length_app. simpl. lia.
Qed.

Lemma number_head z : ∃ b r, FormatInt z = b :: r ∧
  b ∉ [quote; "n"; "t"; "f"; "["; "{"]%byte ∧ is_space b = false.
Proof.
  unfold FormatInt. destruct (z <? 0)%Z.
  - eexists _, _. split; [reflexivity|]. split; [by apply (bool_decide_unpack _)|done].
  - pose proof (digits_are_digits (Z.to_N z)) as HF.
    destruct (digits (Z.to_N z)) as [|b l] eqn:E; [by apply digits_aux_nonnil in E|].
    exists b, l. split; [done|]. apply Forall_inv in HF. split; [|by destruct b].
    rewrite !not_elem_of_cons. split_and!; [by intros ->..|]. by apply not_elem_of_nil.
Qed.

Lemma parse_number fuel z t : delim t →
  parse_value (S fuel) (FormatInt z ++ t) = Some (JNum (FormatInt z), t).
Proof.
  intros Ht. pose proof (scan_number_int z t Ht) as Hs.
  destruct (number_head z) as (b & r & E & Hb & Hsp). rewrite E in *.
  rewrite !not_elem_of_cons in Hb. destruct_and!.
  cbn [parse_value app skip_ws]. rewrite Hsp, !byte_eqb_ne by done.
  cbn [app] in Hs. by rewrite Hs.
Qed.

Lemma delim_punct b t : b ∈ [comma; "]"; "}"]%byte → delim (b :: t).
Proof.
  intros Hb. rewrite !elem_of_cons, elem_of_nil in Hb.
  destruct Hb as [->|[->|[->|[]]]]; (split; [done|]); by apply (bool_decide_unpack _).
Qed.

Ltac punct := apply delim_punct; by apply (bool_decide_unpack _).

(** What the mutual induction shows of a value. *)
Definition parses (v : json) : Prop := ∀ fuel t, wf v → jsize v ≤ fuel → delim t →
  parse_value fuel (Marshal v ++ t) = Some (v, t).

Lemma parse_elems_Marshal l : Forall parses l → l ≠ [] → ∀ fuel t,
  foldr (λ x P, wf x ∧ P) True l → S (foldr (λ x n, S (jsize x + n)) 0 l) ≤ S fuel →
  parse_elems fuel (Join (map Marshal l) comma ++ "]"%byte :: t) = Some (l, t).
Proof.
  induction 1 as [|x l Hx Hl IH]; [done|]. intros _ fuel t [Hwx Hwl] Hf. simpl in Hf.
  destruct fuel as [|fuel]; [lia|]. destruct l as [|y l].
  - cbn [map Join parse_elems]. by rewrite Hx; [|done|lia|punct].
  - change (Join (map Marshal (x :: y :: l)) comma)
      with (Marshal x ++ comma :: Join (map Marshal (y :: l)) comma).
    rewrite <- app_assoc. cbn [app parse_elems].
    rewrite Hx; [|done|lia|punct].
    simpl mbind. cbn [skip_ws]. change (is_space comma) with false. cbv iota.
    change (Byte.eqb comma comma) with true. cbv iota.
    rewrite IH; [done|done|done|lia].
Qed.

Lemma parse_members_Marshal l : Forall (λ kv, parses kv.2) l → l ≠ [] → ∀ fuel t,
  foldr (λ kv P, valid_utf8 kv.1 ∧ wf kv.2 ∧ P) True l →
  S (foldr (λ kv n, S (jsize kv.2 + n)) 0 l) ≤ S fuel →
  parse_members fuel (Join (map (λ kv, quoted kv.1 ++ colon :: Marshal kv.2) l) comma
                      ++ "}"%byte :: t) = Some (l, t).
Proof.
  induction 1 as [|[k x] l Hx Hl IH]; [done|]. intros _ fuel t (Hk & Hwx & Hwl) Hf.
  simpl in Hf, Hx, Hk, Hwx.
  destruct fuel as [|fuel]; [lia|].
  assert (∀ t', skip_ws ((quoted k ++ colon :: Marshal x) ++ t')
                = quoted k ++ colon :: Marshal x ++ t') as Hsk.
  { intros t'. by rewrite <- app_assoc. }
  destruct l as [|y l].
  - cbn [map Join parse_members]. rewrite Hsk, parse_quoted by done. simpl mbind.
    cbn [skip_ws literal]. change (is_space colon) with false. cbv iota.
    change (literal ($":") (colon :: Marshal x ++ "}"%byte :: t))
      with (Some (Marshal x ++ "}"%byte :: t)). simpl mbind.
    rewrite Hx; [|done|lia|punct]. done.
  - set (f := λ kv : bytes * json, quoted kv.1 ++ colon :: Marshal kv.2) in *.
    assert (Join (map f ((k, x) :: y :: l)) comma
            = (quoted k ++ colon :: Marshal x) ++ comma :: Join (map f (y :: l)) comma) as -> by done.
    rewrite <- app_assoc. cbn [parse_members].
    rewrite Hsk, parse_quoted by done. simpl mbind.
    cbn [skip_ws literal app]. change (is_space colon) with false. cbv iota.
    set (tl := comma :: _).
    change (literal ($":") (colon :: Marshal x ++ tl)) with (Some (Marshal x ++ tl)).
    simpl mbind. subst tl.
    rewrite Hx; [|done|lia|punct].
    simpl mbind. cbn [skip_ws]. change (is_space comma) with false. cbv iota.
    change (Byte.eqb comma comma) with true. cbv iota.
    rewrite IH; [done|done|done|lia].
Qed.

Lemma parse_Marshal v : parses v.
Proof.
  induction v as [|[]|lit|s|l IH|kvs IH] using json_nested_ind; intros fuel t Hwf Hf Ht;
    simpl in Hf; (destruct fuel as [|fuel]; [lia|]); try done.
  - destruct Hwf as [z ->]. by apply parse_number.
  - cbn [Marshal parse_value].
    assert (skip_ws (quoted s ++ t) = quote :: (enc_str s ++ [quote]) ++ t) as -> by done.
    change (Byte.eqb quote quote) with true. cbv iota.
    change (quote :: (enc_str s ++ [quote]) ++ t) with (quoted s ++ t).
    by rewrite parse_quoted.
  - destruct l as [|x l]; [done|].
    cbn [Marshal parse_value app]. cbn [skip_ws]. change (is_space "["%byte) with false.
    cbv iota. rewrite <- app_assoc.
    assert (∃ b r, Join (map Marshal (x :: l)) comma = b :: r ∧ is_space b = false ∧ b ≠ "]"%byte)
      as (b & r & E & Hsp & Hb).
    { destruct (Marshal_head x) as (b & r & E & Hsp & Hb); [apply Hwf|].
      exists b. simpl. rewrite E. destruct (map Marshal l); eexists; (split; [done|]);
      (split; [done|]); rewrite not_elem_of_cons in Hb; naive_solver. }
    cbn [app].
    assert (literal ($"]") (skip_ws (Join (map Marshal (x :: l)) comma ++ "]"%byte :: t)) = None)
      as Hlit.
    { rewrite E. cbn [app skip_ws]. rewrite Hsp.
      change ($"]") with ["]"%byte]. cbn [literal]. by rewrite byte_eqb_ne by done. }
    rewrite Hlit. rewrite parse_elems_Marshal; [done|done|done|done|exact Hf].
  - destruct kvs as [|[k x] l]; [done|].
    cbn [Marshal parse_value app]. cbn [skip_ws]. change (is_space "{"%byte) with false.
    cbv iota. rewrite <- app_assoc. cbn [app].
    set (f := λ kv : bytes * json, quoted kv.1 ++ colon :: Marshal kv.2).
    assert (literal ($"}") (skip_ws (Join (map f ((k, x) :: l)) comma ++ "}"%byte :: t)) = None)
      as Hlit.
    { simpl. by destruct (map f l). }
    rewrite Hlit. unfold f. rewrite parse_members_Marshal; [done|done|done|done|exact Hf].
Qed.

Lemma Marshal_length v : wf v → jsize v ≤ length (Marshal v).
Proof.
  induction v as [|[]|lit|s|l IH|kvs IH] using json_nested_ind; intros Hwf;
    cbn [Marshal jsize length]; rewrite ?length_app; cbn [length];
    try (change 1 with (length [x00]); apply le_n_S, Nat.le_0_l).
  - destruct (Marshal_head (JNum lit) Hwf) as (b & r & E & _). simpl in E. rewrite E. simpl. lia.
  - apply le_n_S. induction IH as [|x l Hx Hl IHl]; [simpl; lia|]. destruct Hwf as [Hwx Hwl].
    specialize (IHl Hwl). specialize (Hx Hwx). cbn [foldr].
    destruct l as [|y l]; [simpl; lia|].
    assert (Join (map Marshal (x :: y :: l)) comma
            = Marshal x ++ comma :: Join (map Marshal (y :: l)) comma) as -> by done.
    rewrite length_app. cbn [length]. lia.
  - apply le_n_S. set (f := λ kv : bytes * json, quoted kv.1 ++ colon :: Marshal kv.2).
    assert (∀ kv, wf kv.2 → jsize kv.2 ≤ length (Marshal kv.2) → S (jsize kv.2) ≤ length (f kv)) as Hf.
    { intros [k x] _ Hk. unfold f. rewrite length_app. simpl in *. lia. }
    induction IH as [|kv l Hx Hl IHl]; [simpl; lia|]. destruct Hwf as (Hk & Hwx & Hwl).
    specialize (IHl Hwl). specialize (Hf kv Hwx (Hx Hwx)). cbn [foldr].
    destruct l as [|y l]; [simpl in *; lia|].
    assert (Join (map f (kv :: y :: l)) comma = f kv ++ comma :: Join (map f (y :: l)) comma)
      as -> by done.
    rewrite length_app. cbn [length]. lia.
Qed.

(** [Unmarshal (Marshal v)] is [v]. *)
Theorem Unmarshal_Marshal v : wf v → Unmarshal (Marshal v) = Ok v.
Proof.
  intros Hwf. unfold Unmarshal. pose proof (Marshal_length v Hwf).
  rewrite <- (app_nil_r (Marshal v)) at 2. rewrite parse_Marshal; [done|done|lia|done].
Qed.

#[export] Instance Marshal_inj_wf v w : wf v → wf w → Marshal v = Marshal w → TCEq v w.
Proof.
  intros Hv Hw E. apply Unmarshal_Marshal in Hv, Hw. rewrite E, Hw in Hv. by simplify_eq.
Qed.

(** ** Structs

    [foldName]: case folding of field names.  Besides the ASCII letters, the
    long s (U+017F) and the Kelvin sign (U+212A) fold to [s] and [k]. *)
Fixpoint fold_name (s : bytes) : bytes :=
  match s with
  | a :: ((b :: ((c :: r2) as r1)) as r) =>
      if decide (a = xc5 ∧ b = xbf) then "s"%byte :: fold_name r1
      else if decide (a = xe2 ∧ b = x84 ∧ c = xaa) then "k"%byte :: fold_name r2
      else lower a :: fold_name r
  | [a; b] => if decide (a = xc5 ∧ b = xbf) then $"s" else [lower a; lower b]
  | [a] => [lower a]
  | [] => []
  end.

(** A struct type: its field names in order, each with the function that
    stores a decoded value in the field. *)
Abbreviation fields T := (list (bytes * (json → T → res T))).

(** The field a member name selects: the exact name first. *)
Definition field_index (names : list bytes) (k : bytes) : option nat :=
  match list_find (λ n, n = k) names with
  | Some (i, _) => Some i
  | None => fst <$> list_find (λ n, fold_name n = fold_name k) names
  end.

Definition err_type : error := ErrString ($"json: cannot unmarshal value into Go value").

(** Decode the members of an object into a struct.  A type mismatch makes
    the whole result an error. *)
Definition decode_members {T} (fs : fields T) (kvs : list (bytes * json)) (t : T) : res T :=
  foldl (λ acc kv,
    match field_index (map fst fs) kv.1 with
    | Some i => match fs !! i with Some f => t ← acc; f.2 kv.2 t | None => acc end
    | None => acc
    end) (Ok t) kvs.

(** Decoding into a struct: [null] leaves it as it is. *)
Definition decode_struct {T} (fs : fields T) (old : T) (v : json) : res T :=
  match v with
  | JObj kvs => decode_members fs kvs old
  | JNull => Ok old
  | _ => Err err_type
  end.

Definition decode_string (old : bytes) (v : json) : res bytes :=
  match v with JStr s => Ok s | JNull => Ok old | _ => Err err_type end.

Definition decode_int (lo hi : Z) (old : Z) (v : json) : res Z :=
  match v with
  | JNum lit =>
      match parse_nat (split_sign lit).2 with
      | Some n =>
          let z := ((split_sign lit).1 * Z.of_N n)%Z in
          if (lo <=? z)%Z && (z <=? hi)%Z then Ok z else Err err_type
      | None => Err err_type
      end
  | JNull => Ok old
  | _ => Err err_type
  end.

Definition decode_bool (old : bool) (v : json) : res bool :=
  match v with JBool b => Ok b | JNull => Ok old | _ => Err err_type end.

(** An element of a [[]byte] written as an array of numbers. *)
Definition decode_uint8 (v : json) : res byte :=
  z ← decode_int 0 255 0 v; mret (byte_of_N (Z.to_N z)).

Fixpoint mapR {A B} (f : A → res B) (l : list A) : res (list B) :=
  match l with
  | [] => Ok []
  | x :: l => y ← f x; ys ← mapR f l; mret (y :: ys)
  end.

(** A [[]byte]: base64 text, an array of numbers, or [null] for nil. *)
Definition decode_bytes (v : json) : res (option bytes) :=
  match v with
  | JStr s => orelse (x ← b64_DecodeString s; mret (Some x)) err_type
  | JArr l => x ← mapR decode_uint8 l; mret (Some x)
  | JNull => Ok None
  | _ => Err err_type
  end.

(** A pointer to a struct: [null] is nil, an object is decoded into what the
    pointer already points to. *)
Definition decode_ptr {T} (dec : T → json → res T) (zero : T) (old : option T) (v : json)
    : res (option T) :=
  match v with
  | JNull => Ok None
  | _ => x ← dec (default zero old) v; mret (Some x)
  end.

(** A slice or array of bytes is marshalled as base64 text; nil as [null]. *)
Definition enc_bytes (b : option bytes) : json :=
  match b with None => JNull | Some b => JStr (b64_EncodeToString b) end.
Definition enc_ptr {T} (enc : T → json) (p : option T) : json :=
  match p with None => JNull | Some x => enc x end.
Definition enc_int (z : Z) : json := JNum (FormatInt z).

Lemma decode_int_enc lo hi old z : (lo ≤ z ≤ hi)%Z → decode_int lo hi old (enc_int z) = Ok z.
Proof.
  intros Hz. unfold decode_int, enc_int, FormatInt. destruct (Z.ltb_spec z 0) as [Hn|Hn].
  - cbn [split_sign]. rewrite decide_True by done. cbn [fst snd]. rewrite parse_nat_digits.
    replace (-1 * Z.of_N (Z.to_N (- z)))%Z with z by lia.
    by rewrite !(proj2 (Z.leb_le _ _)) by lia.
  - rewrite split_sign_digits. cbn [fst snd]. rewrite parse_nat_digits.
    replace (1 * Z.of_N (Z.to_N z))%Z with z by lia.
    by rewrite !(proj2 (Z.leb_le _ _)) by lia.
Qed.

Lemma decode_bytes_enc b : decode_bytes (enc_bytes b) = Ok b.
Proof. destruct b as [b|]; simpl; [|done]. by rewrite b64_round_trip. Qed.

Lemma b64_ascii l : Forall (λ b, Byte.to_N b < 128)%N (b64_EncodeToString l).
Proof.
  assert (∀ n, Byte.to_N (b64char n) < 128)%N as Hc.
  { intros n. unfold b64char. rewrite byte_to_of_N;
    repeat case_match; rewrite ?N.ltb_lt, ?N.eqb_eq in *; lia. }
  induction l as [|a|a b|a b c l IH] using list_ind3; cbn [b64_EncodeToString];
    repeat constructor; auto.
Qed.

Lemma wf_enc_bytes b : wf (enc_bytes b).
Proof. destruct b; simpl; [|done]. apply ascii_valid, b64_ascii. Qed.

Lemma wf_enc_int z : wf (enc_int z).
Proof. by exists z. Qed.

#[global] Arguments decode_int : simpl never.
#[global] Arguments decode_bytes : simpl never.
#[global] Arguments enc_bytes : simpl never.
#[global] Arguments enc_int : simpl never.

#[export] Hint Resolve wf_enc_bytes wf_enc_int valid_utf8_app : betterkey.
#[export] Hint Rewrite decode_bytes_enc : betterkey.

(** ** Codecs

    A type that is marshalled and unmarshalled.  [ok] says which values
    survive the round trip: those with valid UTF-8 text and integers in
    range. *)
Class JsonCodec (T : Type) := {
  zero : T;
  to_json : T → json;
  of_json : T → json → res T;
  json_ok : T → Prop;
  to_json_wf x : json_ok x → wf (to_json x);
  of_to_json x : json_ok x → of_json zero (to_json x) = Ok x
}.
#[global] Hint Mode JsonCodec ! : typeclass_instances.

(** [json.Marshal(x)] and [json.Unmarshal(s, &x)] into a zero value. *)
Definition json_Marshal `{JsonCodec T} (x : T) : bytes := Marshal (to_json x).
Definition json_Unmarshal (T : Type) `{JsonCodec T} (s : bytes) : res T :=
  v ← Unmarshal s; of_json zero v.

Lemma json_round_trip `{JsonCodec T} (x : T) :
  json_ok x → json_Unmarshal T (json_Marshal x) = Ok x.
Proof.
  intros Hx. unfold json_Unmarshal, json_Marshal.
  rewrite Unmarshal_Marshal by by apply to_json_wf. by apply of_to_json.
Qed.

(** Marshalled values are valid UTF-8, hence can themselves be marshalled as
    a string. *)
Lemma enc_rune_valid c : (∃ s, next_rune (c ++ s) = Some (c, s)) → valid_utf8 (enc_rune c).
Proof.
  intros [s Hc]. apply (next_rune_ext c s []) in Hc. rewrite app_nil_r in Hc.
  destruct c as [|a [|b c]]; [done| |].
  - assert (Byte.to_N a < 128)%N as Ha.
    { simpl in Hc. unfold lead_of in Hc. destruct (N.ltb_spec (Byte.to_N a) 128); [done|].
      repeat case_match; simplify_eq/=. }
    clear -Ha. apply (utf8_ok_valid 6). destruct a; try reflexivity; exfalso; vm_compute in Ha; done.
  - unfold enc_rune. case_decide; [by apply (utf8_ok_valid 6)|].
    case_decide; [by apply (utf8_ok_valid 6)|].
    rewrite <- (app_nil_r (a :: b :: c)). constructor; [by rewrite app_nil_r|constructor].
Qed.

Lemma enc_str_valid s : valid_utf8 s → valid_utf8 (enc_str s).
Proof.
  induction 1 as [|c s Hc Hs IH]; [constructor|]. rewrite enc_str_rune by done.
  apply valid_utf8_app; [apply enc_rune_valid; eauto|done].
Qed.

Lemma quoted_valid s : valid_utf8 s → valid_utf8 (quoted s).
Proof.
  intros Hs. unfold quoted. apply (valid_utf8_app [quote]); [by apply (utf8_ok_valid 1)|].
  apply valid_utf8_app; [by apply enc_str_valid|by apply (utf8_ok_valid 1)].
Qed.

Lemma Join_valid l sep : Forall valid_utf8 l → valid_utf8 [sep] → valid_utf8 (Join l sep).
Proof.
  intros Hl Hs. induction Hl as [|x l Hx Hl IH]; [constructor|].
  destruct l as [|y l]; [done|]. change (valid_utf8 (x ++ [sep] ++ Join (y :: l) sep)).
  by repeat apply valid_utf8_app.
Qed.

Lemma FormatInt_valid z : valid_utf8 (FormatInt z).
Proof.
  assert (∀ n, Forall (λ b, Byte.to_N b < 128)%N (digits n)) as Hd.
  { intros n. eapply Forall_impl; [apply digits_are_digits|]. intros b Hb.
    apply andb_true_iff in Hb. rewrite !N.leb_le in Hb. lia. }
  apply ascii_valid. unfold FormatInt. destruct (z <? 0)%Z; [constructor|]; auto. done.
Qed.

Lemma Marshal_valid v : wf v → valid_utf8 (Marshal v).
Proof.
  induction v as [|[]|lit|s|l IH|kvs IH] using json_nested_ind; intros Hwf;
    try by apply (utf8_ok_valid 5).
  - destruct Hwf as [z ->]. apply FormatInt_valid.
  - by apply quoted_valid.
  - apply (valid_utf8_app ["["%byte]); [by apply (utf8_ok_valid 1)|].
    apply valid_utf8_app; [|by apply (utf8_ok_valid 1)].
    apply Join_valid; [|by apply (utf8_ok_valid 1)]. rewrite Forall_map.
    induction IH as [|x l Hx _ IHl]; constructor; destruct Hwf; auto.
  - apply (valid_utf8_app ["{"%byte]); [by apply (utf8_ok_valid 1)|].
    apply valid_utf8_app; [|by apply (utf8_ok_valid 1)].
    apply Join_valid; [|by apply (utf8_ok_valid 1)]. rewrite Forall_map.
    induction IH as [|kv l Hx _ IHl]; constructor; destruct Hwf as (Hk & Hw & Hwl); [|by auto].
    apply valid_utf8_app; [by apply quoted_valid|].
    apply (valid_utf8_app [colon]); [by apply (utf8_ok_valid 1)|]. auto.
Qed.

Lemma json_Marshal_valid `{JsonCodec T} (x : T) : json_ok x → valid_utf8 (json_Marshal x).
Proof. intros Hx. by apply Marshal_valid, to_json_wf. Qed.

(** Evaluate the field selections of a decoding at literal names. *)
Ltac eval_fields :=
  repeat match goal with
  | |- context [field_index ?ns ?k] =>
      let r := eval vm_compute in (field_index ns k) in
      change (field_index ns k) with r
  end.

(** The codec laws of a struct without nested structs. *)
Ltac solve_codec :=
  intros; simpl in *;
  repeat (progress (simpl; unfold decode_ptr, enc_ptr, decode_struct, decode_members;
                    simpl; eval_fields; rewrite ?decode_bytes_enc;
                    rewrite ?decode_int_enc by done));
  done.

(** ** [Decoder.Decode] on a request body

    The first value of the body; afterwards only white space may follow
    before the end. *)
Definition Decode_single (T : Type) `{JsonCodec T} (body : bytes) : res T :=
  match parse_value (S (length body)) body with
  | None => Err err_syntax
  | Some (v, r) =>
      t ← of_json zero v;
      if decide (skip_ws r = []) then Ok t
      else Err (ErrString ($"request body must contain a single JSON value"))
  end.

Lemma Decode_single_Marshal `{JsonCodec T} (x : T) :
  json_ok x → Decode_single T (json_Marshal x) = Ok x.
Proof.
  intros Hx. pose proof (to_json_wf x Hx) as Hwf. unfold Decode_single, json_Marshal.
  pose proof (Marshal_length _ Hwf).
  rewrite <- (app_nil_r (Marshal _)) at 2. rewrite parse_Marshal; [|done|lia|done].
  by rewrite of_to_json.
Qed.

(** ** Decoding does not panic *)

Definition safe {A} (r : res A) : Prop := ∀ p, r ≠ Panic p.

Lemma safe_bind {A B} (r : res A) (f : A → res B) : safe r → (∀ a, r = Ok a → safe (f a)) → safe (r ≫= f).
Proof. intros Hr Hf p. destruct r as [a| |m]; [by apply Hf|done|]; by destruct (Hr m). Qed.
Lemma safe_wrap {A} msg (r : res A) : safe r → safe (wrap msg r).
Proof. intros Hr p. destruct r as [| |m]; try done; by destruct (Hr m). Qed.
Lemma safe_orelse {A} (r : res A) e : safe r → safe (orelse r e).
Proof. intros Hr p. destruct r as [| |m]; try done; by destruct (Hr m). Qed.
Lemma safe_fmap {A B} (f : A → B) (r : res A) : safe r → safe (f <$> r).
Proof. intros Hr p. destruct r as [| |m]; try done; by destruct (Hr m). Qed.
Lemma safe_of_option {A} (o : option A) e : safe (of_option o e).
Proof. by destruct o. Qed.
Lemma safe_mapR {A B} (f : A → res B) l : (∀ x, safe (f x)) → safe (mapR f l).
Proof.
  intros Hf. induction l as [|x l IH]; [done|]. cbn [mapR].
  apply safe_bind; [apply Hf|]. intros y _. apply safe_bind; [done|]. done.
Qed.

Lemma decode_string_safe old v : safe (decode_string old v).
Proof. by destruct v. Qed.
Lemma decode_int_safe lo hi old v : safe (decode_int lo hi old v).
Proof. destruct v; try done. unfold decode_int. repeat case_match; done. Qed.
Lemma b64_DecodeString_safe s : safe (b64_DecodeString s).
Proof. apply safe_of_option. Qed.
Lemma decode_bytes_safe v : safe (decode_bytes v).
Proof.
  destruct v as [| | |s|l|]; try done; unfold decode_bytes.
  - apply safe_orelse, safe_bind; [apply b64_DecodeString_safe|done].
  - apply safe_bind; [|done]. apply safe_mapR. intros x. unfold decode_uint8.
    apply safe_bind; [apply decode_int_safe|done].
Qed.

Lemma decode_struct_safe {T} (fs : fields T) old v :
  Forall (λ f : bytes * (json → T → res T), ∀ x t, safe (f.2 x t)) fs → safe (decode_struct fs old v).
Proof.
  intros Hfs. destruct v as [| | | | |kvs]; try done. unfold decode_struct, decode_members.
  assert (safe (Ok old)) as Hacc by done. revert Hacc. generalize (Ok old).
  induction kvs as [|kv kvs IH]; intros acc Hacc; [done|]. cbn [foldl]. apply IH.
  destruct (field_index _ _) as [i|]; [|done]. destruct (fs !! i) as [f|] eqn:Hf; [|done].
  apply safe_bind; [done|]. intros t _. by apply (Forall_lookup_1 _ _ _ _ Hfs Hf).
Qed.

Lemma Unmarshal_safe s : safe (Unmarshal s).
Proof. unfold Unmarshal. repeat case_match; done. Qed.

Class JsonSafe (T : Type) `{JsonCodec T} := of_json_safe (x : T) v : safe (of_json x v).

Lemma json_Unmarshal_safe `{JsonSafe T} s : safe (json_Unmarshal T s).
Proof. apply safe_bind; [apply Unmarshal_safe|]. intros v _. apply of_json_safe. Qed.

Lemma Decode_single_safe `{JsonSafe T} s : safe (Decode_single T s).
Proof.
  unfold Decode_single. destruct (parse_value _ _) as [[v r]|]; [|done].
  apply safe_bind; [apply of_json_safe|]. intros t _. by case_decide.
Qed.

(** The fields of a flat struct. *)
Ltac solve_fields_safe :=
  intros; apply decode_struct_safe;
  repeat (constructor; [intros; apply safe_bind;
    [first [apply decode_string_safe | apply decode_bytes_safe | apply decode_int_safe]|done]|]);
  constructor.
