(* ===== verification/Sha256.v ===== *)
(** * [crypto/sha256]

    SHA-256 as FIPS 180-4 defines it and Go's [crypto/sha256] implements it,
    executable on byte lists.  betterkey hashes public keys, certificates,
    messages to sign, and the TDX measurements a key is derived from. *)

From S2P Require Import Prelude GoBytes.
From Stdlib Require Import NArith Lia.

Local Open Scope N_scope.

(** ** 32-bit words *)

Definition w32 (x : N) : N := x mod 2 ^ 32.
Definition add32 (x y : N) : N := w32 (x + y).
Definition rotr (n x : N) : N := N.lor (N.shiftr x n) (w32 (N.shiftl x (32 - n))).
Definition not32 (x : N) : N := N.lxor x 0xffffffff.

Definition Ch (x y z : N) : N := N.lxor (N.land x y) (N.land (not32 x) z).
Definition Maj (x y z : N) : N := N.lxor (N.lxor (N.land x y) (N.land x z)) (N.land y z).
Definition Sigma0 (x : N) : N := N.lxor (N.lxor (rotr 2 x) (rotr 13 x)) (rotr 22 x).
Definition Sigma1 (x : N) : N := N.lxor (N.lxor (rotr 6 x) (rotr 11 x)) (rotr 25 x).
Definition sigma0 (x : N) : N := N.lxor (N.lxor (rotr 7 x) (rotr 18 x)) (N.shiftr x 3).
Definition sigma1 (x : N) : N := N.lxor (N.lxor (rotr 17 x) (rotr 19 x)) (N.shiftr x 10).

(** *** The constants

    The round constants are the first 32 bits of the fractional parts of the
    cube roots of the first 64 primes, the initial value those of the square
    roots of the first eight. *)

Definition is_prime (n : N) : bool :=
  forallb (λ k, negb (n mod N.of_nat k =? 0)) (seq 2 (N.to_nat (N.sqrt n) - 1)).

Definition primes : list N := List.filter is_prime (map N.of_nat (seq 2 310)).

(** The integer cube root, one bit at a time from bit [k] down. *)
Fixpoint cbrt_from (k : nat) (r n : N) : N :=
  let r' := r + 2 ^ N.of_nat k in
  let r := if r' * r' * r' <=? n then r' else r in
  match k with O => r | S k => cbrt_from k r n end.

Definition round_constants : list N := Eval vm_compute in
  map (λ p, w32 (cbrt_from 40 0 (p * 2 ^ 96))) primes.

Definition initial_words : list N := Eval vm_compute in
  map (λ p, w32 (N.sqrt (p * 2 ^ 64))) (take 8 primes).

(** The eight words of the chaining value. *)
Record hash_state := HashState { ha : N; hb : N; hc : N; hd : N; he : N; hf : N; hg : N; hh : N }.

Definition initial : hash_state :=
  let w i := nth i initial_words 0 in
  HashState (w 0%nat) (w 1%nat) (w 2%nat) (w 3%nat) (w 4%nat) (w 5%nat) (w 6%nat) (w 7%nat).

Definition round (s : hash_state) (kw : N * N) : hash_state :=
  let '(HashState a b c d e f g h) := s in
  let t1 := w32 (h + Sigma1 e + Ch e f g + kw.1 + kw.2) in
  let t2 := w32 (Sigma0 a + Maj a b c) in
  HashState (add32 t1 t2) a b c (add32 d t1) e f g.

(** The message schedule, latest word first. *)
Definition schedule_step (ws : list N) : list N :=
  let w i := nth i ws 0 in
  w32 (sigma1 (w 1%nat) + w 6%nat + sigma0 (w 14%nat) + w 15%nat) :: ws.
Definition schedule (block : list N) : list N :=
  reverse (Nat.iter 48 schedule_step (reverse block)).

Definition compress (s : hash_state) (block : list N) : hash_state :=
  let '(HashState a b c d e f g h) := s in
  let '(HashState a' b' c' d' e' f' g' h') :=
    foldl round s (zip round_constants (schedule block)) in
  HashState (add32 a a') (add32 b b') (add32 c c') (add32 d d')
            (add32 e e') (add32 f f') (add32 g g') (add32 h h').

(** Big-endian words. *)
Fixpoint words (l : bytes) : list N :=
  match l with
  | a :: b :: c :: d :: l =>
      (Byte.to_N a * 16777216 + Byte.to_N b * 65536 + Byte.to_N c * 256 + Byte.to_N d) :: words l
  | _ => []
  end.
Definition word_bytes (w : N) : bytes :=
  [byte_of_N (w / 16777216 mod 256); byte_of_N (w / 65536 mod 256);
   byte_of_N (w / 256 mod 256); byte_of_N (w mod 256)].

(** The padding: a one bit, zeros, the length in bits on 64 bits. *)
Definition padding (n : nat) : bytes :=
  x80 :: replicate ((119 - n mod 64) mod 64) x00
    ++ word_bytes (w32 (N.of_nat n * 8 / 2 ^ 32)) ++ word_bytes (w32 (N.of_nat n * 8)).

Fixpoint blocks (fuel : nat) (s : hash_state) (ws : list N) : hash_state :=
  match fuel, ws with
  | S fuel, _ :: _ => blocks fuel (compress s (take 16 ws)) (drop 16 ws)
  | _, _ => s
  end.

(** [sha256.Sum256(m)] *)
Definition Sum256 (m : bytes) : bytes :=
  let ws := words (m ++ padding (length m)) in
  let '(HashState a b c d e f g h) := blocks (length ws) initial ws in
  concat (map word_bytes [a; b; c; d; e; f; g; h]).

Lemma Sum256_length m : length (Sum256 m) = 32%nat.
Proof. unfold Sum256. by destruct (blocks _ _ _). Qed.

(** The test vectors of FIPS 180-4. *)
Example Sum256_abc : hex_EncodeToString (Sum256 ($"abc")) =
  $"ba7816bf8f01cfea414140de5dae2223b00361a396177a9cb410ff61f20015ad".
Proof. vm_compute. reflexivity. Qed.
Example Sum256_empty : hex_EncodeToString (Sum256 []) =
  $"e3b0c44298fc1c149afbf4c8996fb92427ae41e4649b934ca495991b7852b855".
Proof. vm_compute. reflexivity. Qed.
Example Sum256_two_blocks : hex_EncodeToString
  (Sum256 ($"abcdbcdecdefdefgefghfghighijhijkijkljklmklmnlmnomnopnopq")) =
  $"248d6a61d20638b8e5c026930c3e6039a33ce45964ff2167f6ecedd419db06c1".
Proof. vm_compute. reflexivity. Qed.
