(* ===== verification/Common.v ===== *)
(** * internal/common: configuration, data and master-secret services

    [common.go]: the data types every component shares and their JSON
    encodings; [services.go]: [Member], the vault built on the cluster's
    master secret.  The encryption of ego's [ecrypto] and the HKDF of
    [golang.org/x/crypto] are not part of the repository: they are the
    parameters [Ecrypto] and [HkdfLib], with their documented behaviour in
    [EcryptoLaws] and [HkdfLaws].

    A Go interface value that holds a typed nil pointer is not equal to
    [nil]: [Vault] keeps the two apart. *)

From S2P Require Import Prelude GoBytes GoText Json Sha256.
From Stdlib Require Import ZArith Lia.

Local Open Scope Z_scope.

(** ** common.go: configuration *)

Record ClusterConfig := {
  Id : bytes;
  EncryptionKey : bytes;
  Port : Z;                      (* uint32 *)
  PeerAddresses : list bytes;
  SeedNodes : list bytes;
  BindAddress : bytes;           (* default 0.0.0.0 *)
  NodeHost : bytes;
  MasterKeyFolder : bytes;       (* default /sealed *)
  ValkeyUris : list bytes;
  ValkeyUser : bytes;
  ValkeyPassword : bytes;
  ValkeyNamespace : bytes;
  ValkeyTLS : bool;
  Domains : list bytes;
  ServerPort : Z;
  AcmeDnsToken : bytes;
  AcmeOwner : bytes;
  AcmeRetryDelay : Z;            (* default 5 *)
  AcmeRetryCount : Z;            (* default 10 *)
  AcmeProvider : bytes;
  DevMode : bool;                (* default true *)
  EnforceSealQuoteVerify : bool; (* default true *)
  EnforceKeyRequestQuoteVerify : bool; (* default true *)
  JournalEndpoint : bytes;
  JournalRegion : bytes;
  JournalAccessKey : bytes;
  JournalSecretKey : bytes
}.

Record EnclaveConfig := {
  ProductId : Z;                 (* uint16 *)
  Debug : bool;
  SignerId : bytes;
  SecurityVersions : list Z      (* []uint *)
}.

(** ** common.go: data *)

Record NodeInfo := { ni_Id : bytes; ni_ClusterId : bytes }.

Record MasterSecret := {
  ms_Secret : bytes;
  ms_CreatorId : bytes;
  ms_Created : Z                 (* uint64 *)
}.

Record HeartBeat := { hb_Nonce : bytes; hb_Value : bytes }.

Record NodeMeta := {
  nm_Id : bytes;
  nm_ClusterId : bytes;
  nm_State : Z;                  (* int *)
  nm_HeartBeat : option HeartBeat
}.

Record Member := {
  m_NodeInfo : option NodeInfo;
  m_MasterSecret : option MasterSecret
}.

Record HeartBeatStat := { Total : Z; Errors : Z }.

Record HeartBeatWindow := {
  From : Z;
  Window : Z;
  Stats : gmap bytes HeartBeatStat
}.

Record StorageStat := { Size : Z; ModTime : Z }.

Record SGXReport := {
  sr_Data : bytes;
  sr_SecurityVersion : Z;
  sr_Debug : bool;
  sr_UniqueID : bytes;
  sr_SignerID : bytes;
  sr_ProductID : Z;
  sr_TCBStatus : bytes;
  sr_TCBAdvisories : list bytes;
  sr_TCBAdvisoriesErr : bytes
}.

#[export] Instance NodeInfo_eq_dec : EqDecision NodeInfo.
Proof. solve_decision. Defined.
#[export] Instance MasterSecret_eq_dec : EqDecision MasterSecret.
Proof. solve_decision. Defined.
#[export] Instance HeartBeat_eq_dec : EqDecision HeartBeat.
Proof. solve_decision. Defined.
#[export] Instance NodeMeta_eq_dec : EqDecision NodeMeta.
Proof. solve_decision. Defined.
#[export] Instance Member_eq_dec : EqDecision Member.
Proof. solve_decision. Defined.

Definition STORE_PREFIX_RSA_KEY : bytes := $"rsa:".
Definition STORE_PREFIX_ECDSA_KEY : bytes := $"ecdsa:".
Definition STORE_PREFIX_SESSION : bytes := $"session:".
Definition STORE_PREFIX_DEV : bytes := $"dev:".
Definition KEY_REQ_SESSION_EXPIRY_SECONDS : Z := 1 * 60.

(** ** JSON encodings *)

Definition NodeInfo_zero : NodeInfo := {| ni_Id := []; ni_ClusterId := [] |}.
Definition NodeInfo_fields : fields NodeInfo :=
  [($"id", λ v t, x ← decode_string (ni_Id t) v;
      mret {| ni_Id := x; ni_ClusterId := ni_ClusterId t |});
   ($"clusterId", λ v t, x ← decode_string (ni_ClusterId t) v;
      mret {| ni_Id := ni_Id t; ni_ClusterId := x |})].
Definition NodeInfo_json (t : NodeInfo) : json :=
  JObj [($"id", JStr (ni_Id t)); ($"clusterId", JStr (ni_ClusterId t))].
Definition NodeInfo_ok (t : NodeInfo) : Prop := valid_utf8 (ni_Id t) ∧ valid_utf8 (ni_ClusterId t).

(** Field names are ASCII. *)
Ltac solve_wf :=
  intros; simpl in *; destruct_and?; split_and?; try done; eauto with betterkey;
  try by apply (utf8_ok_valid 40).

#[export, program] Instance NodeInfo_codec : JsonCodec NodeInfo := {|
  zero := NodeInfo_zero; to_json := NodeInfo_json;
  of_json := decode_struct NodeInfo_fields; json_ok := NodeInfo_ok |}.
Next Obligation. intros [] [??]. solve_wf. Qed.
Next Obligation. intros [] _. solve_codec. Qed.

Definition MasterSecret_zero : MasterSecret :=
  {| ms_Secret := []; ms_CreatorId := []; ms_Created := 0 |}.
Definition MasterSecret_fields : fields MasterSecret :=
  [($"secret", λ v t, x ← decode_string (ms_Secret t) v;
      mret {| ms_Secret := x; ms_CreatorId := ms_CreatorId t; ms_Created := ms_Created t |});
   ($"creatorId", λ v t, x ← decode_string (ms_CreatorId t) v;
      mret {| ms_Secret := ms_Secret t; ms_CreatorId := x; ms_Created := ms_Created t |});
   ($"created", λ v t, x ← decode_int 0 uint64_max (ms_Created t) v;
      mret {| ms_Secret := ms_Secret t; ms_CreatorId := ms_CreatorId t; ms_Created := x |})].
Definition MasterSecret_json (t : MasterSecret) : json :=
  JObj [($"secret", JStr (ms_Secret t)); ($"creatorId", JStr (ms_CreatorId t));
        ($"created", enc_int (ms_Created t))].
Definition MasterSecret_ok (t : MasterSecret) : Prop :=
  valid_utf8 (ms_Secret t) ∧ valid_utf8 (ms_CreatorId t) ∧ 0 ≤ ms_Created t ≤ uint64_max.

#[export, program] Instance MasterSecret_codec : JsonCodec MasterSecret := {|
  zero := MasterSecret_zero; to_json := MasterSecret_json;
  of_json := decode_struct MasterSecret_fields; json_ok := MasterSecret_ok |}.
Next Obligation. intros [] (?&?&?). solve_wf. Qed.
Next Obligation. intros [] (?&?&?). solve_codec. Qed.

Definition HeartBeat_zero : HeartBeat := {| hb_Nonce := []; hb_Value := [] |}.
Definition HeartBeat_fields : fields HeartBeat :=
  [($"nonce", λ v t, x ← decode_string (hb_Nonce t) v;
      mret {| hb_Nonce := x; hb_Value := hb_Value t |});
   ($"value", λ v t, x ← decode_string (hb_Value t) v;
      mret {| hb_Nonce := hb_Nonce t; hb_Value := x |})].
Definition HeartBeat_json (t : HeartBeat) : json :=
  JObj [($"nonce", JStr (hb_Nonce t)); ($"value", JStr (hb_Value t))].
Definition HeartBeat_ok (t : HeartBeat) : Prop := valid_utf8 (hb_Nonce t) ∧ valid_utf8 (hb_Value t).

Definition NodeMeta_zero : NodeMeta :=
  {| nm_Id := []; nm_ClusterId := []; nm_State := 0; nm_HeartBeat := None |}.
Definition NodeMeta_fields : fields NodeMeta :=
  [($"id", λ v t, x ← decode_string (nm_Id t) v;
      mret {| nm_Id := x; nm_ClusterId := nm_ClusterId t; nm_State := nm_State t;
              nm_HeartBeat := nm_HeartBeat t |});
   ($"clusterId", λ v t, x ← decode_string (nm_ClusterId t) v;
      mret {| nm_Id := nm_Id t; nm_ClusterId := x; nm_State := nm_State t;
              nm_HeartBeat := nm_HeartBeat t |});
   ($"state", λ v t, x ← decode_int int64_min int64_max (nm_State t) v;
      mret {| nm_Id := nm_Id t; nm_ClusterId := nm_ClusterId t; nm_State := x;
              nm_HeartBeat := nm_HeartBeat t |});
   ($"heartbeat", λ v t,
      x ← decode_ptr (decode_struct HeartBeat_fields) HeartBeat_zero (nm_HeartBeat t) v;
      mret {| nm_Id := nm_Id t; nm_ClusterId := nm_ClusterId t; nm_State := nm_State t;
              nm_HeartBeat := x |})].
Definition NodeMeta_json (t : NodeMeta) : json :=
  JObj [($"id", JStr (nm_Id t)); ($"clusterId", JStr (nm_ClusterId t));
        ($"state", enc_int (nm_State t)); ($"heartbeat", enc_ptr HeartBeat_json (nm_HeartBeat t))].
Definition NodeMeta_ok (t : NodeMeta) : Prop :=
  valid_utf8 (nm_Id t) ∧ valid_utf8 (nm_ClusterId t) ∧ int64_min ≤ nm_State t ≤ int64_max
  ∧ match nm_HeartBeat t with None => True | Some h => HeartBeat_ok h end.

#[export, program] Instance NodeMeta_codec : JsonCodec NodeMeta := {|
  zero := NodeMeta_zero; to_json := NodeMeta_json;
  of_json := decode_struct NodeMeta_fields; json_ok := NodeMeta_ok |}.
Next Obligation. intros [? ? ? [[]|]] (?&?&?&Hh); [destruct Hh|]; solve_wf. Qed.
Next Obligation. intros [? ? ? [[]|]] (?&?&?&?); solve_codec. Qed.

Definition Member_zero : Member := {| m_NodeInfo := None; m_MasterSecret := None |}.
Definition Member_fields : fields Member :=
  [($"nodeInfo", λ v t,
      x ← decode_ptr (decode_struct NodeInfo_fields) NodeInfo_zero (m_NodeInfo t) v;
      mret {| m_NodeInfo := x; m_MasterSecret := m_MasterSecret t |});
   ($"masterSecret", λ v t,
      x ← decode_ptr (decode_struct MasterSecret_fields) MasterSecret_zero (m_MasterSecret t) v;
      mret {| m_NodeInfo := m_NodeInfo t; m_MasterSecret := x |})].
Definition Member_json (t : Member) : json :=
  JObj [($"nodeInfo", enc_ptr NodeInfo_json (m_NodeInfo t));
        ($"masterSecret", enc_ptr MasterSecret_json (m_MasterSecret t))].
Definition Member_ok (t : Member) : Prop :=
  match m_NodeInfo t with None => True | Some i => NodeInfo_ok i end
  ∧ match m_MasterSecret t with None => True | Some s => MasterSecret_ok s end.

#[export, program] Instance Member_codec : JsonCodec Member := {|
  zero := Member_zero; to_json := Member_json;
  of_json := decode_struct Member_fields; json_ok := Member_ok |}.
Next Obligation. intros [[[]|] [[]|]] [Hi Hs]; destruct_and?; try destruct Hi as [??];
  try destruct Hs as (?&?&?); solve_wf. Qed.
Next Obligation. intros [[[]|] [[]|]] [Hi Hs]; simpl in Hs; try destruct Hs as (?&?&?); solve_codec. Qed.

(** ** services.go: the master secret as a vault *)

(** The system's random source: [rand.Reader]. *)
Class Entropy (E : Type) := {
  draw : nat → E → bytes * E;
  draw_length n e : length (draw n e).1 = n
}.

(** ego's [ecrypto]: authenticated encryption with a given key, and sealing
    to the enclave's identity. *)
Class Ecrypto (E : Type) := {
  ecrypto_Encrypt : bytes → bytes → E → res bytes * E;   (* plaintext, key *)
  ecrypto_Decrypt : bytes → bytes → res bytes;           (* ciphertext, key *)
  ecrypto_SealWithProductKey : bytes → E → res bytes * E;
  ecrypto_Unseal : bytes → res bytes
}.

Class EcryptoLaws (E : Type) `{Ecrypto E} := {
  encrypt_total data key e : length key = 32%nat →
    ∃ c e', ecrypto_Encrypt data key e = (Ok c, e');
  decrypt_encrypt data key e c e' :
    ecrypto_Encrypt data key e = (Ok c, e') → ecrypto_Decrypt c key = Ok data;
  decrypt_safe c key p : ecrypto_Decrypt c key ≠ Panic p;
  seal_total data e : ∃ c e', ecrypto_SealWithProductKey data e = (Ok c, e');
  unseal_seal data e c e' :
    ecrypto_SealWithProductKey data e = (Ok c, e') → ecrypto_Unseal c = Ok data
}.

(** [io.ReadFull(hkdf.New(sha256.New, key, salt, info), secret)] for a
    buffer of the given length: RFC 5869 yields at most 255 blocks. *)
Class HkdfLib := hkdf_read : bytes → bytes → bytes → nat → res bytes.
Class HkdfLaws `{HkdfLib} :=
  hkdf_read_ok key salt info n : (n ≤ 255 * 32)%nat →
    ∃ k, hkdf_read key salt info n = Ok k ∧ length k = n.

(** crypto/keygen.go: [HKDF] *)
Definition HKDF `{HkdfLib} (key salt info : bytes) (length : Z) : res bytes :=
  if length <? 0 then Panic ($"runtime error: makeslice: len out of range")
  else hkdf_read key salt info (Z.to_nat length).

Section member.
Context {E : Type} `{Ecrypto E} `{HkdfLib}.

(** The decoded master secret.  [m.MasterSecret] may be nil. *)
Definition member_key (m : Member) : res bytes :=
  ms ← deref (m_MasterSecret m); hex_DecodeString (ms_Secret ms).

Definition Member_Seal (m : Member) (data : bytes) : M E bytes := λ e,
  match member_key m with
  | Ok k => ecrypto_Encrypt data k e
  | Err err => (Err err, e)
  | Panic p => (Panic p, e)
  end.

Definition Member_Unseal (m : Member) (data : bytes) : res bytes :=
  k ← member_key m; ecrypto_Decrypt data k.

Definition Member_HKDF (m : Member) (data info : bytes) (length : Z) : res bytes :=
  k ← member_key m; HKDF k data info length.
End member.

(** A value of the interface type [common.Vault]: nil, or a [*Member] that
    may itself be a nil pointer. *)
Inductive Vault := VaultNil | VaultMember (m : option Member).

(** The comparison [vault == nil]. *)
Definition vault_is_nil (v : Vault) : bool := match v with VaultNil => true | _ => false end.

Section vault.
Context {E : Type} `{Ecrypto E} `{HkdfLib}.

(** Method calls through the interface. *)
Definition vault_member (v : Vault) : res Member :=
  match v with VaultNil => Panic nil_deref | VaultMember m => deref m end.
Definition Seal (v : Vault) (data : bytes) : M E bytes :=
  m ← lift (vault_member v); Member_Seal m data.
Definition Unseal (v : Vault) (data : bytes) : res bytes :=
  m ← vault_member v; Member_Unseal m data.
Definition Vault_HKDF (v : Vault) (data info : bytes) (length : Z) : res bytes :=
  m ← vault_member v; Member_HKDF m data info length.
End vault.

(** The vault of a node that holds the master key [k]. *)
Definition member_with_key (m : Member) (k : bytes) : Prop :=
  member_key m = Ok k ∧ length k = 32%nat.
Definition vault_with_key (v : Vault) (k : bytes) : Prop :=
  ∃ m, v = VaultMember (Some m) ∧ member_with_key m k.

Section vault_lemmas.
Context {E : Type} `{EcryptoLaws E} `{HkdfLaws}.

Lemma Seal_with_key v k data e : vault_with_key v k →
  Seal v data e = ecrypto_Encrypt data k e.
Proof. intros (m & -> & Hk & _). unfold Seal, Member_Seal. simpl. unfold mbind, M_bind, lift. by rewrite Hk. Qed.

Lemma Unseal_with_key v k data : vault_with_key v k →
  Unseal v data = ecrypto_Decrypt data k.
Proof. intros (m & -> & Hk & _). unfold Unseal, Member_Unseal. simpl. by rewrite Hk. Qed.

Lemma Seal_total v k data e : vault_with_key v k → ∃ c e', Seal v data e = (Ok c, e').
Proof.
  intros Hv. rewrite (Seal_with_key v k) by done. destruct Hv as (m & _ & _ & Hl).
  by apply encrypt_total.
Qed.

Lemma Unseal_safe v k data p : vault_with_key v k → Unseal v data ≠ Panic p.
Proof. intros Hv. rewrite (Unseal_with_key v k) by done. apply decrypt_safe. Qed.

(** [Unseal] inverts [Seal] under the same master key, also between two
    nodes that hold it. *)
Lemma Unseal_Seal v v' k data e c e' : vault_with_key v k → vault_with_key v' k →
  Seal v data e = (Ok c, e') → Unseal v' c = Ok data.
Proof.
  intros Hv Hv'. rewrite (Seal_with_key v k), (Unseal_with_key v' k) by done.
  apply decrypt_encrypt.
Qed.
End vault_lemmas.

(** ** Concrete instances

    Stand-ins that satisfy the documented behaviour of the libraries.  The
    witnesses of theorems about code that calls the libraries run on them. *)
Module Toy.
(** A counter as the random source. *)
#[export, program] Instance toy_entropy : Entropy N := {|
  draw n e := (replicate n (byte_of_N (e mod 256)), (e + 1)%N) |}.
Next Obligation. intros n e. apply length_replicate. Qed.

(** Encryption that prefixes the key, sealing that prefixes a tag. *)
Definition strip (p s : bytes) (e : error) : res bytes :=
  if decide (take (length p) s = p) then Ok (drop (length p) s) else Err e.

#[export] Instance toy_ecrypto : Ecrypto N := {|
  ecrypto_Encrypt data key e :=
    (if decide (length key = 32%nat) then Ok (key ++ data)
     else Err (ErrString ($"crypto/aes: invalid key size")), (e + 1)%N);
  ecrypto_Decrypt c key := strip key c (ErrString ($"cipher: message authentication failed"));
  ecrypto_SealWithProductKey data e := (Ok ($"sealed" ++ data), (e + 1)%N);
  ecrypto_Unseal c := strip ($"sealed") c (ErrString ($"unseal failed")) |}.

Lemma strip_app p s e : strip p (p ++ s) e = Ok s.
Proof. unfold strip. rewrite take_app_length, drop_app_length. by rewrite decide_True. Qed.

#[export] Instance toy_ecrypto_laws : EcryptoLaws N.
Proof.
  split; simpl.
  - intros data key e Hk. rewrite decide_True by done. eauto.
  - intros data key e c e' Ec. case_decide; simplify_eq. apply strip_app.
  - intros c key p. unfold strip. by case_decide.
  - eauto.
  - intros data e c e' [= <- _]. apply (strip_app ($"sealed")).
Qed.

(** Repeated SHA-256 of everything as the derived key. *)
#[export] Instance toy_hkdf : HkdfLib := λ key salt info n,
  if decide (n ≤ 255 * 32)%nat
  then Ok (take n (concat (replicate (S (n / 32)) (Sum256 (key ++ salt ++ info)))))
  else Err (ErrString ($"hkdf: entropy limit reached")).

#[export] Instance toy_hkdf_laws : HkdfLaws.
Proof.
  intros key salt info n Hn. unfold hkdf_read, toy_hkdf. rewrite decide_True by done.
  eexists. split; [done|]. rewrite length_take.
  assert (∀ k, length (concat (replicate k (Sum256 (key ++ salt ++ info)))) = (k * 32)%nat) as ->.
  { induction k as [|k IH]; [done|]. cbn [replicate concat]. rewrite length_app, Sum256_length, IH. lia. }
  pose proof (Nat.div_mod_eq n 32). pose proof (Nat.mod_upper_bound n 32). lia.
Qed.

Definition key32 : bytes := replicate 32 "k"%byte.
Definition secret32 : MasterSecret :=
  {| ms_Secret := hex_EncodeToString key32; ms_CreatorId := []; ms_Created := 1718000000000 |}.
Definition node1 : NodeInfo := {| ni_Id := $"node1"; ni_ClusterId := $"prod" |}.
Definition member1 : Member :=
  {| m_NodeInfo := Some node1; m_MasterSecret := Some secret32 |}.

Lemma node1_ok : NodeInfo_ok node1.
Proof. split; by apply (utf8_ok_valid 40). Qed.
Lemma secret32_ok : MasterSecret_ok secret32.
Proof. split_and!; [by apply (utf8_ok_valid 80)|by constructor|vm_compute; done..]. Qed.
Lemma member1_key : vault_with_key (VaultMember (Some member1)) key32.
Proof. exists member1. split; [done|]. split; [vm_compute; done|done]. Qed.
End Toy.
