(* ===== verification/CommonSet.v ===== *)
(** * internal/common/set.go

    The string set that holds seed nodes and peer names: a Go map with
    empty values behind a mutex.  Each operation is atomic (it holds the
    lock), so each is a function on the set.  The empty string is never a
    member.  [Sorted] iterates over the map, whose order Go leaves open, and
    sorts: [Sorted_order_irrelevant] shows the result does not depend on it,
    which is what lets all nodes agree on the first seed node. *)

From S2P Require Import Prelude GoBytes.

Definition Set_ : Type := gset bytes.

Definition NewSet : Set_ := ∅.
Definition Size (s : Set_) : nat := size (s : gset bytes).
Definition Add (s : Set_) (e : bytes) : Set_ :=
  if decide (e ≠ []) then {[ e ]} ∪ (s : gset bytes) else s.
Definition AddAll (s : Set_) (es : list bytes) : Set_ := foldl Add s es.
Definition Remove (s : Set_) (e : bytes) : Set_ :=
  if decide (e ≠ []) then (s : gset bytes) ∖ {[ e ]} else s.
Definition Clear (s : Set_) : Set_ := ∅.
Definition Contains (s : Set_) (e : bytes) : bool :=
  if decide (e ≠ []) then bool_decide (e ∈ (s : gset bytes)) else false.

(** The slice filled by [for k := range s.m] in the order [order], sorted. *)
Definition Sorted_in (order : list bytes) : list bytes := sort_Strings order.
Definition Sorted (s : Set_) : list bytes := Sorted_in (elements (s : gset bytes)).
Definition Equals (s : Set_) (other : list bytes) : bool := bool_decide (Sorted s = other).

(** No operation lets the empty string in. *)
Definition set_ok (s : Set_) : Prop := [] ∉ (s : gset bytes).

Lemma Add_spec s e x : x ∈ (Add s e : gset bytes) ↔ x ∈ (s : gset bytes) ∨ (x = e ∧ e ≠ []).
Proof. unfold Add. case_decide; set_solver. Qed.

Lemma AddAll_spec s es x :
  x ∈ (AddAll s es : gset bytes) ↔ x ∈ (s : gset bytes) ∨ (x ∈ es ∧ x ≠ []).
Proof.
  unfold AddAll. revert s. induction es as [|e es IH]; intros s; simpl; [set_solver|].
  rewrite IH, Add_spec, elem_of_cons. naive_solver.
Qed.

Lemma Remove_spec s e x : set_ok s →
  x ∈ (Remove s e : gset bytes) ↔ x ∈ (s : gset bytes) ∧ x ≠ e.
Proof.
  unfold Remove, set_ok. intros Hs. case_decide as He; [set_solver|].
  subst e. split; [|tauto]. intros Hx. split; [done|]. by intros ->.
Qed.

Lemma Contains_spec s e : set_ok s → Contains s e = true ↔ e ∈ (s : gset bytes).
Proof.
  unfold Contains, set_ok. intros Hs. case_decide as He; [by rewrite bool_decide_eq_true|].
  subst e. by split.
Qed.

Lemma set_ok_NewSet : set_ok NewSet.
Proof. unfold set_ok, NewSet. set_solver. Qed.
Lemma set_ok_Add s e : set_ok s → set_ok (Add s e).
Proof. unfold set_ok. rewrite Add_spec. naive_solver. Qed.
Lemma set_ok_AddAll s es : set_ok s → set_ok (AddAll s es).
Proof. unfold set_ok. rewrite AddAll_spec. naive_solver. Qed.
Lemma set_ok_Remove s e : set_ok s → set_ok (Remove s e).
Proof. intros Hs. unfold set_ok. rewrite Remove_spec by done. naive_solver. Qed.

#[export] Hint Resolve set_ok_NewSet set_ok_Add set_ok_AddAll set_ok_Remove : betterkey.

Lemma elem_of_Sorted s x : x ∈ Sorted s ↔ x ∈ (s : gset bytes).
Proof. unfold Sorted, Sorted_in. rewrite sort_Strings_perm. apply elem_of_elements. Qed.

Lemma NoDup_Sorted s : NoDup (Sorted s).
Proof. unfold Sorted, Sorted_in. rewrite sort_Strings_perm. apply NoDup_elements. Qed.

Lemma Sorted_sorted s : StronglySorted bytes_le (Sorted s).
Proof. apply sort_Strings_sorted. Qed.

Lemma Sorted_length s : length (Sorted s) = Size s.
Proof. unfold Sorted, Sorted_in. by rewrite sort_Strings_perm. Qed.

(** The head of the sorted slice is the least element. *)
Lemma Sorted_head_least s x y l : Sorted s = x :: l → y ∈ (s : gset bytes) → bytes_le x y.
Proof.
  intros E Hy. pose proof (Sorted_sorted s) as HS. rewrite E in HS.
  apply elem_of_Sorted in Hy. rewrite E in Hy. apply elem_of_cons in Hy as [->|Hy].
  - destruct (total bytes_le x x); done.
  - inversion HS as [|?? _ HF]. by apply (proj1 (Forall_forall _ _) HF).
Qed.

(** Whatever order the map iteration
    delivers the elements in, [Sorted] returns one and the same slice: it
    lists exactly the non-empty strings added and not removed, once each, in
    bytewise order. *)
Theorem Sorted_order_irrelevant (es rs order : list bytes) :
  let s := foldl Remove (AddAll NewSet es) rs in
  order ≡ₚ elements (s : gset bytes) →
  Sorted_in order = Sorted s ∧ StronglySorted bytes_le (Sorted s) ∧ NoDup (Sorted s) ∧
  ∀ x, x ∈ Sorted s ↔ x ∈ es ∧ x ≠ [] ∧ x ∉ rs.
Proof.
  intros s Ho. split; [by apply sort_Strings_unique|].
  split; [apply Sorted_sorted|]. split; [apply NoDup_Sorted|].
  intros x. rewrite elem_of_Sorted. subst s.
  assert (∀ s, set_ok s → x ∈ (foldl Remove s rs : gset bytes) ↔ x ∈ (s : gset bytes) ∧ x ∉ rs) as HR.
  { clear Ho. induction rs as [|r rs IH]; intros s Hs; simpl; [set_solver|].
    rewrite IH, Remove_spec, not_elem_of_cons by auto with betterkey. tauto. }
  rewrite HR by auto with betterkey. rewrite AddAll_spec. unfold NewSet. set_solver.
Qed.

Lemma Sorted_order_irrelevant_witness :
  let s := foldl Remove (AddAll NewSet [$"n2"; $"n1"; []; $"n3"]) [$"n3"] in
  reverse (elements (s : gset bytes)) ≡ₚ elements (s : gset bytes) ∧
  Sorted_in (reverse (elements (s : gset bytes))) = Sorted s ∧ Sorted s = [$"n1"; $"n2"].
Proof.
  intros s. split; [apply reverse_Permutation|]. split; [|vm_compute; reflexivity].
  apply (Sorted_order_irrelevant [$"n2"; $"n1"; []; $"n3"] [$"n3"]).
  apply reverse_Permutation.
Defined.
