(* ===== verification/MasterKey.v ===== *)
(** * internal/sgx/enclave.go: the master key store

    The sealed master key of a node: a file named after the node, sealed by
    ego to the enclave when the node runs in SGX, in clear otherwise, with a
    cache that [Read] fills.  The file system is a map from paths to
    contents, with paths on which I/O fails. *)

From S2P Require Import Prelude GoBytes GoText Json Common.
From Stdlib Require Import ZArith Lia.

(** ** The file system *)

Record FS := { fs_files : gmap bytes bytes; fs_fault : gmap bytes error }.

(** [os.ReadFile] *)
Definition ReadFile (fs : FS) (path : bytes) : res bytes :=
  match fs_fault fs !! path with
  | Some e => Err e
  | None => of_option (fs_files fs !! path) ErrNotExist
  end.

(** [os.WriteFile] *)
Definition WriteFile (fs : FS) (path data : bytes) : res FS :=
  match fs_fault fs !! path with
  | Some e => Err e
  | None => Ok {| fs_files := <[path:=data]> (fs_files fs); fs_fault := fs_fault fs |}
  end.

(** [errors.Is] *)
Fixpoint errors_Is (e target : error) : bool :=
  bool_decide (e = target) ||
  match e with ErrWrap _ e' => errors_Is e' target | _ => false end.

(** ** MasterKeyStore *)

Record MasterKeyStore := {
  File : bytes;
  ConfiguredNodeId : NodeInfo;
  cachedMasterkey : option Member;
  hasSGX : bool
}.

Definition set_cache (ks : MasterKeyStore) (m : option Member) : MasterKeyStore :=
  {| File := File ks; ConfiguredNodeId := ConfiguredNodeId ks;
     cachedMasterkey := m; hasSGX := hasSGX ks |}.

(** [config] is nil outside SGX. *)
Definition NewMasterkeyStore (nodeInfo : NodeInfo) (keyFolder : bytes)
    (config : option EnclaveConfig) : MasterKeyStore :=
  {| File := path_Join [keyFolder; ni_Id nodeInfo];
     ConfiguredNodeId := nodeInfo;
     cachedMasterkey := None;
     hasSGX := bool_decide (is_Some config) |}.

(** [if err != nil { panic(err) }] *)
Definition must {A} (r : res A) : res A :=
  match r with Err e => Panic (Error e) | r => r end.

Section store.
Context {E : Type} `{Ecrypto E}.

(** The second half of [Read]: panic on an error so far, parse, cache. *)
Definition mks_load (ks : MasterKeyStore) (plain : res bytes)
    : res (option Member * MasterKeyStore) :=
  p ← must plain;
  m ← must (json_Unmarshal Member p);
  mret (Some m, set_cache ks (Some m)).

(** [Read]: the member ([None] is the nil pointer, when there is no file)
    and the store with its new cache. *)
Definition mks_Read (ks : MasterKeyStore) (fs : FS) : res (option Member * MasterKeyStore) :=
  match cachedMasterkey ks with
  | Some m => Ok (Some m, ks)
  | None =>
      match ReadFile fs (File ks) with
      | Err e =>
          if errors_Is e ErrNotExist then Ok (None, ks)
          else if hasSGX ks
          (* [plain, err = ecrypto.Unseal(content, e)]: the read error is
             replaced by the outcome of unsealing the nil content *)
          then mks_load ks (ecrypto_Unseal [])
          else mks_load ks (Err e)
      | content => mks_load ks (c ← content; if hasSGX ks then ecrypto_Unseal c else Ok c)
      end
  end.

(** [Write]: the cache is left as it is. *)
Definition mks_Write (ks : MasterKeyStore) (secret : MasterSecret) (fs : FS) : M E FS := λ e,
  let m := {| m_NodeInfo := Some (ConfiguredNodeId ks); m_MasterSecret := Some secret |} in
  let json := json_Marshal m in
  let '(sealed, e) := if hasSGX ks then ecrypto_SealWithProductKey json e else (Ok json, e) in
  (s ← must sealed; must (WriteFile fs (File ks) s), e).
End store.

(** What a store holds: the member on disk. *)
Definition on_disk {E} `{Ecrypto E} (ks : MasterKeyStore) (fs : FS) (m : Member) : Prop :=
  fs_fault fs !! File ks = None ∧
  ∃ c, fs_files fs !! File ks = Some c ∧
       (p ← (if hasSGX ks then ecrypto_Unseal c else Ok c); json_Unmarshal Member p) = Ok m.

Section store_lemmas.
Context {E : Type} `{EcryptoLaws E}.
Implicit Types (ks : MasterKeyStore) (fs : FS).

Lemma mks_Read_on_disk ks fs m : cachedMasterkey ks = None → on_disk ks fs m →
  mks_Read ks fs = Ok (Some m, set_cache ks (Some m)).
Proof.
  intros Hc (Hf & c & Hd & Hm). unfold mks_Read, ReadFile. rewrite Hc, Hf, Hd. simpl.
  unfold mks_load. inv_res. destruct (hasSGX ks); simplify_eq/=;
    repeat match goal with H : _ = Ok _ |- _ => rewrite H; clear H; simpl end; done.
Qed.

Lemma mks_Read_cached ks fs m : cachedMasterkey ks = Some m → mks_Read ks fs = Ok (Some m, ks).
Proof. intros Hc. unfold mks_Read. by rewrite Hc. Qed.

Lemma mks_Read_missing ks fs : cachedMasterkey ks = None →
  fs_fault fs !! File ks = None → fs_files fs !! File ks = None →
  mks_Read ks fs = Ok (None, ks).
Proof. intros Hc Hf Hd. unfold mks_Read, ReadFile. by rewrite Hc, Hf, Hd. Qed.

Lemma mks_Write_on_disk ks secret fs e :
  fs_fault fs !! File ks = None → MasterSecret_ok secret → NodeInfo_ok (ConfiguredNodeId ks) →
  ∃ fs' e', mks_Write ks secret fs e = (Ok fs', e') ∧
    on_disk ks fs' {| m_NodeInfo := Some (ConfiguredNodeId ks); m_MasterSecret := Some secret |}.
Proof.
  intros Hf Hs Hn. unfold mks_Write, WriteFile, on_disk.
  set (m := {| m_NodeInfo := _ |}).
  assert (json_Unmarshal Member (json_Marshal m) = Ok m) as Hrt by by apply json_round_trip.
  destruct (hasSGX ks).
  - destruct (seal_total (json_Marshal m) e) as (c & e' & Ec). rewrite Ec. simpl.
    rewrite Hf. simpl. eexists _, _. split; [done|]. split; [done|]. exists c.
    simpl. rewrite lookup_insert_eq. split; [done|]. by rewrite (unseal_seal _ _ _ _ Ec).
  - simpl. rewrite Hf. simpl. eexists _, _. split; [done|]. split; [done|].
    eexists. simpl. rewrite lookup_insert_eq. by split.
Qed.
End store_lemmas.

(** C27.  A master key that [Write] stores is what the node reads after a
    restart: a new store over the same folder, on the same files, returns
    the configured node id with exactly that secret.  The store that is
    running and has already cached a member keeps answering with the old
    one, since [Write] does not touch the cache. *)
Theorem master_key_survives_restart {E} `{EcryptoLaws E}
    (nodeInfo : NodeInfo) (folder : bytes) (config : option EnclaveConfig)
    (cache : option Member) (secret : MasterSecret) (fs : FS) (e : E) :
  let fresh := NewMasterkeyStore nodeInfo folder config in
  let ks := set_cache fresh cache in
  let m := {| m_NodeInfo := Some nodeInfo; m_MasterSecret := Some secret |} in
  fs_fault fs !! File ks = None → NodeInfo_ok nodeInfo → MasterSecret_ok secret →
  ∃ fs' e', mks_Write ks secret fs e = (Ok fs', e') ∧
    mks_Read fresh fs' = Ok (Some m, set_cache fresh (Some m)) ∧
    mks_Read ks fs' = Ok (Some (default m cache), set_cache ks (Some (default m cache))).
Proof.
  intros fresh ks m Hf Hn Hs.
  destruct (mks_Write_on_disk ks secret fs e Hf Hs Hn) as (fs' & e' & Hw & Hd).
  exists fs', e'. split; [done|]. split; [by apply mks_Read_on_disk|].
  destruct cache as [old|]; [by apply mks_Read_cached|by apply mks_Read_on_disk].
Qed.

Import Toy.

Lemma master_key_survives_restart_witness :
  let fs := {| fs_files := ∅; fs_fault := ∅ |} in
  let fresh := NewMasterkeyStore node1 ($"/sealed") None in
  ∃ fs' e', mks_Write fresh secret32 fs 0%N = (Ok fs', e') ∧
    mks_Read fresh fs' = Ok (Some member1, set_cache fresh (Some member1)).
Proof.
  intros fs fresh.
  destruct (master_key_survives_restart node1 ($"/sealed") None None secret32 fs 0%N
    eq_refl node1_ok secret32_ok) as (fs' & e' & Hw & Hr & _).
  exists fs', e'. split; [exact Hw|exact Hr].
Defined.
