(* ===== verification/Enclave.v ===== *)
(** * internal/sgx/enclave.go: attested TLS between nodes

    Every node makes a P-256 key and a self-signed certificate; in SGX the
    certificate carries a quote whose report data is the hash of the public
    key.  [certVerifier] is the check a peer's certificate goes through and
    [VerifyReport] the policy on the enclave's identity.

    ego's attestation calls ([EnclaveLib]) and Go's X.509 and ECDSA key
    generation ([X509Lib]) are parameters with their documented behaviour as
    laws.  A closure stored behind a pointer ([reportVerifier],
    [certVerifer]) is the function itself. *)

From S2P Require Import Prelude GoBytes GoText Json Sha256 Common.
From Stdlib Require Import ZArith Lia.

Local Open Scope Z_scope.

(** ** ego's attestation report *)

Record Report := {
  Data : bytes;
  SecurityVersion : Z;           (* uint *)
  rep_Debug : bool;
  UniqueID : bytes;
  SignerID : bytes;
  ProductID : bytes;             (* little endian *)
  TCBStatus : Z;
  TCBAdvisories : list bytes;
  TCBAdvisoriesErr : option error
}.

(** [enclave.GetRemoteReport], [enclave.VerifyRemoteReport] (which may return
    a report together with an error) and [tcbstatus.Status.String]. *)
Class EnclaveLib (E : Type) := {
  GetRemoteReport : bytes → E → res bytes * E;
  VerifyRemoteReport : bytes → Report * option error;
  TCBStatus_String : Z → bytes
}.

(** ** Keys and certificates *)

Definition OID : Type := list Z.
Definition Extension : Type := OID * bytes.

Definition oidOeNewQuote : OID := [1; 3; 6; 1; 4; 1; 311; 105; 1].

(** [ex.Id.Equal(oidOeNewQuote)] *)
Definition is_quote (ex : Extension) : Prop := ex.1 = oidOeNewQuote.
#[export] Instance is_quote_dec ex : Decision (is_quote ex).
Proof. apply (list_eq_dec (ex.1) oidOeNewQuote). Defined.

(** [pkix.Extension{Id: oidOeNewQuote, Value: report}] *)
Definition quote_extension (report : bytes) : Extension := (oidOeNewQuote, report).

(** The template handed to [x509.CreateCertificate]. *)
Record Template := {
  SerialNumber : Z;
  CommonName : bytes;
  DNSNames : list bytes;
  NotAfter : Z;                  (* unix seconds *)
  ExtraExtensions : list Extension
}.

Class X509Lib (E : Type) := {
  PublicKey : Type;
  PrivateKey : Type;
  Certificate : Type;
  rand_Int : Z → E → res Z * E;                          (* uniform below the bound *)
  AddYear : Z → Z;                                       (* time.AddDate(1, 0, 0) *)
  GenerateKey : E → res PrivateKey * E;                  (* P-256 *)
  Public : PrivateKey → PublicKey;
  MarshalPKIXPublicKey : PublicKey → res bytes;
  CreateCertificate : Template → PublicKey → PrivateKey → E → res bytes * E;
  ParseCertificate : bytes → res Certificate;
  cert_PublicKey : Certificate → PublicKey;
  cert_Extensions : Certificate → list Extension;
  Verify_self : Certificate → Z → option error           (* cert.Verify, its own root, at a time *)
}.

(** crypto/x509.go: [HashPublicKey] *)
Definition HashPublicKey {E} `{X509Lib E} (pub : PublicKey) : res bytes :=
  pubBytes ← MarshalPKIXPublicKey pub; mret (Sum256 pubBytes).

(** ** VerifyReport *)

Definition show_bool (b : bool) : bytes := if b then $"true" else $"false".
(** [%v] of a []uint *)
Definition show_uints (l : list Z) : bytes := $"[" ++ Join (map FormatInt l) " "%byte ++ $"]".

Definition VerifyReport (report : Report) (config : EnclaveConfig) : res unit :=
  productId ← LittleEndian_Uint16 (ProductID report);
  if negb (productId =? ProductId config) then
    Err (ErrString ($"productId " ++ FormatInt productId ++ $" does not match,expect "
                    ++ FormatInt (ProductId config)))
  else if negb (bool_decide (SecurityVersion report ∈ SecurityVersions config)) then
    Err (ErrString ($"SecurityVersion " ++ FormatInt (SecurityVersion report)
                    ++ $" does not match,expects " ++ show_uints (SecurityVersions config)))
  else if negb (Bool.eqb (Debug config) (rep_Debug report)) then
    Err (ErrString ($"debug=" ++ show_bool (rep_Debug report) ++ $" does not match,expects "
                    ++ show_bool (Debug config)))
  else if negb (bool_decide (SignerId config = hex_EncodeToString (SignerID report))) then
    Err (ErrString ($"SignerId " ++ hex_EncodeToString (SignerID report)
                    ++ $" does not match,expects " ++ SignerId config))
  else Ok tt.

(** ** TLS configurations *)

Inductive ClientAuthType := NoClientCert | RequestClientCert.

(** The fields of [tls.Config] the code sets.  [VerifyPeerCertificate] takes
    the time of the handshake and the raw certificates. *)
Record TlsConfig (K : Type) := {
  InsecureSkipVerify : bool;
  ClientAuth : ClientAuthType;
  VerifyPeerCertificate : option (Z → list bytes → res unit);
  Certificates : list (list bytes * K)
}.
Arguments InsecureSkipVerify {K}.
Arguments ClientAuth {K}.
Arguments VerifyPeerCertificate {K}.
Arguments Certificates {K}.

Section enclave.
Context {E : Type} `{EnclaveLib E} `{X509Lib E}.

(** [enclave.CreateAttestationClientTLSConfig], with ego's own verifier
    around the given report check. *)
Context (CreateAttestationClientTLSConfig : (Report → res unit) → TlsConfig PrivateKey).

Definition certVerifier (config : EnclaveConfig) (now : Z) (rawCerts : list bytes) : res unit :=
  match rawCerts with
  | [] => Err (ErrString ($"rawCerts is empty"))
  | raw :: _ =>
      cert ← ParseCertificate raw;
      match Verify_self cert now with
      | Some e => Err e
      | None =>
          hash ← HashPublicKey (cert_PublicKey cert);
          match list_find is_quote (cert_Extensions cert) with
          | Some (_, ex) =>
              match VerifyRemoteReport ex.2 with
              | (_, Some e) => Err e
              | (report, None) =>
                  if decide (length hash ≤ length (Data report))%nat then
                    if decide (take (length hash) (Data report) = hash)
                    then VerifyReport report config
                    else Err (ErrString ($"certificate hash does not match report data"))
                  else Panic ($"runtime error: slice bounds out of range")
              end
          | None => Err (ErrString ($"certificate does not contain attestation report"))
          end
      end
  end.

(** The value behind [common.NodeTLSConfig]. *)
Inductive NodeTLSConfig :=
  | SGXTlsConfig (enclaveConfig : EnclaveConfig) (privateKey : PrivateKey) (certificate : bytes)
  | AutoTlsConfig (tlsConfig : TlsConfig PrivateKey).

Definition newCertTemplate (CN : bytes) (now : Z) : M E Template := λ e,
  match rand_Int (2 ^ 128) e with
  | (Ok serialNumber, e) =>
      (Ok {| SerialNumber := serialNumber; CommonName := CN; DNSNames := [CN];
             NotAfter := AddYear now; ExtraExtensions := [] |}, e)
  | (Err err, e) => (Err err, e)
  | (Panic p, e) => (Panic p, e)
  end.

Definition with_quote (t : Template) (report : bytes) : Template :=
  {| SerialNumber := SerialNumber t; CommonName := CommonName t; DNSNames := DNSNames t;
     NotAfter := NotAfter t;
     ExtraExtensions := ExtraExtensions t ++ [quote_extension report] |}.

Definition NewNodeTlsConfig (CN : bytes) (enclaveConfig : option EnclaveConfig) (now : Z)
    : M E NodeTLSConfig :=
  template ← newCertTemplate CN now;
  priv ← (GenerateKey : M E PrivateKey);
  hash ← lift (HashPublicKey (Public priv));
  match enclaveConfig with
  | Some cfg =>
      report ← (GetRemoteReport hash : M E bytes);
      cert ← (CreateCertificate (with_quote template report) (Public priv) priv : M E bytes);
      mret (SGXTlsConfig cfg priv cert)
  | None =>
      cert ← (CreateCertificate template (Public priv) priv : M E bytes);
      mret (AutoTlsConfig {| InsecureSkipVerify := true; ClientAuth := NoClientCert;
                             VerifyPeerCertificate := None;
                             Certificates := [([cert], priv)] |})
  end.

Definition ServerTlsConfig (n : NodeTLSConfig) : TlsConfig PrivateKey :=
  match n with
  | SGXTlsConfig cfg priv cert =>
      {| InsecureSkipVerify := true; ClientAuth := RequestClientCert;
         VerifyPeerCertificate := Some (certVerifier cfg);
         Certificates := [([cert], priv)] |}
  | AutoTlsConfig tlsConfig => tlsConfig
  end.

Definition ClientTlsConfig (n : NodeTLSConfig) : TlsConfig PrivateKey :=
  match n with
  | SGXTlsConfig cfg priv cert =>
      let tlsCfg := CreateAttestationClientTLSConfig (λ report, VerifyReport report cfg) in
      {| InsecureSkipVerify := true; ClientAuth := ClientAuth tlsCfg;
         VerifyPeerCertificate := VerifyPeerCertificate tlsCfg;
         Certificates := [([cert], priv)] |}
  | AutoTlsConfig tlsConfig => tlsConfig
  end.

(** The report and the error are both returned when the quote verifies
    with a TCB that is not up to date. *)
Definition ValidateSignedQuote (quote : bytes) : res (option SGXReport * option error) :=
  let '(report, err) := VerifyRemoteReport quote in
  if bool_decide (is_Some err) && bool_decide (Data report = []) then Ok (None, err)
  else
    productId ← LittleEndian_Uint16 (ProductID report);
    mret (Some {| sr_Data := hex_EncodeToString (Data report);
                  sr_ProductID := productId;
                  sr_SecurityVersion := SecurityVersion report;
                  sr_Debug := rep_Debug report;
                  sr_UniqueID := hex_EncodeToString (UniqueID report);
                  sr_SignerID := hex_EncodeToString (SignerID report);
                  sr_TCBStatus := TCBStatus_String (TCBStatus report);
                  sr_TCBAdvisories := TCBAdvisories report;
                  sr_TCBAdvisoriesErr := match TCBAdvisoriesErr report with
                                         | Some e => Error e | None => [] end |}, err).
End enclave.

(** ** Documented behaviour of the libraries *)

(** The fields a configuration fixes about an enclave. *)
Definition identity_ok (r : Report) (config : EnclaveConfig) : Prop :=
  LittleEndian_Uint16 (ProductID r) = Ok (ProductId config) ∧
  SecurityVersion r ∈ SecurityVersions config ∧
  rep_Debug r = Debug config ∧
  hex_EncodeToString (SignerID r) = SignerId config.

(** On a platform whose TCB is up to date a quote verifies, and its report
    has the given data (at most 64 bytes, padded with zeros) and the
    identity of the enclave that asked for it. *)
Class EnclaveLaws (E : Type) `{EnclaveLib E} (this : Report) :=
  quote_verifies data e quote e' : (length data ≤ 64)%nat →
    GetRemoteReport data e = (Ok quote, e') →
    ∃ r, VerifyRemoteReport quote = (r, None) ∧
      Data r = data ++ replicate (64 - length data) x00 ∧
      ProductID r = ProductID this ∧ SecurityVersion r = SecurityVersion this ∧
      rep_Debug r = rep_Debug this ∧ SignerID r = SignerID this.

(** A certificate parses to what its template and key say: its extensions
    are the standard ones followed by the extra ones, and it is valid, as
    its own root, until [NotAfter]. *)
Class X509Laws (E : Type) `{X509Lib E} := {
  create_parse t priv e der e' :
    CreateCertificate t (Public priv) priv e = (Ok der, e') →
    ∃ c std, ParseCertificate der = Ok c ∧ cert_PublicKey c = Public priv ∧
      cert_Extensions c = std ++ ExtraExtensions t ∧
      Forall (λ ex, ¬ is_quote ex) std ∧
      ∀ now, now ≤ NotAfter t → Verify_self c now = None
}.

(** ** Lemmas *)

Lemma VerifyReport_ok report config : VerifyReport report config = Ok tt ↔ identity_ok report config.
Proof.
  unfold VerifyReport, identity_ok.
  destruct (LittleEndian_Uint16 (ProductID report)) as [p|err|pn]; simpl; [|naive_solver..].
  destruct (p =? ProductId config) eqn:E1; simpl; [apply Z.eqb_eq in E1; subst p|apply Z.eqb_neq in E1; naive_solver].
  case_bool_decide; simpl; [|naive_solver].
  destruct (Debug config), (rep_Debug report); simpl; try naive_solver.
  all: case_bool_decide; simpl; naive_solver.
Qed.

(**  [VerifyReport] never panics on a report whose product id has two
    bytes; it accepts exactly the reports with the configured product id, a
    configured security version, the configured debug flag and the
    configured signer, and otherwise reports the first of the four that
    differs. *)
Theorem VerifyReport_spec (report : Report) (config : EnclaveConfig) :
  (2 ≤ length (ProductID report))%nat →
  ∃ pid, LittleEndian_Uint16 (ProductID report) = Ok pid ∧
  match VerifyReport report config with
  | Ok _ => identity_ok report config
  | Err (ErrString msg) =>
      (pid ≠ ProductId config ∧ HasPrefix msg ($"productId ") = true) ∨
      (pid = ProductId config ∧ SecurityVersion report ∉ SecurityVersions config ∧
       HasPrefix msg ($"SecurityVersion ") = true) ∨
      (pid = ProductId config ∧ SecurityVersion report ∈ SecurityVersions config ∧
       rep_Debug report ≠ Debug config ∧ HasPrefix msg ($"debug=") = true) ∨
      (pid = ProductId config ∧ SecurityVersion report ∈ SecurityVersions config ∧
       rep_Debug report = Debug config ∧
       hex_EncodeToString (SignerID report) ≠ SignerId config ∧
       HasPrefix msg ($"SignerId ") = true)
  | _ => False
  end.
Proof.
  intros Hlen.
  assert (∃ pid, LittleEndian_Uint16 (ProductID report) = Ok pid) as [pid Hp].
  { destruct (ProductID report) as [|a [|b l]]; simpl in Hlen; try lia. eauto. }
  exists pid. split; [done|]. pose proof (VerifyReport_ok report config) as Hok.
  assert (∀ p s, HasPrefix (p ++ s) p = true) as HP.
  { intros p s. apply bool_decide_eq_true. by apply prefix_app_r. }
  unfold VerifyReport in *. rewrite Hp in *. cbn [mbind res_bind negb Bool.eqb] in *.
  destruct (pid =? ProductId config) eqn:E1; cbn [mbind res_bind negb Bool.eqb] in *;
    [apply Z.eqb_eq in E1|apply Z.eqb_neq in E1; left; split; [done|apply HP]].
  case_bool_decide; cbn [mbind res_bind negb Bool.eqb] in *; [|right; left; split_and!; [done..|apply HP]].
  destruct (Debug config) eqn:ED, (rep_Debug report) eqn:ER; cbn [mbind res_bind negb Bool.eqb] in *.
  2,3: right; right; left; split_and!; try done; apply HP.
  all: case_bool_decide; cbn [mbind res_bind negb Bool.eqb] in *; [by apply Hok|].
  all: right; right; right; split_and!; try done; apply HP.
Qed.

Lemma list_find_quote std ext exts : Forall (λ ex, ¬ is_quote ex) std →
  is_quote ext →
  list_find is_quote (std ++ ext :: exts) = Some (length std, ext).
Proof.
  intros HF Hx. apply list_find_app_Some. right. split; [lia|]. split.
  - apply list_find_None. apply HF.
  - simpl. rewrite decide_True by done. simpl. by rewrite Nat.sub_diag.
Qed.

(** ** Theorems about the certificate check *)

Section certificates.
Context {E : Type} `{EnclaveLib E} `{X509Lib E}.

(** C20.  A peer's certificate is accepted only if it parses and verifies
    as its own root, its first quote extension verifies, the report data
    of that quote begins with the SHA-256 of the certificate's public key,
    and the enclave is the configured one; and every such certificate is
    accepted.  Only the first certificate presented counts. *)
Theorem certVerifier_accepts (config : EnclaveConfig) (now : Z) (rawCerts : list bytes) :
  certVerifier config now rawCerts = Ok tt ↔
  ∃ raw rest cert der i ex report,
    rawCerts = raw :: rest ∧ ParseCertificate raw = Ok cert ∧ Verify_self cert now = None ∧
    MarshalPKIXPublicKey (cert_PublicKey cert) = Ok der ∧
    list_find is_quote (cert_Extensions cert) = Some (i, ex) ∧
    VerifyRemoteReport ex.2 = (report, None) ∧
    take 32 (Data report) = Sum256 der ∧ identity_ok report config.
Proof.
  split.
  - intros Hv. destruct rawCerts as [|raw rest]; [done|]. cbn [certVerifier] in Hv.
    apply res_bind_Ok in Hv as (cert & Hp & Hv).
    destruct (Verify_self cert now) eqn:Hs; [done|].
    apply res_bind_Ok in Hv as (hash & Hh & Hv). unfold HashPublicKey in Hh.
    apply res_bind_Ok in Hh as (der & Hd & [= <-]). rewrite !Sum256_length in Hv.
    destruct (list_find _ _) as [[i ex]|] eqn:Hf; [|done].
    destruct (VerifyRemoteReport ex.2) as [report [err|]] eqn:Hr; [done|].
    case_decide; [|done]. case_decide; [|done]. apply VerifyReport_ok in Hv.
    naive_solver.
  - intros (raw & rest & cert & der & i & ex & report & -> & Hp & Hs & Hd & Hf & Hr & Ht & Hi).
    cbn [certVerifier]. unfold HashPublicKey.
    rewrite Hp; cbn [mbind res_bind]. rewrite Hs, Hd; cbn [mbind res_bind mret res_ret].
    rewrite Hf, Hr, !Sum256_length, Ht.
    rewrite decide_True, decide_True by (done || by rewrite <- (Sum256_length der), <- Ht, length_take; lia).
    by apply VerifyReport_ok.
Qed.

Context (CreateAttestation : (Report → res unit) → TlsConfig PrivateKey).

(** C21.  Two honest nodes accept each other: the certificate that
    [NewNodeTlsConfig] makes inside an enclave with the configured
    identity passes the check in the server configuration of every node
    with that configuration, for one calendar year (and the check is what
    a server asks its clients to go through). *)
Theorem honest_peers_accept {this : Report} `{!EnclaveLaws E this} `{!X509Laws E}
    (CN : bytes) (cfg : EnclaveConfig) (made now : Z) (e e' : E)
    (n : NodeTLSConfig) (priv' : PrivateKey) (cert' : bytes) :
  identity_ok this cfg → now ≤ AddYear made →
  NewNodeTlsConfig CN (Some cfg) made e = (Ok n, e') →
  ∃ cert priv check, n = SGXTlsConfig cfg priv cert ∧
    Certificates (ClientTlsConfig CreateAttestation n) = [([cert], priv)] ∧
    ClientAuth (ServerTlsConfig (SGXTlsConfig cfg priv' cert')) = RequestClientCert ∧
    VerifyPeerCertificate (ServerTlsConfig (SGXTlsConfig cfg priv' cert')) = Some check ∧
    check now [cert] = Ok tt.
Proof.
  intros Hid Hnow Hn. unfold NewNodeTlsConfig, newCertTemplate, mbind, M_bind, lift in Hn.
  destruct (rand_Int _ e) as [[sn|?|?] e1]; try done.
  destruct (GenerateKey e1) as [[priv|?|?] e2]; try done.
  destruct (HashPublicKey (Public priv)) as [hash|?|?] eqn:Hh; try done.
  destruct (GetRemoteReport hash e2) as [[quote|?|?] e3] eqn:Hq; try done.
  destruct (CreateCertificate _ _ _ e3) as [[der|?|?] e4] eqn:Hc; try done.
  injection Hn as <- <-. exists der, priv. eexists. do 4 (split; [done|]).
  unfold HashPublicKey in Hh. apply res_bind_Ok in Hh as (pk & Hpk & [= <-]).
  destruct (create_parse _ _ _ _ _ Hc) as (c & std & Hp & Hk & Hx & Hstd & Hv).
  cbn [ExtraExtensions with_quote app] in Hx.
  destruct (quote_verifies (Sum256 pk) _ _ _ ltac:(rewrite Sum256_length; lia) Hq)
    as (r & Hr & Hd & Epid & Esv & Edb & Esg).
  cbn [certVerifier]. rewrite Hp; cbn [mbind res_bind]. unfold HashPublicKey.
  rewrite Hv by done. rewrite Hk, Hpk, Hx; cbn [mbind res_bind mret res_ret].
  rewrite (list_find_quote std (quote_extension quote) []) by done. simpl.
  rewrite Hr, Hd, length_app, !take_app_length.
  rewrite decide_True, decide_True by (done || lia).
  apply VerifyReport_ok. unfold identity_ok. by rewrite Epid, Esv, Edb, Esg.
Qed.
End certificates.

(** ** Concrete instances for the witnesses *)

Module ToyTls.
Import Toy.

Definition toy_report : Report :=
  {| Data := []; SecurityVersion := 2; rep_Debug := false; UniqueID := [x00]; SignerID := [xab; xcd];
     ProductID := [x01; x00]; TCBStatus := 0; TCBAdvisories := []; TCBAdvisoriesErr := None |}.

Definition toy_config : EnclaveConfig :=
  {| ProductId := 1; Debug := false; SignerId := $"abcd"; SecurityVersions := [1; 2] |}.

#[export] Instance toy_enclave : EnclaveLib N := {|
  GetRemoteReport data e := (Ok data, (e + 1)%N);
  VerifyRemoteReport quote :=
    ({| Data := quote ++ replicate (64 - length quote) x00; SecurityVersion := 2;
        rep_Debug := false; UniqueID := [x00]; SignerID := [xab; xcd]; ProductID := [x01; x00];
        TCBStatus := 0; TCBAdvisories := []; TCBAdvisoriesErr := None |}, None);
  TCBStatus_String z := FormatInt z |}.

#[export] Instance toy_enclave_laws : EnclaveLaws N toy_report.
Proof. intros data e quote e' _ [= <- <-]. eexists. split; [done|]. done. Qed.

(** The bits of a positive number as bytes: an encoding of any countable
    type. *)
Fixpoint bits (p : positive) : bytes :=
  match p with xH => [] | xO p => x00 :: bits p | xI p => x01 :: bits p end.
Fixpoint unbits (l : bytes) : positive :=
  match l with [] => xH | x00 :: l => xO (unbits l) | _ :: l => xI (unbits l) end.
Lemma unbits_bits p : unbits (bits p) = p.
Proof. induction p; simpl; congruence. Qed.

(** A certificate is its public key, extensions and expiry. *)
Definition toy_cert : Type := bytes * list (list Z * bytes) * Z.

#[export] Instance toy_x509 : X509Lib N := {|
  PublicKey := bytes; PrivateKey := bytes; Certificate := toy_cert;
  rand_Int bound e := (Ok (Z.of_N e mod bound), (e + 1)%N);
  AddYear t := t + 365 * 86400;
  GenerateKey e := (Ok (draw 32 e).1, (draw 32 e).2);
  Public k := k;
  MarshalPKIXPublicKey k := Ok k;
  CreateCertificate t pub priv e :=
    (Ok (bits (encode ((pub, ExtraExtensions t, NotAfter t) : toy_cert))), (e + 1)%N);
  ParseCertificate der := of_option (decode (unbits der)) (ErrString ($"x509: malformed"));
  cert_PublicKey c := c.1.1;
  cert_Extensions c := c.1.2;
  Verify_self c now := if now <=? c.2 then None else Some (ErrString ($"x509: expired")) |}.

#[export] Instance toy_x509_laws : X509Laws N.
Proof.
  split. intros t priv e der e' [= <- _]. eexists _, []. simpl.
  rewrite unbits_bits, decode_encode. simpl. do 3 (split; [done|]). split; [constructor|].
  intros now Hn. simpl. by rewrite (proj2 (Z.leb_le _ _)).
Qed.

Lemma toy_identity : identity_ok toy_report toy_config.
Proof. unfold identity_ok. split_and!; [done|set_solver|done|done]. Qed.

Definition toy_client : (Report → res unit) → TlsConfig (@PrivateKey N toy_x509) :=
  λ _, {| InsecureSkipVerify := false; ClientAuth := NoClientCert;
          VerifyPeerCertificate := None; Certificates := [] |}.
End ToyTls.

Import Toy ToyTls.

Lemma VerifyReport_spec_witness :
  (2 ≤ length (ProductID toy_report))%nat ∧
  match VerifyReport toy_report toy_config with Ok _ => identity_ok toy_report toy_config | _ => False end.
Proof.
  split; [vm_compute; lia|].
  destruct (VerifyReport_spec toy_report toy_config) as (pid & _ & H); [vm_compute; lia|].
  exact H.
Defined.

Lemma honest_peers_accept_witness :
  ∃ n e' cert priv, NewNodeTlsConfig ($"node1") (Some toy_config) 1000 5%N = (Ok n, e') ∧
    n = SGXTlsConfig toy_config priv cert ∧ certVerifier toy_config 2000 [cert] = Ok tt.
Proof.
  destruct (NewNodeTlsConfig ($"node1") (Some toy_config) 1000 5%N) as [[n|err|p] e'] eqn:Hn.
  2: { exfalso. assert (is_ok (NewNodeTlsConfig ($"node1") (Some toy_config) 1000 5%N).1 = true) as Hk
         by (vm_compute; reflexivity). rewrite Hn in Hk. discriminate Hk. }
  2: { exfalso. assert (is_ok (NewNodeTlsConfig ($"node1") (Some toy_config) 1000 5%N).1 = true) as Hk
         by (vm_compute; reflexivity). rewrite Hn in Hk. discriminate Hk. }
  destruct (honest_peers_accept toy_client ($"node1") toy_config 1000 2000 5%N e' n [] []
    toy_identity ltac:(vm_compute; discriminate) Hn) as (cert & priv & check & -> & _ & _ & Hc & Hok).
  exists (SGXTlsConfig toy_config priv cert), e', cert, priv. split; [reflexivity|].
  split; [reflexivity|]. injection Hc as <-. exact Hok.
Defined.
