(* ===== verification/Seed.v ===== *)
(** * internal/cluster/seed.go, state.go: peer messages and the key exchange

    The messages nodes exchange and the bookkeeping of the seeding protocol:
    the seed node with the least name generates the master key and sends it
    to every other online node; every other seed node adopts the first key
    it receives and forwards it to the other seed nodes; a seed node is
    finished when it has received the same key from all of them.

    [seed] is the state behind the mutex [s.lock], each method that takes
    the lock a function on it.  The Go map [keyExchangeStat] is [None] while
    nil: writing to it then panics.  [SendReliable] is the argument [send]
    that says which sends succeed; a send that does yields a (destination,
    payload) pair. *)

From S2P Require Import Prelude GoBytes GoText Json Common CommonSet.
From Stdlib Require Import ZArith Lia.

Local Open Scope Z_scope.

(** ** Messages *)

Definition MSG_TYPE_CHALLENGE : Z := 1.
Definition MSG_TYPE_CHALLENGE_RESP : Z := 2.
Definition MSG_TYPE_KEYQUERY : Z := 3.
Definition MSG_TYPE_KEYQUERY_RESP : Z := 4.
Definition MSG_TYPE_KEYINIT : Z := 5.

Definition NODE_STATE_NO_KEY : Z := 1.
Definition NODE_STATE_SEEDING : Z := 2.
Definition NODE_STATE_VALIDATING : Z := 3.
Definition NODE_STATE_QUERY_KEY : Z := 4.
Definition NODE_STATE_READY : Z := 5.

(** The pointer and the slice may be nil. *)
Record PeerMessage := {
  pm_Sender : option NodeInfo;
  pm_Type : Z;
  pm_Data : option bytes
}.

#[export] Instance PeerMessage_eq_dec : EqDecision PeerMessage.
Proof. solve_decision. Defined.

Definition PeerMessage_zero : PeerMessage :=
  {| pm_Sender := None; pm_Type := 0; pm_Data := None |}.
Definition PeerMessage_fields : fields PeerMessage :=
  [($"sender", λ v t,
      x ← decode_ptr (decode_struct NodeInfo_fields) NodeInfo_zero (pm_Sender t) v;
      mret {| pm_Sender := x; pm_Type := pm_Type t; pm_Data := pm_Data t |});
   ($"type", λ v t, x ← decode_int int64_min int64_max (pm_Type t) v;
      mret {| pm_Sender := pm_Sender t; pm_Type := x; pm_Data := pm_Data t |});
   ($"data", λ v t, x ← decode_bytes v;
      mret {| pm_Sender := pm_Sender t; pm_Type := pm_Type t; pm_Data := x |})].
Definition PeerMessage_json (t : PeerMessage) : json :=
  JObj [($"sender", enc_ptr NodeInfo_json (pm_Sender t)); ($"type", enc_int (pm_Type t));
        ($"data", enc_bytes (pm_Data t))].
Definition PeerMessage_ok (t : PeerMessage) : Prop :=
  match pm_Sender t with None => True | Some i => NodeInfo_ok i end
  ∧ int64_min ≤ pm_Type t ≤ int64_max.

#[export, program] Instance PeerMessage_codec : JsonCodec PeerMessage := {|
  zero := PeerMessage_zero; to_json := PeerMessage_json;
  of_json := decode_struct PeerMessage_fields; json_ok := PeerMessage_ok |}.
Next Obligation. intros [[[]|] ??] [Hi ?]; [destruct Hi|]; solve_wf. Qed.
Next Obligation. intros [[[]|] ??] [Hi ?]; solve_codec. Qed.

Definition toJson (m : PeerMessage) : bytes := json_Marshal m.

(** ** memberlist's nodes *)

Record MlNode := {
  Name : bytes;
  Addr : bytes;
  ml_Port : Z;
  Meta : bytes;
  ml_State : Z;
  PMin : Z; PMax : Z; PCur : Z; DMin : Z; DMax : Z; DCur : Z
}.

#[export] Instance MlNode_eq_dec : EqDecision MlNode.
Proof. solve_decision. Defined.

(** [Members()] returns pointers into memberlist's state; the copies share
    nothing with it. *)
Definition copyClusterPeers (members : list MlNode) : list MlNode :=
  map (λ op, {| Name := Name op; Addr := Addr op; ml_Port := ml_Port op; Meta := Meta op;
                ml_State := ml_State op; PMin := PMin op; PMax := PMax op; PCur := PCur op;
                DMin := DMin op; DMax := DMax op; DCur := DCur op |}) members.

Definition sortedPeerNames (peers : list MlNode) : list bytes :=
  Sorted (foldl (λ s p, Add s (Name p)) NewSet peers).

Definition NodeMetaFromBytes (ni : bytes) : res NodeMeta := json_Unmarshal NodeMeta ni.

Definition meta_ready (m : MlNode) : bool :=
  match NodeMetaFromBytes (Meta m) with
  | Ok ni => nm_State ni =? NODE_STATE_READY
  | _ => false
  end.

Definition membersCanProvideKey (nodes : list MlNode) : bool := existsb meta_ready nodes.

(** ** The seed state *)

Record keyExchange := { sentTo : bool; receivedFrom : bool }.

Record seed := {
  keyExchangeStat : option (gmap bytes keyExchange);
  sd_id : NodeInfo;
  generatedKey : bytes;
  otherSeedNodes : list bytes;
  otherMembers : list MlNode
}.

Definition dummyKey : bytes := [x01].

(** [len] and [range] of a nil map *)
Definition stat_map (s : seed) : gmap bytes keyExchange := default ∅ (keyExchangeStat s).

Definition set_stat (s : seed) (m : gmap bytes keyExchange) : seed :=
  {| keyExchangeStat := Some m; sd_id := sd_id s; generatedKey := generatedKey s;
     otherSeedNodes := otherSeedNodes s; otherMembers := otherMembers s |}.

Definition set_generatedKey (s : seed) (k : bytes) : seed :=
  {| keyExchangeStat := keyExchangeStat s; sd_id := sd_id s; generatedKey := k;
     otherSeedNodes := otherSeedNodes s; otherMembers := otherMembers s |}.

(** [s.keyExchangeStat[k] = v] *)
Definition stat_store (s : seed) (k : bytes) (v : keyExchange) : res seed :=
  match keyExchangeStat s with
  | None => Panic ($"assignment to entry in nil map")
  | Some m => Ok (set_stat s (<[k:=v]> m))
  end.

Definition hasReceivedKeysFromAllSeedPeers (s : seed) : bool :=
  if (size (stat_map s) <? length (otherSeedNodes s))%nat then false
  else forallb (λ kv, receivedFrom kv.2) (map_to_list (stat_map s)).

Definition checkCleanup (s : seed) : seed :=
  if (length (otherSeedNodes s) =? size (stat_map s))%nat
     && existsb (λ kv, negb (sentTo kv.2) || negb (receivedFrom kv.2)) (map_to_list (stat_map s))
  then s
  else {| keyExchangeStat := Some ∅; sd_id := sd_id s; generatedKey := [];
          otherSeedNodes := []; otherMembers := [] |}.

(** The inner loop of [fowardKeyToOtherSeedPeers]: send to every member of
    that name; the entry is shared with the map. *)
Definition forward_to (send : MlNode → bool) (pm : bytes) (pName : bytes) (ex : keyExchange)
    (members : list MlNode) : keyExchange * list (bytes * bytes) :=
  foldl (λ acc n,
    if decide (Name n = pName) then
      if send n then ({| sentTo := true; receivedFrom := receivedFrom acc.1 |}, acc.2 ++ [(Name n, pm)])
      else acc
    else acc) (ex, []) members.

Definition forward_step (send : MlNode → bool) (pm : bytes) (acc : res (seed * list (bytes * bytes)))
    (pName : bytes) : res (seed * list (bytes * bytes)) :=
  '(s, out) ← acc;
  '(s, ex) ← match stat_map s !! pName with
             | Some ex => Ok (s, ex)
             | None =>
                 let ex := {| sentTo := false; receivedFrom := false |} in
                 s ← stat_store s pName ex; mret (s, ex)
             end;
  if sentTo ex then mret (s, out)
  else
    let '(ex, out') := forward_to send pm pName ex (otherMembers s) in
    s ← stat_store s pName ex;
    mret (s, out ++ out').

(** The [go s.checkCleanup()] at its end is left to the caller: [seed_step]
    below and [forward_goroutine] of Node.v add it to the goroutines that
    wait for the lock. *)
Definition fowardKeyToOtherSeedPeers (send : MlNode → bool) (pm : bytes) (s : seed)
    : res (seed * list (bytes * bytes)) :=
  foldl (forward_step send pm) (Ok (s, [])) (otherSeedNodes s).

Definition data_of (m : PeerMessage) : bytes := default [] (pm_Data m).

Definition key_size_error (n : nat) : bytes :=
  $"requires keysize 32, got " ++ FormatInt (Z.of_nat n).

(** The goroutine it spawns is [seed_master_sends]. *)
Definition startSeedAsMaster (keyInit : PeerMessage) (members : list MlNode) (s : seed) : res seed :=
  if decide (length (data_of keyInit) ≠ 32%nat) then Panic (key_size_error (length (data_of keyInit)))
  else Ok {| keyExchangeStat := Some ∅; sd_id := sd_id s; generatedKey := data_of keyInit;
             otherSeedNodes := otherSeedNodes s; otherMembers := members |}.

Definition seed_master_sends (send : MlNode → bool) (keyInit : PeerMessage) (s : seed)
    : list (bytes * bytes) :=
  let d := toJson keyInit in
  map (λ peer, (Name peer, d)) (List.filter send (otherMembers s)).

Definition startSeedAsSlave (members : list MlNode) (s : seed) : seed :=
  {| keyExchangeStat := Some ∅; sd_id := sd_id s; generatedKey := dummyKey;
     otherSeedNodes := otherSeedNodes s; otherMembers := members |}.

(** The key when complete, else the empty slice; and, unless the key was
    empty, the message for the spawned [fowardKeyToOtherSeedPeers]. *)
Definition keyReceived (k : bytes) (senderId : bytes) (s : seed)
    : res (seed * bytes * option bytes) :=
  if decide (senderId ∉ otherSeedNodes s) then Panic ($"seed key from unknown node " ++ senderId)
  else if decide (length k ≠ 32%nat) then Panic (key_size_error (length k))
  else if decide (generatedKey s = []) then Ok (s, [], None)
  else
    let s := if decide (generatedKey s = dummyKey) then set_generatedKey s k else s in
    if decide (k ≠ generatedKey s) then Panic ($"mismatch key received from " ++ senderId)
    else
      s ← match stat_map s !! senderId with
          | None => stat_store s senderId {| receivedFrom := true; sentTo := false |}
          | Some st => stat_store s senderId {| receivedFrom := true; sentTo := sentTo st |}
          end;
      let pMsg := {| pm_Type := MSG_TYPE_KEYINIT; pm_Sender := Some (sd_id s); pm_Data := Some k |} in
      mret (s, if hasReceivedKeysFromAllSeedPeers s then k else [], Some (toJson pMsg)).

(** ** Lemmas about the seed state *)

Definition received (s : seed) (p : bytes) : Prop :=
  ∃ ex, stat_map s !! p = Some ex ∧ receivedFrom ex = true.

#[export] Instance received_dec s p : Decision (received s p).
Proof.
  unfold received. destruct (stat_map s !! p) as [ex|]; [|right; by intros (? & ? & _)].
  destruct (receivedFrom ex) eqn:Hr; [left; by exists ex|].
  right. intros (ex' & [= <-] & ?). congruence.
Defined.

(** The bookkeeping only has entries for the other seed nodes. *)
Definition stat_ok (s : seed) : Prop :=
  NoDup (otherSeedNodes s) ∧ ∀ p, is_Some (stat_map s !! p) → p ∈ otherSeedNodes s.

Lemma stat_size_le s : stat_ok s → (size (stat_map s) ≤ length (otherSeedNodes s))%nat.
Proof.
  intros [Hnd Hdom]. rewrite <- size_dom, <- (size_list_to_set (C := gset bytes)) by done.
  apply subseteq_size. intros p Hp%elem_of_dom. rewrite elem_of_list_to_set. auto.
Qed.

(** With as many entries as other seed nodes, each of them has one. *)
Lemma stat_full s : stat_ok s → (length (otherSeedNodes s) ≤ size (stat_map s))%nat →
  ∀ p, p ∈ otherSeedNodes s → is_Some (stat_map s !! p).
Proof.
  intros [Hnd Hdom] Hle p Hp. apply elem_of_dom.
  assert (dom (stat_map s) ≡ (list_to_set (otherSeedNodes s) : gset bytes)) as ->.
  { apply set_subseteq_size_equiv.
    - intros q Hq%elem_of_dom. rewrite elem_of_list_to_set. auto.
    - by rewrite size_list_to_set, size_dom. }
  by rewrite elem_of_list_to_set.
Qed.

Lemma stat_full_size s : stat_ok s →
  (∀ p, p ∈ otherSeedNodes s → is_Some (stat_map s !! p)) →
  size (stat_map s) = length (otherSeedNodes s).
Proof.
  intros Hok Hall. apply Nat.le_antisymm; [by apply stat_size_le|].
  destruct Hok as [Hnd _]. rewrite <- size_dom, <- (size_list_to_set (C := gset bytes)) by done.
  apply subseteq_size. intros p. rewrite elem_of_list_to_set, elem_of_dom. auto.
Qed.

Lemma forallb_received s :
  forallb (λ kv, receivedFrom kv.2) (map_to_list (stat_map s)) = true ↔
  ∀ p ex, stat_map s !! p = Some ex → receivedFrom ex = true.
Proof.
  rewrite forallb_forall. split.
  - intros HF p ex Hp. apply (HF (p, ex)). apply list_elem_of_In. by apply elem_of_map_to_list.
  - intros HF [p ex] Hin. apply list_elem_of_In, elem_of_map_to_list in Hin. by apply (HF p).
Qed.

(** The completion test says what its name says. *)
Lemma hasReceived_spec s : stat_ok s →
  hasReceivedKeysFromAllSeedPeers s = true ↔ ∀ p, p ∈ otherSeedNodes s → received s p.
Proof.
  intros Hok. unfold hasReceivedKeysFromAllSeedPeers.
  destruct (_ <? _)%nat eqn:Hlt; [apply Nat.ltb_lt in Hlt|apply Nat.ltb_ge in Hlt].
  - split; [done|]. intros Hall. exfalso. pose proof (stat_full_size s Hok) as Hsz.
    rewrite Hsz in Hlt; [lia|]. intros p Hp. destruct (Hall p Hp) as (ex & -> & _). eauto.
  - rewrite forallb_received. split.
    + intros HF p Hp. destruct (stat_full s Hok Hlt p Hp) as [ex He]. exists ex. eauto.
    + intros HF p ex Hp. destruct (HF p) as (ex' & He' & ?); [|congruence].
      apply Hok. eauto.
Qed.

(** [checkCleanup] leaves the state alone as long as some peer that has an
    entry is still to be heard of, provided every peer has one. *)
Lemma checkCleanup_waits s p : stat_ok s →
  (∀ q, q ∈ otherSeedNodes s → is_Some (stat_map s !! q)) →
  p ∈ otherSeedNodes s → ¬ received s p → checkCleanup s = s.
Proof.
  intros Hok Hall Hp Hnr. unfold checkCleanup. rewrite (stat_full_size s), Nat.eqb_refl by done.
  destruct (Hall p Hp) as [ex He].
  assert (existsb (λ kv, negb (sentTo kv.2) || negb (receivedFrom kv.2))
            (map_to_list (stat_map s)) = true) as ->; [|done].
  apply existsb_exists. exists (p, ex). split; [by apply list_elem_of_In, elem_of_map_to_list|].
  simpl. destruct (receivedFrom ex) eqn:E; [|by rewrite orb_true_r].
  destruct Hnr. by exists ex.
Qed.

(** What forwarding does to the state: entries for all peers, nothing more
    received than before, and messages only to the other seed nodes. *)
Definition forwarded (s s' : seed) (pm : bytes) (out : list (bytes * bytes)) (upto : list bytes) : Prop :=
  is_Some (keyExchangeStat s') ∧ sd_id s' = sd_id s ∧ generatedKey s' = generatedKey s ∧
  otherSeedNodes s' = otherSeedNodes s ∧ otherMembers s' = otherMembers s ∧
  (∀ p, is_Some (stat_map s' !! p) ↔ is_Some (stat_map s !! p) ∨ p ∈ upto) ∧
  (∀ p, received s' p ↔ received s p) ∧
  (∀ d b, (d, b) ∈ out → b = pm ∧ d ∈ upto).

Lemma forward_to_spec send pm pName ex members ex' out :
  forward_to send pm pName ex members = (ex', out) →
  receivedFrom ex' = receivedFrom ex ∧ (∀ d b, (d, b) ∈ out → b = pm ∧ d = pName).
Proof.
  unfold forward_to. revert ex' out. induction members as [|n l IH] using rev_ind; intros ex' out.
  { intros [= <- <-]. split; [done|]. by intros ?? ?%not_elem_of_nil. }
  rewrite foldl_app. simpl. destruct (foldl _ _ l) as [ex1 out1] eqn:Ef.
  destruct (IH _ _ eq_refl) as [Hr Ho]. case_decide as Hn; [destruct (send n)|].
  all: intros [= <- <-]; split; try done.
  intros d b Hin. apply elem_of_app in Hin as [Hin|Hin]; [by auto|].
  apply list_elem_of_singleton in Hin. by simplify_eq.
Qed.

Lemma stat_store_spec s k v : is_Some (keyExchangeStat s) →
  stat_store s k v = Ok (set_stat s (<[k:=v]> (stat_map s))).
Proof. intros [m Hm]. unfold stat_store, stat_map. by rewrite Hm. Qed.

Lemma received_store s k v p :
  received (set_stat s (<[k:=v]> (stat_map s))) p ↔
  if decide (p = k) then receivedFrom v = true else received s p.
Proof.
  unfold received at 1. change (stat_map (set_stat s ?m)) with m.
  case_decide as Hp; [subst p; rewrite lookup_insert_eq|rewrite lookup_insert_ne by done; done].
  naive_solver.
Qed.

Lemma is_Some_store s k v p :
  is_Some (stat_map (set_stat s (<[k:=v]> (stat_map s))) !! p) ↔ is_Some (stat_map s !! p) ∨ p = k.
Proof.
  change (stat_map (set_stat s ?m)) with m. rewrite lookup_insert_is_Some.
  destruct (decide (p = k)); naive_solver.
Qed.

Lemma forward_step_spec send pm s s1 out upto p :
  forwarded s s1 pm out upto →
  ∃ s' out', forward_step send pm (Ok (s1, out)) p = Ok (s', out') ∧
    forwarded s s' pm out' (upto ++ [p]).
Proof.
  intros (Hs & Hid & Hgk & Ho & Hm & Hdom & Hr & Hout). unfold forward_step. cbn [mbind res_bind].
  assert (∃ s2 ex, (match stat_map s1 !! p with
    | Some ex => Ok (s1, ex)
    | None => s' ← stat_store s1 p {| sentTo := false; receivedFrom := false |};
              mret (s', {| sentTo := false; receivedFrom := false |}) end) = Ok (s2, ex) ∧
    stat_map s2 !! p = Some ex ∧ forwarded s s2 pm out (upto ++ [p])) as (s2 & ex & -> & He & HF).
  { destruct (stat_map s1 !! p) as [ex|] eqn:Hp.
    - exists s1, ex. split_and!; try done. unfold forwarded. split_and!; try done.
      + intros q. rewrite Hdom, elem_of_app, list_elem_of_singleton.
        split; [tauto|]. intros [?|[? | ->]]; [tauto..|]. apply Hdom. by rewrite Hp.
      + intros d b Hin. rewrite elem_of_app. destruct (Hout _ _ Hin). tauto.
    - rewrite stat_store_spec by done. eexists _, _. split; [done|].
      split; [apply lookup_insert_eq|]. unfold forwarded. split_and!; try done.
      + intros q. rewrite is_Some_store, Hdom, elem_of_app, list_elem_of_singleton. tauto.
      + intros q. rewrite received_store. case_decide as Hq; [|done]. subst q. rewrite <- Hr.
        split; [done|]. intros (ex & Hex & _). congruence.
      + intros d b Hin. rewrite elem_of_app. destruct (Hout _ _ Hin). tauto. }
  clear Hs Hid Hgk Ho Hm Hdom Hr Hout.
  destruct HF as (Hs & Hid & Hgk & Ho & Hm & Hdom & Hr & Hout). cbn [mbind res_bind].
  destruct (sentTo ex).
  { eexists _, _. split; [done|]. by unfold forwarded. }
  destruct (forward_to _ _ _ _ _) as [ex' out'] eqn:Ef.
  apply forward_to_spec in Ef as [Hrf Hout']. rewrite stat_store_spec by done.
  eexists _, _. split; [done|]. unfold forwarded. split_and!; try done.
  - intros q. rewrite is_Some_store, Hdom. split; [|tauto].
    intros [? | ->]; [tauto|]. rewrite elem_of_app, list_elem_of_singleton. tauto.
  - intros q. rewrite received_store. case_decide as Hq; [|done]. subst q. rewrite <- Hr, Hrf.
    unfold received. rewrite He. naive_solver.
  - intros d b [Hin|Hin]%elem_of_app; [auto|]. destruct (Hout' _ _ Hin) as [-> ->].
    rewrite elem_of_app, list_elem_of_singleton. tauto.
Qed.

Lemma fowardKey_spec send pm s : is_Some (keyExchangeStat s) →
  ∃ s' out, fowardKeyToOtherSeedPeers send pm s = Ok (s', out) ∧
    forwarded s s' pm out (otherSeedNodes s).
Proof.
  intros Hs. unfold fowardKeyToOtherSeedPeers.
  assert (∀ l, ∃ s' out, foldl (forward_step send pm) (Ok (s, [])) l = Ok (s', out) ∧
    forwarded s s' pm out l) as Hl; [|apply Hl].
  induction l as [|p l IH] using rev_ind.
  { eexists _, _. split; [done|]. unfold forwarded. split_and!; try done.
    - intros p. rewrite elem_of_nil. tauto.
    - by intros ?? ?%not_elem_of_nil. }
  destruct IH as (s1 & out & E & HF). rewrite foldl_app, E.
  by apply (forward_step_spec send pm s s1 out l p).
Qed.

Definition keyinit_msg (id : NodeInfo) (k : bytes) : PeerMessage :=
  {| pm_Type := MSG_TYPE_KEYINIT; pm_Sender := Some id; pm_Data := Some k |}.

Lemma keyReceived_spec k sender s :
  is_Some (keyExchangeStat s) → sender ∈ otherSeedNodes s → length k = 32%nat →
  generatedKey s = dummyKey ∨ generatedKey s = k →
  ∃ s', keyReceived k sender s =
      Ok (s', if hasReceivedKeysFromAllSeedPeers s' then k else [], Some (toJson (keyinit_msg (sd_id s) k))) ∧
    is_Some (keyExchangeStat s') ∧ sd_id s' = sd_id s ∧ generatedKey s' = k ∧
    otherSeedNodes s' = otherSeedNodes s ∧ otherMembers s' = otherMembers s ∧
    (∀ p, is_Some (stat_map s' !! p) ↔ is_Some (stat_map s !! p) ∨ p = sender) ∧
    (∀ p, received s' p ↔ received s p ∨ p = sender).
Proof.
  intros Hs Hin Hlen Hgk. unfold keyReceived.
  rewrite decide_False by tauto. rewrite decide_False by tauto.
  assert (generatedKey s ≠ []) as Hne.
  { destruct Hgk as [-> | ->]; [done|]. by intros ->. }
  rewrite decide_False by done.
  set (s1 := if decide (generatedKey s = dummyKey) then set_generatedKey s k else s).
  assert (generatedKey s1 = k ∧ is_Some (keyExchangeStat s1) ∧ sd_id s1 = sd_id s ∧
    otherSeedNodes s1 = otherSeedNodes s ∧ otherMembers s1 = otherMembers s ∧
    stat_map s1 = stat_map s) as (Hk & Hs1 & Hid & Ho & Hm & Hst).
  { subst s1. case_decide; [done|]. destruct Hgk; done. }
  rewrite decide_False by congruence.
  set (ex := {| receivedFrom := true;
                sentTo := match stat_map s1 !! sender with Some st => sentTo st | None => false end |}).
  assert ((match stat_map s1 !! sender with
    | None => stat_store s1 sender {| receivedFrom := true; sentTo := false |}
    | Some st => stat_store s1 sender {| receivedFrom := true; sentTo := sentTo st |} end)
    = Ok (set_stat s1 (<[sender:=ex]> (stat_map s1)))) as ->.
  { subst ex. destruct (stat_map s1 !! sender); by rewrite stat_store_spec. }
  cbn [mbind res_bind]. eexists. rewrite <- Hid. split; [done|]. split_and!; try done.
  - intros p. by rewrite is_Some_store, Hst.
  - intros p. rewrite received_store. unfold received. rewrite Hst.
    case_decide; subst ex; simpl; naive_solver.
Qed.

(** ** A slave's key exchange *)

(** The seed state of a node in state SEEDING and the goroutines that wait
    for its lock: forwards, each with the message that [keyReceived] gave it,
    and cleanups, one after each forward. *)
Record SeedRun := {
  sr_seed : seed;
  sr_forwards : list bytes;
  sr_cleanups : nat;
  sr_handed : list bytes            (* the keys handed out by keyReceived *)
}.

Inductive seed_event :=
  | EvKey (sender : bytes)                    (* a KEYINIT message arrives *)
  | EvForward (n : nat) (send : MlNode → bool)  (* the n-th forward gets the lock *)
  | EvCleanup.                                (* a cleanup gets the lock *)

(** The message loop passes a KEYINIT message on while the node is SEEDING,
    that is until [handleSeedKey] gets a key (state.go 106-118, seed.go
    232-247). *)
Definition seed_step (k : bytes) (st : SeedRun) (ev : seed_event) : res SeedRun :=
  let '(Build_SeedRun s forwards cleanups handed) := st in
  match ev with
  | EvKey p =>
      if decide (handed ≠ []) then mret st
      else
        '(s, r, fwd) ← keyReceived k p s;
        mret (Build_SeedRun s (forwards ++ option_list fwd) cleanups
                (if decide (r = []) then handed else handed ++ [r]))
  | EvForward n send =>
      match forwards !! n with
      | None => mret st
      | Some pm =>
          '(s, _) ← fowardKeyToOtherSeedPeers send pm s;
          mret (Build_SeedRun s (delete n forwards) (S cleanups) handed)
      end
  | EvCleanup =>
      match cleanups with
      | O => mret st
      | S c => mret (Build_SeedRun (checkCleanup s) forwards c handed)
      end
  end.

Definition seed_exec (k : bytes) (st : SeedRun) (evs : list seed_event) : res SeedRun :=
  foldl (λ acc ev, st ← acc; seed_step k st ev) (Ok st) evs.

Definition seed_start (members : list MlNode) (s : seed) : SeedRun :=
  {| sr_seed := startSeedAsSlave members s; sr_forwards := []; sr_cleanups := 0; sr_handed := [] |}.

Definition senders (evs : list seed_event) : list bytes :=
  flat_map (λ ev, match ev with EvKey p => [p] | _ => [] end) evs.

Lemma senders_app l1 l2 : senders (l1 ++ l2) = senders l1 ++ senders l2.
Proof. apply flat_map_app. Qed.

(** Before the key is handed out a peer is missing, and a waiting cleanup
    finds an entry for every peer. *)
Definition waiting_inv (others : list bytes) (k : bytes) (from : list bytes) (st : SeedRun) : Prop :=
  let s := sr_seed st in
  sr_handed st = [] ∧ stat_ok s ∧ otherSeedNodes s = others ∧
  (generatedKey s = dummyKey ∨ generatedKey s = k) ∧ (∀ p, received s p ↔ p ∈ from) ∧
  (∃ p, p ∈ others ∧ p ∉ from) ∧
  (sr_cleanups st ≠ 0%nat → ∀ p, p ∈ others → is_Some (stat_map s !! p)).

Definition run_inv (others : list bytes) (k : bytes) (from : list bytes) (st : SeedRun) : Prop :=
  is_Some (keyExchangeStat (sr_seed st)) ∧
  (waiting_inv others k from st ∨ sr_handed st = [k] ∧ ∀ p, p ∈ others → p ∈ from).

Lemma run_inv_start members s k : NoDup (otherSeedNodes s) → otherSeedNodes s ≠ [] →
  run_inv (otherSeedNodes s) k [] (seed_start members s).
Proof.
  intros Hnd Hne. split; [done|]. left. unfold waiting_inv. cbn [sr_handed sr_seed sr_cleanups seed_start].
  assert (∀ q, stat_map (startSeedAsSlave members s) !! q = None) as Hn
    by (intros q; unfold stat_map; simpl; apply lookup_empty).
  split_and!; try done; [|by left| |].
  - split; [done|]. intros q [? Hq]. by rewrite Hn in Hq.
  - intros p. rewrite elem_of_nil. split; [|done]. intros (ex & Hq & _). by rewrite Hn in Hq.
  - destruct (otherSeedNodes s) as [|p l]; [done|]. exists p. split; [constructor|]. apply not_elem_of_nil.
Qed.

Lemma run_inv_key others k from st p : length k = 32%nat → p ∈ others → run_inv others k from st →
  ∃ st', seed_step k st (EvKey p) = Ok st' ∧ run_inv others k (from ++ [p]) st'.
Proof.
  intros Hlen Hp [Hs HI]. destruct st as [s fwd c handed]. unfold waiting_inv in HI.
  cbn [sr_seed sr_handed sr_cleanups] in *. destruct HI as [(-> & Hok & Ho & Hg & Hr & _ & Hc)|[-> Hall]].
  2: { cbn. eexists. split; [done|]. split; [done|]. right. split; [done|].
       intros q Hq. apply elem_of_app. left. by apply Hall. }
  cbn [seed_step]. rewrite decide_False by tauto.
  destruct (keyReceived_spec k p s) as (s2 & -> & Hs2 & _ & Hg2 & Ho2 & _ & Hd2 & Hr2);
    [done|by rewrite Ho|done|done|].
  assert (∀ q, received s2 q ↔ q ∈ from ++ [p]) as Hr'
    by (intros q; by rewrite Hr2, Hr, elem_of_app, list_elem_of_singleton).
  assert (stat_ok s2) as Hok2.
  { split; [rewrite Ho2; apply Hok|]. intros q [Hq| ->]%Hd2; rewrite Ho2; [by apply Hok|by rewrite Ho]. }
  cbn [mbind res_bind]. eexists. split; [done|]. split; [done|]. unfold waiting_inv.
  cbn [sr_seed sr_handed sr_cleanups]. destruct (hasReceivedKeysFromAllSeedPeers s2) eqn:Ha.
  - right. rewrite decide_False by (by intros ->). split; [done|]. intros q Hq. apply Hr'.
    apply (hasReceived_spec s2 Hok2); [done|]. by rewrite Ho2, Ho.
  - left. rewrite decide_True by done. split_and!; try done; [congruence|by right| |].
    + destruct (decide (Exists (λ q, q ∉ from ++ [p]) others)) as [HE%Exists_exists|HE]; [done|].
      apply not_Exists_Forall in HE; [|apply _]. assert (false = true) as [=]. rewrite <- Ha.
      apply (hasReceived_spec s2 Hok2). intros q Hq. rewrite Ho2, Ho in Hq. apply Hr', dec_stable.
      by apply (proj1 (Forall_forall _ _) HE).
    + intros Hne q Hq. apply Hd2. left. by apply Hc.
Qed.

Lemma run_inv_forward others k from st n send : run_inv others k from st →
  ∃ st', seed_step k st (EvForward n send) = Ok st' ∧ run_inv others k from st'.
Proof.
  intros [Hs HI]. destruct st as [s fwd c handed]. cbn [seed_step].
  destruct (fwd !! n) as [pm|]; [|by exists (Build_SeedRun s fwd c handed)].
  cbn [sr_seed] in Hs. destruct (fowardKey_spec send pm s Hs) as (s2 & out & -> & HF).
  destruct HF as (Hs2 & _ & Hg2 & Ho2 & _ & Hd2 & Hr2 & _).
  cbn [mbind res_bind]. eexists. split; [done|]. split; [done|].
  destruct HI as [HI|HI]; [left|by right]. unfold waiting_inv in *. cbn [sr_seed sr_handed sr_cleanups] in *.
  destruct HI as (Hh & Hok & Ho & Hg & Hr & Hp & _). split_and!; try done; [|congruence|by rewrite Hg2| |].
  - split; [rewrite Ho2; apply Hok|]. intros q [Hq|Hq]%Hd2; rewrite Ho2; [by apply Hok|done].
  - intros q. by rewrite Hr2.
  - intros _ q Hq. apply Hd2. right. by rewrite Ho.
Qed.

Lemma run_inv_cleanup others k from st : run_inv others k from st →
  ∃ st', seed_step k st EvCleanup = Ok st' ∧ run_inv others k from st'.
Proof.
  intros [Hs HI]. destruct st as [s fwd [|c] handed]; cbn [seed_step].
  { eexists. by split. }
  eexists. split; [done|]. cbn [sr_seed] in *. split.
  { cbn [sr_seed]. unfold checkCleanup. by destruct (_ && _). }
  destruct HI as [HI|HI]; [left|by right]. unfold waiting_inv in *. cbn [sr_seed sr_handed sr_cleanups] in *.
  destruct HI as (Hh & Hok & Ho & Hg & Hr & (p & Hp & Hnp) & Hc).
  assert (checkCleanup s = s) as ->.
  { apply (checkCleanup_waits s p Hok); [rewrite Ho; by apply Hc|by rewrite Ho|by rewrite Hr]. }
  split_and!; try done; [by exists p|]. intros _. by apply Hc.
Qed.

Lemma run_inv_exec others k evs st : length k = 32%nat → run_inv others k [] st →
  Forall (λ q, q ∈ others) (senders evs) →
  ∃ st', seed_exec k st evs = Ok st' ∧ run_inv others k (senders evs) st'.
Proof.
  intros Hlen HI. unfold seed_exec. induction evs as [|ev evs IH] using rev_ind; intros HF; [by exists st|].
  rewrite senders_app, Forall_app in HF. destruct HF as [HF Hev].
  destruct (IH HF) as (st1 & E & HI1). rewrite foldl_app, E, senders_app. cbn [foldl mbind res_bind].
  destruct ev as [p|n send|]; cbn [senders flat_map app] in *; rewrite ?app_nil_r.
  - inversion Hev; subst. by apply run_inv_key.
  - by apply run_inv_forward.
  - by apply run_inv_cleanup.
Qed.

(** C22.  The key exchange of a seed node that joins it as a slave, while it
    is SEEDING: in every sequence of KEYINIT messages with the one key from
    its seed peers (in any order, any of them repeated), of forwards, however
    their sends turn out, and of the cleanups they leave behind, no step
    panics, and the key is handed out exactly when it has come from every
    other seed node: once then, and not before.  A cleanup never erases the
    bookkeeping earlier. *)
Theorem seed_completes (s : seed) (members : list MlNode) (k : bytes) (evs : list seed_event) :
  NoDup (otherSeedNodes s) → otherSeedNodes s ≠ [] → length k = 32%nat →
  Forall (λ q, q ∈ otherSeedNodes s) (senders evs) →
  ∃ st, seed_exec k (seed_start members s) evs = Ok st ∧
    if decide (Forall (λ q, q ∈ senders evs) (otherSeedNodes s)) then sr_handed st = [k]
    else sr_handed st = [] ∧ otherSeedNodes (sr_seed st) = otherSeedNodes s ∧
         ∀ p, received (sr_seed st) p ↔ p ∈ senders evs.
Proof.
  intros Hnd Hne Hlen HF.
  destruct (run_inv_exec _ k evs (seed_start members s) Hlen (run_inv_start members s k Hnd Hne) HF)
    as (st & E & _ & HI). exists st. split; [done|]. case_decide as Hd; rewrite Forall_forall in Hd.
  - destruct HI as [(_ & _ & _ & _ & _ & (p & Hp & Hnp) & _)|[Hh _]]; [|done]. destruct Hnp. by apply Hd.
  - by destruct HI as [(Hh & _ & Ho & _ & Hr & _)|[_ Hall]].
Qed.

Definition toy_seed : seed :=
  {| keyExchangeStat := None; sd_id := Toy.node1; generatedKey := [];
     otherSeedNodes := [$"n1"; $"n2"]; otherMembers := [] |}.

(** The first peer's message comes twice, and a third time after the key has
    been handed out. *)
Lemma seed_completes_witness :
  let evs := [EvKey ($"n1"); EvForward 0 (λ _, true); EvCleanup; EvKey ($"n1"); EvKey ($"n2");
              EvForward 0 (λ _, true); EvCleanup; EvKey ($"n1")] in
  (∃ st, seed_exec Toy.key32 (seed_start [] toy_seed) evs = Ok st ∧ sr_handed st = [Toy.key32]) ∧
  ∃ st, seed_exec Toy.key32 (seed_start [] toy_seed) (take 4 evs) = Ok st ∧ sr_handed st = [].
Proof.
  intros evs. split.
  - destruct (seed_completes toy_seed [] Toy.key32 evs) as (st & E & Hh);
      [apply (bool_decide_unpack _); vm_compute; exact I|done|reflexivity
      |apply (bool_decide_unpack _); vm_compute; exact I|].
    exists st. split; [exact E|]. rewrite decide_True in Hh; [exact Hh|].
    apply (bool_decide_unpack _). vm_compute. exact I.
  - destruct (seed_completes toy_seed [] Toy.key32 (take 4 evs)) as (st & E & Hh);
      [apply (bool_decide_unpack _); vm_compute; exact I|done|reflexivity
      |apply (bool_decide_unpack _); vm_compute; exact I|].
    exists st. split; [exact E|]. rewrite decide_False in Hh; [apply Hh|].
    apply (bool_decide_unpack _). vm_compute. exact I.
Defined.

(** Outside the state SEEDING the precondition matters: a message that
    reached [keyReceived] after the cleanup would panic (seed.go 141-143). *)
Lemma keyReceived_after_cleanup k p s : (∀ q ex, stat_map s !! q = Some ex → sentTo ex = true ∧ receivedFrom ex = true) →
  ∃ msg, keyReceived k p (checkCleanup s) = Panic msg.
Proof.
  intros Hall. unfold checkCleanup. replace (existsb _ _) with false.
  - rewrite andb_false_r. unfold keyReceived. rewrite decide_True by (apply not_elem_of_nil). eauto.
  - symmetry. apply not_true_is_false. intros ([q ex] & Hin & He)%existsb_exists.
    apply list_elem_of_In, elem_of_map_to_list in Hin. destruct (Hall _ _ Hin) as [E1 E2].
    simpl in He. by rewrite E1, E2 in He.
Qed.
