(* ===== verification/Heartbeat.v ===== *)
(** * internal/cluster/heartbeat.go

    Heartbeats prove that a node holds the master key: a random nonce and
    its encryption under the key.  [LocalHeartBeat] makes one,
    [OnRemoteHeartBeat] records one received, and on every tick [split]
    takes the samples of the last window out of the buffer, which
    [processWindow] validates and counts per node.

    The manager's lock makes the append of [OnRemoteHeartBeat] and the
    splitting of a tick atomic, but both read the clock before they take it:
    the readings are arguments of the critical sections, and [hb_step]
    interleaves readings and critical sections.  The ticker may also fall
    behind: [EvTick] and [EvSplit] come whenever they come, and [punctual]
    says what is needed of them.  [processWindow] runs in its own goroutine:
    the fields it reads then ([lastRunTs], the node state) are its arguments.  The vault is what
    a call of [encProvider] returns. *)

From S2P Require Import Prelude GoBytes GoText Json Common CommonSet Seed.
From Stdlib Require Import ZArith Lia.

Local Open Scope Z_scope.

Record peerHeartBeat := {
  ph_id : bytes;
  ph_nonce : bytes;
  ph_encryptedNonce : bytes;
  ph_ts : Z
}.

Record HeartBeatManager := {
  samples : list peerHeartBeat;
  window : Z;                    (* time.Duration, nanoseconds *)
  interval : Z;
  lastRunTs : Z
}.

Definition second : Z := 1000000000.
Definition minute : Z := 60 * second.
(** [int64(d.Seconds())] *)
Definition Seconds (d : Z) : Z := Z.quot d second.

Definition NewHeartBeatManager (window granularity now : Z) : HeartBeatManager :=
  {| samples := []; window := window; interval := granularity; lastRunTs := now |}.

(** What a tick does with one sample. *)
Inductive fate := Dropped | Processed | Kept.

Definition sample_fate (lastRun max : Z) (s : peerHeartBeat) : fate :=
  if ph_ts s <? lastRun then Dropped
  else if ph_ts s - lastRun <=? max then Processed else Kept.

#[export] Instance fate_eq_dec : EqDecision fate.
Proof. solve_decision. Defined.

(** The loop [for _, s := range hbm.samples]: [data] and [samples]. *)
Definition split (lastRun max : Z) (l : list peerHeartBeat)
    : list peerHeartBeat * list peerHeartBeat :=
  foldl (λ acc s,
    let '(data, kept) := acc in
    match sample_fate lastRun max s with
    | Dropped => acc
    | Processed => (data ++ [s], kept)
    | Kept => (data, kept ++ [s])
    end) ([], []) l.

(** The critical section of a tick that has read the time [now]: the data
    handed to [processWindow] and the manager afterwards. *)
Definition tick (hbm : HeartBeatManager) (now : Z) : list peerHeartBeat * HeartBeatManager :=
  let '(data, kept) := split (lastRunTs hbm) (Seconds (window hbm)) (samples hbm) in
  (data, {| samples := kept; window := window hbm; interval := interval hbm; lastRunTs := now |}).

(** [OnRemoteHeartBeat]: the sample with the time that is read first, and the
    append under the lock. *)
Definition new_sample (peerId : bytes) (hb : HeartBeat) (now : Z) : peerHeartBeat :=
  {| ph_id := peerId; ph_nonce := hb_Nonce hb; ph_encryptedNonce := hb_Value hb; ph_ts := now |}.
Definition record_sample (hbm : HeartBeatManager) (phb : peerHeartBeat) : HeartBeatManager :=
  {| samples := samples hbm ++ [phb]; window := window hbm; interval := interval hbm;
     lastRunTs := lastRunTs hbm |}.
Definition OnRemoteHeartBeat (hbm : HeartBeatManager) (peerId : bytes) (hb : HeartBeat) (now : Z)
    : HeartBeatManager := record_sample hbm (new_sample peerId hb now).

Section crypto.
Context {E : Type} `{Ecrypto E}.

Definition LocalHeartBeat `{Entropy E} (vault : Vault) : M E (option HeartBeat) := λ e,
  if vault_is_nil vault then (Ok None, e)
  else
    let '(nonce, e) := draw 16 e in
    match Seal vault nonce e with
    | (Ok encNonce, e) =>
        (Ok (Some {| hb_Nonce := hex_EncodeToString nonce;
                     hb_Value := hex_EncodeToString encNonce |}), e)
    | (Err err, e) => (Panic (Error err), e)
    | (Panic p, e) => (Panic p, e)
    end.

Definition validateNonce (enc : Vault) (hb : peerHeartBeat) : res unit :=
  if vault_is_nil enc then Err ErrNoEncryptionService
  else
    nonce ← hex_DecodeString (ph_nonce hb);
    encNonce ← hex_DecodeString (ph_encryptedNonce hb);
    decryptedNonce ← Unseal enc encNonce;
    if decide (nonce = decryptedNonce) then Ok tt else Err ErrHeartBeatNonceMismatched.

(** One iteration of the counting loop. *)
Definition count_sample (enc : Vault) (stats : gmap bytes HeartBeatStat) (hb : peerHeartBeat)
    : res (gmap bytes HeartBeatStat) :=
  match validateNonce enc hb with
  | Panic p => Panic p
  | r =>
      let bad := match r with Err _ => 1 | _ => 0 end in
      Ok (match stats !! ph_id hb with
          | Some ps => <[ph_id hb := {| Total := Total ps + 1; Errors := Errors ps + bad |}]> stats
          | None => <[ph_id hb := {| Total := 1; Errors := bad |}]> stats
          end)
  end.

(** The window passed to the handler; [None] when the node is not READY. *)
Definition processWindow (enc : Vault) (lastRun win state : Z) (data : list peerHeartBeat)
    : res (option HeartBeatWindow) :=
  if decide (state ≠ NODE_STATE_READY) then Ok None
  else
    stats ← foldl (λ acc hb, m ← acc; count_sample enc m hb) (Ok ∅) data;
    mret (Some {| From := lastRun; Window := Seconds win; Stats := stats |}).
End crypto.

(** ** Lemmas *)

Lemma split_app lastRun max l s :
  split lastRun max (l ++ [s]) =
  let '(data, kept) := split lastRun max l in
  match sample_fate lastRun max s with
  | Dropped => (data, kept)
  | Processed => (data ++ [s], kept)
  | Kept => (data, kept ++ [s])
  end.
Proof. unfold split. rewrite foldl_app. simpl. by destruct (foldl _ _ l). Qed.

Lemma split_spec lastRun max l :
  split lastRun max l =
  (filter (λ s, sample_fate lastRun max s = Processed) l,
   filter (λ s, sample_fate lastRun max s = Kept) l).
Proof.
  induction l as [|s l IH] using rev_ind; [done|].
  rewrite split_app, IH, !filter_app, !filter_cons.
  destruct (sample_fate lastRun max s); simpl; by rewrite ?app_nil_r.
Qed.

Lemma filter_fates l lastRun max :
  l ≡ₚ filter (λ s, sample_fate lastRun max s = Processed) l
     ++ filter (λ s, sample_fate lastRun max s = Kept) l
     ++ filter (λ s, sample_fate lastRun max s = Dropped) l.
Proof.
  induction l as [|s l IH]; [done|]. rewrite !filter_cons.
  destruct (sample_fate lastRun max s); simpl; rewrite IH at 1.
  - by rewrite <- !Permutation_middle.
  - done.
  - by rewrite <- Permutation_middle.
Qed.

(** ** Readings of the clock and critical sections, interleaved *)

Record HbRun := {
  hr_clock : Z;                             (* seconds *)
  hr_hbm : HeartBeatManager;
  hr_waiting : list peerHeartBeat;          (* calls of OnRemoteHeartBeat before the lock *)
  hr_tick : option Z;                       (* the reading of the ticker, before the lock *)
  hr_arrived : list (peerHeartBeat * Z);    (* what was appended, with [lastRunTs] at that time *)
  hr_processed : list peerHeartBeat         (* what the calls of processWindow were given *)
}.

Definition hb_start (win gran t0 : Z) : HbRun :=
  {| hr_clock := t0; hr_hbm := NewHeartBeatManager win gran t0; hr_waiting := []; hr_tick := None;
     hr_arrived := []; hr_processed := [] |}.

Inductive hb_event :=
  | EvClock (d : N)                            (* seconds pass *)
  | EvReceive (peer : bytes) (hb : HeartBeat)  (* OnRemoteHeartBeat reads the clock *)
  | EvRecord (k : nat)                         (* the k-th waiting call gets the lock *)
  | EvTick                                     (* the ticker fires and reads the clock *)
  | EvSplit.                                   (* the ticker gets the lock *)

Definition hb_step (st : HbRun) (ev : hb_event) : option HbRun :=
  let '(Build_HbRun clock hbm waiting pending arrived processed) := st in
  match ev with
  | EvClock d => Some (Build_HbRun (clock + Z.of_N d) hbm waiting pending arrived processed)
  | EvReceive peer hb =>
      Some (Build_HbRun clock hbm (waiting ++ [new_sample peer hb clock]) pending arrived processed)
  | EvRecord k =>
      s ← waiting !! k;
      Some (Build_HbRun clock (record_sample hbm s) (delete k waiting) pending
              (arrived ++ [(s, lastRunTs hbm)]) processed)
  | EvTick =>
      match pending with
      | Some _ => None
      | None => Some (Build_HbRun clock hbm waiting (Some clock) arrived processed)
      end
  | EvSplit =>
      now ← pending;
      let '(data, hbm') := tick hbm now in
      Some (Build_HbRun clock hbm' waiting None arrived (processed ++ data))
  end.

(** Punctual ticks: the reading of the last one that had the lock is never
    more than the window ago. *)
Definition punctual (st : HbRun) : Prop :=
  hr_clock st - lastRunTs (hr_hbm st) ≤ Seconds (window (hr_hbm st)).
#[export] Instance punctual_dec st : Decision (punctual st).
Proof. unfold punctual. apply _. Defined.

(** A run with punctual ticks. *)
Definition hb_exec (st : HbRun) (evs : list hb_event) : option HbRun :=
  foldl (λ acc ev, st ← acc; st' ← hb_step st ev; if decide (punctual st') then Some st' else None)
    (Some st) evs.

(** A tick that read a later time had the lock first. *)
Definition overtaken (a : peerHeartBeat * Z) : Prop := ph_ts a.1 < a.2.
#[export] Instance overtaken_dec a : Decision (overtaken a).
Proof. unfold overtaken. apply _. Defined.

(** The heartbeats that were appended in time. *)
Definition in_time (st : HbRun) : list peerHeartBeat :=
  (filter (λ a, ¬ overtaken a) (hr_arrived st)).*1.

(** A buffered heartbeat that the next tick will not drop. *)
Definition fresh (hbm : HeartBeatManager) (s : peerHeartBeat) : Prop := lastRunTs hbm ≤ ph_ts s.
#[export] Instance fresh_dec hbm s : Decision (fresh hbm s).
Proof. unfold fresh. apply _. Defined.

(** No buffered sample is beyond the window: none is put off to a later
    tick. *)
Definition in_window (hbm : HeartBeatManager) : Prop :=
  ∀ s, s ∈ samples hbm → ph_ts s - lastRunTs hbm ≤ Seconds (window hbm).

Lemma tick_in_window hbm now : in_window hbm →
  tick hbm now = (filter (fresh hbm) (samples hbm),
    {| samples := []; window := window hbm; interval := interval hbm; lastRunTs := now |}).
Proof.
  unfold in_window, tick, fresh. intros HW. rewrite split_spec.
  induction (samples hbm) as [|s l IH]; [done|].
  assert (ph_ts s - lastRunTs hbm ≤ Seconds (window hbm)) as Hs by (apply HW; constructor).
  specialize (IH (λ s' H, HW s' (list_elem_of_further _ _ _ H))). injection IH as E1 E2.
  rewrite !filter_cons, E1, E2. unfold sample_fate.
  destruct (decide (lastRunTs hbm ≤ ph_ts s)).
  - by rewrite (proj2 (Z.ltb_ge _ _)), (proj2 (Z.leb_le _ _)) by lia.
  - by rewrite (proj2 (Z.ltb_lt _ _)) by lia.
Qed.

Record hb_inv (st : HbRun) : Prop := {
  hi_window : in_window (hr_hbm st);
  hi_waiting s : s ∈ hr_waiting st → ph_ts s ≤ hr_clock st;
  hi_done : hr_processed st ++ filter (fresh (hr_hbm st)) (samples (hr_hbm st)) = in_time st
}.

Lemma hb_inv_start win gran t0 : hb_inv (hb_start win gran t0).
Proof. split; [|intros s H; by apply elem_of_nil in H|done]. intros s H. by apply elem_of_nil in H. Qed.

Lemma hb_inv_record clock hbm waiting pending arrived processed k s :
  let st := Build_HbRun clock hbm waiting pending arrived processed in
  let st' := Build_HbRun clock (record_sample hbm s) (delete k waiting) pending
               (arrived ++ [(s, lastRunTs hbm)]) processed in
  hb_inv st → waiting !! k = Some s → punctual st' → hb_inv st'.
Proof.
  intros st st' [HW Hwt HD] Hk HP. assert (ph_ts s ≤ clock) as Hs by by apply Hwt, list_elem_of_lookup_2 with k.
  split; cbn in *.
  - intros s' [H| ->%list_elem_of_singleton]%elem_of_app; [by apply HW|]. unfold punctual in HP. cbn in *. lia.
  - intros s' H. apply Hwt. by eapply list_elem_of_delete_inv.
  - unfold in_time in *. cbn in *. rewrite !filter_app, fmap_app, app_assoc.
    rewrite (list_filter_iff (fresh (record_sample hbm s)) (fresh hbm)) by done. rewrite HD. f_equal.
    rewrite !filter_cons, !filter_nil. unfold overtaken, fresh. simpl.
    do 2 case_decide; try done; lia.
Qed.

Lemma hb_inv_step st ev st' : hb_inv st → hb_step st ev = Some st' → punctual st' → hb_inv st'.
Proof.
  destruct st as [clock hbm waiting pending arrived processed]. intros HI Hs HP.
  destruct ev as [d|peer hb|k| |]; simpl in Hs.
  - injection Hs as <-. destruct HI as [HW Hwt HD]. split; [done| |done].
    intros s H. apply Hwt in H. cbn in *. lia.
  - injection Hs as <-. destruct HI as [HW Hwt HD]. split; [done| |done].
    intros s [H| ->%list_elem_of_singleton]%elem_of_app; [by apply Hwt|done].
  - destruct (waiting !! k) as [s|] eqn:Hk; [|done]. injection Hs as <-.
    by eapply hb_inv_record.
  - destruct pending; [done|]. injection Hs as <-. destruct HI as [HW Hwt HD]. by split.
  - destruct pending as [now|]; [|done]. destruct HI as [HW Hwt HD]. cbn in HW, HD.
    simpl in Hs. rewrite tick_in_window in Hs by done. injection Hs as <-.
    split; [intros s H; by apply elem_of_nil in H|done|]. cbn. rewrite app_nil_r. exact HD.
Qed.

Lemma hb_inv_exec st evs st' : hb_inv st → hb_exec st evs = Some st' → hb_inv st'.
Proof.
  intros HI. revert st'. unfold hb_exec. induction evs as [|ev evs IH] using rev_ind; intros st' Hr.
  { by injection Hr as <-. }
  rewrite foldl_app in Hr. cbn [foldl] in Hr. destruct (foldl _ _ evs) as [st1|]; [|done]. simpl in Hr.
  destruct (hb_step st1 ev) as [st2|] eqn:Es; [|done]. simpl in Hr. case_decide as HP; [|done].
  injection Hr as <-. by apply (hb_inv_step st1 ev); [apply IH|..].
Qed.



(** ** Counting *)

(** What the statistics of one node should say. *)
Definition reference_stat {E} `{Ecrypto E} (enc : Vault) (data : list peerHeartBeat) (id : bytes)
    : option HeartBeatStat :=
  let l := filter (λ hb, ph_id hb = id) data in
  if decide (l = []) then None
  else Some {| Total := Z.of_nat (length l);
               Errors := Z.of_nat (length (filter (λ hb, is_ok (validateNonce enc hb) = false) l)) |}.

Section counting.
Context {E : Type} `{EcryptoLaws E} `{Entropy E}.

Lemma validateNonce_safe enc k hb p : vault_with_key enc k → validateNonce enc hb ≠ Panic p.
Proof.
  intros Hv. pose proof Hv as (m & -> & _). unfold validateNonce. simpl.
  destruct (hex_DecodeString (ph_nonce hb)) eqn:E1; simpl; [|done|by apply hex_safe in E1].
  destruct (hex_DecodeString (ph_encryptedNonce hb)) eqn:E2; simpl; [|done|by apply hex_safe in E2].
  destruct (Unseal _ _) eqn:E3; simpl; [|done|by eapply Unseal_safe in E3].
  by case_decide.
Qed.

Lemma count_samples_spec enc k data : vault_with_key enc k →
  ∃ stats, foldl (λ acc hb, m ← acc; count_sample enc m hb) (Ok ∅) data = Ok stats ∧
    ∀ id, stats !! id = reference_stat enc data id.
Proof.
  intros Hv. induction data as [|hb data (stats & IH & Hs)] using rev_ind.
  { exists ∅. split; [done|]. intros id. apply lookup_empty. }
  rewrite foldl_app. cbn [foldl]. rewrite IH. cbn [mbind res_bind]. unfold count_sample.
  destruct (validateNonce enc hb) as [[]|err|p] eqn:Ev; [| |by eapply validateNonce_safe in Ev].
  all: eexists; split; [done|]; intros id; unfold reference_stat in *;
    specialize (Hs (ph_id hb)) as Hs'; specialize (Hs id);
    rewrite filter_app, filter_cons;
    destruct (decide (ph_id hb = id)) as [<-|Hne];
    [|by destruct (stats !! ph_id hb); rewrite lookup_insert_ne, app_nil_r by done].
  all: rewrite (decide_False (P := _ ++ _ = [])) by (by intros [_ ?]%app_nil);
    rewrite Hs', filter_app, !length_app, filter_cons, Ev; simpl;
    case_decide as Hnil; rewrite lookup_insert_eq; [rewrite Hnil|]; simpl;
    do 2 f_equal; lia.
Qed.

(**  On a READY node that holds the master key, [processWindow]
    always produces a window; its statistics have an entry for exactly the
    nodes with a sample in the data, with the number of samples and the
    number that fail validation.  On any other node it produces none. *)
Theorem processWindow_counts (enc : Vault) (k : bytes) (lastRun win state : Z)
    (data : list peerHeartBeat) :
  vault_with_key enc k →
  if decide (state = NODE_STATE_READY) then
    ∃ w, processWindow enc lastRun win state data = Ok (Some w) ∧
      From w = lastRun ∧ Window w = Seconds win ∧
      ∀ id, Stats w !! id = reference_stat enc data id
  else processWindow enc lastRun win state data = Ok None.
Proof.
  intros Hv. unfold processWindow. destruct (decide (state = NODE_STATE_READY)) as [->|Hs].
  - rewrite decide_False by auto. destruct (count_samples_spec enc k data Hv) as (stats & -> & Hs).
    eexists. split; [done|]. done.
  - by rewrite decide_True.
Qed.

(** C6. A heartbeat made by a node that holds the master key is accepted
    by every node that holds the same key, after travelling as the two hex
    strings and being recorded by [OnRemoteHeartBeat]; making it never
    fails. *)
Theorem heartbeat_accepted (v v' : Vault) (k : bytes) (e : E) (peer : bytes) (now : Z)
    (hbm : HeartBeatManager) :
  vault_with_key v k → vault_with_key v' k →
  ∃ hb e' s, LocalHeartBeat v e = (Ok (Some hb), e') ∧
    samples (OnRemoteHeartBeat hbm peer hb now) = samples hbm ++ [s] ∧
    ph_id s = peer ∧ ph_ts s = now ∧ validateNonce v' s = Ok tt.
Proof.
  intros Hv Hv'. unfold LocalHeartBeat.
  assert (vault_is_nil v = false) as -> by (by destruct Hv as (m & -> & _)).
  destruct (draw 16 e) as [nonce e1]. destruct (Seal_total v k nonce e1 Hv) as (c & e2 & Ec).
  rewrite Ec. eexists _, e2, _. split; [done|]. split; [done|]. split; [done|]. split; [done|].
  unfold validateNonce. assert (vault_is_nil v' = false) as -> by (by destruct Hv' as (m & -> & _)).
  simpl. rewrite !hex_round_trip. simpl. rewrite (Unseal_Seal _ _ _ _ _ _ _ Hv Hv' Ec). simpl.
  by rewrite decide_True.
Qed.
End counting.

Import Toy.

Definition hb_good : peerHeartBeat :=
  {| ph_id := $"n2"; ph_nonce := $"ab"; ph_encryptedNonce := hex_EncodeToString (key32 ++ [xab]);
     ph_ts := 1010 |}.
Definition hb_bad : peerHeartBeat :=
  {| ph_id := $"n2"; ph_nonce := $"ac"; ph_encryptedNonce := hex_EncodeToString (key32 ++ [xab]);
     ph_ts := 1020 |}.

Lemma processWindow_counts_witness :
  ∃ w, processWindow (VaultMember (Some member1)) 1200 (15 * minute) NODE_STATE_READY
         [hb_good; hb_bad; hb_good] = Ok (Some w) ∧
    Stats w !! ($"n2") = Some {| Total := 3; Errors := 1 |} ∧ Stats w !! ($"n3") = None.
Proof.
  destruct (processWindow_counts (VaultMember (Some member1)) key32 1200 (15 * minute)
    NODE_STATE_READY [hb_good; hb_bad; hb_good] member1_key) as (w & E & _ & _ & Hs).
  exists w. split; [exact E|]. rewrite !Hs. split; vm_compute; reflexivity.
Defined.

Lemma heartbeat_accepted_witness :
  ∃ hb e' s, LocalHeartBeat (VaultMember (Some member1)) 7%N = (Ok (Some hb), e') ∧
    samples (OnRemoteHeartBeat (NewHeartBeatManager (15 * minute) (2 * minute) 1000)
               ($"node1") hb 1010) = [s] ∧
    validateNonce (VaultMember (Some member1)) s = Ok tt.
Proof.
  destruct (heartbeat_accepted (VaultMember (Some member1)) (VaultMember (Some member1)) key32 7%N
    ($"node1") 1010 (NewHeartBeatManager (15 * minute) (2 * minute) 1000) member1_key member1_key)
    as (hb & e' & s & E & Es & _ & _ & Ev).
  exists hb, e', s. split; [exact E|]. split; [exact Es|exact Ev].
Defined.

(** On the typed nil that [NewNode]'s provider returns while no key is
    stored, the comparison with nil fails and the call panics. *)
Lemma LocalHeartBeat_typed_nil e : LocalHeartBeat (VaultMember None) e = (Panic nil_deref, (e + 1)%N).
Proof. done. Qed.
