(* ===== verification/Node.v ===== *)
(** * internal/cluster: a node

    [node.go], [state.go], [query.go], [validate.go] and the parts of
    [seed.go] that are methods of [Node]: what one node does on each message,
    on each callback of memberlist and in each of its goroutines.

    A [World] is one node with its surroundings: the [Node] struct, its disk
    and random source, the messages it has sent ([out], destination and
    payload), the program counter of [Start] and the goroutines it has
    spawned.  Each method is a computation of the state monad over [World]; a
    section under [c.lock] is one computation.  A goroutine that loops is a
    [task]; [task_step] runs it once, with the members memberlist reports at
    that time and with [send] saying which sends succeed. *)

From S2P Require Import Prelude GoBytes GoText GoNet Json Sha256 Common CommonSet MasterKey Seed Heartbeat.
From Stdlib Require Import ZArith Lia.

Local Open Scope Z_scope.

Record Node := {
  n_id : bytes;
  n_cluster : bytes;
  n_configuredPeerAddresses : list bytes;
  n_seedNodes : list bytes;
  n_hasList : bool;                        (* list != nil *)
  n_masterKs : MasterKeyStore;
  n_state : Z;                             (* state.state *)
  n_nodeInfo : NodeInfo;                   (* state.nodeInfo *)
  n_seed : seed;                           (* state.seed *)
  n_inMessages : list PeerMessage;         (* buffered channel, capacity 1024 *)
  n_stateChangeMessages : list Z;          (* buffered channel, capacity 1024 *)
  n_heartbeatManager : HeartBeatManager
}.

Definition channel_capacity : nat := 1024.

(** The goroutines of a node, with what they capture. *)
Inductive task :=
  | TSeedMaster (keyInit : PeerMessage)              (* startSeedAsMaster *)
  | TForward (pm : bytes)                            (* fowardKeyToOtherSeedPeers *)
  | TCleanup                                         (* checkCleanup *)
  | TQuery (peers : list MlNode)                     (* queryKey *)
  | TKeyReply (to : bytes) (pl : bytes)              (* handleQueryKey *)
  | TChallenge (joined : list MlNode) (msg : bytes)  (* validatingExistingKey *)
  | TChallengeReply (to : bytes) (b : bytes) (failed : bool). (* handleKeyChallengeRequest *)

(** Where [Start] is. *)
Inductive Pc :=
  | PStart
  | PJoinSeed         (* local key, seed node: waiting to join *)
  | PJoinValidate     (* local key: waiting to join *)
  | PWaitKey          (* local key: waiting for a member with a key *)
  | PJoinNoKey        (* no key: waiting to join *)
  | PNoKeyLoop        (* no key: looking for a key or for the seed peers *)
  | PSeed             (* all seed peers joined: about to seed *)
  | PDone.

Section world.
Context {E : Type}.

Record World := {
  node : Node;
  disk : FS;
  rng : E;
  out : list (bytes * bytes);
  tasks : list task;
  pc : Pc
}.

Definition set_node (w : World) (n : Node) : World :=
  {| node := n; disk := disk w; rng := rng w; out := out w; tasks := tasks w; pc := pc w |}.
Definition set_disk (w : World) (fs : FS) : World :=
  {| node := node w; disk := fs; rng := rng w; out := out w; tasks := tasks w; pc := pc w |}.
Definition set_rng (w : World) (e : E) : World :=
  {| node := node w; disk := disk w; rng := e; out := out w; tasks := tasks w; pc := pc w |}.
Definition set_out (w : World) (o : list (bytes * bytes)) : World :=
  {| node := node w; disk := disk w; rng := rng w; out := o; tasks := tasks w; pc := pc w |}.
Definition set_tasks (w : World) (ts : list task) : World :=
  {| node := node w; disk := disk w; rng := rng w; out := out w; tasks := ts; pc := pc w |}.
Definition set_pc (w : World) (p : Pc) : World :=
  {| node := node w; disk := disk w; rng := rng w; out := out w; tasks := tasks w; pc := p |}.
End world.
Arguments World : clear implicits.

Definition set_ks (n : Node) (ks : MasterKeyStore) : Node :=
  {| n_id := n_id n; n_cluster := n_cluster n; n_configuredPeerAddresses := n_configuredPeerAddresses n;
     n_seedNodes := n_seedNodes n; n_hasList := n_hasList n; n_masterKs := ks; n_state := n_state n;
     n_nodeInfo := n_nodeInfo n; n_seed := n_seed n; n_inMessages := n_inMessages n;
     n_stateChangeMessages := n_stateChangeMessages n; n_heartbeatManager := n_heartbeatManager n |}.
Definition set_seed (n : Node) (s : seed) : Node :=
  {| n_id := n_id n; n_cluster := n_cluster n; n_configuredPeerAddresses := n_configuredPeerAddresses n;
     n_seedNodes := n_seedNodes n; n_hasList := n_hasList n; n_masterKs := n_masterKs n;
     n_state := n_state n; n_nodeInfo := n_nodeInfo n; n_seed := s; n_inMessages := n_inMessages n;
     n_stateChangeMessages := n_stateChangeMessages n; n_heartbeatManager := n_heartbeatManager n |}.
Definition set_in (n : Node) (ms : list PeerMessage) : Node :=
  {| n_id := n_id n; n_cluster := n_cluster n; n_configuredPeerAddresses := n_configuredPeerAddresses n;
     n_seedNodes := n_seedNodes n; n_hasList := n_hasList n; n_masterKs := n_masterKs n;
     n_state := n_state n; n_nodeInfo := n_nodeInfo n; n_seed := n_seed n; n_inMessages := ms;
     n_stateChangeMessages := n_stateChangeMessages n; n_heartbeatManager := n_heartbeatManager n |}.
Definition set_status (n : Node) (stat : Z) (chan : list Z) : Node :=
  {| n_id := n_id n; n_cluster := n_cluster n; n_configuredPeerAddresses := n_configuredPeerAddresses n;
     n_seedNodes := n_seedNodes n; n_hasList := n_hasList n; n_masterKs := n_masterKs n;
     n_state := stat; n_nodeInfo := n_nodeInfo n; n_seed := n_seed n; n_inMessages := n_inMessages n;
     n_stateChangeMessages := chan; n_heartbeatManager := n_heartbeatManager n |}.
Definition set_list (n : Node) : Node :=
  {| n_id := n_id n; n_cluster := n_cluster n; n_configuredPeerAddresses := n_configuredPeerAddresses n;
     n_seedNodes := n_seedNodes n; n_hasList := true; n_masterKs := n_masterKs n; n_state := n_state n;
     n_nodeInfo := n_nodeInfo n; n_seed := n_seed n; n_inMessages := n_inMessages n;
     n_stateChangeMessages := n_stateChangeMessages n; n_heartbeatManager := n_heartbeatManager n |}.
Definition set_hbm (n : Node) (h : HeartBeatManager) : Node :=
  {| n_id := n_id n; n_cluster := n_cluster n; n_configuredPeerAddresses := n_configuredPeerAddresses n;
     n_seedNodes := n_seedNodes n; n_hasList := n_hasList n; n_masterKs := n_masterKs n;
     n_state := n_state n; n_nodeInfo := n_nodeInfo n; n_seed := n_seed n;
     n_inMessages := n_inMessages n; n_stateChangeMessages := n_stateChangeMessages n;
     n_heartbeatManager := h |}.

Section node.
Context {E : Type} `{Ecrypto E} `{Entropy E}.
Implicit Types (w : World E).

(** ** Building blocks *)

Definition get {A} (f : Node → A) : M (World E) A := λ w, (Ok (f (node w)), w).
Definition modify (f : Node → Node) : M (World E) unit := λ w, (Ok tt, set_node w (f (node w))).
Definition spawn (t : task) : M (World E) unit := λ w, (Ok tt, set_tasks w (tasks w ++ [t])).
Definition emit (ms : list (bytes * bytes)) : M (World E) unit :=
  λ w, (Ok tt, set_out w (out w ++ ms)).
Definition goto (p : Pc) : M (World E) unit := λ w, (Ok tt, set_pc w p).
Definition with_rng {A} (m : M E A) : M (World E) A :=
  λ w, let '(r, e) := m (rng w) in (r, set_rng w e).
Definition panic {A} (msg : bytes) : M (World E) A := λ w, (Panic msg, w).

(** [c.state.state = s; c.stateChangeMessages <- s] *)
Definition setStatus (s : Z) : M (World E) unit :=
  modify (λ n, set_status n s (n_stateChangeMessages n ++ [s])).

(** [c.masterKs.Read()] *)
Definition readKey : M (World E) (option Member) := λ w,
  match mks_Read (n_masterKs (node w)) (disk w) with
  | Ok (m, ks) => (Ok m, set_node w (set_ks (node w) ks))
  | Err e => (Err e, w)
  | Panic p => (Panic p, w)
  end.

(** [c.masterKs.Write(secret)] *)
Definition writeKey (secret : MasterSecret) : M (World E) unit := λ w,
  match mks_Write (n_masterKs (node w)) secret (disk w) (rng w) with
  | (Ok fs, e) => (Ok tt, set_rng (set_disk w fs) e)
  | (Err err, e) => (Err err, set_rng w e)
  | (Panic p, e) => (Panic p, set_rng w e)
  end.

(** The provider of [NewNode]: the interface value is never nil. *)
Definition prov : M (World E) Vault := m ← readKey; mret (VaultMember m).

(** ** node.go: status and memberlist callbacks *)

Definition NodeStatus : M (World E) NodeMeta :=
  nodeInfo ← get n_nodeInfo;
  state ← get n_state;
  hb ← (if decide (state = NODE_STATE_READY)
        then vault ← prov; with_rng (LocalHeartBeat vault)
        else mret None);
  mret {| nm_Id := ni_Id nodeInfo; nm_ClusterId := ni_ClusterId nodeInfo; nm_State := state;
          nm_HeartBeat := hb |}.

Definition ActiveMemberNodes (n : Node) (members : list MlNode) : list NodeMeta :=
  omap (λ peer, if decide (Name peer ≠ n_id n) then
                  match NodeMetaFromBytes (Meta peer) with Ok m => Some m | _ => None end
                else None) (copyClusterPeers members).

Definition LocalState : M (World E) bytes := m ← NodeStatus; mret (json_Marshal m).

Definition mismatch (own other : bytes) : bytes :=
  $"auto shutdown, clusterId mismatch, own:" ++ own ++ $", remote:" ++ other.

(** [now] is the clock as [OnRemoteHeartBeat] has read it before the lock. *)
Definition MergeRemoteState (buf : bytes) (now : Z) : M (World E) unit :=
  match json_Unmarshal NodeMeta buf with
  | Err _ => mret tt
  | Panic p => panic p
  | Ok m =>
      n ← get (λ n, n);
      if decide (nm_ClusterId m ≠ n_cluster n) then panic (mismatch (n_cluster n) (nm_ClusterId m))
      else if negb (n_hasList n) then mret tt
      else
        match nm_HeartBeat m with
        | Some hb =>
            if decide (nm_Id m ≠ ni_Id (n_nodeInfo n) ∧ hb_Nonce hb ≠ [])
            then modify (λ n, set_hbm n (OnRemoteHeartBeat (n_heartbeatManager n) (nm_Id m) hb now))
            else mret tt
        | None => mret tt
        end
  end.

(** [NodeMeta(limit)]: no heartbeat. *)
Definition NodeMeta_bytes (n : Node) : bytes :=
  json_Marshal {| nm_Id := ni_Id (n_nodeInfo n); nm_ClusterId := ni_ClusterId (n_nodeInfo n);
                  nm_State := n_state n; nm_HeartBeat := None |}.

(** Blocks while the channel is full, see [act]. *)
Definition NotifyMsg (b : bytes) : M (World E) unit :=
  match json_Unmarshal PeerMessage b with
  | Err _ => mret tt
  | Panic p => panic p
  | Ok p =>
      sender ← lift (deref (pm_Sender p));
      cluster ← get n_cluster;
      if decide (ni_ClusterId sender ≠ cluster) then panic (mismatch cluster (ni_ClusterId sender))
      else modify (λ n, set_in n (n_inMessages n ++ [p]))
  end.

(** ** seed.go, query.go, validate.go: the handlers of [loop] *)

(** [uint64(time.Now().UnixMilli())] *)
Definition uint64 (z : Z) : Z := z mod 2 ^ 64.

Definition new_secret (k : bytes) (now : Z) : MasterSecret :=
  {| ms_Secret := hex_EncodeToString k; ms_CreatorId := []; ms_Created := uint64 now |}.

Definition handleSeedKey (msg : PeerMessage) (now : Z) : M (World E) unit :=
  sender ← lift (deref (pm_Sender msg));
  s ← get n_seed;
  '(s, k, fwd) ← lift (keyReceived (data_of msg) (ni_Id sender) s);
  modify (λ n, set_seed n s);;
  match fwd with Some b => spawn (TForward b) | None => mret tt end;;
  if decide (k = []) then mret tt
  else writeKey (new_secret k now);; setStatus NODE_STATE_READY.

Definition handleQueryKey (p : PeerMessage) : M (World E) unit :=
  mk ← readKey;
  mk ← lift (deref mk);
  secret ← lift (deref (m_MasterSecret mk));
  k ← lift (must (hex_DecodeString (ms_Secret secret)));
  sender ← lift (deref (pm_Sender p));
  nodeInfo ← get n_nodeInfo;
  spawn (TKeyReply (ni_Id sender)
           (toJson {| pm_Sender := Some nodeInfo; pm_Type := MSG_TYPE_KEYQUERY_RESP; pm_Data := Some k |})).

Definition handleKeyResponse (p : PeerMessage) (now : Z) : M (World E) unit :=
  writeKey (new_secret (data_of p) now);;
  setStatus NODE_STATE_READY.

Definition handleKeyChallengeResponse (p : PeerMessage) : M (World E) unit :=
  localId ← readKey;
  match localId with
  | None => panic ($"local key-storage gone")
  | Some localId =>
      dec ← lift (must (Member_Unseal localId (data_of p)));
      nodeInfo ← lift (deref (m_NodeInfo localId));
      if decide (dec ≠ ni_Id nodeInfo)
      then panic ($"localId(" ++ ni_Id nodeInfo ++ $") and id sendback(" ++ dec ++ $") not match")
      else setStatus NODE_STATE_READY
  end.

Definition handleKeyChallengeRequest (p : PeerMessage) : M (World E) unit :=
  localId ← readKey;
  match localId with
  | None => panic ($"local key-storage gone")
  | Some localId =>
      enc ← with_rng (λ e, let '(r, e) := Member_Seal localId (data_of p) e in (must r, e));
      nodeInfo ← get n_nodeInfo;
      sender ← lift (deref (pm_Sender p));
      spawn (TChallengeReply (ni_Id sender)
               (toJson {| pm_Type := MSG_TYPE_CHALLENGE_RESP; pm_Sender := Some nodeInfo;
                          pm_Data := Some enc |}) false)
  end.

(** One iteration of [loop] on the message it received. *)
Definition loop_body (msg : PeerMessage) (now : Z) : M (World E) unit :=
  status ← NodeStatus;
  let state := nm_State status in
  if decide (state = NODE_STATE_SEEDING) then
    if decide (pm_Type msg = MSG_TYPE_KEYINIT) then handleSeedKey msg now else mret tt
  else if decide (state = NODE_STATE_READY) then
    if decide (pm_Type msg = MSG_TYPE_KEYQUERY) then handleQueryKey msg
    else if decide (pm_Type msg = MSG_TYPE_CHALLENGE) then handleKeyChallengeRequest msg
    else mret tt
  else if decide (state = NODE_STATE_VALIDATING) then
    if decide (pm_Type msg = MSG_TYPE_CHALLENGE_RESP) then handleKeyChallengeResponse msg else mret tt
  else if decide (state = NODE_STATE_QUERY_KEY) then
    if decide (pm_Type msg = MSG_TYPE_KEYQUERY_RESP) then handleKeyResponse msg now else mret tt
  else mret tt.

(** ** Start *)

Definition queryKey (peers : list MlNode) : M (World E) unit :=
  setStatus NODE_STATE_QUERY_KEY;; spawn (TQuery peers).

(** [Node.seed] *)
Definition Node_seed (peers : list MlNode) : M (World E) unit :=
  setStatus NODE_STATE_SEEDING;;
  n ← get (λ n, n);
  let otherOnlinePeers := List.filter (λ p, negb (bool_decide (Name p = n_id n))) peers in
  let peersNeededForSeed := AddAll (Add NewSet (n_id n)) (otherSeedNodes (n_seed n)) in
  match Sorted peersNeededForSeed with
  | [] => panic ($"runtime error: index out of range [0] with length 0")
  | first :: _ =>
      if decide (first = n_id n) then
        mkey ← with_rng (λ e, let '(k, e) := draw 32 e in (Ok k, e));
        let keyInit := {| pm_Type := MSG_TYPE_KEYINIT; pm_Data := Some mkey;
                          pm_Sender := Some (n_nodeInfo n) |} in
        s ← lift (startSeedAsMaster keyInit otherOnlinePeers (n_seed n));
        modify (λ n, set_seed n s);;
        spawn (TSeedMaster keyInit)
      else modify (λ n, set_seed n (startSeedAsSlave otherOnlinePeers (n_seed n)))
  end.

(** The test of [onNoKey] that every seed node has joined. *)
Definition allSeedPeersJoined (n : Node) (joined : list MlNode) : bool :=
  let seedSet := Add (AddAll NewSet (n_seedNodes n)) (n_id n) in
  forallb (λ s, bool_decide (s ∈ sortedPeerNames joined)) (Sorted seedSet).

(** [Start] up to its first wait, and the loop in which a seed node with a
    key joins.  [memberlist.Create] has succeeded: its error ends the process
    ([log.Fatalf], node.go 89-92). *)
Definition Start_begin : M (World E) unit :=
  n ← get (λ n, n);
  modify set_list;;
  localId ← readKey;
  match localId with
  | Some localId =>
      nodeInfo ← lift (deref (m_NodeInfo localId));
      if decide (ni_ClusterId nodeInfo ≠ n_cluster n)
      then panic (mismatch (n_cluster n) (ni_ClusterId nodeInfo))
      else if decide (n_id n ∈ n_seedNodes n) then goto PJoinSeed
      else setStatus NODE_STATE_VALIDATING;; goto PJoinValidate
  | None => setStatus NODE_STATE_NO_KEY;; goto PJoinNoKey
  end.

Definition Start_joinSeed (joined : Z) : M (World E) unit :=
  if decide (joined = 0) then mret tt else setStatus NODE_STATE_READY;; goto PDone.

(** [validatingExistingKey] after its first line: the join loop and the
    loop that waits for a member with a key. *)
Definition validate_join (join_err : bool) : M (World E) unit :=
  if join_err then mret tt else goto PWaitKey.

Definition validate_wait (members : list MlNode) : M (World E) unit :=
  nodeInfo ← get n_nodeInfo;
  if membersCanProvideKey members then
    spawn (TChallenge members
      (toJson {| pm_Sender := Some nodeInfo; pm_Type := MSG_TYPE_CHALLENGE;
                 pm_Data := Some (ni_Id nodeInfo) |}));;
    goto PDone
  else mret tt.

(** [onNoKey] after its first line: the join loop and one iteration of the
    loop that looks for a key. *)
Definition onNoKey_join (joined : Z) : M (World E) unit :=
  if decide (joined = 0) then mret tt else goto PNoKeyLoop.

Definition onNoKey_loop (joinedMembers : list MlNode) : M (World E) unit :=
  n ← get (λ n, n);
  if membersCanProvideKey joinedMembers then queryKey joinedMembers;; goto PDone
  else if decide (n_id n ∈ n_seedNodes n) then
    if allSeedPeersJoined n joinedMembers then goto PSeed else mret tt
  else mret tt.

(** One step of [Start]: up to the next wait.  [joined] and [join_err] are
    the results of [list.Join], [members] those of [list.Members()] at this
    step. *)
Definition start_step (joined : Z) (join_err : bool) (members : list MlNode) (p : Pc)
    : M (World E) unit :=
  match p with
  | PStart => Start_begin
  | PJoinSeed => Start_joinSeed joined
  | PJoinValidate => validate_join join_err
  | PWaitKey => validate_wait members
  | PJoinNoKey => onNoKey_join joined
  | PNoKeyLoop => onNoKey_loop members
  | PSeed => Node_seed (copyClusterPeers members);; goto PDone
  | PDone => mret tt
  end.

(** ** Goroutines *)

(** Send to the first member the test selects for which the send succeeds. *)
Fixpoint send_first (send : MlNode → bool) (sel : MlNode → bool) (msg : bytes) (l : list MlNode)
    : list (bytes * bytes) :=
  match l with
  | [] => []
  | m :: l => if sel m && send m then [(Name m, msg)] else send_first send sel msg l
  end.

(** [m.Name != c.id] and the member's metadata says READY. *)
Definition other_ready (n : Node) (m : MlNode) : bool :=
  negb (bool_decide (Name m = n_id n)) && meta_ready m.

(** The goroutines' bodies; the result is what is left to do. *)
Definition forward_goroutine (send : MlNode → bool) (pm : bytes) : M (World E) (option task) :=
  n ← get (λ n, n);
  '(s, ms) ← lift (fowardKeyToOtherSeedPeers send pm (n_seed n));
  modify (λ n, set_seed n s);; emit ms;; spawn TCleanup;; mret None.

(** Only the first ready peer is asked, also when the send fails. *)
Definition query_goroutine (send : MlNode → bool) (peers : list MlNode) : M (World E) (option task) :=
  n ← get (λ n, n);
  match List.find (other_ready n) peers with
  | Some m =>
      let d := toJson {| pm_Type := MSG_TYPE_KEYQUERY; pm_Sender := Some (n_nodeInfo n);
                         pm_Data := None |} in
      (if send m then emit [(Name m, d)] else mret tt);; mret None
  | None => mret None
  end.

Definition keyReply_goroutine (send : MlNode → bool) (members : list MlNode) (to pl : bytes)
    : M (World E) (option task) :=
  match List.find (λ m, bool_decide (Name m = to)) members with
  | Some m => (if send m then emit [(Name m, pl)] else mret tt);; mret None
  | None => mret (Some (TKeyReply to pl))
  end.

Definition challenge_goroutine (send : MlNode → bool) (joined : list MlNode) (msg : bytes)
    : M (World E) (option task) :=
  n ← get (λ n, n);
  emit (send_first send (other_ready n) msg joined);; mret None.

(** [failed]: a send has set [err], after which it is never retried. *)
Definition challengeReply_goroutine (send : MlNode → bool) (members : list MlNode)
    (to b : bytes) (failed : bool) : M (World E) (option task) :=
  match List.find (λ m, bool_decide (Name m = to)) members with
  | Some m =>
      if failed then mret (Some (TChallengeReply to b failed))
      else if send m then emit [(Name m, b)];; mret None
      else mret (Some (TChallengeReply to b true))
  | None => mret (Some (TChallengeReply to b failed))
  end.

Definition task_step (send : MlNode → bool) (members : list MlNode) (t : task)
    : M (World E) (option task) :=
  n ← get (λ n, n);
  match t with
  | TSeedMaster keyInit => emit (seed_master_sends send keyInit (n_seed n));; mret None
  | TForward pm => forward_goroutine send pm
  | TCleanup => modify (λ n, set_seed n (checkCleanup (n_seed n)));; mret None
  | TQuery peers => query_goroutine send peers
  | TKeyReply to pl => keyReply_goroutine send members to pl
  | TChallenge joined msg => challenge_goroutine send joined msg
  | TChallengeReply to b failed => challengeReply_goroutine send members to b failed
  end.

(** Goroutine [k] goes on as [rest]. *)
Definition replace_task (k : nat) (rest : option task) : M (World E) unit := λ w,
  (Ok tt, set_tasks w (take k (tasks w) ++ option_list rest ++ drop (S k) (tasks w))).

(** ** Everything a node can do *)

Inductive action :=
  | AStart (joined : Z) (join_err : bool) (members : list MlNode)
  | ATask (k : nat) (send : MlNode → bool) (members : list MlNode)
  | ALoop (now : Z)
  | ANotifyMsg (b : bytes)
  | AMergeRemoteState (b : bytes) (now : Z)
  | ALocalState
  | AStateChange                  (* notifyStateChange takes a state *)
  | ATick (now : Z).              (* the heartbeat ticker *)

(** [None]: the action waits (an empty or full channel, no such goroutine). *)
Definition act (a : action) (w : World E) : option (res unit * World E) :=
  match a with
  | AStart joined join_err members => Some (start_step joined join_err members (pc w) w)
  | ATask k send members =>
      t ← tasks w !! k;
      Some ((rest ← task_step send members t; replace_task k rest) w)
  | ALoop now =>
      match n_inMessages (node w) with
      | [] => None
      | msg :: rest => Some ((modify (λ n, set_in n rest);; loop_body msg now) w)
      end
  | ANotifyMsg b =>
      if decide (length (n_inMessages (node w)) < channel_capacity)%nat
      then Some (NotifyMsg b w) else None
  | AMergeRemoteState b now => Some (MergeRemoteState b now w)
  | ALocalState => Some ((_ ← LocalState; mret tt) w)
  | AStateChange =>
      match n_stateChangeMessages (node w) with
      | [] => None
      | _ :: rest => Some (modify (λ n, set_status n (n_state n) rest) w)
      end
  | ATick now => Some (modify (λ n, set_hbm n (tick (n_heartbeatManager n) now).2) w)
  end.
End node.

(** ** common/net.go: ResolveIP *)

(** [net.LookupIP] is the resolver. *)
Definition ResolveIP (LookupIP : bytes → res (list bytes)) (host : bytes) : res bytes :=
  match ParseIP host with
  | Some _ => Ok host
  | None =>
      addrs ← LookupIP host;
      match List.find (λ a, negb (IsLoopback a)) addrs with
      | Some addr => Ok (IP_String addr)
      | None => Err (ErrString ($"no non-loopback address found"))
      end
  end.

Lemma ResolveIP_literal LookupIP a b c d : ResolveIP LookupIP (dotted [a; b; c; d]) = Ok (dotted [a; b; c; d]).
Proof. unfold ResolveIP. by rewrite ParseIP_dotted. Qed.

(** What is advertised for a name is never a loopback address. *)
Lemma ResolveIP_name LookupIP host s : ParseIP host = None → ResolveIP LookupIP host = Ok s →
  ∃ addrs addr, LookupIP host = Ok addrs ∧ addr ∈ addrs ∧ IsLoopback addr = false ∧ s = IP_String addr.
Proof.
  intros Hp. unfold ResolveIP. rewrite Hp. intros Hr. inv_res. case_match; simplify_eq.
  match goal with H : List.find _ _ = Some _ |- _ => apply List.find_some in H as [Hin Hl] end.
  apply list_elem_of_In in Hin. apply negb_true_iff in Hl. naive_solver.
Qed.

(** ** node.go: NewNode *)

(** The fields of [memberlist.Config] that [NewNode] sets. *)
Record MemberlistConfig := {
  ProbeInterval : Z;
  ProbeTimeout : Z;
  GossipInterval : Z;
  PushPullInterval : Z;
  mc_Name : bytes;
  SecretKey : bytes;
  BindPort : Z;
  AdvertisePort : Z;
  BindAddr : bytes;
  AdvertiseAddr : bytes
}.

(** The result of the calls [NewNode] makes, in their order.  [NewNode] ends
    in a node ([inr]), in a panic, or, where it calls [log.Fatalf], with the
    process exiting with a status ([inl]). *)
Record NodeEnv := {
  env_Hostname : res bytes;
  env_NewNodeTlsConfig : res unit;
  env_NewValKeyKeyService : res unit;
  env_ResolveIP : bytes → res bytes;
  env_NewNetTransport : res unit
}.

Definition NewNode (clusterConfig : option ClusterConfig) (enclaveConfig : option EnclaveConfig)
    (env : NodeEnv) (now : Z) : res (Z + Node * MemberlistConfig) :=
  match clusterConfig with
  | None => Panic ($"CLUSTER_PEERS undefined")
  | Some c =>
      if decide (Port c = 0) then Panic ($"CLUSTER_PORT undefined")
      else if decide (PeerAddresses c = []) then Panic ($"PEERS empty")
      else if decide (ValkeyUris c = []) then Panic ($"VALKEY_URIS empty")
      else if decide (BindAddress c = []) then Panic ($"BIND_ADDRESS empty")
      else
        _ ← must (env_Hostname env);
        _ ← must (env_NewNodeTlsConfig env);
        let nid := {| ni_Id := NodeHost c; ni_ClusterId := Id c |} in
        let ks := NewMasterkeyStore nid (MasterKeyFolder c) enclaveConfig in
        _ ← must (env_NewValKeyKeyService env);
        let seedNodes := AddAll NewSet (SeedNodes c) in
        let configuredSeedNodes := Sorted seedNodes in
        let seedNodes := Remove seedNodes (NodeHost c) in
        advertise ← must (env_ResolveIP env (NodeHost c));
        transport ← catch_res (env_NewNetTransport env);
        match transport with
        | inr _ => mret (inl 1)      (* log.Fatalf *)
        | inl _ =>
        mret (inr
          ({| n_id := NodeHost c; n_cluster := Id c; n_configuredPeerAddresses := PeerAddresses c;
              n_seedNodes := configuredSeedNodes; n_hasList := false; n_masterKs := ks; n_state := 0;
              n_nodeInfo := nid;
              n_seed := {| keyExchangeStat := None; sd_id := nid; generatedKey := [];
                           otherSeedNodes := Sorted seedNodes; otherMembers := [] |};
              n_inMessages := []; n_stateChangeMessages := [];
              n_heartbeatManager := NewHeartBeatManager (15 * minute) (2 * minute) now |},
           {| ProbeInterval := 30 * second; ProbeTimeout := 10 * second;
              GossipInterval := 5 * second; PushPullInterval := 60 * second;
              mc_Name := NodeHost c; SecretKey := Sum256 (EncryptionKey c);
              BindPort := Port c; AdvertisePort := Port c;
              BindAddr := BindAddress c; AdvertiseAddr := advertise |}))
        end
  end.

(** ** bootstrap.go: the listener that releases the web server *)

(** [countdown] is the counter of the [WaitGroup] that [Start] waits for. *)
Record NodeStateListener := { done_ : bool; countdown : Z }.

Definition NewNodeStateListener : NodeStateListener := {| done_ := false; countdown := 1 |}.

(** [WaitGroup.Done] *)
Definition Done (c : Z) : res Z :=
  if c - 1 <? 0 then Panic ($"sync: negative WaitGroup counter") else Ok (c - 1).

Definition OnStateChanged (l : NodeStateListener) (state : Z) : res NodeStateListener :=
  if negb (done_ l) && (state =? NODE_STATE_READY) then
    c ← Done (countdown l); mret {| done_ := true; countdown := c |}
  else Ok l.

(** The bootstrap releases the web server exactly once the node has
    reported READY: over any sequence of reported states the listener never
    panics (its countdown is decremented at most once), and the countdown
    that [Start] waits for is at zero if and only if READY was among the
    states. *)
Theorem listener_releases_once (states : list Z) :
  ∃ l, foldl (λ acc s, l ← acc; OnStateChanged l s) (Ok NewNodeStateListener) states = Ok l ∧
    countdown l = if decide (NODE_STATE_READY ∈ states) then 0 else 1.
Proof.
  assert (∃ l, foldl (λ acc s, l ← acc; OnStateChanged l s) (Ok NewNodeStateListener) states = Ok l ∧
    countdown l = (if decide (NODE_STATE_READY ∈ states) then 0 else 1) ∧
    done_ l = bool_decide (NODE_STATE_READY ∈ states)) as (l & ? & ? & _); [|eauto].
  induction states as [|s states (l & IH & Hc & Hd)] using rev_ind; [by eexists|].
  rewrite foldl_app, IH. cbn [foldl mbind res_bind]. unfold OnStateChanged. rewrite Hd.
  destruct (decide (NODE_STATE_READY ∈ states)) as [Hin|Hin].
  - rewrite bool_decide_true by done. eexists. split; [done|].
    rewrite decide_True, bool_decide_true by (by apply elem_of_app; left). by rewrite Hd, bool_decide_true.
  - rewrite bool_decide_false by done. cbn [negb andb]. destruct (Z.eqb_spec s NODE_STATE_READY) as [->|Hs].
    + unfold Done. rewrite Hc. simpl. eexists. split; [done|].
      by rewrite decide_True, bool_decide_true by (by apply elem_of_app; right; left).
    + eexists. split; [done|]. rewrite Hc, Hd.
      assert (NODE_STATE_READY ∉ states ++ [s]) as Hn.
      { rewrite not_elem_of_app, list_elem_of_singleton. naive_solver. }
      by rewrite decide_False, !bool_decide_false.
Qed.

(** A message without a sender brings the node down. *)
Lemma NotifyMsg_without_sender {E} (w : World E) b p : json_Unmarshal PeerMessage b = Ok p → pm_Sender p = None →
  NotifyMsg b w = (Panic nil_deref, w).
Proof. intros Hb Hs. unfold NotifyMsg. by rewrite Hb, Hs. Qed.
Example without_sender : json_Unmarshal PeerMessage ($"{}") =
  Ok {| pm_Sender := None; pm_Type := 0; pm_Data := None |}.
Proof. vm_compute. reflexivity. Qed.
