(* ===== verification/Cluster.v ===== *)
(** * internal/cluster: a cluster of nodes

    All the nodes of a cluster together: a step lets one node take one of
    its actions ([Node.act]).  A message is delivered when some node has sent
    it; since [out] only grows, the network may lose, delay, reorder and
    duplicate messages.  The members memberlist reports, and their metadata,
    are arbitrary at every step, as is the outcome of every send.

    The invariant [cluster_inv] gives the two safety theorems of the key
    exchange: all stored master keys are the same, and no node of an honest
    cluster panics. *)

From S2P Require Import Prelude GoBytes GoText Json Sha256 Common CommonSet MasterKey.
From S2P Require Import Seed Heartbeat Node.
From Stdlib Require Import ZArith Lia.

Local Open Scope Z_scope.

Notation Cluster E := (gmap bytes (World E)).

Section steps.
Context {E : Type} `{Ecrypto E} `{Entropy E}.

(** What may happen at node [i]: its own goroutines run, a message that
    some node has sent to it arrives, or a remote state of the cluster
    [cl] does. *)
Inductive allowed (cl : bytes) (st : Cluster E) (i : bytes) : action → Prop :=
  | allowed_start joined err members : allowed cl st i (AStart joined err members)
  | allowed_task k send members : allowed cl st i (ATask k send members)
  | allowed_loop now : allowed cl st i (ALoop now)
  | allowed_local_state : allowed cl st i ALocalState
  | allowed_state_change : allowed cl st i AStateChange
  | allowed_tick now : allowed cl st i (ATick now)
  | allowed_notify j w b :
      st !! j = Some w → (i, b) ∈ out w → allowed cl st i (ANotifyMsg b)
  | allowed_merge m now :
      nm_ClusterId m = cl → NodeMeta_ok m → allowed cl st i (AMergeRemoteState (json_Marshal m) now).

Inductive step (cl : bytes) (st : Cluster E) : Cluster E → Prop :=
  | step_act i w a w' :
      st !! i = Some w → allowed cl st i a → act a w = Some (Ok tt, w') →
      step cl st (<[i:=w']> st).

Definition reachable (cl : bytes) : Cluster E → Cluster E → Prop := rtc (step cl).

(** A script: actions, and deliveries of the [n]-th message node [j] has
    sent. *)
Inductive cmd :=
  | CAct (i : bytes) (a : action)
  | CDeliver (i j : bytes) (n : nat).

Definition local_action (a : action) : bool :=
  match a with ANotifyMsg _ | AMergeRemoteState _ _ => false | _ => true end.

Definition cmd_action (st : Cluster E) (c : cmd) : option (bytes * action) :=
  match c with
  | CAct i a => if local_action a then Some (i, a) else None
  | CDeliver i j n => wj ← st !! j; '(d, b) ← out wj !! n;
                      if decide (d = i) then Some (i, ANotifyMsg b) else None
  end.

Definition exec_cmd (st : Cluster E) (c : cmd) : option (Cluster E) :=
  '(i, a) ← cmd_action st c;
  w ← st !! i;
  match act a w with Some (Ok _, w') => Some (<[i:=w']> st) | _ => None end.

Definition exec (st : Cluster E) (l : list cmd) : option (Cluster E) :=
  foldl (λ acc c, st ← acc; exec_cmd st c) (Some st) l.

Lemma cmd_action_allowed cl st c i a : cmd_action st c = Some (i, a) → allowed cl st i a.
Proof.
  destruct c as [i' a'|i' j n]; simpl; intros Ha.
  - destruct a'; simplify_eq/=; constructor.
  - apply bind_Some in Ha as (wj & Hj & Ha). apply bind_Some in Ha as ([d b] & Hb & Ha).
    case_decide; simplify_eq. apply (allowed_notify cl st i j wj b Hj). by eapply list_elem_of_lookup_2.
Qed.

Lemma exec_cmd_step cl st c st' : exec_cmd st c = Some st' → step cl st st'.
Proof.
  intros Hc. unfold exec_cmd in Hc. apply bind_Some in Hc as ([i a] & Ha & Hc).
  apply bind_Some in Hc as (w & Hw & Hc).
  destruct (act a w) as [[[[]|?|?] w']|] eqn:Hact; simplify_eq.
  apply (step_act cl st i w a w'); [done|by eapply cmd_action_allowed|done].
Qed.

Lemma exec_reachable cl st l st' : exec st l = Some st' → reachable cl st st'.
Proof.
  revert st'. induction l as [|c l IH] using rev_ind; intros st' Hl.
  { by injection Hl as <-. }
  unfold exec in *. rewrite foldl_app in Hl. simpl in Hl.
  apply bind_Some in Hl as (st1 & Hl1 & Hl2). apply rtc_r with st1; [by apply IH|].
  by apply exec_cmd_step with c.
Qed.
End steps.

(** ** What a node has stored *)

Section storage.
Context {E : Type} `{Ecrypto E}.
Implicit Types (w : World E).

Definition store_of w : MasterKeyStore := n_masterKs (node w).

(** The node's file is absent. *)
Definition no_key w : Prop :=
  cachedMasterkey (store_of w) = None ∧ fs_fault (disk w) !! File (store_of w) = None ∧
  fs_files (disk w) !! File (store_of w) = None.

(** The node [i] has stored the master key [k]. *)
Definition has_key (cl i : bytes) w (k : bytes) : Prop :=
  ∃ m, on_disk (store_of w) (disk w) m ∧
    (cachedMasterkey (store_of w) = None ∨ cachedMasterkey (store_of w) = Some m) ∧
    m_NodeInfo m = Some {| ni_Id := i; ni_ClusterId := cl |} ∧ member_with_key m k.
End storage.

Section storage_lemmas.
Context {E : Type} `{EcryptoLaws E} `{Entropy E}.
Implicit Types (w : World E).

Lemma readKey_none w : no_key w → readKey w = (Ok None, w).
Proof.
  intros (Hc & Hf & Hd). unfold readKey. rewrite mks_Read_missing by done.
  destruct w as [[] ?????]. done.
Qed.

Lemma readKey_some cl i w k : has_key cl i w k →
  ∃ m ks, readKey w = (Ok (Some m), set_node w (set_ks (node w) ks)) ∧
    m_NodeInfo m = Some {| ni_Id := i; ni_ClusterId := cl |} ∧ member_with_key m k ∧
    ConfiguredNodeId ks = ConfiguredNodeId (store_of w) ∧
    has_key cl i (set_node w (set_ks (node w) ks)) k.
Proof.
  intros (m & Hd & Hc & Hn & Hk). unfold readKey. exists m.
  destruct Hc as [Hc|Hc].
  - rewrite (mks_Read_on_disk _ _ m) by done. eexists. split_and!; try done.
    exists m. split_and!; try done. by right.
  - rewrite (mks_Read_cached _ _ m) by done. eexists. split_and!; try done.
    exists m. split_and!; try done. by right.
Qed.

Lemma new_secret_ok k now : MasterSecret_ok (new_secret k now).
Proof.
  split_and!; simpl.
  - apply ascii_valid. induction k as [|b k IH]; [constructor|].
    cbn [hex_EncodeToString]. apply Forall_cons. split; [by destruct b|].
    apply Forall_cons. split; [by destruct b|done].
  - constructor.
  - unfold uint64. apply Z.mod_pos_bound. lia.
  - unfold uint64, uint64_max. pose proof (Z.mod_pos_bound now (2 ^ 64)). lia.
Qed.

Lemma writeKey_ok cl i w k now : no_key w → length k = 32%nat →
  ConfiguredNodeId (store_of w) = {| ni_Id := i; ni_ClusterId := cl |} →
  NodeInfo_ok {| ni_Id := i; ni_ClusterId := cl |} →
  ∃ fs e, writeKey (new_secret k now) w = (Ok tt, set_rng (set_disk w fs) e) ∧
    has_key cl i (set_rng (set_disk w fs) e) k.
Proof.
  intros (Hc & Hf & _) Hl Hid Hok. unfold writeKey.
  destruct (mks_Write_on_disk (store_of w) (new_secret k now) (disk w) (rng w) Hf
    (new_secret_ok k now)) as (fs & e & Hw & Hd); [by rewrite Hid|].
  unfold store_of in Hw. rewrite Hw. exists fs, e. split; [done|].
  eexists. split; [exact Hd|]. split; [by left|]. rewrite Hid. split; [done|].
  split; [|done]. unfold member_key. simpl. by rewrite hex_round_trip.
Qed.
End storage_lemmas.

(** Evaluate the state monad. *)
Ltac mstep := cbv beta iota delta [mbind M_bind mret M_ret lift get modify spawn emit goto with_rng panic setStatus];
  cbn [node set_node disk set_disk rng set_rng out set_out tasks set_tasks pc set_pc].

Ltac start_steps := unfold start_step, Start_begin, Start_joinSeed, validate_join, validate_wait,
  onNoKey_join, onNoKey_loop; mstep.
Ltac task_steps := unfold task_step, forward_goroutine, query_goroutine, keyReply_goroutine,
  challenge_goroutine, challengeReply_goroutine; mstep.

(** Decide a closed proposition by evaluation. *)
Ltac by_eval := apply (bool_decide_unpack _); vm_compute; exact I.

(** ** The invariant *)

Section invariant.
Context {E : Type} `{EcryptoLaws E} `{Entropy E}.

(** The cluster id, the set of configured seed nodes, the nodes that have
    the master key [K0] on disk when they start. *)
Context (cl : bytes) (SS : Set_) (K0 : bytes) (KH : gset bytes).
Context (cl_valid : valid_utf8 cl) (SS_ok : set_ok SS).
Context (K0_length : length K0 = 32%nat).
Context (KH_seed : KH = ∅ ∨ ∃ s, s ∈ (SS : gset bytes) ∧ s ∈ KH).

Implicit Types (w : World E) (st : Cluster E) (i d : bytes) (gk : option bytes).

Definition ident i : NodeInfo := {| ni_Id := i; ni_ClusterId := cl |}.
Definition others i : list bytes := Sorted (Remove SS i).
Definition is_master i : Prop := head (Sorted SS) = Some i.

(** A seed node that starts without a key: the only ones that take part in
    the seeding. *)
Definition seeder i : Prop := i ∈ (SS : gset bytes) ∧ i ∉ KH.

(** [gk] is the key the master has generated, if it has.  The key that
    nodes store is [K0] when some node starts with it; a single seed node
    never stores the key it generates. *)
Definition final gk : option bytes :=
  if decide (KH = ∅) then if decide (size (SS : gset bytes) ≤ 1)%nat then None else gk
  else Some K0.

Definition msg_ok gk (dst : bytes) (m : PeerMessage) : Prop :=
  ∃ s, pm_Sender m = Some (ident s) ∧ valid_utf8 s ∧
  ((pm_Type m = MSG_TYPE_KEYINIT ∧ seeder s ∧ s ≠ dst ∧ gk = pm_Data m ∧ is_Some gk) ∨
   (pm_Type m = MSG_TYPE_KEYQUERY_RESP ∧ final gk = pm_Data m ∧ is_Some (pm_Data m)) ∨
   (pm_Type m = MSG_TYPE_CHALLENGE_RESP ∧
      ∃ k, final gk = Some k ∧ ecrypto_Decrypt (data_of m) k = Ok dst) ∨
   (pm_Type m = MSG_TYPE_CHALLENGE ∧ data_of m = s) ∨
   pm_Type m = MSG_TYPE_KEYQUERY).

Definition good_bytes gk (dst b : bytes) : Prop :=
  ∃ m, b = toJson m ∧ msg_ok gk dst m.

Definition keyinit i k : PeerMessage := keyinit_msg (ident i) k.

Definition task_ok gk i (t : task) : Prop :=
  match t with
  | TSeedMaster m => seeder i ∧ ∃ k, m = keyinit i k ∧ gk = Some k
  | TForward b => seeder i ∧ others i ≠ [] ∧ ∃ k, b = toJson (keyinit i k) ∧ gk = Some k
  | TCleanup => others i ≠ []
  | TQuery _ => True
  | TKeyReply to pl => good_bytes gk to pl
  | TChallenge _ msg => ∀ dst, good_bytes gk dst msg
  | TChallengeReply to b _ => good_bytes gk to b
  end.

Definition phase_ok i (p : Pc) (state : Z) : Prop :=
  match p with
  | PStart => state = 0
  | PJoinSeed => state = 0 ∧ i ∈ KH
  | PJoinValidate | PWaitKey => state = NODE_STATE_VALIDATING ∨ state = NODE_STATE_READY
  | PJoinNoKey | PNoKeyLoop => state = NODE_STATE_NO_KEY
  | PSeed => state = NODE_STATE_NO_KEY ∧ i ∈ (SS : gset bytes)
  | PDone => state ∈ [NODE_STATE_SEEDING; NODE_STATE_VALIDATING; NODE_STATE_QUERY_KEY; NODE_STATE_READY]
  end.

(** READY nodes hold the key, nodes that seed or ask for it do not. *)
Definition store_ok gk i (state : Z) w : Prop :=
  if decide (state ∈ [NODE_STATE_NO_KEY; NODE_STATE_SEEDING; NODE_STATE_QUERY_KEY])
  then no_key w ∧ i ∉ KH
  else if decide (state = NODE_STATE_READY)
  then ∃ k, has_key cl i w k ∧ final gk = Some k
  else if decide (state = 0 ∧ i ∉ KH) then no_key w
  else i ∈ KH ∧ has_key cl i w K0.

(** The seed state before and after the node joins the key exchange. *)
Definition unseeded i (s : seed) : Prop :=
  keyExchangeStat s = None ∧ generatedKey s = [] ∧ otherSeedNodes s = others i ∧ otherMembers s = [].

Definition seeding gk i (state : Z) (s : seed) (ts : list task) : Prop :=
  seeder i ∧ is_Some (keyExchangeStat s) ∧
  (generatedKey s = [] ∨ generatedKey s = dummyKey ∨ gk = Some (generatedKey s)) ∧
  (∀ p, p ∈ otherSeedNodes s → p ≠ i) ∧ (∀ m, m ∈ otherMembers s → Name m ≠ i) ∧
  (state = NODE_STATE_SEEDING →
    otherSeedNodes s = others i ∧ stat_ok s ∧ generatedKey s ≠ [] ∧
    (∀ p, received s p → seeder p) ∧
    (others i ≠ [] → ∃ p, p ∈ others i ∧ ¬ received s p) ∧
    (TCleanup ∈ ts → ∀ q, q ∈ others i → is_Some (stat_map s !! q))).

Definition seed_inv gk i (p : Pc) (state : Z) (s : seed) (ts : list task) : Prop :=
  sd_id s = ident i ∧
  ((unseeded i s ∧ state ≠ NODE_STATE_SEEDING ∧ TCleanup ∉ ts ∧ (∀ b, TForward b ∉ ts) ∧
      (∀ m, TSeedMaster m ∉ ts))
   ∨ (p = PDone ∧ seeding gk i state s ts)).

Record node_inv gk i w : Prop := {
  ni_id : n_id (node w) = i;
  ni_cluster : n_cluster (node w) = cl;
  ni_info : n_nodeInfo (node w) = ident i;
  ni_conf : ConfiguredNodeId (n_masterKs (node w)) = ident i;
  ni_seeds : n_seedNodes (node w) = Sorted SS;
  ni_valid : valid_utf8 i;
  ni_phase : phase_ok i (pc w) (n_state (node w));
  ni_store : store_ok gk i (n_state (node w)) w;
  ni_seed : seed_inv gk i (pc w) (n_state (node w)) (n_seed (node w)) (tasks w);
  ni_tasks : ∀ t, t ∈ tasks w → task_ok gk i t;
  ni_in : ∀ m, m ∈ n_inMessages (node w) → msg_ok gk i m;
  ni_out : ∀ d b, (d, b) ∈ out w → good_bytes gk d b
}.

Definition gk_ok gk st : Prop :=
  match gk with
  | None => True
  | Some k => length k = 32%nat ∧ ∀ i w, st !! i = Some w → is_master i → pc w = PDone
  end.

Definition cluster_inv gk st : Prop :=
  gk_ok gk st ∧ ∀ i w, st !! i = Some w → node_inv gk i w.

(** *** The seed nodes *)

Lemma elem_of_others i x : x ∈ others i ↔ x ∈ (SS : gset bytes) ∧ x ≠ i.
Proof. unfold others. rewrite elem_of_Sorted. by apply Remove_spec. Qed.

Lemma all_seed_nodes i : i ∈ (SS : gset bytes) →
  AddAll (Add NewSet i) (others i) = SS.
Proof.
  intros Hi. apply (set_eq (C := gset bytes)). intros x.
  rewrite AddAll_spec, Add_spec, elem_of_others. unfold NewSet.
  assert (x ∈ (SS : gset bytes) → x ≠ []) as Hx by (intros ? ->; by apply SS_ok).
  assert (i ≠ []) as Hi0 by (intros ->; by apply SS_ok).
  destruct (decide (x = i)) as [->|]; [|set_solver]. naive_solver.
Qed.

Lemma seeder_all i : seeder i → (∀ p, p ∈ others i → seeder p) → KH = ∅.
Proof.
  intros [Hi Hni] Hall. destruct KH_seed as [|(s & Hs & Hs0)]; [done|].
  destruct (decide (s = i)) as [->|Hne]; [done|].
  destruct (Hall s) as [_ ?]; [by apply elem_of_others|done].
Qed.

Lemma final_KH gk i j : KH = ∅ → i ∈ (SS : gset bytes) → j ∈ (SS : gset bytes) → j ≠ i →
  final gk = gk.
Proof.
  intros HH Hi Hj Hne. unfold final. rewrite decide_True by done. rewrite decide_False; [done|].
  intros Hsz. destruct Hne. destruct (decide (size (SS : gset bytes) = 1%nat)) as [Es|Es].
  - by apply (size_singleton_inv (SS : gset bytes)).
  - assert (size (SS : gset bytes) = 0%nat) as Ez by lia.
    apply size_empty_inv in Ez. by apply Ez, not_elem_of_empty in Hi.
Qed.

Lemma final_K0 gk i : i ∈ KH → final gk = Some K0.
Proof. intros Hi. unfold final. rewrite decide_False; [done|]. intros E0. rewrite E0 in Hi. by apply not_elem_of_empty in Hi. Qed.

Lemma final_length gk st k : gk_ok gk st → final gk = Some k → length k = 32%nat.
Proof.
  unfold final. intros Hg Hk. case_decide; [|congruence]. case_decide; [done|]. subst gk. by destruct Hg.
Qed.

(** *** Monotonicity: the master generates the key once *)

Lemma msg_ok_gen k dst m : msg_ok None dst m → msg_ok (Some k) dst m.
Proof.
  intros (s & Hs & Hv & Hm). exists s. split; [done|]. split; [done|].
  destruct Hm as [(? & ? & ? & ? & [? [=]])|[(? & Hf & [x Hx])|[(? & k' & Hf & ?)|Hm]]].
  - right; left. unfold final in *. rewrite Hx in Hf. repeat case_decide; try done. rewrite Hx. eauto.
  - right; right; left. unfold final in *. repeat case_decide; try done. eauto.
  - tauto.
Qed.

Lemma good_bytes_gen k dst b : good_bytes None dst b → good_bytes (Some k) dst b.
Proof. intros (m & -> & Hm). exists m. split; [done|by apply msg_ok_gen]. Qed.

Lemma task_ok_gen k i t : task_ok None i t → task_ok (Some k) i t.
Proof.
  destruct t; simpl; try (naive_solver eauto using good_bytes_gen); intros Hd;
    eauto using good_bytes_gen.
Qed.

Lemma node_inv_gen k i w : node_inv None i w → node_inv (Some k) i w.
Proof.
  intros []. split; eauto using msg_ok_gen, good_bytes_gen, task_ok_gen.
  - unfold store_ok in *. repeat case_decide; try done.
    destruct ni_store0 as (k' & ? & Hf). exists k'. split; [done|].
    unfold final in *. by repeat case_decide.
  - destruct ni_seed0 as [? [?|(? & Hs)]]; (split; [done|]); [by left|right].
    split; [done|]. unfold seeding in *. destruct Hs as (?&?&[?|[?|?]]&?); [..|done]; tauto.
Qed.

(** *** Messages on the wire *)

Lemma msg_ok_wire gk dst m : msg_ok gk dst m → PeerMessage_ok m.
Proof.
  intros (s & Hs & Hv & Hm). split; [rewrite Hs; by split|].
  unfold MSG_TYPE_KEYINIT, MSG_TYPE_KEYQUERY, MSG_TYPE_KEYQUERY_RESP, MSG_TYPE_CHALLENGE,
    MSG_TYPE_CHALLENGE_RESP, int64_min, int64_max in *.
  destruct Hm as [(-> & _)|[(-> & _)|[(-> & _)|[(-> & _)| ->]]]]; lia.
Qed.

Lemma keyinit_ok i k dst : seeder i → valid_utf8 i → i ≠ dst → msg_ok (Some k) dst (keyinit i k).
Proof. intros Hi Hv Hne. exists i. split; [done|]. split; [done|]. left. by split_and!. Qed.

Lemma toJson_good gk dst m : msg_ok gk dst m → good_bytes gk dst (toJson m).
Proof. intros Hm. by exists m. Qed.
(** ** Preservation *)

(** The cache of the key store and the random source may change. *)
Definition touched w (ks : MasterKeyStore) (e : E) : World E :=
  set_rng (set_node w (set_ks (node w) ks)) e.

Lemma touched_inv gk i w ks e : node_inv gk i w →
  ConfiguredNodeId ks = ConfiguredNodeId (store_of w) →
  store_ok gk i (n_state (node w)) (touched w ks e) → node_inv gk i (touched w ks e).
Proof. intros [] Hc Hs. split; try done. simpl. by rewrite Hc. Qed.

Lemma store_ready gk i w : store_ok gk i NODE_STATE_READY w →
  ∃ k, has_key cl i w k ∧ final gk = Some k.
Proof. unfold store_ok. by rewrite decide_False, decide_True by by_eval. Qed.

Lemma store_ready_intro gk i w k : has_key cl i w k → final gk = Some k →
  store_ok gk i NODE_STATE_READY w.
Proof. unfold store_ok. rewrite decide_False, decide_True by by_eval. eauto. Qed.

Lemma store_keyless gk i state w :
  state ∈ [NODE_STATE_NO_KEY; NODE_STATE_SEEDING; NODE_STATE_QUERY_KEY] →
  store_ok gk i state w ↔ no_key w ∧ i ∉ KH.
Proof. intros Hin. unfold store_ok. by rewrite decide_True. Qed.

Lemma store_validating gk i w :
  store_ok gk i NODE_STATE_VALIDATING w ↔ i ∈ KH ∧ has_key cl i w K0.
Proof.
  unfold store_ok. rewrite decide_False by by_eval.
  rewrite decide_False by by_eval. by rewrite decide_False by (intros []; done).
Qed.

Lemma store_initial gk i w :
  store_ok gk i 0 w ↔ (i ∈ KH → has_key cl i w K0) ∧ (i ∉ KH → no_key w).
Proof.
  clear KH_seed.
  unfold store_ok. rewrite decide_False by by_eval. rewrite decide_False by by_eval.
  destruct (decide (i ∈ KH)) as [Hi|Hi].
  - rewrite decide_False by (by intros []). split; [|tauto]. by intros [_ ?].
  - rewrite decide_True by done. split; [|tauto]. by intros ?.
Qed.

(** [readKey] on a node that holds a key. *)
Lemma readKey_touched gk i w k : node_inv gk i w → has_key cl i w k →
  (∀ ks, has_key cl i (touched w ks (rng w)) k →
     store_ok gk i (n_state (node w)) (touched w ks (rng w))) →
  ∃ m ks, readKey w = (Ok (Some m), touched w ks (rng w)) ∧
    m_NodeInfo m = Some (ident i) ∧ member_with_key m k ∧
    has_key cl i (touched w ks (rng w)) k ∧ node_inv gk i (touched w ks (rng w)).
Proof.
  intros Hinv Hk Hst. destruct (readKey_some cl i w k Hk) as (m & ks & Hr & Hn & Hm & Hc & Hk').
  exists m, ks. assert (touched w ks (rng w) = set_node w (set_ks (node w) ks)) as Et by (by destruct w).
  rewrite Et. split_and!; try done. rewrite <- Et. rewrite <- Et in Hk'.
  apply touched_inv; [done|done|by apply Hst].
Qed.

Lemma NodeStatus_ok gk i w : node_inv gk i w →
  ∃ nm ks e, NodeStatus w = (Ok nm, touched w ks e) ∧ nm_State nm = n_state (node w) ∧
    nm_ClusterId nm = cl ∧ node_inv gk i (touched w ks e).
Proof.
  intros Hinv. unfold NodeStatus. mstep. case_decide as Hst; mstep.
  - pose proof (ni_store _ _ _ Hinv) as Hs. rewrite Hst in Hs.
    apply store_ready in Hs as (k & Hk & Hf).
    destruct (readKey_touched gk i w k Hinv Hk) as (m & ks & Hr & _ & Hm & Hk' & Hinv').
    { intros ks Hk'. rewrite Hst. by eapply store_ready_intro. }
    unfold prov. mstep. rewrite Hr. mstep. unfold LocalHeartBeat. cbn [vault_is_nil].
    destruct (draw 16 _) as [nonce e1].
    destruct (Seal_total (VaultMember (Some m)) k nonce e1) as (c & e2 & Ec).
    { by exists m. }
    rewrite Ec. exists {| nm_Id := ni_Id (n_nodeInfo (node w));
      nm_ClusterId := ni_ClusterId (n_nodeInfo (node w)); nm_State := n_state (node w);
      nm_HeartBeat := Some {| hb_Nonce := hex_EncodeToString nonce; hb_Value := hex_EncodeToString c |} |}, ks, e2.
    split; [done|]. split; [done|].
    split; [simpl; by rewrite (ni_info _ _ _ Hinv)|].
    apply (touched_inv _ _ _ _ _ Hinv); [|exact (ni_store _ _ _ Hinv')].
    transitivity (ident i); [exact (ni_conf _ _ _ Hinv')|symmetry; exact (ni_conf _ _ _ Hinv)].
  - eexists _, (n_masterKs (node w)), (rng w).
    assert (touched w (n_masterKs (node w)) (rng w) = w) as -> by (by destruct w as [[] ?????]).
    split; [done|]. split; [done|]. split; [|done]. simpl. by rewrite (ni_info _ _ _ Hinv).
Qed.

(** The computation succeeds and keeps the invariant. *)
Definition runs gk i w (m : M (World E) unit) : Prop :=
  ∃ w', m w = (Ok tt, w') ∧ node_inv gk i w' ∧ pc w' = pc w.

Lemma runs_nop gk i w : node_inv gk i w → runs gk i w (mret tt).
Proof. intros Hinv. by exists w. Qed.

(** Goroutines that only send. *)
Definition plain_task (t : task) : Prop :=
  match t with TSeedMaster _ | TForward _ | TCleanup => False | _ => True end.

Lemma seed_inv_tasks gk i p state s ts ts' :
  (∀ t, t ∈ ts' → t ∈ ts ∨ plain_task t) →
  seed_inv gk i p state s ts → seed_inv gk i p state s ts'.
Proof.
  intros Hts [Hid [(Hu & Hst & Hc & Hf & Hm)|(-> & Hs)]]; (split; [done|]); [left|right].
  - split_and!; try done.
    + intros [?|?]%Hts; done.
    + intros b [?|?]%Hts; [by eapply Hf|done].
    + intros m [?|?]%Hts; [by eapply Hm|done].
  - split; [done|]. destruct Hs as (? & ? & ? & ? & ? & Hs). unfold seeding. split_and!; try done.
    intros HS. destruct (Hs HS) as (? & ? & ? & ? & ? & Hcl). split_and!; try done.
    intros [?|?]%Hts; [auto|done].
Qed.

Lemma spawn_inv gk i w t : node_inv gk i w → plain_task t → task_ok gk i t →
  node_inv gk i (set_tasks w (tasks w ++ [t])).
Proof.
  intros [] Hp Ht. split; try done.
  - eapply seed_inv_tasks; [|done]. intros t' [?|Ht']%elem_of_app; [by left|].
    apply list_elem_of_singleton in Ht' as ->. by right.
  - intros t' [?|Ht']%elem_of_app; [auto|]. by apply list_elem_of_singleton in Ht' as ->.
Qed.

Lemma emit_inv gk i w ms : node_inv gk i w → (∀ d b, (d, b) ∈ ms → good_bytes gk d b) →
  node_inv gk i (set_out w (out w ++ ms)).
Proof. intros [] Hms. split; try done. intros d b [?|?]%elem_of_app; auto. Qed.

Lemma set_in_inv gk i w ms : node_inv gk i w → (∀ m, m ∈ ms → msg_ok gk i m) →
  node_inv gk i (set_node w (set_in (node w) ms)).
Proof. intros [] Hms. by split. Qed.

(** A node that becomes READY with a key. *)
Lemma ready_write_inv gk i w k ch fs e : node_inv gk i w →
  pc w = PDone ∨ n_state (node w) = NODE_STATE_VALIDATING →
  has_key cl i (set_rng (set_disk w fs) e) k → final gk = Some k →
  node_inv gk i (set_node (set_rng (set_disk w fs) e) (set_status (node w) NODE_STATE_READY ch)).
Proof.
  intros [] Hpc Hk Hf. split; try done.
  - simpl. destruct Hpc as [->|Hst]; [simpl; by_eval|]. rewrite Hst in ni_phase0.
    destruct (pc w); simpl in *; try done; try by right.
    + by destruct ni_phase0.
    + by destruct ni_phase0.
    + by_eval.
  - by eapply store_ready_intro.
  - destruct ni_seed0 as [Hid [(Hu & Hst & ? & ? & ?)|(Hpd & Hs)]]; (split; [done|]); [left|right].
    + by split_and!.
    + split; [done|]. destruct Hs as (? & ? & ? & ? & ? & Hs). by split_and!.
Qed.

Lemma ready_inv gk i w k ch : node_inv gk i w → pc w = PDone ∨ n_state (node w) = NODE_STATE_VALIDATING →
  has_key cl i w k → final gk = Some k →
  node_inv gk i (set_node w (set_status (node w) NODE_STATE_READY ch)).
Proof.
  intros Hinv Hpc Hk Hf. pose proof (ready_write_inv gk i w k ch (disk w) (rng w)) as HR.
  assert (set_rng (set_disk w (disk w)) (rng w) = w) as Ew by (by destruct w). rewrite Ew in HR. auto.
Qed.

(** *** The handlers *)

Lemma member_secret m k : member_with_key m k →
  ∃ ms, m_MasterSecret m = Some ms ∧ hex_DecodeString (ms_Secret ms) = Ok k.
Proof. intros [Hk _]. unfold member_key in Hk. inv_res. eauto. Qed.

Lemma ready_key gk i w : node_inv gk i w → n_state (node w) = NODE_STATE_READY →
  ∃ m ks k, readKey w = (Ok (Some m), touched w ks (rng w)) ∧
    m_NodeInfo m = Some (ident i) ∧ member_with_key m k ∧ final gk = Some k ∧
    node_inv gk i (touched w ks (rng w)).
Proof.
  intros Hinv Hst. pose proof (ni_store _ _ _ Hinv) as Hs. rewrite Hst in Hs.
  apply store_ready in Hs as (k & Hk & Hf).
  destruct (readKey_touched gk i w k Hinv Hk) as (m & ks & Hr & Hn & Hm & _ & Hinv').
  { intros ks Hk'. rewrite Hst. by eapply store_ready_intro. }
  by exists m, ks, k.
Qed.

Lemma handleQueryKey_ok gk i w p : node_inv gk i w → n_state (node w) = NODE_STATE_READY →
  msg_ok gk i p → runs gk i w (handleQueryKey p).
Proof.
  intros Hinv Hst (s & Hs & Hv & _).
  destruct (ready_key gk i w Hinv Hst) as (m & ks & k & Hr & _ & Hm & Hf & Hinv').
  apply member_secret in Hm as (ms & Hms & Hk).
  unfold runs, handleQueryKey. mstep. rewrite Hr. mstep. cbn [deref]. rewrite Hms. cbn [deref].
  rewrite Hk, Hs. cbn [must deref]. eexists. split; [done|]. split; [|done].
  apply spawn_inv; [done|done|]. simpl. apply toJson_good.
  exists i. split; [simpl; by rewrite (ni_info _ _ _ Hinv)|].
  split; [apply (ni_valid _ _ _ Hinv)|]. right; left. by rewrite Hf.
Qed.

Lemma handleKeyChallengeRequest_ok gk i w p :
  node_inv gk i w → n_state (node w) = NODE_STATE_READY →
  msg_ok gk i p → pm_Type p = MSG_TYPE_CHALLENGE → runs gk i w (handleKeyChallengeRequest p).
Proof.
  intros Hinv Hst (s & Hs & Hv & Hp) Ht.
  assert (data_of p = s) as Hd.
  { rewrite Ht in Hp. destruct Hp as [(?&_)|[(?&_)|[(?&_)|[(_&?)|?]]]]; done. }
  destruct (ready_key gk i w Hinv Hst) as (m & ks & k & Hr & _ & Hm & Hf & Hinv').
  unfold runs, handleKeyChallengeRequest. mstep. rewrite Hr. mstep.
  unfold Member_Seal. destruct Hm as [Hmk Hl]. rewrite Hmk.
  destruct (encrypt_total (data_of p) k (rng (touched w ks (rng w))) Hl) as (c & e' & Ec).
  rewrite Ec. cbn [must]. rewrite Hs. cbn [deref]. eexists. split; [done|]. split; [|done].
  apply (spawn_inv gk i (touched w ks e')); [|done|].
  - eapply touched_inv; [done| |exact (ni_store _ _ _ Hinv')].
    transitivity (ident i); [exact (ni_conf _ _ _ Hinv')|symmetry; exact (ni_conf _ _ _ Hinv)].
  - simpl. apply toJson_good. exists i. split; [simpl; by rewrite (ni_info _ _ _ Hinv)|].
    split; [apply (ni_valid _ _ _ Hinv)|]. right; right; left. split; [done|].
    exists k. split; [done|]. simpl. rewrite <- Hd. by eapply decrypt_encrypt.
Qed.

Lemma handleKeyChallengeResponse_ok gk i w p :
  node_inv gk i w → n_state (node w) = NODE_STATE_VALIDATING →
  msg_ok gk i p → pm_Type p = MSG_TYPE_CHALLENGE_RESP → runs gk i w (handleKeyChallengeResponse p).
Proof.
  intros Hinv Hst (s & Hs & Hv & Hp) Ht.
  assert (∃ k, final gk = Some k ∧ ecrypto_Decrypt (data_of p) k = Ok i) as (k & Hf & Hd).
  { rewrite Ht in Hp. destruct Hp as [(?&_)|[(?&_)|[(_&?)|[(?&_)|?]]]]; done. }
  pose proof (ni_store _ _ _ Hinv) as Hk. rewrite Hst in Hk.
  rewrite store_validating in Hk. destruct Hk as [Hi Hk]. rewrite (final_K0 gk i Hi) in Hf. injection Hf as <-.
  destruct (readKey_touched gk i w K0 Hinv Hk) as (m & ks & Hr & Hn & [Hmk Hl] & Hk' & Hinv').
  { intros ks Hk'. rewrite Hst. by apply store_validating. }
  unfold runs, handleKeyChallengeResponse. mstep. rewrite Hr. mstep. unfold Member_Unseal.
  rewrite Hmk. cbn [mbind res_bind]. rewrite Hd. cbn [must]. rewrite Hn. cbn [deref].
  rewrite decide_False by (intros Hne; by apply Hne). eexists. split; [done|]. split; [|done].
  eapply ready_inv; [done|by right|done|by apply (final_K0 gk i)].
Qed.

Lemma keyless_store gk i w :
  node_inv gk i w → n_state (node w) = NODE_STATE_SEEDING ∨ n_state (node w) = NODE_STATE_QUERY_KEY →
  no_key w ∧ i ∉ KH ∧ pc w = PDone.
Proof.
  intros Hinv Hst. pose proof (ni_store _ _ _ Hinv) as Hs. pose proof (ni_phase _ _ _ Hinv) as Hp.
  destruct Hst as [Hst|Hst]; rewrite Hst in Hs, Hp; rewrite store_keyless in Hs by by_eval.
  all: destruct Hs as [? ?]; split_and!; try done; destruct (pc w); simpl in Hp; try done.
  all: by destruct Hp.
Qed.

Lemma handleKeyResponse_ok gk i w p now : (∀ k, final gk = Some k → length k = 32%nat) →
  node_inv gk i w → n_state (node w) = NODE_STATE_QUERY_KEY →
  msg_ok gk i p → pm_Type p = MSG_TYPE_KEYQUERY_RESP → runs gk i w (handleKeyResponse p now).
Proof.
  intros Hlen Hinv Hst (s & Hs & Hv & Hp) Ht.
  assert (final gk = Some (data_of p)) as Hf.
  { rewrite Ht in Hp. destruct Hp as [(?&_)|[(_&Hf&[k Hk])|[(?&_)|[(?&_)|?]]]]; try done.
    unfold data_of. by rewrite Hf, Hk. }
  destruct (keyless_store gk i w Hinv (or_intror Hst)) as (Hno & _ & Hpc).
  destruct (writeKey_ok cl i w (data_of p) now Hno (Hlen _ Hf) (ni_conf _ _ _ Hinv))
    as (fs & e & Hw & Hk); [by split; [apply (ni_valid _ _ _ Hinv)|]|].
  unfold runs, handleKeyResponse. mstep. rewrite Hw. mstep. eexists. split; [done|]. split; [|done].
  apply (ready_write_inv gk i w (data_of p)); auto.
Qed.

Lemma handleSeedKey_ok gk i w p now : (∀ k, gk = Some k → length k = 32%nat) →
  node_inv gk i w → n_state (node w) = NODE_STATE_SEEDING →
  msg_ok gk i p → pm_Type p = MSG_TYPE_KEYINIT → runs gk i w (handleSeedKey p now).
Proof.
  intros Hlen Hinv Hst (s & Hs & Hv & Hp) Ht.
  assert (seeder s ∧ s ≠ i ∧ gk = Some (data_of p)) as (Hsd & Hsi & Hg).
  { rewrite Ht in Hp. destruct Hp as [(_&?&?&->&[k Hk])|[(?&_)|[(?&_)|[(?&_)|?]]]]; try done.
    split_and!; try done. unfold data_of. by rewrite Hk. }
  destruct (keyless_store gk i w Hinv (or_introl Hst)) as (Hno & Hni & Hpc).
  pose proof (ni_seed _ _ _ Hinv) as [Hid [(_ & Hne & _)|(_ & Hseed)]]; [done|].
  destruct Hseed as (Hme & Hstat & Hgen & Hoth & Hmem & Hs').
  destruct (Hs' Hst) as (Ho & Hok & Hgne & Hrec & Hun & Hcl).
  assert (s ∈ otherSeedNodes (n_seed (node w))) as Hsin.
  { rewrite Ho. apply elem_of_others. by destruct Hsd. }
  destruct (keyReceived_spec (data_of p) s (n_seed (node w))) as
    (s1 & Ek & Hstat1 & Hid1 & Hg1 & Ho1 & Hm1 & Hdom1 & Hr1); [done|done|by apply Hlen| |].
  { destruct Hgen as [?|[?|Hgen]]; [done|by left|]. right. congruence. }
  assert (stat_ok s1) as Hok1.
  { split; [rewrite Ho1; apply Hok|]. intros q [Hq| ->]%Hdom1; rewrite Ho1; [by apply Hok|done]. }
  assert (∀ q, received s1 q → seeder q) as Hrec1 by (intros q [Hq| ->]%Hr1; auto).
  set (b := toJson (keyinit_msg (sd_id (n_seed (node w))) (data_of p))) in *.
  set (w1 := set_tasks (set_node w (set_seed (node w) s1)) (tasks w ++ [TForward b])).
  (* everything but the state of the seeding is as before *)
  assert (∀ z, (z = NODE_STATE_SEEDING →
      hasReceivedKeysFromAllSeedPeers s1 = false) →
    seed_inv gk i PDone z s1 (tasks w1)) as Hseed1.
  { intros z Hst1. split; [congruence|]. right. split; [done|]. unfold seeding. split_and!; try done.
    - rewrite Hg1. by right; right.
    - intros q. rewrite Ho1. apply Hoth.
    - intros q. rewrite Hm1. apply Hmem.
    - intros HS. specialize (Hst1 HS). split_and!; try done.
      + congruence.
      + rewrite Hg1. intros E1. specialize (Hlen _ Hg). rewrite E1 in Hlen. done.
      + intros _. rewrite <- Ho, <- Ho1. apply not_true_iff_false in Hst1.
        rewrite (hasReceived_spec s1 Hok1) in Hst1.
        destruct (decide (Forall (received s1) (otherSeedNodes s1))) as [HF|HF].
        { destruct Hst1. by apply Forall_forall. }
        apply not_Forall_Exists, Exists_exists in HF; [done|]. intros q. apply _.
      + intros Hc q Hq. apply Hdom1. left. apply Hcl; [|done].
        apply elem_of_app in Hc as [?|Hc]; [done|]. by apply list_elem_of_singleton in Hc. }
  assert (∀ t, t ∈ tasks w1 → task_ok gk i t) as Htasks.
  { intros t [?|Hin]%elem_of_app; [by apply (ni_tasks _ _ _ Hinv)|].
    apply list_elem_of_singleton in Hin as ->. split; [done|]. split.
    - intros E0. rewrite Ho, E0 in Hsin. by apply not_elem_of_nil in Hsin.
    - exists (data_of p). split; [|done]. by subst b; rewrite Hid. }
  unfold runs, handleSeedKey. mstep. rewrite Hs. cbn [deref ni_Id ident]. rewrite Ek.
  cbn [fst snd]. destruct (hasReceivedKeysFromAllSeedPeers s1) eqn:Hall.
  - assert (data_of p ≠ []) as Hne by (intros E0; specialize (Hlen _ Hg); by rewrite E0 in Hlen).
    rewrite decide_False by done.
    assert (KH = ∅) as HKH.
    { apply (seeder_all i Hme). intros q Hq. apply Hrec1.
      by apply (proj1 (hasReceived_spec s1 Hok1) Hall); rewrite Ho1, Ho. }
    destruct (writeKey_ok cl i w1 (data_of p) now Hno (Hlen _ Hg) (ni_conf _ _ _ Hinv))
      as (fs & e & Hw & Hk); [by split; [apply (ni_valid _ _ _ Hinv)|]|].
    change (set_tasks _ _) with w1. rewrite Hw. mstep. eexists. split; [done|]. split; [|done].
    destruct Hinv. split; try done.
    + cbn [pc set_node]. cbn. rewrite Hpc. simpl. by_eval.
    + apply (store_ready_intro _ _ _ (data_of p)); [done|]. rewrite (final_KH gk i s); [done|done|apply Hme|apply Hsd|done].
    + cbn. rewrite Hpc. by apply Hseed1.
  - rewrite decide_True by done. exists w1. split; [done|]. split; [|done].
    destruct Hinv. split; try done. cbn. rewrite Hpc. by apply Hseed1.
Qed.

(** *** The message loop *)

Lemma loop_body_ok gk st i w msg now : gk_ok gk st →
  node_inv gk i w → msg_ok gk i msg → runs gk i w (loop_body msg now).
Proof.
  intros Hg Hinv Hm. destruct (NodeStatus_ok gk i w Hinv) as (nm & ks & e & Hn & Hst & _ & Hinv').
  assert (∀ k, gk = Some k → length k = 32%nat) as Hlen.
  { intros k ->. by destruct Hg. }
  assert (∀ k, final gk = Some k → length k = 32%nat) as Hlenf by (intros k; by apply (final_length gk st)).
  assert (∀ m, (m (touched w ks e) = m (touched w ks e)) → runs gk i (touched w ks e) m →
    ∃ w', m (touched w ks e) = (Ok tt, w') ∧ node_inv gk i w' ∧ pc w' = pc w) as Hrun by (intros m _ Hr; exact Hr).
  unfold runs, loop_body. unfold mbind at 1, M_bind at 1. rewrite Hn. cbv zeta. rewrite Hst.
  repeat case_decide; apply Hrun; try done; try (by apply runs_nop).
  - by apply handleSeedKey_ok.
  - by apply handleQueryKey_ok.
  - by apply handleKeyChallengeRequest_ok.
  - by apply handleKeyChallengeResponse_ok.
  - by apply handleKeyResponse_ok.
Qed.

(** *** Start *)

(** The phases of [Start] that do not touch the seeding. *)
Lemma unseeded_inv gk i p p' z s ts : seed_inv gk i p z s ts → p ≠ PDone →
  ∀ z', z' ≠ NODE_STATE_SEEDING → seed_inv gk i p' z' s ts.
Proof. intros [? [(? & ? & ?)|[? _]]] Hp z' Hz; [|done]. split; [done|]. by left. Qed.

Lemma goto_inv gk i w p z ch : node_inv gk i w → pc w ≠ PDone → z ≠ NODE_STATE_SEEDING →
  phase_ok i p z → store_ok gk i z w →
  node_inv gk i (set_pc (set_node w (set_status (node w) z ch)) p).
Proof.
  intros [] Hpc Hz Hp Hs. split; try done.
  by apply (unseeded_inv _ _ (pc w) _ (n_state (node w))).
Qed.

(** The same without a change of state. *)
Lemma goto_inv_same gk i w p : node_inv gk i w → pc w ≠ PDone →
  phase_ok i p (n_state (node w)) → node_inv gk i (set_pc w p).
Proof.
  intros Hinv Hpc Hp. pose proof (goto_inv gk i w p (n_state (node w)) (n_stateChangeMessages (node w)) Hinv Hpc) as HG.
  assert (set_node w (set_status (node w) (n_state (node w)) (n_stateChangeMessages (node w))) = w) as Ew
    by (by destruct w as [[] ?????]). rewrite Ew in HG. apply HG; [|done|apply (ni_store _ _ _ Hinv)].
  intros Hz. rewrite Hz in Hp. destruct (ni_seed _ _ _ Hinv) as [_ [(_ & ? & _)|[? _]]]; done.
Qed.

Lemma set_list_inv gk i w : node_inv gk i w → node_inv gk i (set_node w (set_list (node w))).
Proof. intros []. by split. Qed.

(** What a step of [Start] may do to the generated key. *)
Definition start_result gk i w (r : res unit * World E) : Prop :=
  ∃ w' gk', r = (Ok tt, w') ∧ node_inv gk' i w' ∧ (pc w = PDone → pc w' = PDone) ∧
    (gk' = gk ∨ (gk = None ∧ is_master i ∧ pc w' = PDone ∧ ∃ k, gk' = Some k ∧ length k = 32%nat)).

Lemma start_result_same gk i w w' : node_inv gk i w' → pc w ≠ PDone →
  start_result gk i w (Ok tt, w').
Proof. intros Hinv Hp. exists w', gk. split_and!; try done. by left. Qed.

Lemma start_PStart gk i w joined err members : node_inv gk i w → pc w = PStart →
  start_result gk i w (start_step joined err members PStart w).
Proof.
  intros Hinv Hp. pose proof (ni_phase _ _ _ Hinv) as Hz. rewrite Hp in Hz. simpl in Hz.
  apply set_list_inv in Hinv as Hinv1. set (w1 := set_node w (set_list (node w))) in *.
  pose proof (ni_store _ _ _ Hinv1) as Hs. simpl in Hs. rewrite Hz, store_initial in Hs.
  start_steps. change (set_node w _) with w1.
  destruct (decide (i ∈ KH)) as [Hi|Hi].
  - destruct (readKey_touched gk i w1 K0 Hinv1 (proj1 Hs Hi)) as (m & ks & Hr & Hn & _ & Hk' & Hinv').
    { intros ks Hk'. simpl. rewrite Hz. by apply store_initial. }
    rewrite Hr, Hn. cbn [deref ni_ClusterId ident]. rewrite (ni_cluster _ _ _ Hinv).
    rewrite decide_False by (intros Hne; by apply Hne).
    case_decide as Hin; mstep.
    + apply start_result_same; [|by rewrite Hp]. apply goto_inv_same; [done|simpl; by rewrite Hp|].
      split; [done|done].
    + apply start_result_same; [|by rewrite Hp].
      apply goto_inv; [done|simpl; by rewrite Hp|done|by left|]. by apply store_validating.
  - rewrite (readKey_none w1 (proj2 Hs Hi)).
    apply start_result_same; [|by rewrite Hp].
    apply goto_inv; [done|simpl; by rewrite Hp|done|done|]. apply store_keyless; [by_eval|].
    split; [by apply Hs|done].
Qed.

Lemma start_seed gk st i w members : gk_ok gk st → st !! i = Some w →
  node_inv gk i w → pc w = PSeed →
  start_result gk i w ((Node_seed members;; goto PDone) w).
Proof.
  intros Hg Hst Hinv Hp. pose proof (ni_phase _ _ _ Hinv) as Hz. rewrite Hp in Hz.
  destruct Hz as [Hz Hi].
  pose proof (ni_store _ _ _ Hinv) as Hs. rewrite Hz, store_keyless in Hs by by_eval.
  destruct Hs as [Hno Hni].
  destruct (ni_seed _ _ _ Hinv) as [Hid [((Hstat & Hgen & Hoth & Hmem) & _ & Hcl & Hf & Hm)|[? _]]];
    [|congruence].
  assert (∀ m, m ∈ List.filter (λ p, negb (bool_decide (Name p = i))) members → Name m ≠ i) as Hnames.
  { intros m Hin. apply list_elem_of_In, filter_In in Hin as [_ Hb].
    apply negb_true_iff, bool_decide_eq_false in Hb. done. }
  assert (∀ gk' s ts, keyExchangeStat s = Some ∅ → otherSeedNodes s = others i →
    (∀ m, m ∈ otherMembers s → Name m ≠ i) → sd_id s = ident i →
    generatedKey s = dummyKey ∨ (generatedKey s ≠ [] ∧ gk' = Some (generatedKey s)) → TCleanup ∉ ts →
    seed_inv gk' i PDone NODE_STATE_SEEDING s ts) as Hseed.
  { intros gk' s ts Es Eo Hms Eid Hgk Hts. split; [done|]. right. split; [done|].
    assert (∀ p, ¬ received s p) as Hnr.
    { intros p (ex & Hex & _). unfold stat_map in Hex. rewrite Es in Hex. simpl in Hex. by rewrite lookup_empty in Hex. }
    unfold seeding. split_and!; try done.
    - destruct Hgk as [?|[_ ?]]; tauto.
    - intros p. rewrite Eo, elem_of_others. tauto.
    - intros _. split_and!; try done.
      + split; [rewrite Eo; apply NoDup_Sorted|]. intros p [ex Hex]. unfold stat_map in Hex.
        rewrite Es in Hex. simpl in Hex. by rewrite lookup_empty in Hex.
      + destruct Hgk as [-> |[? _]]; done.
      + intros p Hr. by apply Hnr in Hr.
      + intros Hne. destruct (others i) as [|p l]; [done|]. exists p. split; [by left|apply Hnr]. }
  assert (Sorted SS ≠ []) as Hne.
  { intros E0. apply elem_of_Sorted in Hi. rewrite E0 in Hi. by apply not_elem_of_nil in Hi. }
  unfold Node_seed. mstep. cbn [n_id n_seed set_status n_nodeInfo].
  rewrite (ni_id _ _ _ Hinv), Hoth, all_seed_nodes by done.
  destruct (Sorted SS) as [|first rest] eqn:Esorted; [done|]. clear Hne.
  case_decide as Hfirst.
  - (* the master *)
    destruct (draw 32 _) as [mkey e1] eqn:Ed. mstep.
    assert (length mkey = 32%nat) as Hl.
    { change mkey with (mkey, e1).1. rewrite <- Ed. apply draw_length. }
    unfold startSeedAsMaster. cbn [data_of pm_Data default]. rewrite decide_False by (intros Hn; by apply Hn).
    destruct gk as [k|]; [destruct Hg as [_ Hg]; exfalso; rewrite (Hg i w Hst) in Hp; [done|]|].
    { unfold is_master. by rewrite Esorted, <- Hfirst. }
    eexists _, (Some mkey). split; [done|]. split; [|split; [done|]].
    + apply node_inv_gen with (k := mkey) in Hinv. destruct Hinv. split; try done.
      * simpl. by_eval.
      * simpl. apply Hseed; try done; simpl.
        -- right. split; [|done]. intros ->. done.
        -- rewrite not_elem_of_app, list_elem_of_singleton. by split.
      * intros t [Ht|Ht]%elem_of_app; [by apply ni_tasks0|].
        apply list_elem_of_singleton in Ht as ->. simpl. split; [by split|].
        exists mkey. split; [|done]. unfold keyinit, keyinit_msg. by rewrite ni_info0.
    + right. split; [done|]. split; [unfold is_master; by rewrite Esorted, <- Hfirst|].
      split; [done|]. by exists mkey.
  - mstep. apply start_result_same; [|by rewrite Hp].
    destruct Hinv. split; try done.
    + simpl. by_eval.
    + simpl. apply Hseed; try done. by left.
Qed.

Lemma challenge_good gk i dst : valid_utf8 i →
  good_bytes gk dst (toJson {| pm_Sender := Some (ident i); pm_Type := MSG_TYPE_CHALLENGE;
                               pm_Data := Some i |}).
Proof.
  intros Hv. apply toJson_good. exists i. split; [done|]. split; [done|].
  right; right; right; left. done.
Qed.

Lemma query_good gk i dst : valid_utf8 i →
  good_bytes gk dst (toJson {| pm_Type := MSG_TYPE_KEYQUERY; pm_Sender := Some (ident i);
                               pm_Data := None |}).
Proof.
  intros Hv. apply toJson_good. exists i. split; [done|]. split; [done|]. by do 4 right.
Qed.

Lemma start_step_ok gk st i w joined err members : gk_ok gk st → st !! i = Some w →
  node_inv gk i w → start_result gk i w (start_step joined err members (pc w) w).
Proof.
  intros Hg Hst Hinv. pose proof (ni_phase _ _ _ Hinv) as Hz. pose proof (ni_store _ _ _ Hinv) as Hs.
  destruct (pc w) eqn:Hp; simpl in Hz.
  - by apply start_PStart.
  - destruct Hz as [Hz Hi]. rewrite Hz, store_initial in Hs. start_steps.
    case_decide; (apply start_result_same; [|by rewrite Hp]); [done|].
    apply goto_inv; [done|by rewrite Hp|done|simpl; by_eval|].
    apply (store_ready_intro _ _ _ K0); [by apply Hs|]. by apply (final_K0 gk i).
  - start_steps. destruct err; (apply start_result_same; [|by rewrite Hp]); [done|].
    apply goto_inv_same; [done|by rewrite Hp|done].
  - start_steps.
    destruct (membersCanProvideKey members); (apply start_result_same; [|by rewrite Hp]); [|done].
    apply (goto_inv_same gk i (set_tasks w _)).
    + apply spawn_inv; [done|done|]. simpl. intros dst. rewrite (ni_info _ _ _ Hinv).
      apply challenge_good, (ni_valid _ _ _ Hinv).
    + simpl. by rewrite Hp.
    + simpl. destruct Hz as [-> | ->]; by_eval.
  - start_steps. case_decide; (apply start_result_same; [|by rewrite Hp]); [done|].
    apply goto_inv_same; [done|by rewrite Hp|done].
  - rewrite Hz, store_keyless in Hs by by_eval. unfold start_step, onNoKey_loop, queryKey. mstep.
    destruct (membersCanProvideKey members); [|case_decide as Hin; [destruct (allSeedPeersJoined _ _)|]].
    all: apply start_result_same; [|by rewrite Hp]; try done.
    + apply (goto_inv gk i (set_tasks w (tasks w ++ [TQuery members]))); try done.
      * by apply spawn_inv.
      * simpl. by rewrite Hp.
      * simpl. by_eval.
    + apply goto_inv_same; [done|by rewrite Hp|]. split; [done|].
      rewrite (ni_id _ _ _ Hinv), (ni_seeds _ _ _ Hinv) in Hin. by apply elem_of_Sorted.
  - by apply (start_seed gk st).
  - exists w, gk. split_and!; try done. by left.
Qed.

(** *** Goroutines *)

Lemma find_Name to (l : list MlNode) m :
  List.find (λ m, bool_decide (Name m = to)) l = Some m → Name m = to.
Proof. intros Hf. apply List.find_some in Hf as [_ Hb]. by apply bool_decide_eq_true in Hb. Qed.

Lemma send_first_spec send sel msg l d b : (d, b) ∈ send_first send sel msg l → b = msg.
Proof.
  induction l as [|m l IH]; simpl; [by intros ?%not_elem_of_nil|].
  destruct (sel m && send m); [|done]. intros Hin. apply list_elem_of_singleton in Hin. by simplify_eq.
Qed.

(** Replacing goroutine [k] by [rest]. *)
Definition replaced (k : nat) (rest : option task) (ts : list task) : list task :=
  take k ts ++ option_list rest ++ drop (S k) ts.

Lemma elem_of_replaced k rest ts t : t ∈ replaced k rest ts → t ∈ ts ∨ rest = Some t.
Proof.
  unfold replaced. intros Hin. apply elem_of_app in Hin as [Hin|Hin].
  - left. by eapply elem_of_take in Hin as (? & Hin & _); apply list_elem_of_lookup_2 in Hin.
  - apply elem_of_app in Hin as [Hin|Hin].
    + right. destruct rest; simpl in Hin; [|by apply not_elem_of_nil in Hin].
      apply list_elem_of_singleton in Hin. congruence.
    + left. apply list_elem_of_lookup_1 in Hin as [j Hj]. rewrite lookup_drop in Hj.
      by eapply list_elem_of_lookup_2.
Qed.

Lemma replaced_inv gk i w k rest : node_inv gk i w →
  (∀ t, rest = Some t → task_ok gk i t ∧ plain_task t) →
  node_inv gk i (set_tasks w (replaced k rest (tasks w))).
Proof.
  intros [] Hrest. split; try done.
  - eapply seed_inv_tasks; [|done]. intros t [?|Ht]%elem_of_replaced; [by left|]. right. by apply Hrest.
  - intros t [?|Ht]%elem_of_replaced; [auto|]. by apply Hrest.
Qed.

(** The outcome of a goroutine's run. *)
Definition task_result gk i w (r : res (option task) * World E) : Prop :=
  ∃ rest w', r = (Ok rest, w') ∧ node_inv gk i w' ∧ pc w' = pc w ∧
    ∀ t, rest = Some t → task_ok gk i t ∧ plain_task t.

Lemma task_result_done gk i w w' : node_inv gk i w' → pc w' = pc w →
  task_result gk i w (Ok None, w').
Proof. intros. exists None, w'. by split_and!. Qed.

Lemma task_result_emit gk i w d b rest (c : bool) : node_inv gk i w → good_bytes gk d b →
  (∀ t, rest = Some t → task_ok gk i t ∧ plain_task t) →
  task_result gk i w (Ok rest, if c then set_out w (out w ++ [(d, b)]) else w).
Proof.
  intros Hinv Hb Hr. eexists _, _. split; [done|]. split_and!; [|by destruct c|done].
  destruct c; [|done]. apply emit_inv; [done|]. intros d' b' Hin.
  apply list_elem_of_singleton in Hin. by simplify_eq.
Qed.

(** The node's seed state once it takes part. *)
Lemma seeding_inv gk i w t : node_inv gk i w → t ∈ tasks w →
  match t with TForward _ | TCleanup | TSeedMaster _ => True | _ => False end →
  pc w = PDone ∧ seeding gk i (n_state (node w)) (n_seed (node w)) (tasks w) ∧
  sd_id (n_seed (node w)) = ident i.
Proof.
  intros Hinv Hin Ht. destruct (ni_seed _ _ _ Hinv) as [Hid [(_ & _ & Hc & Hf & Hm)|[Hp Hs]]]; [|done].
  exfalso. destruct t; try done; [by eapply Hm|by eapply Hf].
Qed.

Lemma forward_ok gk i w pm send members : node_inv gk i w → TForward pm ∈ tasks w →
  task_result gk i w (task_step send members (TForward pm) w).
Proof.
  intros Hinv Hin. destruct (seeding_inv gk i w _ Hinv Hin I) as (Hpc & Hseed & Hid).
  destruct (ni_tasks _ _ _ Hinv _ Hin) as (Hme & Hoth & k & -> & Hg).
  destruct Hseed as (_ & Hstat & Hgen & Hne & Hmem & Hs).
  destruct (fowardKey_spec send (toJson (keyinit i k)) (n_seed (node w)) Hstat)
    as (s1 & ms & Ef & Hstat1 & Hid1 & Hg1 & Ho1 & Hm1 & Hdom1 & Hr1 & Hout).
  task_steps. rewrite Ef. cbn [fst snd]. apply task_result_done; [|done].
  destruct Hinv. split; try done.
  - simpl. rewrite Hpc. split; [congruence|]. right. split; [done|].
    unfold seeding. rewrite Hg1, Ho1, Hm1. split_and!; try done.
    intros HS. destruct (Hs HS) as (Ho & Hok & Hgne & Hrec & Hun & _). split_and!; try done.
    + split; [rewrite Ho1; apply Hok|]. intros q [Hq|Hq]%Hdom1; rewrite Ho1; [by apply Hok|done].
    + intros q Hq. apply Hrec. by apply Hr1.
    + intros Hne'. destruct (Hun Hne') as (q & Hq & Hnr). exists q. split; [done|]. by rewrite Hr1.
    + intros _ q Hq. apply Hdom1. right. by rewrite Ho.
  - intros t [Ht|Ht]%elem_of_app; [auto|]. by apply list_elem_of_singleton in Ht as ->.
  - intros d b [Hd|Hd]%elem_of_app; [auto|]. destruct (Hout _ _ Hd) as [-> Hd'].
    subst gk. apply toJson_good. apply keyinit_ok; [done|done|]. intros <-. by apply (Hne i).
Qed.

Lemma cleanup_ok gk i w send members : node_inv gk i w → TCleanup ∈ tasks w →
  task_result gk i w (task_step send members TCleanup w).
Proof.
  intros Hinv Hin. destruct (seeding_inv gk i w _ Hinv Hin I) as (Hpc & Hseed & Hid).
  pose proof (ni_tasks _ _ _ Hinv _ Hin) as Hoth. simpl in Hoth.
  destruct Hseed as (Hme & Hstat & Hgen & Hne & Hmem & Hs).
  task_steps. apply task_result_done; [|done].
  destruct (decide (n_state (node w) = NODE_STATE_SEEDING)) as [HS|HS].
  - destruct (Hs HS) as (Ho & Hok & _ & _ & Hun & Hcl). destruct (Hun Hoth) as (p & Hp & Hnr).
    rewrite (checkCleanup_waits _ p Hok); [|rewrite Ho; by apply Hcl|by rewrite Ho|done].
    assert (set_node w (set_seed (node w) (n_seed (node w))) = w) as -> by (by destruct w as [[] ?????]).
    done.
  - destruct Hinv. split; try done. simpl. rewrite Hpc. unfold checkCleanup.
    destruct (_ && _).
    + split; [done|]. right. by split_and!.
    + split; [done|]. right. split; [done|]. unfold seeding. split_and!; try done.
      * by left.
      * intros p Hp. by apply not_elem_of_nil in Hp.
      * intros p Hp. by apply not_elem_of_nil in Hp.
Qed.

Lemma task_step_ok gk i w t send members : node_inv gk i w → t ∈ tasks w →
  task_result gk i w (task_step send members t w).
Proof.
  intros Hinv Hin. pose proof (ni_tasks _ _ _ Hinv _ Hin) as Ht. destruct t; simpl in Ht.
  - destruct (seeding_inv gk i w _ Hinv Hin I) as (_ & (_ & _ & _ & _ & Hmem & _) & _).
    destruct Ht as (Hme & k & -> & ->). task_steps. apply task_result_done; [|done].
    apply emit_inv; [done|]. intros d b Hd. unfold seed_master_sends in Hd.
    apply list_elem_of_fmap in Hd as (m & [= -> ->] & Hm). apply list_elem_of_In, filter_In in Hm as [Hm _].
    apply toJson_good, keyinit_ok; [done|apply (ni_valid _ _ _ Hinv)|].
    intros Hi. by apply (Hmem m); [apply list_elem_of_In|].
  - by apply forward_ok.
  - by apply cleanup_ok.
  - task_steps. destruct (List.find _ peers) as [m|]; [|by apply task_result_done].
    rewrite (ni_info _ _ _ Hinv).
    pose proof (task_result_emit gk i w (Name m) _ None (send m) Hinv
      (query_good gk i (Name m) (ni_valid _ _ _ Hinv))) as HR.
    destruct (send m); by apply HR.
  - task_steps. destruct (List.find _ members) as [m|] eqn:Hf.
    + apply find_Name in Hf. pose proof (task_result_emit gk i w (Name m) pl None (send m) Hinv) as HR.
      rewrite Hf in HR. rewrite Hf. destruct (send m); by apply HR.
    + eexists _, _. split; [done|]. split_and!; try done. by intros t [= <-].
  - task_steps. apply task_result_done; [|done]. apply emit_inv; [done|].
    intros d b Hd. apply send_first_spec in Hd as ->. apply Ht.
  - task_steps. destruct (List.find _ members) as [m|] eqn:Hf.
    + apply find_Name in Hf. destruct failed.
      * eexists _, _. split; [done|]. split_and!; try done. by intros t [= <-].
      * pose proof (task_result_emit gk i w (Name m) b
          (if send m then None else Some (TChallengeReply to b true)) (send m) Hinv) as HR.
        rewrite Hf in HR. rewrite Hf. destruct (send m); apply HR; try done. by intros t [= <-].
    + eexists _, _. split; [done|]. split_and!; try done. by intros t [= <-].
Qed.

(** *** Every action *)

Lemma runs_start gk i w m : runs gk i w m → start_result gk i w (m w).
Proof.
  intros (w' & -> & Hinv & Hp). exists w', gk. split_and!; try done; [congruence|by left].
Qed.

Lemma hex_valid l : valid_utf8 (hex_EncodeToString l).
Proof.
  apply ascii_valid. induction l as [|b l IH]; [constructor|]. cbn [hex_EncodeToString].
  apply Forall_cons. split; [by destruct b|]. apply Forall_cons. by split; [destruct b|].
Qed.

(** What a node sends in a push/pull is a remote state that [step] may
    deliver. *)
Lemma NodeStatus_meta gk i w nm w' : node_inv gk i w → NodeStatus w = (Ok nm, w') →
  nm_ClusterId nm = cl ∧ NodeMeta_ok nm.
Proof.
  intros Hinv Hn. destruct (NodeStatus_ok gk i w Hinv) as (nm' & ks & e & Hn' & Hst & Hc & _).
  rewrite Hn in Hn'. injection Hn' as <- _. split; [done|].
  unfold NodeStatus in Hn.
  assert (nm_Id nm = i ∧ match nm_HeartBeat nm with None => True | Some h => HeartBeat_ok h end) as [Hi Hh].
  { revert Hn. unfold mbind, M_bind, get, mret, M_ret. rewrite (ni_info _ _ _ Hinv). case_decide.
    - destruct (prov w) as [[v|?|?] w1]; [|done..]. unfold with_rng, LocalHeartBeat.
      destruct (vault_is_nil v); [by intros [= <- _]|]. destruct (draw 16 (rng w1)) as [n e1].
      destruct (Seal v n e1) as [[c|?|?] e2]; [|done..]. intros [= <- _]. simpl.
      split; [done|]. by split; apply hex_valid.
    - by intros [= <- _]. }
  assert (0 ≤ n_state (node w) ≤ 5) as Hrange.
  { pose proof (ni_phase _ _ _ Hinv) as Hp.
    unfold phase_ok, NODE_STATE_NO_KEY, NODE_STATE_SEEDING, NODE_STATE_VALIDATING,
      NODE_STATE_QUERY_KEY, NODE_STATE_READY in Hp.
    destruct (pc w); rewrite ?elem_of_cons, ?elem_of_nil in Hp; lia. }
  unfold NodeMeta_ok. rewrite Hi, Hc, Hst. split_and!; [apply (ni_valid _ _ _ Hinv)|done| | |done];
    unfold int64_min, int64_max; lia.
Qed.

Lemma NotifyMsg_ok gk i w b : node_inv gk i w → good_bytes gk i b → runs gk i w (NotifyMsg b).
Proof.
  intros Hinv (m & -> & Hm). unfold runs, NotifyMsg, toJson.
  rewrite json_round_trip by (by eapply msg_ok_wire). pose proof Hm as (s & Hs & _). mstep.
  rewrite Hs. cbn [deref ni_ClusterId ident]. rewrite (ni_cluster _ _ _ Hinv).
  rewrite decide_False by (intros Hn; by apply Hn). mstep. eexists. split; [done|].
  split; [|done]. apply set_in_inv; [done|].
  intros m' [Hin|Hin]%elem_of_app; [by apply (ni_in _ _ _ Hinv)|].
  by apply list_elem_of_singleton in Hin as ->.
Qed.

Lemma set_hbm_inv gk i w h : node_inv gk i w → node_inv gk i (set_node w (set_hbm (node w) h)).
Proof. intros []. by split. Qed.

Lemma MergeRemoteState_ok gk i w m now : node_inv gk i w → nm_ClusterId m = cl → NodeMeta_ok m →
  runs gk i w (MergeRemoteState (json_Marshal m) now).
Proof.
  intros Hinv Hc Hm. unfold runs, MergeRemoteState. rewrite json_round_trip by done. mstep.
  rewrite (ni_cluster _ _ _ Hinv), decide_False by (intros Hn; by apply Hn).
  destruct (negb _); [by eexists|]. destruct (nm_HeartBeat m); [|by eexists].
  case_decide; mstep; eexists; (split; [done|]); (split; [|done]); [by apply set_hbm_inv|done].
Qed.

Lemma act_ok gk st i w a rw : cluster_inv gk st → st !! i = Some w →
  allowed cl st i a → act a w = Some rw → start_result gk i w rw.
Proof.
  intros [Hg Hnodes] Hi Ha Hact. pose proof (Hnodes i w Hi) as Hinv.
  destruct Ha as [joined err members|k send members|now| | |now|j wj b Hj Hb|m now Hc Hm]; simpl in Hact.
  - injection Hact as <-. by apply (start_step_ok gk st).
  - apply bind_Some in Hact as (t & Ht & [= <-]). apply list_elem_of_lookup_2 in Ht.
    destruct (task_step_ok gk i w t send members Hinv Ht) as (rest & w1 & Er & Hinv1 & Hp & Hrest).
    unfold mbind, M_bind. rewrite Er. unfold replace_task.
    exists (set_tasks w1 (replaced k rest (tasks w1))), gk. split_and!; [done| |simpl; congruence|by left].
    by apply replaced_inv.
  - destruct (n_inMessages (node w)) as [|msg rest] eqn:Hin; [done|]. injection Hact as <-.
    assert (node_inv gk i (set_node w (set_in (node w) rest))) as Hinv1.
    { apply set_in_inv; [done|]. intros m Hm. apply (ni_in _ _ _ Hinv). rewrite Hin. by right. }
    assert (msg_ok gk i msg) as Hmsg by (apply (ni_in _ _ _ Hinv); rewrite Hin; by left).
    destruct (loop_body_ok gk st i _ msg now Hg Hinv1 Hmsg) as (w' & El & Hinv' & Hp).
    unfold mbind, M_bind, modify. rewrite El. exists w', gk. split_and!; try done; [|by left].
    rewrite Hp. done.
  - injection Hact as <-. destruct (NodeStatus_ok gk i w Hinv) as (nm & ks & e & Hn & _ & _ & Hinv').
    unfold LocalState. mstep. rewrite Hn. exists (touched w ks e), gk. split_and!; try done. by left.
  - destruct (n_stateChangeMessages (node w)) as [|z rest]; [done|]. injection Hact as <-. mstep.
    eexists _, gk. split; [done|]. split_and!; [|done|by left]. destruct Hinv. by split.
  - injection Hact as <-. mstep. eexists _, gk. split; [done|]. split_and!; [|done|by left].
    by apply set_hbm_inv.
  - case_decide; [|done]. injection Hact as <-. apply runs_start, NotifyMsg_ok; [done|].
    by apply (ni_out _ _ _ (Hnodes j wj Hj)).
  - injection Hact as <-. by apply runs_start, MergeRemoteState_ok.
Qed.

(** What a step may do to the generated key: it is generated once. *)
Lemma act_inv gk st i w a w' : cluster_inv gk st → st !! i = Some w → allowed cl st i a →
  act a w = Some (Ok tt, w') → ∃ gk', cluster_inv gk' (<[i:=w']> st) ∧ (gk' = gk ∨ gk = None).
Proof.
  intros Hinv Hi Ha Hact. pose proof Hinv as [Hg Hnodes].
  destruct (act_ok gk st i w a _ Hinv Hi Ha Hact) as (w1 & gk' & [= <-] & Hinv' & Hp & Hgk).
  exists gk'. split; [|destruct Hgk as [?|[? _]]; auto]. destruct Hgk as [->|(-> & Hm & Hdone & k & -> & Hk)]; split.
  - destruct gk as [k|]; [|done]. destruct Hg as [Hk Hm]. split; [done|].
    intros j wj [[<- <-]|[Hne Hj]]%lookup_insert_Some Hmj; [|by apply (Hm j)].
    apply Hp. by apply (Hm i).
  - intros j wj [[<- <-]|[Hne Hj]]%lookup_insert_Some; [done|by apply Hnodes].
  - split; [done|]. intros j wj [[<- <-]|[Hne Hj]]%lookup_insert_Some Hmj; [done|].
    unfold is_master in *. congruence.
  - intros j wj [[<- <-]|[Hne Hj]]%lookup_insert_Some; [done|]. by apply node_inv_gen, Hnodes.
Qed.

Lemma final_mono gk gk' k : gk' = gk ∨ gk = None → final gk = Some k → final gk' = Some k.
Proof. intros [->| ->]; [done|]. unfold final. by repeat case_decide. Qed.

Lemma step_inv gk st st' : cluster_inv gk st → step cl st st' → ∃ gk', cluster_inv gk' st'.
Proof.
  intros Hinv [i w a w' Hi Ha Hact]. destruct (act_inv gk st i w a w' Hinv Hi Ha Hact) as (gk' & ? & _). eauto.
Qed.

Lemma reachable_inv gk st st' : cluster_inv gk st → reachable cl st st' → ∃ gk', cluster_inv gk' st'.
Proof.
  intros Hinv Hr. revert gk Hinv. induction Hr as [st|st st1 st' Hs _ IH]; intros gk Hinv; [eauto|].
  destruct (step_inv gk st st1 Hinv Hs) as [gk1 Hinv1]. by apply (IH gk1).
Qed.
End invariant.

(** ** Theorems *)

Section safety.
Context {E : Type} `{EC : Ecrypto E} `{EL : !EcryptoLaws E} `{EN : !Entropy E}.

(** A node that starts: what [NewNode] returns, with its disk. *)
Definition boot (n : Node) (fs : FS) (e : E) : World E :=
  {| node := n; disk := fs; rng := e; out := []; tasks := []; pc := PStart |}.

(** The nodes of an honest cluster start from configurations with the same
    cluster id and the same seed nodes (in any order); the nodes in
    [holders] have the master key [K0] on disk, the others have none. *)
Definition booted (cl : bytes) (seeds : list bytes) (K0 : bytes) (holders : gset bytes)
    (i : bytes) (w : World E) : Prop :=
  valid_utf8 i ∧
  (∃ c ec env t n mc fs e, NewNode (Some c) ec env t = Ok (inr (n, mc)) ∧
    NodeHost c = i ∧ Id c = cl ∧ (∀ x, x ∈ SeedNodes c ↔ x ∈ seeds) ∧ w = boot n fs e) ∧
  if decide (i ∈ holders) then has_key cl i w K0 else no_key w.

(** If some node has a key at the start, a seed node has it. *)
Definition honest_start (cl : bytes) (seeds : list bytes) (K0 : bytes) (holders : gset bytes)
    (st0 : Cluster E) : Prop :=
  valid_utf8 cl ∧ length K0 = 32%nat ∧
  (holders = ∅ ∨ ∃ s, s ∈ seeds ∧ s ≠ [] ∧ s ∈ holders) ∧
  ∀ i w, st0 !! i = Some w → booted cl seeds K0 holders i w.

(** The node answers [masterKs.Read()] with the master key [k]. *)
Definition stored (w : World E) (k : bytes) : Prop :=
  ∃ m w', readKey w = (Ok (Some m), w') ∧ member_key m = Ok k.

Lemma NewNode_fields c ec env t n mc : NewNode (Some c) ec env t = Ok (inr (n, mc)) →
  n = {| n_id := NodeHost c; n_cluster := Id c; n_configuredPeerAddresses := PeerAddresses c;
         n_seedNodes := Sorted (AddAll NewSet (SeedNodes c)); n_hasList := false;
         n_masterKs := NewMasterkeyStore {| ni_Id := NodeHost c; ni_ClusterId := Id c |}
                         (MasterKeyFolder c) ec;
         n_state := 0; n_nodeInfo := {| ni_Id := NodeHost c; ni_ClusterId := Id c |};
         n_seed := {| keyExchangeStat := None;
                      sd_id := {| ni_Id := NodeHost c; ni_ClusterId := Id c |};
                      generatedKey := [];
                      otherSeedNodes := Sorted (Remove (AddAll NewSet (SeedNodes c)) (NodeHost c));
                      otherMembers := [] |};
         n_inMessages := []; n_stateChangeMessages := [];
         n_heartbeatManager := NewHeartBeatManager (15 * minute) (2 * minute) t |}.
Proof. unfold NewNode. intros Hn. repeat case_decide; try done. inv_res. case_match; [|done]. by injection Hn as <- _. Qed.

Lemma AddAll_same l l' : (∀ x, x ∈ l ↔ x ∈ l') → AddAll NewSet l = AddAll NewSet l'.
Proof.
  intros Hl. apply (set_eq (C := gset bytes)). intros x. rewrite !AddAll_spec, Hl. done.
Qed.

Lemma booted_inv cl seeds K0 holders i w :
  booted cl seeds K0 holders i w → node_inv cl (AddAll NewSet seeds) K0 holders None i w.
Proof.
  intros (Hv & (c & ec & env & t & n & mc & fs & e & Hn & Hi & Hc & Hseeds & ->) & Hk).
  apply NewNode_fields in Hn. subst n.
  pose proof (AddAll_same _ _ Hseeds) as ES. subst i cl. split; try done.
  - simpl. by rewrite ES.
  - refine (proj2 (store_initial _ _ _ _ _ _ _) _). case_decide; split; intros; done.
  - split; [done|]. left. split.
    { split_and!; try done. simpl. by rewrite ES. }
    split_and!; [done|..]; by repeat intros ?%not_elem_of_nil || intros ?.
  - by intros ? ?%not_elem_of_nil.
  - by intros ? ?%not_elem_of_nil.
  - by intros ? ? ?%not_elem_of_nil.
Qed.

Lemma honest_inv cl seeds K0 holders st0 st :
  honest_start cl seeds K0 holders st0 → reachable cl st0 st →
  ∃ gk, cluster_inv cl (AddAll NewSet seeds) K0 holders gk st.
Proof.
  intros (Hcl & HK & Hh & Hb) Hr.
  apply (reachable_inv cl (AddAll NewSet seeds) K0 holders Hcl
    (set_ok_AddAll _ _ set_ok_NewSet) HK) with (gk := None) (st := st0); try done.
  - destruct Hh as [|(s & Hs & Hne & Hin)]; [by left|]. right. exists s.
    split; [|done]. apply AddAll_spec. by right.
  - split; [done|]. intros i w Hi. by apply booted_inv, Hb.
Qed.

(** What a node has stored is the final key. *)
Lemma stored_final cl SS K0 holders gk i w k : length K0 = 32%nat →
  (∀ k, final SS K0 holders gk = Some k → length k = 32%nat) →
  node_inv cl SS K0 holders gk i w → stored w k → final SS K0 holders gk = Some k ∧ length k = 32%nat.
Proof.
  intros HK Hlen Hinv (m & w' & Hr & Hm).
  assert (∀ k0, has_key cl i w k0 → k0 = k) as Hkey.
  { intros k0 Hk. destruct (readKey_some cl i w k0 Hk) as (m' & ks & Hr' & _ & [Hm' _] & _).
    rewrite Hr in Hr'. injection Hr' as <- _. congruence. }
  pose proof (ni_store _ _ _ _ _ _ _ Hinv) as Hs. unfold store_ok in Hs.
  assert (¬ no_key w) as Hnn.
  { intros Hn. apply readKey_none in Hn. congruence. }
  repeat case_decide; [by destruct Hs|..|done|].
  - destruct Hs as (k0 & Hk & Hf). apply Hkey in Hk. subst. auto.
  - destruct Hs as [Hi Hk]. apply Hkey in Hk. subst k. split; [|done]. by eapply final_K0.
Qed.

(** C8.  Agreement: in every state an honest cluster can reach, any two
    nodes that have stored a master key have stored the same one, of 32
    bytes; and it is the initial key if some node started with one.  This
    holds for any number of nodes, any interleaving of their goroutines
    and handlers, any views of the membership, failing sends, and
    messages that are lost, delayed, reordered or duplicated. *)
Theorem master_keys_agree (cl : bytes) (seeds : list bytes) (K0 : bytes) (holders : gset bytes)
    (st0 st : Cluster E) (i j : bytes) (wi wj : World E) (ki kj : bytes) :
  honest_start cl seeds K0 holders st0 → reachable cl st0 st →
  st !! i = Some wi → st !! j = Some wj → stored wi ki → stored wj kj →
  ki = kj ∧ length ki = 32%nat ∧ (holders ≠ ∅ → ki = K0).
Proof.
  intros Hst Hr Hi Hj Hki Hkj. destruct (honest_inv _ _ _ _ _ _ Hst Hr) as [gk [Hg Hinv]].
  destruct Hst as (_ & HK & _).
  pose proof (λ k, final_length (AddAll NewSet seeds) K0 holders HK gk st k Hg) as Hlen.
  destruct (stored_final _ _ _ _ _ _ _ _ HK Hlen (Hinv i wi Hi) Hki) as [Hfi Hli].
  destruct (stored_final _ _ _ _ _ _ _ _ HK Hlen (Hinv j wj Hj) Hkj) as [Hfj _].
  split; [congruence|]. split; [done|]. intros Hne. unfold final in Hfi.
  rewrite decide_False in Hfi by done. congruence.
Qed.

Lemma honest_act (cl : bytes) (seeds : list bytes) (K0 : bytes) (holders : gset bytes) (st0 st : Cluster E)
    (i : bytes) (w : World E) a r w' :
  honest_start cl seeds K0 holders st0 → reachable cl st0 st → st !! i = Some w →
  allowed cl st i a → act a w = Some (r, w') → r = Ok tt.
Proof.
  intros Hst Hr Hi Ha Hact. destruct (honest_inv _ _ _ _ _ _ Hst Hr) as [gk Hinv].
  destruct Hst as (Hcl & HK & Hh & _).
  assert (holders = ∅ ∨ ∃ s, s ∈ (AddAll NewSet seeds : gset bytes) ∧ s ∈ holders) as Hh'.
  { destruct Hh as [|(s & Hs & Hne & Hin)]; [by left|]. right. exists s.
    split; [|done]. apply AddAll_spec. by right. }
  destruct (act_ok cl (AddAll NewSet seeds) K0 holders Hcl (set_ok_AddAll _ _ set_ok_NewSet) HK Hh'
    gk st i w a _ Hinv Hi Ha Hact) as (w1 & gk' & [= -> _] & _). done.
Qed.

(** C9.  Nothing an honest cluster does makes a node panic: whatever
    action a node can take in a reachable state succeeds.  In particular
    none of the checks that shut a node down (a foreign cluster id, a seed
    key from an unknown node, of the wrong size or different from the one
    received before, a challenge answered under another key, an assignment
    to a nil map) is ever triggered, and a node that is READY has a key. *)
Theorem honest_nodes_do_not_panic (cl : bytes) (seeds : list bytes) (K0 : bytes)
    (holders : gset bytes) (st0 st : Cluster E) (i : bytes) (w : World E) :
  honest_start cl seeds K0 holders st0 → reachable cl st0 st → st !! i = Some w →
  (∀ a r w', allowed cl st i a → act a w = Some (r, w') → r = Ok tt) ∧
  (n_state (node w) = NODE_STATE_READY → ∃ k, stored w k).
Proof.
  intros Hst Hr Hi. split; [intros a r w'; by eapply honest_act|].
  destruct (honest_inv _ _ _ _ _ _ Hst Hr) as [gk Hinv]. destruct Hst as (Hcl & HK & Hh & _).
  intros Hz. destruct Hinv as [_ Hinv]. pose proof (ni_store _ _ _ _ _ _ _ (Hinv i w Hi)) as Hs.
    rewrite Hz in Hs. apply store_ready in Hs as (k & Hk & _).
    destruct (readKey_some cl i w k Hk) as (m & ks & Hrd & _ & [Hm _] & _). exists k. by exists m, (set_node w (set_ks (node w) ks)).
Qed.

(** C26.  A cluster with a single seed node that starts without any key
    never gets one: the seed generates a key but only stores it on
    receiving it back from another seed node, so in every reachable state
    no node has stored a key and none is READY. *)
Theorem single_seed_never_ready (cl s : bytes) (seeds : list bytes) (K0 : bytes)
    (st0 st : Cluster E) (i : bytes) (w : World E) (k : bytes) :
  (∀ x, x ∈ seeds → x = s) →
  honest_start cl seeds K0 ∅ st0 → reachable cl st0 st → st !! i = Some w →
  ¬ stored w k ∧ n_state (node w) ≠ NODE_STATE_READY.
Proof.
  intros Hs Hst Hr Hi. destruct (honest_inv _ _ _ _ _ _ Hst Hr) as [gk [Hg Hinv]].
  destruct Hst as (_ & HK & _). specialize (Hinv i w Hi).
  assert (final (AddAll NewSet seeds) K0 ∅ gk = None) as Hf.
  { unfold final. rewrite decide_True by done. rewrite decide_True; [done|].
    rewrite <- (size_singleton (C := gset bytes) s). apply subseteq_size.
    intros x Hx%AddAll_spec. apply elem_of_singleton. unfold NewSet in Hx. set_solver. }
  pose proof (λ k, final_length (AddAll NewSet seeds) K0 ∅ HK gk st k Hg) as Hlen.
  split.
  - intros Hk. destruct (stored_final _ _ _ _ _ _ _ _ HK Hlen Hinv Hk) as [Hfk _]. congruence.
  - intros Hz. pose proof (ni_store _ _ _ _ _ _ _ Hinv) as Hs'. rewrite Hz in Hs'.
    apply store_ready in Hs' as (k' & _ & Hfk). congruence.
Qed.
End safety.

(** ** A cluster of four nodes

    Three seed nodes without a key, which generate one, and a fourth node
    that asks for it. *)

Module Demo.
Import Toy.

Definition seeds : list bytes := [$"n1"; $"n2"; $"n3"].

Definition config (seeds : list bytes) (host : bytes) : ClusterConfig :=
  {| Id := $"prod"; EncryptionKey := $"secret"; Port := 7946; PeerAddresses := seeds;
     SeedNodes := seeds; BindAddress := $"0.0.0.0"; NodeHost := host;
     MasterKeyFolder := $"/sealed"; ValkeyUris := [$"valkey:6379"]; ValkeyUser := [];
     ValkeyPassword := []; ValkeyNamespace := []; ValkeyTLS := false; Domains := [];
     ServerPort := 443; AcmeDnsToken := []; AcmeOwner := []; AcmeRetryDelay := 5;
     AcmeRetryCount := 10; AcmeProvider := []; DevMode := false;
     EnforceSealQuoteVerify := true; EnforceKeyRequestQuoteVerify := true;
     JournalEndpoint := []; JournalRegion := []; JournalAccessKey := []; JournalSecretKey := [] |}.

Definition env : NodeEnv :=
  {| env_Hostname := Ok ($"host"); env_NewNodeTlsConfig := Ok tt; env_NewValKeyKeyService := Ok tt;
     env_ResolveIP := λ h, Ok ($"10.0.0.1"); env_NewNetTransport := Ok tt |}.

Definition fs0 : FS := {| fs_files := ∅; fs_fault := ∅ |}.

Definition start_world (seeds : list bytes) (host : bytes) (e : N) : option (World N) :=
  match NewNode (Some (config seeds host)) None env 1000 with
  | Ok (inr (n, _)) => Some (boot n fs0 e)
  | _ => None
  end.

Definition hosts : list bytes := [$"n1"; $"n2"; $"n3"; $"n4"].

Definition start_cluster (seeds hosts : list bytes) : Cluster N :=
  list_to_map (omap (λ h, w ← start_world seeds h 7%N; Some (h, w)) hosts).

Definition st0 : Cluster N := start_cluster seeds hosts.

(** What memberlist reports of a node in the given state. *)
Definition member (host : bytes) (state : Z) : MlNode :=
  {| Name := host; Addr := $"10.0.0.1"; ml_Port := 7946;
     Meta := json_Marshal {| nm_Id := host; nm_ClusterId := $"prod"; nm_State := state;
                             nm_HeartBeat := None |};
     ml_State := 0; PMin := 1; PMax := 5; PCur := 2; DMin := 0; DMax := 0; DCur := 0 |}.

Definition all_members (state : Z) : list MlNode := map (λ h, member h state) hosts.

Definition join_and_seed (host : bytes) : list cmd :=
  [CAct host (AStart 0 false []); CAct host (AStart 3 false []);
   CAct host (AStart 0 false (all_members 1)); CAct host (AStart 0 false (all_members 1))].

Definition send_all : MlNode → bool := λ _, true.

Definition seeding_script : list cmd :=
  flat_map join_and_seed seeds ++
  [CAct ($"n1") (ATask 0 send_all []);
   CDeliver ($"n2") ($"n1") 0; CDeliver ($"n3") ($"n1") 1;
   CAct ($"n2") (ALoop 5000); CAct ($"n3") (ALoop 5001);
   CAct ($"n2") (ATask 0 send_all []); CAct ($"n3") (ATask 0 send_all []);
   CDeliver ($"n1") ($"n2") 0; CDeliver ($"n1") ($"n3") 0;
   CDeliver ($"n3") ($"n2") 1; CDeliver ($"n2") ($"n3") 1;
   CAct ($"n1") (ALoop 6000); CAct ($"n1") (ALoop 6001);
   CAct ($"n2") (ALoop 6002); CAct ($"n3") (ALoop 6003)].

Definition query_script : list cmd :=
  [CAct ($"n4") (AStart 0 false []); CAct ($"n4") (AStart 3 false []);
   CAct ($"n4") (AStart 0 false (all_members 5)); CAct ($"n4") (ATask 0 send_all []);
   CDeliver ($"n1") ($"n4") 0; CAct ($"n1") (ALoop 7000);
   CAct ($"n1") (ATask 2 send_all (all_members 5));
   CDeliver ($"n4") ($"n1") 3; CAct ($"n4") (ALoop 7001)].

Definition final_state : option (Cluster N) := exec st0 (seeding_script ++ query_script).

Definition key_of (st : Cluster N) (i : bytes) : option bytes :=
  w ← st !! i;
  match readKey w with
  | (Ok (Some m), _) => match member_key m with Ok k => Some k | _ => None end
  | _ => None
  end.

Definition status_of (st : Cluster N) (i : bytes) : option Z := n_state ∘ node <$> st !! i.
End Demo.

Import Toy Demo.

Lemma key_of_stored st i k : key_of st i = Some k → ∃ w, st !! i = Some w ∧ stored w k.
Proof.
  unfold key_of. intros Hk. apply bind_Some in Hk as (w & Hw & Hk). exists w. split; [done|].
  destruct (readKey w) as [[[m|]|?|?] w'] eqn:Hr; try done.
  destruct (member_key m) eqn:Hm; simplify_eq. by exists m, w'.
Qed.

Lemma start_booted seeds hosts i w : Forall valid_utf8 hosts →
  start_cluster seeds hosts !! i = Some w → booted ($"prod") seeds key32 ∅ i w.
Proof.
  intros Hhosts Hw. unfold start_cluster in Hw. apply elem_of_list_to_map_2 in Hw.
  apply list_elem_of_omap in Hw as (h & Hh & Hw). apply bind_Some in Hw as (w' & Hs & [= -> ->]).
  assert (valid_utf8 i) as Hv by by apply (proj1 (Forall_forall _ _) Hhosts).
  unfold start_world in Hs.
  destruct (NewNode (Some (config seeds i)) None env 1000) as [[?|[n mc]]|?|?] eqn:Hn; simplify_eq.
  split; [done|]. split.
  - exists (config seeds i), None, env, 1000, n, mc, fs0, 7%N. split_and!; try done.
  - case_decide as Hin; [by apply not_elem_of_empty in Hin|].
    apply NewNode_fields in Hn. subst n. split_and!; try done; apply lookup_empty.
Qed.

Lemma start_honest seeds hosts : Forall valid_utf8 hosts →
  honest_start ($"prod") seeds key32 ∅ (start_cluster seeds hosts).
Proof.
  intros Hh. split; [by apply (utf8_ok_valid 8)|]. split; [done|]. split; [by left|].
  intros i w. by apply start_booted.
Qed.

Lemma st0_honest : honest_start ($"prod") seeds key32 ∅ st0.
Proof. apply start_honest. repeat constructor; by apply (utf8_ok_valid 4). Qed.

(** The script brings all four nodes to READY with the key that the first
    one has generated. *)
Definition generated : bytes := replicate 32 x07.

Lemma demo_ready : ∃ st, exec st0 (seeding_script ++ query_script) = Some st ∧
  Forall (λ h, status_of st h = Some NODE_STATE_READY ∧ key_of st h = Some generated) hosts.
Proof.
  assert (match final_state with
          | Some st => bool_decide (Forall (λ h, status_of st h = Some NODE_STATE_READY ∧
                                                 key_of st h = Some generated) hosts)
          | None => false end = true) as HF by (vm_compute; reflexivity).
  unfold final_state in HF. destruct (exec st0 _) as [st|]; [|done].
  exists st. split; [done|]. by apply bool_decide_eq_true in HF.
Qed.

Lemma demo_reachable : ∃ st w1 w4, reachable ($"prod") st0 st ∧
  st !! ($"n1") = Some w1 ∧ st !! ($"n4") = Some w4 ∧
  n_state (node w1) = NODE_STATE_READY ∧ stored w1 generated ∧ stored w4 generated.
Proof.
  destruct demo_ready as (st & Hst & HF). exists st.
  assert (∀ h, h ∈ hosts → status_of st h = Some NODE_STATE_READY ∧ key_of st h = Some generated) as Hall.
  { by apply Forall_forall. }
  destruct (Hall ($"n1")) as [Hz Hk]; [by left|].
  destruct (Hall ($"n4")) as [_ Hk4]; [do 3 right; by left|].
  apply key_of_stored in Hk as (w1 & Hw1 & Hk1). apply key_of_stored in Hk4 as (w4 & Hw4 & Hk4).
  exists w1, w4. split; [exact (exec_reachable _ _ _ _ Hst)|]. split_and!; try assumption.
  unfold status_of in Hz. rewrite Hw1 in Hz. by injection Hz.
Qed.

Lemma master_keys_agree_witness : ∃ st w1 w4, reachable ($"prod") st0 st ∧
  st !! ($"n1") = Some w1 ∧ st !! ($"n4") = Some w4 ∧ stored w1 generated ∧
  ∀ k, stored w4 k → k = generated.
Proof.
  destruct demo_reachable as (st & w1 & w4 & Hr & H1 & H4 & _ & Hk1 & _).
  exists st, w1, w4. split_and!; try assumption. intros k Hk.
  apply (master_keys_agree ($"prod") seeds key32 ∅ st0 st ($"n4") ($"n1") w4 w1 k generated
    st0_honest Hr H4 H1 Hk Hk1).
Defined.

Lemma honest_nodes_do_not_panic_witness : ∃ st w1, reachable ($"prod") st0 st ∧
  st !! ($"n1") = Some w1 ∧ n_state (node w1) = NODE_STATE_READY ∧
  (∀ r w', act ALocalState w1 = Some (r, w') → r = Ok tt).
Proof.
  destruct demo_reachable as (st & w1 & w4 & Hr & H1 & H4 & Hz & Hk1 & _).
  exists st, w1. split_and!; try assumption. intros r w' Ha.
  apply (honest_nodes_do_not_panic ($"prod") seeds key32 ∅ st0 st ($"n1") w1 st0_honest Hr H1)
    with (a := ALocalState) (w' := w'); [constructor|exact Ha].
Defined.

Lemma single_seed_never_ready_witness :
  let st0 := start_cluster [$"n1"] [$"n1"] in
  ∃ st w, reachable ($"prod") st0 st ∧ st !! ($"n1") = Some w ∧
    n_state (node w) = NODE_STATE_SEEDING ∧ ¬ stored w (replicate 32 x07).
Proof.
  intros st0'.
  assert (match exec st0' (join_and_seed ($"n1")) with
          | Some st => bool_decide (status_of st ($"n1") = Some NODE_STATE_SEEDING)
          | None => false end = true) as HF by (vm_compute; reflexivity).
  destruct (exec st0' (join_and_seed ($"n1"))) as [st|] eqn:Hst; [|discriminate HF].
  apply bool_decide_eq_true in HF. unfold status_of in HF.
  destruct (st !! ($"n1")) as [w|] eqn:Hw; [|discriminate HF]. injection HF as HF.
  assert (reachable ($"prod") st0' st) as Hr by exact (exec_reachable _ _ _ _ Hst).
  exists st, w. split; [exact Hr|]. split; [exact Hw|]. split; [exact HF|].
  apply (single_seed_never_ready ($"prod") ($"n1") [$"n1"] key32 st0' st ($"n1") w);
    [by intros x ?%list_elem_of_singleton| |exact Hr|exact Hw].
  apply start_honest. constructor; [by apply (utf8_ok_valid 4)|constructor].
Defined.
