(* ===== verification/KeyStore.v ===== *)
(** * The key store interface

    [common.BaseKeyStore] and [common.KeyStore] (internal/common/services.go)
    as records of operations on a world [W]; [StoreLaws] is what a store
    promises its clients: it behaves like a map from ids to values, with a
    deadline for the ids written with a time to live.  The clients (sessions,
    RSA keys, certificates) are verified against [StoreLaws]; [Valkey.v]
    shows that the database service fulfils it.

    internal/web/store.go: [NamespacedKeyStore] puts a prefix before every id
    and passes the promise on. *)

From S2P Require Import Prelude GoBytes GoText Json Common.
From Stdlib Require Import ZArith Lia.

Local Open Scope Z_scope.

(** ** The interfaces *)

Record BaseKeyStore (W : Type) := {
  ks_Read : bytes → M W bytes;
  ks_Write : bytes → bytes → M W unit;
  ks_WriteWithTTL : bytes → bytes → Z → M W unit;
  ks_Delete : bytes → M W unit;
  ks_Exists : bytes → M W Z;
  ks_HasNil : option error → bool
}.
Arguments ks_Read {W}.
Arguments ks_Write {W}.
Arguments ks_WriteWithTTL {W}.
Arguments ks_Delete {W}.
Arguments ks_Exists {W}.
Arguments ks_HasNil {W}.

(** [WriteNX] may return [true] together with an error. *)
Record KeyStore (W : Type) := {
  ks_base : BaseKeyStore W;
  ks_List : bytes → bool → M W (list bytes);
  ks_Stat : bytes → M W StorageStat;
  ks_WriteNX : bytes → bytes → Z → M W (bool * option error)
}.
Arguments ks_base {W}.
Arguments ks_List {W}.
Arguments ks_Stat {W}.
Arguments ks_WriteNX {W}.

(** ** The promise *)

(** The map [st_content] with its deadlines, in states where the store can be
    reached ([st_ok]); [st_elapse] lets time pass. *)
Class StoreLaws {W : Type} (ks : BaseKeyStore W) := {
  st_ok : W → Prop;
  st_content : W → bytes → option bytes;
  st_deadline : W → bytes → option Z;
  st_now : W → Z;
  st_elapse : Z → W → W;

  st_Read w id : st_ok w →
    ∃ w', ks_Read ks id w = (of_option (st_content w id) ErrValkeyNil, w') ∧
      st_ok w' ∧ st_now w' = st_now w ∧
      (∀ i, st_content w' i = st_content w i ∧ st_deadline w' i = st_deadline w i);
  st_WriteWithTTL w id v ttl : st_ok w → ttl < 0 ∨ 0 < ttl →
    ∃ w', ks_WriteWithTTL ks id v ttl w = (Ok tt, w') ∧ st_ok w' ∧ st_now w' = st_now w ∧
      (∀ i, st_content w' i = (if decide (i = id) then Some v else st_content w i) ∧
            st_deadline w' i = (if decide (i = id ∧ 0 < ttl) then Some (st_now w + ttl)
                                else st_deadline w i));
  st_Write w id v : ks_Write ks id v w = ks_WriteWithTTL ks id v (-1) w;
  st_Delete w id : st_ok w →
    ∃ w', ks_Delete ks id w = (Ok tt, w') ∧ st_ok w' ∧ st_now w' = st_now w ∧
      (∀ i, st_content w' i = (if decide (i = id) then None else st_content w i) ∧
            st_deadline w' i = (if decide (i = id) then None else st_deadline w i));
  st_Exists w id : st_ok w →
    ∃ w', ks_Exists ks id w = (Ok (if st_content w id then 1 else 0), w') ∧
      st_ok w' ∧ st_now w' = st_now w ∧
      (∀ i, st_content w' i = st_content w i ∧ st_deadline w' i = st_deadline w i);
  st_HasNil e : ks_HasNil ks (Some e) = bool_decide (e = ErrValkeyNil);
  st_HasNil_none : ks_HasNil ks None = false;
  st_elapse_spec w d : st_ok w → 0 ≤ d →
    st_ok (st_elapse d w) ∧ st_now (st_elapse d w) = st_now w + d ∧
    (∀ i, match st_deadline w i with
          | Some t => if decide (t ≤ st_now w + d)
                      then st_content (st_elapse d w) i = None ∧ st_deadline (st_elapse d w) i = None
                      else st_content (st_elapse d w) i = st_content w i ∧
                           st_deadline (st_elapse d w) i = Some t
          | None => st_content (st_elapse d w) i = st_content w i ∧
                    st_deadline (st_elapse d w) i = None
          end)
}.

(** The conditional write of a full key store: only the first caller wins, and
    what it writes has a deadline. *)
Class NXLaws {W : Type} (ks : KeyStore W) `{!StoreLaws (ks_base ks)} :=
  st_WriteNX w id v ttl : st_ok w → 0 < ttl →
    ∃ w', ks_WriteNX ks id v ttl w = (Ok (bool_decide (st_content w id = None), None), w') ∧
      st_ok w' ∧ st_now w' = st_now w ∧
      (∀ i, st_content w' i = (if decide (i = id ∧ st_content w id = None) then Some v else st_content w i) ∧
            st_deadline w' i = (if decide (i = id ∧ st_content w id = None) then Some (st_now w + ttl)
                                else st_deadline w i)).

(** The laws in the form the clients use. *)
Section laws.
Context {W : Type} {ks : BaseKeyStore W} `{!StoreLaws ks}.

(** Nothing observable has changed. *)
Definition st_same (w w' : W) : Prop :=
  st_ok w' ∧ st_now w' = st_now w ∧
  ∀ i, st_content w' i = st_content w i ∧ st_deadline w' i = st_deadline w i.

Lemma st_same_trans w1 w2 w3 : st_same w1 w2 → st_same w2 w3 → st_same w1 w3.
Proof.
  intros (_ & Hn1 & Hs1) (? & Hn2 & Hs2). split; [done|]. split; [congruence|].
  intros i. destruct (Hs1 i), (Hs2 i). split; congruence.
Qed.

Lemma st_read_found w id v : st_ok w → st_content w id = Some v →
  ∃ w', ks_Read ks id w = (Ok v, w') ∧ st_same w w'.
Proof. intros Hok Hc. destruct (st_Read w id Hok) as (w' & Hr & ?). rewrite Hc in Hr. by exists w'. Qed.

Lemma st_read_missing w id : st_ok w → st_content w id = None →
  ∃ w', ks_Read ks id w = (Err ErrValkeyNil, w') ∧ st_same w w'.
Proof. intros Hok Hc. destruct (st_Read w id Hok) as (w' & Hr & ?). rewrite Hc in Hr. by exists w'. Qed.

Lemma st_content_written w w' id v ttl :
  st_ok w → ttl < 0 ∨ 0 < ttl → ks_WriteWithTTL ks id v ttl w = (Ok tt, w') →
  st_ok w' ∧ st_content w' id = Some v.
Proof.
  intros Hok Ht Hw. destruct (st_WriteWithTTL w id v ttl Hok Ht) as (w1 & Hw1 & Hok1 & _ & Hi).
  rewrite Hw in Hw1. injection Hw1 as <-. split; [done|]. by rewrite (proj1 (Hi id)), decide_True.
Qed.

(** Before its deadline a value stays, from it on the value is gone. *)
Lemma st_elapse_deadline w d id t : st_ok w → 0 ≤ d → st_deadline w id = Some t →
  st_content (st_elapse d w) id = if decide (t ≤ st_now w + d) then None else st_content w id.
Proof.
  intros Hok Hd Ht. destruct (st_elapse_spec w d Hok Hd) as (_ & _ & Hi).
  specialize (Hi id). rewrite Ht in Hi. by case_decide; destruct Hi.
Qed.
End laws.

(** *** Operations that never panic

    [quiet m]: from no state does [m] panic.  Nothing is said about results:
    the connection to the store may be lost at any time. *)
Definition quiet {W A} (m : M W A) : Prop := ∀ w, safe (m w).1.

Lemma quiet_lift {W A} (r : res A) : safe r → quiet (lift r : M W A).
Proof. by intros Hr w. Qed.
Lemma quiet_ret {W A} (a : A) : quiet (mret a : M W A).
Proof. by intros w. Qed.
Lemma quiet_bind {W A B} (m : M W A) (f : A → M W B) : quiet m → (∀ a, quiet (f a)) → quiet (m ≫= f).
Proof.
  intros Hm Hf w. specialize (Hm w). unfold mbind, M_bind.
  destruct (m w) as [[a|e|p] w1]; [by apply Hf|done|by destruct (Hm p)].
Qed.
Lemma quiet_catch {W A B} (m : M W A) (k : A + error → M W B) : quiet m → (∀ r, quiet (k r)) →
  quiet (catch m k).
Proof.
  intros Hm Hk w. specialize (Hm w). unfold catch.
  destruct (m w) as [[a|e|p] w1]; [by apply Hk|by apply Hk|by destruct (Hm p)].
Qed.

Class StoreSafe {W : Type} (ks : BaseKeyStore W) := {
  ss_Read id : quiet (ks_Read ks id);
  ss_Write id v : quiet (ks_Write ks id v);
  ss_WriteWithTTL id v ttl : quiet (ks_WriteWithTTL ks id v ttl);
  ss_Delete id : quiet (ks_Delete ks id)
}.

(** ** internal/web/store.go *)

Record NamespacedKeyStore (W : Type) := { store : BaseKeyStore W; namespace : bytes }.
Arguments store {W}.
Arguments namespace {W}.

Section namespaced.
Context {W : Type}.
Implicit Types (s : NamespacedKeyStore W).

Definition Namespaced_Read s (id : bytes) : M W bytes := ks_Read (store s) (namespace s ++ id).
Definition Namespaced_Write s (id value : bytes) : M W unit :=
  ks_Write (store s) (namespace s ++ id) value.
Definition Namespaced_WriteWithTTL s (id value : bytes) (ttlSeconds : Z) : M W unit :=
  ks_WriteWithTTL (store s) (namespace s ++ id) value ttlSeconds.
Definition Namespaced_HasNil s (err : option error) : bool := ks_HasNil (store s) err.
Definition Namespaced_Delete s (id : bytes) : M W unit := ks_Delete (store s) (namespace s ++ id).
Definition Namespaced_Exists s (id : bytes) : M W Z := ks_Exists (store s) (namespace s ++ id).

(** The value of interface type. *)
Definition Namespaced_store s : BaseKeyStore W :=
  {| ks_Read := Namespaced_Read s; ks_Write := Namespaced_Write s;
     ks_WriteWithTTL := Namespaced_WriteWithTTL s; ks_Delete := Namespaced_Delete s;
     ks_Exists := Namespaced_Exists s; ks_HasNil := Namespaced_HasNil s |}.

Definition NewSessionKeyStore (st : KeyStore W) (dev : bool) : BaseKeyStore W :=
  Namespaced_store {| store := ks_base st; namespace := if dev then STORE_PREFIX_DEV else [] |}.

Lemma decide_app (p i id : bytes) {A} (x y : A) :
  (if decide (p ++ i = p ++ id) then x else y) = (if decide (i = id) then x else y).
Proof. destruct (decide (i = id)) as [->|Hne]; [by rewrite decide_True|]. rewrite decide_False; [done|]. by intros ?%(inj (app p)). Qed.

Lemma decide_app_and (p i id : bytes) (P : Prop) `{Decision P} {A} (x y : A) :
  (if decide (p ++ i = p ++ id ∧ P) then x else y) = (if decide (i = id ∧ P) then x else y).
Proof.
  destruct (decide (i = id ∧ P)) as [[-> ?]|Hne]; [by rewrite decide_True|].
  rewrite decide_False; [done|]. intros [?%(inj (app p)) ?]. by apply Hne.
Qed.

(** The namespaced store keeps the promise for the ids without prefix. *)
#[export, program] Instance Namespaced_laws s `{L : !StoreLaws (store s)} :
    StoreLaws (Namespaced_store s) := {|
  st_ok := @st_ok _ _ L;
  st_content w id := @st_content _ _ L w (namespace s ++ id);
  st_deadline w id := @st_deadline _ _ L w (namespace s ++ id);
  st_now := @st_now _ _ L;
  st_elapse := @st_elapse _ _ L
|}.
Next Obligation.
  intros s L w id Hok. simpl. destruct (st_Read w (namespace s ++ id) Hok) as (w' & Hr & ? & ? & ?).
  exists w'. split_and!; try done.
Qed.
Next Obligation.
  intros s L w id v ttl Hok Ht. simpl.
  destruct (st_WriteWithTTL w (namespace s ++ id) v ttl Hok Ht) as (w' & Hr & ? & ? & Hi).
  exists w'. split_and!; try done. intros i. specialize (Hi (namespace s ++ i)).
  by rewrite decide_app, decide_app_and in Hi.
Qed.
Next Obligation. intros s L w id v. apply (@st_Write _ _ L). Qed.
Next Obligation.
  intros s L w id Hok. simpl. destruct (st_Delete w (namespace s ++ id) Hok) as (w' & Hr & ? & ? & Hi).
  exists w'. split_and!; try done. intros i. specialize (Hi (namespace s ++ i)).
  by rewrite !decide_app in Hi.
Qed.
Next Obligation.
  intros s L w id Hok. simpl. destruct (st_Exists w (namespace s ++ id) Hok) as (w' & Hr & ? & ? & ?).
  exists w'. split_and!; try done.
Qed.
Next Obligation. intros s L e. apply (@st_HasNil _ _ L). Qed.
Next Obligation. intros s L. apply (@st_HasNil_none _ _ L). Qed.
Next Obligation.
  intros s L w d Hok Hd. simpl. destruct (st_elapse_spec w d Hok Hd) as (? & ? & Hi).
  split_and!; try done. intros i. apply (Hi (namespace s ++ i)).
Qed.
End namespaced.

#[export] Instance Namespaced_safe {W} (s : NamespacedKeyStore W) `{!StoreSafe (store s)} :
    StoreSafe (Namespaced_store s).
Proof.
  split; intros; [apply (ss_Read (ks := store s))|apply (ss_Write (ks := store s))
    |apply (ss_WriteWithTTL (ks := store s))|apply (ss_Delete (ks := store s))].
Qed.

#[export] Instance session_store_safe {W} (st : KeyStore W) dev `{S : !StoreSafe (ks_base st)} :
    StoreSafe (NewSessionKeyStore st dev).
Proof. unfold NewSessionKeyStore. by apply Namespaced_safe. Qed.

#[export] Instance session_store_laws {W} (st : KeyStore W) dev `{L : !StoreLaws (ks_base st)} :
    StoreLaws (NewSessionKeyStore st dev) :=
  Namespaced_laws {| store := ks_base st; namespace := if dev then STORE_PREFIX_DEV else [] |}.
