(* ===== verification/Api.v ===== *)
(** * pkg/api/model.go: the messages of the HTTP interface

    The request and response types with their JSON encodings.  Types that the
    server decodes have a codec with its round-trip law; types it only sends
    have their encoding. *)

From S2P Require Import Prelude GoBytes GoText Json Common.
From Stdlib Require Import ZArith Lia.

Local Open Scope Z_scope.

(** ** Data *)

Record VerifyResponse := { vr_Nonce : bytes; vr_SessionId : bytes }.
Record AttestationRequest := { ar_SessionId : bytes; ar_Quote : bytes; ar_EventLog : bytes }.
Record AttestationRequestStore := { rs_Nonce : option bytes; rs_Payload : bytes }.

Abbreviation KeyType := bytes (only parsing).
Definition Symmetric : KeyType := $"SYMMETRIC".
Definition KT_X25519 : KeyType := $"X25519".
Definition KT_P256 : KeyType := $"P256".
Definition KT_P384 : KeyType := $"P384".
Definition KT_RSA : KeyType := $"RSA".

(** [api.Context] is any string; the two constants are the ones in use. *)
Definition ContextApp : bytes := $"APP".
Definition ContextVMBoot : bytes := $"VM_BOOT".

Record KeyRequest := { kr_Id : bytes; kr_Ctx : bytes; kr_Type : KeyType }.

(** internal/crypto/keygen.go *)
Record KeyPair := { kp_Private : bytes; kp_Public : bytes }.

(** The values the field [Key any] of a response takes. *)
Inductive AnyKey :=
  | NoKey                        (* nil *)
  | SymmetricKey (k : bytes)     (* string *)
  | PairKey (p : option KeyPair). (* *crypto.KeyPair *)

Record KeyResponse := { Key : AnyKey; Verified : bool; Message : bytes }.
Record SGXQuote := { SignedQuote : bytes }.

Record SigningRequest := {
  sg_Id : bytes;
  sg_Ctx : bytes;
  sg_Mrtd : bytes;                     (* base64 *)
  sg_Messages : gmap bytes bytes       (* message id to base64 message *)
}.
Record SigningResponse := { sn_Signatures : gmap bytes bytes; sn_PublicKey : bytes }.

Record TdxSealRequest := { ts_Id : bytes; ts_Mrtd : bytes; ts_Cfv : bytes; ts_Payload : bytes }.
Record TdxSealResponse := { tr_Id : bytes; tr_SealedPayload : bytes }.

(** ** JSON *)

Definition VerifyResponse_json (t : VerifyResponse) : json :=
  JObj [($"nonce", JStr (vr_Nonce t)); ($"sessionId", JStr (vr_SessionId t))].

Definition AttestationRequest_zero : AttestationRequest :=
  {| ar_SessionId := []; ar_Quote := []; ar_EventLog := [] |}.
Definition AttestationRequest_fields : fields AttestationRequest :=
  [($"sessionId", λ v t, x ← decode_string (ar_SessionId t) v;
      mret {| ar_SessionId := x; ar_Quote := ar_Quote t; ar_EventLog := ar_EventLog t |});
   ($"quote", λ v t, x ← decode_string (ar_Quote t) v;
      mret {| ar_SessionId := ar_SessionId t; ar_Quote := x; ar_EventLog := ar_EventLog t |});
   ($"eventLog", λ v t, x ← decode_string (ar_EventLog t) v;
      mret {| ar_SessionId := ar_SessionId t; ar_Quote := ar_Quote t; ar_EventLog := x |})].
(** [eventLog] is omitted when empty. *)
Definition AttestationRequest_json (t : AttestationRequest) : json :=
  JObj ([($"sessionId", JStr (ar_SessionId t)); ($"quote", JStr (ar_Quote t))] ++
        match ar_EventLog t with [] => [] | l => [($"eventLog", JStr l)] end).
Definition AttestationRequest_ok (t : AttestationRequest) : Prop :=
  valid_utf8 (ar_SessionId t) ∧ valid_utf8 (ar_Quote t) ∧ valid_utf8 (ar_EventLog t).

#[export, program] Instance AttestationRequest_codec : JsonCodec AttestationRequest := {|
  zero := AttestationRequest_zero; to_json := AttestationRequest_json;
  of_json := decode_struct AttestationRequest_fields; json_ok := AttestationRequest_ok |}.
Next Obligation. intros [? ? []] (?&?&?); solve_wf. Qed.
Next Obligation. intros [? ? []] _; solve_codec. Qed.

Definition AttestationRequestStore_zero : AttestationRequestStore :=
  {| rs_Nonce := None; rs_Payload := [] |}.
Definition AttestationRequestStore_fields : fields AttestationRequestStore :=
  [($"nonce", λ v t, x ← decode_bytes v; mret {| rs_Nonce := x; rs_Payload := rs_Payload t |});
   ($"payload", λ v t, x ← decode_string (rs_Payload t) v;
      mret {| rs_Nonce := rs_Nonce t; rs_Payload := x |})].
Definition AttestationRequestStore_json (t : AttestationRequestStore) : json :=
  JObj [($"nonce", enc_bytes (rs_Nonce t)); ($"payload", JStr (rs_Payload t))].
Definition AttestationRequestStore_ok (t : AttestationRequestStore) : Prop := valid_utf8 (rs_Payload t).

#[export, program] Instance AttestationRequestStore_codec : JsonCodec AttestationRequestStore := {|
  zero := AttestationRequestStore_zero; to_json := AttestationRequestStore_json;
  of_json := decode_struct AttestationRequestStore_fields; json_ok := AttestationRequestStore_ok |}.
Next Obligation. intros [? ?] ?; unfold AttestationRequestStore_ok in *; solve_wf. Qed.
Next Obligation. intros [? ?] _; solve_codec. Qed.

Definition KeyRequest_zero : KeyRequest := {| kr_Id := []; kr_Ctx := []; kr_Type := [] |}.
Definition KeyRequest_fields : fields KeyRequest :=
  [($"id", λ v t, x ← decode_string (kr_Id t) v;
      mret {| kr_Id := x; kr_Ctx := kr_Ctx t; kr_Type := kr_Type t |});
   ($"context", λ v t, x ← decode_string (kr_Ctx t) v;
      mret {| kr_Id := kr_Id t; kr_Ctx := x; kr_Type := kr_Type t |});
   ($"type", λ v t, x ← decode_string (kr_Type t) v;
      mret {| kr_Id := kr_Id t; kr_Ctx := kr_Ctx t; kr_Type := x |})].
Definition KeyRequest_json (t : KeyRequest) : json :=
  JObj [($"id", JStr (kr_Id t)); ($"context", JStr (kr_Ctx t)); ($"type", JStr (kr_Type t))].
Definition KeyRequest_ok (t : KeyRequest) : Prop :=
  valid_utf8 (kr_Id t) ∧ valid_utf8 (kr_Ctx t) ∧ valid_utf8 (kr_Type t).

#[export, program] Instance KeyRequest_codec : JsonCodec KeyRequest := {|
  zero := KeyRequest_zero; to_json := KeyRequest_json;
  of_json := decode_struct KeyRequest_fields; json_ok := KeyRequest_ok |}.
Next Obligation. intros [? ? ?] (?&?&?); solve_wf. Qed.
Next Obligation. intros [? ? ?] _; solve_codec. Qed.

Definition KeyPair_zero : KeyPair := {| kp_Private := []; kp_Public := [] |}.
Definition KeyPair_fields : fields KeyPair :=
  [($"private", λ v t, x ← decode_string (kp_Private t) v; mret {| kp_Private := x; kp_Public := kp_Public t |});
   ($"public", λ v t, x ← decode_string (kp_Public t) v; mret {| kp_Private := kp_Private t; kp_Public := x |})].
Definition KeyPair_json (t : KeyPair) : json :=
  JObj [($"private", JStr (kp_Private t)); ($"public", JStr (kp_Public t))].
Definition KeyPair_ok (t : KeyPair) : Prop := valid_utf8 (kp_Private t) ∧ valid_utf8 (kp_Public t).

#[export, program] Instance KeyPair_codec : JsonCodec KeyPair := {|
  zero := KeyPair_zero; to_json := KeyPair_json;
  of_json := decode_struct KeyPair_fields; json_ok := KeyPair_ok |}.
Next Obligation. intros [? ?] (?&?); solve_wf. Qed.
Next Obligation. intros [? ?] _; solve_codec. Qed.

(** A [*crypto.KeyPair] variable, nil at first: [null] leaves it nil. *)
#[export, program] Instance KeyPair_ptr_codec : JsonCodec (option KeyPair) := {|
  zero := None; to_json := enc_ptr KeyPair_json;
  of_json := decode_ptr (decode_struct KeyPair_fields) KeyPair_zero;
  json_ok p := match p with Some k => KeyPair_ok k | None => True end |}.
Next Obligation. intros [[? ?]|]; [intros [??]|]; solve_wf. Qed.
Next Obligation. intros [[? ?]|] _; solve_codec. Qed.

Definition AnyKey_json (k : AnyKey) : json :=
  match k with
  | NoKey => JNull
  | SymmetricKey s => JStr s
  | PairKey p => enc_ptr KeyPair_json p
  end.
Definition KeyResponse_json (t : KeyResponse) : json :=
  JObj [($"key", AnyKey_json (Key t)); ($"verified", JBool (Verified t)); ($"message", JStr (Message t))].

Definition SGXQuote_json (t : SGXQuote) : json := JObj [($"signedQuote", JStr (SignedQuote t))].

Definition TdxSealRequest_zero : TdxSealRequest :=
  {| ts_Id := []; ts_Mrtd := []; ts_Cfv := []; ts_Payload := [] |}.
Definition TdxSealRequest_fields : fields TdxSealRequest :=
  [($"id", λ v t, x ← decode_string (ts_Id t) v;
      mret {| ts_Id := x; ts_Mrtd := ts_Mrtd t; ts_Cfv := ts_Cfv t; ts_Payload := ts_Payload t |});
   ($"mrtd", λ v t, x ← decode_string (ts_Mrtd t) v;
      mret {| ts_Id := ts_Id t; ts_Mrtd := x; ts_Cfv := ts_Cfv t; ts_Payload := ts_Payload t |});
   ($"cfv", λ v t, x ← decode_string (ts_Cfv t) v;
      mret {| ts_Id := ts_Id t; ts_Mrtd := ts_Mrtd t; ts_Cfv := x; ts_Payload := ts_Payload t |});
   ($"payload", λ v t, x ← decode_string (ts_Payload t) v;
      mret {| ts_Id := ts_Id t; ts_Mrtd := ts_Mrtd t; ts_Cfv := ts_Cfv t; ts_Payload := x |})].
Definition TdxSealRequest_json (t : TdxSealRequest) : json :=
  JObj [($"id", JStr (ts_Id t)); ($"mrtd", JStr (ts_Mrtd t)); ($"cfv", JStr (ts_Cfv t));
        ($"payload", JStr (ts_Payload t))].
Definition TdxSealRequest_ok (t : TdxSealRequest) : Prop :=
  valid_utf8 (ts_Id t) ∧ valid_utf8 (ts_Mrtd t) ∧ valid_utf8 (ts_Cfv t) ∧ valid_utf8 (ts_Payload t).

#[export, program] Instance TdxSealRequest_codec : JsonCodec TdxSealRequest := {|
  zero := TdxSealRequest_zero; to_json := TdxSealRequest_json;
  of_json := decode_struct TdxSealRequest_fields; json_ok := TdxSealRequest_ok |}.
Next Obligation. intros [? ? ? ?] (?&?&?&?); solve_wf. Qed.
Next Obligation. intros [? ? ? ?] _; solve_codec. Qed.

Definition TdxSealResponse_json (t : TdxSealResponse) : json :=
  JObj [($"id", JStr (tr_Id t)); ($"sealedPayload", JStr (tr_SealedPayload t))].

(** ** Decoding requests does not panic *)

#[export] Instance AttestationRequest_safe : JsonSafe AttestationRequest.
Proof. unfold JsonSafe. solve_fields_safe. Qed.
#[export] Instance AttestationRequestStore_safe : JsonSafe AttestationRequestStore.
Proof. unfold JsonSafe. solve_fields_safe. Qed.
#[export] Instance KeyRequest_safe : JsonSafe KeyRequest.
Proof. unfold JsonSafe. solve_fields_safe. Qed.
#[export] Instance TdxSealRequest_safe : JsonSafe TdxSealRequest.
Proof. unfold JsonSafe. solve_fields_safe. Qed.
#[export] Instance KeyPair_ptr_safe : JsonSafe (option KeyPair).
Proof.
  intros x v. simpl. assert (∀ t u, safe (decode_struct KeyPair_fields t u)) as Hs by solve_fields_safe.
  destruct v; try done; apply safe_bind; done.
Qed.
