(* ===== verification/JsonText.v ===== *)
(** * encoding/json: decoded text is valid UTF-8

    Go's decoder replaces what is no UTF-8 by U+FFFD, and escapes for half a
    surrogate pair as well, so that every string in a parsed value is valid,
    whatever bytes were parsed.  [JsonText] carries this over to the request
    types: a decoded request is a value that [json.Marshal] and
    [json.Unmarshal] take back unchanged. *)

From S2P Require Import Prelude GoBytes GoText Json Common Api.
From Stdlib Require Import ZArith Lia.

(** ** Runes *)

Lemma in_range_byte lo hi n : (lo <= n <= hi)%N → (n < 256)%N → in_range lo hi (byte_of_N n) = true.
Proof. intros Hn Hl. unfold in_range. rewrite byte_to_of_N by lia. apply andb_true_intro. rewrite !N.leb_le. lia. Qed.

(** The lead bytes [encode_rune] produces. *)
Lemma lead_ascii n : (n < 128)%N → lead_of (byte_of_N n) = L1.
Proof. intros Hn. unfold lead_of. rewrite byte_to_of_N by lia. by rewrite (proj2 (N.ltb_lt _ _)). Qed.

Ltac decide_N := repeat match goal with
  | |- context [N.ltb ?a ?b] => destruct (N.ltb_spec a b); try lia
  | |- context [N.eqb ?a ?b] => destruct (N.eqb_spec a b); try lia
  end.

Lemma lead_2 n : (194 <= n < 224)%N → lead_of (byte_of_N n) = L2 128 191.
Proof. intros Hn. unfold lead_of. rewrite byte_to_of_N by lia. by decide_N. Qed.
Lemma lead_3 n : (224 <= n < 240)%N → ∃ lo hi, lead_of (byte_of_N n) = L3 lo hi ∧
  (lo = if decide (n = 224) then 160 else 128)%N ∧ (hi = if decide (n = 237) then 159 else 191)%N.
Proof.
  intros Hn. unfold lead_of. rewrite byte_to_of_N by lia. repeat case_decide; subst; try lia; decide_N; eauto.
Qed.
Lemma lead_4 n : (240 <= n < 245)%N → ∃ lo hi, lead_of (byte_of_N n) = L4 lo hi ∧
  (lo = if decide (n = 240) then 144 else 128)%N ∧ (hi = if decide (n = 244) then 143 else 191)%N.
Proof.
  intros Hn. unfold lead_of. rewrite byte_to_of_N by lia. repeat case_decide; subst; try lia; decide_N; eauto.
Qed.

Ltac by_division := Z.to_euclidean_division_equations; lia.

Lemma encode_rune_next n s : (n < 1114112)%N → ¬ (55296 <= n < 57344)%N →
  next_rune (encode_rune n ++ s) = Some (encode_rune n, s).
Proof.
  intros Hn Hs. unfold encode_rune.
  destruct (N.ltb_spec n 128); [by cbn; rewrite lead_ascii|].
  destruct (N.ltb_spec n 2048).
  { cbn. rewrite lead_2 by (zify; by_division). by rewrite in_range_byte by (zify; by_division). }
  destruct (N.ltb_spec n 65536); cbn.
  - destruct (lead_3 (224 + n / 4096)%N) as (lo & hi & -> & Hlo & Hhi); [zify; by_division|].
    assert (lo <= 128 + n / 64 mod 64 <= hi)%N by (subst; repeat case_decide; zify; by_division).
    unfold cont. by rewrite !in_range_byte by (done || (zify; by_division)).
  - destruct (lead_4 (240 + n / 262144)%N) as (lo & hi & -> & Hlo & Hhi); [zify; by_division|].
    assert (lo <= 128 + n / 4096 mod 64 <= hi)%N by (subst; repeat case_decide; zify; by_division).
    unfold cont. by rewrite !in_range_byte by (done || (zify; by_division)).
Qed.

Lemma encode_rune_valid n : (n < 1114112)%N → ¬ (55296 <= n < 57344)%N → valid_utf8 (encode_rune n).
Proof.
  intros Hn Hs. rewrite <- (app_nil_r (encode_rune n)). constructor; [by apply encode_rune_next|constructor].
Qed.
Lemma replacement_valid : valid_utf8 replacement.
Proof. by apply (utf8_ok_valid 3). Qed.
Lemma ascii_byte_valid b : (Byte.to_N b < 128)%N → valid_utf8 [b].
Proof. intros Hb. by apply ascii_valid, Forall_singleton. Qed.
#[local] Hint Resolve replacement_valid : core.

(** ** Strings *)

Lemma unhex_bound b x : unhex b = Some x → (x < 16)%N.
Proof. destruct b; vm_compute; intros [= <-]; done. Qed.

Lemma getu4_bound s n r : getu4 s = Some (n, r) → (n < 65536)%N.
Proof.
  destruct s as [|a [|b [|c [|d s]]]]; try done. unfold getu4. intros Hs.
  apply bind_Some in Hs as (x & Hx & Hs). apply bind_Some in Hs as (y & Hy & Hs).
  apply bind_Some in Hs as (z & Hz & Hs). apply bind_Some in Hs as (w & Hw & [= <- _]).
  apply unhex_bound in Hx, Hy, Hz, Hw. lia.
Qed.

Lemma unescape_u_valid s c r : unescape_u s = Some (c, r) → valid_utf8 c.
Proof.
  unfold unescape_u. intros Hs. apply bind_Some in Hs as ([n r1] & Hn & Hs). apply getu4_bound in Hn.
  destruct ((55296 <=? n) && (n <? 57344))%N eqn:Hsur.
  - destruct r1 as [|b [|u r2]]; [by injection Hs as <- _..|].
    destruct (Byte.eqb b backslash && _); [|by injection Hs as <- _].
    apply bind_Some in Hs as ([m r3] & _ & Hs).
    destruct ((n <? 56320) && (56320 <=? m) && (m <? 57344))%N eqn:Hpair; [|by injection Hs as <- _].
    injection Hs as <- _. apply andb_true_iff in Hpair as [Hpair ?%N.ltb_lt].
    apply andb_true_iff in Hpair as [?%N.ltb_lt ?%N.leb_le]. apply andb_true_iff in Hsur as [?%N.leb_le _].
    apply encode_rune_valid; lia.
  - injection Hs as <- _. apply andb_false_iff in Hsur. rewrite N.leb_gt, N.ltb_ge in Hsur.
    apply encode_rune_valid; lia.
Qed.

Lemma unescape_valid s c r : unescape s = Some (c, r) → valid_utf8 c.
Proof.
  destruct s as [|e s]; [done|]. unfold unescape.
  repeat (case_match; [by intros [= <- _]; first [by apply (utf8_ok_valid 1)|destruct e; try done; by apply (utf8_ok_valid 1)]|]).
  case_match; [|done]. apply unescape_u_valid.
Qed.

Lemma dec_str_valid fuel s x r : dec_str fuel s = Some (x, r) → valid_utf8 x.
Proof.
  revert s x r. induction fuel as [|fuel IH]; intros s x r; [done|]. destruct s as [|a s]; [done|]. cbn [dec_str].
  case_match; [intros [= <- _]; constructor|]. intros Hs.
  apply bind_Some in Hs as ([c r1] & Hc & Hs). apply bind_Some in Hs as ([y r2] & Hy & [= <- _]).
  apply valid_utf8_app; [|by eapply IH]. revert Hc. case_match; [apply unescape_valid|].
  case_match; [done|]. destruct (next_rune (a :: s)) as [[c' r']|] eqn:Hn; [|by intros [= <- _]].
  intros [= <- <-]. destruct (next_rune_app _ _ _ Hn) as [Hs' _]. rewrite <- (app_nil_r c').
  constructor; [|constructor]. rewrite Hs' in Hn. by eapply next_rune_ext.
Qed.

Lemma parse_string_valid s x r : parse_string s = Some (x, r) → valid_utf8 x.
Proof. destruct s; [done|]. unfold parse_string. case_match; [apply dec_str_valid|done]. Qed.

(** ** Values *)

(** Every string in the value is valid; numbers are any literal. *)
Fixpoint texts_ok (v : json) : Prop :=
  match v with
  | JNull | JBool _ | JNum _ => True
  | JStr s => valid_utf8 s
  | JArr l => foldr (λ x P, texts_ok x ∧ P) True l
  | JObj kvs => foldr (λ kv P, valid_utf8 kv.1 ∧ texts_ok kv.2 ∧ P) True kvs
  end.

Lemma parse_texts fuel :
  (∀ s v r, parse_value fuel s = Some (v, r) → texts_ok v) ∧
  (∀ s l r, parse_elems fuel s = Some (l, r) → texts_ok (JArr l)) ∧
  (∀ s l r, parse_members fuel s = Some (l, r) → texts_ok (JObj l)).
Proof.
  induction fuel as [|fuel (IHv & IHe & IHm)]; [done|]. split_and!; intros s; cbn [parse_value parse_elems parse_members].
  - intros v r. destruct (skip_ws s) as [|b t]; [done|].
    case_match; [intros ([x t'] & Hx & [= <- _])%bind_Some; by eapply parse_string_valid|].
    do 3 (case_match; [by intros (t' & _ & [= <- _])%bind_Some|]).
    case_match; [case_match; [by intros [= <- _]|intros ([l t'] & Hl & [= <- _])%bind_Some; by eapply IHe]|].
    case_match; [case_match; [by intros [= <- _]|intros ([l t'] & Hl & [= <- _])%bind_Some; by eapply IHm]|].
    by intros ([x t'] & _ & [= <- _])%bind_Some.
  - intros l r ([v r1] & Hv & Hl)%bind_Some. apply IHv in Hv. destruct (skip_ws r1) as [|b t]; [done|].
    case_match; [|case_match; [by injection Hl as <- _|done]].
    apply bind_Some in Hl as ([l' t'] & Hl' & [= <- _]). apply IHe in Hl'. done.
  - intros l r ([k r1] & Hk & Hl)%bind_Some. apply parse_string_valid in Hk.
    apply bind_Some in Hl as (r2 & _ & Hl). apply bind_Some in Hl as ([v r3] & Hv & Hl). apply IHv in Hv.
    destruct (skip_ws r3) as [|b t]; [done|]. case_match; [|case_match; [by injection Hl as <- _|done]].
    apply bind_Some in Hl as ([l' t'] & Hl' & [= <- _]). apply IHm in Hl'. done.
Qed.

Lemma Unmarshal_texts s v : Unmarshal s = Ok v → texts_ok v.
Proof.
  unfold Unmarshal. destruct (parse_value _ s) as [[v' r]|] eqn:Hv; [|done]. case_decide; [|done].
  intros [= <-]. by eapply parse_texts.
Qed.

(** ** Structs *)

(** A property of a struct that every field keeps holds of what is decoded. *)
Lemma decode_struct_text {T} (P : T → Prop) (fs : fields T) t v t' :
  Forall (λ f : bytes * (json → T → res T), ∀ v t t', texts_ok v → P t → f.2 v t = Ok t' → P t') fs →
  texts_ok v → P t → decode_struct fs t v = Ok t' → P t'.
Proof.
  intros Hfs Hv Ht. destruct v as [| | | | |kvs]; try done; cbn [decode_struct]; [by intros [= <-]|].
  unfold decode_members. assert (∀ u, Ok t = Ok u → P u) as Hacc by (by intros u [= <-]).
  revert Hv Hacc. generalize (Ok t). clear Ht t. induction kvs as [|[k v] kvs IH]; intros acc Hv Hacc; [apply Hacc|].
  cbn [foldl fst snd]. destruct Hv as (_ & Hv & Hkvs). apply IH; [done|].
  destruct (field_index _ _) as [i|]; [|done]. destruct (fs !! i) as [f|] eqn:Hf; [|done].
  intros u (t & -> & Hu)%res_bind_Ok. by apply (Forall_lookup_1 _ _ _ _ Hfs Hf v t u Hv (Hacc t eq_refl)).
Qed.

Lemma decode_string_text old v x : texts_ok v → valid_utf8 old → decode_string old v = Ok x → valid_utf8 x.
Proof. by destruct v; intros Hv Ho [= <-]. Qed.

(** Types of which every decoded value survives a round trip. *)
Class JsonText (T : Type) `{JsonCodec T} := {
  zero_text : json_ok (zero : T);
  of_json_text (x : T) v y : texts_ok v → json_ok x → of_json x v = Ok y → json_ok y
}.

Lemma json_Unmarshal_text `{JsonText T} s (x : T) : json_Unmarshal T s = Ok x → json_ok x.
Proof.
  intros (v & Hv & Hx)%res_bind_Ok. apply Unmarshal_texts in Hv. eapply of_json_text; [done|apply zero_text|done].
Qed.

Lemma Decode_single_text `{JsonText T} body (x : T) : Decode_single T body = Ok x → json_ok x.
Proof.
  unfold Decode_single. destruct (parse_value _ _) as [[v r]|] eqn:Hv; [|done]. apply parse_texts in Hv.
  intros (y & Hy & Hx)%res_bind_Ok. case_decide; [|done]. injection Hx as <-.
  eapply of_json_text; [done|apply zero_text|done].
Qed.

(** A struct of strings. *)
Ltac solve_text :=
  split; [by repeat split; constructor|];
  intros x v y; apply decode_struct_text;
  repeat (constructor; [intros ? ? ? Hv Hok (z & Hz & [= <-])%res_bind_Ok; hnf in Hok; destruct_and?;
    eapply decode_string_text in Hz; [|done|done]; by repeat split|]);
  constructor.

#[export] Instance AttestationRequest_text : JsonText AttestationRequest.
Proof. solve_text. Qed.
#[export] Instance KeyRequest_text : JsonText KeyRequest.
Proof. solve_text. Qed.
#[export] Instance TdxSealRequest_text : JsonText TdxSealRequest.
Proof. solve_text. Qed.
