(* ===== verification/Crypto.v ===== *)
(** * internal/crypto: key generation, randomness and signatures

    keygen.go ([X25519], [ECDSA], [RSA]), random.go (nonces and session ids)
    and sign.go.  The group operations of [crypto/ecdh], [crypto/ecdsa] and
    [crypto/rsa] and the ASN.1 encodings are parameters; what the code itself
    computes around them (the reduction of the secret to a scalar, the length
    and range checks it meets, PEM and base64 framing) is written out. *)

From S2P Require Import Prelude GoBytes GoText Json Sha256 Common Api.
From Stdlib Require Import ZArith Lia.

Local Open Scope Z_scope.

(** ** Curves *)

Inductive Curve := P224 | P256 | P384 | P521.
#[export] Instance Curve_eq_dec : EqDecision Curve.
Proof. solve_decision. Defined.

(** [curve.Params().N] *)
Definition order (c : Curve) : Z :=
  match c with
  | P224 => 2 ^ 224 - 2 ^ 112 + 0x16a2e0b8f03e13dd29455c5c2a3d
  | P256 => 2 ^ 256 - 2 ^ 224 + 2 ^ 192 - 2 ^ 128 + 0xbce6faada7179e84f3b9cac2fc632551
  | P384 => 2 ^ 384 - 2 ^ 192 + 0xc7634d81f4372ddf581a0db248b0a77aecec196accc52973
  | P521 => 2 ^ 521 - 2 ^ 260 + 0xa51868783bf2f966b7fcc0148f709a5d03bb5c9b8899c47aebb6fb71e91386409
  end.

(** The length of a scalar and of a coordinate in bytes. *)
Definition scalar_size (c : Curve) : nat :=
  match c with P224 => 28 | P256 => 32 | P384 => 48 | P521 => 66 end.

(** [ScalarBaseMult] is the public point of a scalar; [ecdh_PublicKey] is its
    uncompressed encoding, the byte 4 and the two coordinates at their full
    length. *)
Class CurveLib := {
  ScalarBaseMult : Curve → Z → Z * Z;
  ecdh_PublicKey : Curve → Z → bytes;
  x25519_PublicKey : bytes → bytes;
  Sprint_curve : Curve → bytes             (* the verb %v *)
}.
Class CurveLaws `{CurveLib} :=
  ecdh_PublicKey_ok c d : c ≠ P224 → 0 < d < order c →
    ∃ x y, ecdh_PublicKey c d = x04 :: x ++ y ∧ length x = scalar_size c ∧ length y = scalar_size c ∧
      ScalarBaseMult c d = (SetBytes x, SetBytes y).

(** [ecdh.Curve.NewPrivateKey]: the scalar at its full length, in range. *)
Definition ecdh_NewPrivateKey (c : Curve) (key : bytes) : res Z :=
  if decide (length key = scalar_size c) then
    if (SetBytes key =? 0) || (order c <=? SetBytes key)
    then Err (ErrString ($"crypto/ecdh: invalid private key"))
    else Ok (SetBytes key)
  else Err (ErrString ($"crypto/ecdh: invalid private key size")).

(** ** keygen.go *)

Record ecdsa_PrivateKey := { pk_D : Z; pk_Curve : Curve; pk_X : Z; pk_Y : Z }.
Record ecdsa_PublicKey := { pub_Curve : Curve; pub_X : Z; pub_Y : Z }.
(** The embedded field [PublicKey]. *)
Definition PublicKey (k : ecdsa_PrivateKey) : ecdsa_PublicKey :=
  {| pub_Curve := pk_Curve k; pub_X := pk_X k; pub_Y := pk_Y k |}.

(** [d.Mod(d, n-1); d.Add(d, 1)] *)
Definition reduce_scalar (keyBytes : bytes) (c : Curve) : Z :=
  SetBytes keyBytes mod (order c - 1) + 1.

Definition ECDSA `{CurveLib} (keyBytes : bytes) (curve : Curve) : res ecdsa_PrivateKey :=
  if decide (curve = P224) then Err (ErrString ($"unsupported curve " ++ Sprint_curve curve))
  else
    let d := reduce_scalar keyBytes curve in
    ecdhPrivKey ← wrap ($"failed to create ECDH private key") (ecdh_NewPrivateKey curve (Bytes d));
    let pubKeyBytes := ecdh_PublicKey curve ecdhPrivKey in
    if bool_decide (length pubKeyBytes < 3)%nat || negb (bool_decide (head pubKeyBytes = Some x04))
    then Err (ErrString ($"invalid public key format"))
    else
      let coordBytes := (length pubKeyBytes - 1)%nat in
      if negb (bool_decide (coordBytes mod 2 = 0)%nat)
      then Err (ErrString ($"invalid length: coordinates must be equal size"))
      else
        let keyLen := (coordBytes / 2)%nat in
        Ok {| pk_D := d; pk_Curve := curve;
              pk_X := SetBytes (take keyLen (drop 1 pubKeyBytes));
              pk_Y := SetBytes (drop (1 + keyLen) pubKeyBytes) |}.

Definition X25519 `{CurveLib} (keyBytes : bytes) : res KeyPair :=
  if decide (length keyBytes = 32%nat) then
    Ok {| kp_Private := b64_EncodeToString keyBytes;
          kp_Public := b64_EncodeToString (x25519_PublicKey keyBytes) |}
  else Err (ErrString ($"crypto/ecdh: invalid private key size")).

(** [pem.EncodeToMemory] of a block without headers: base64 in lines of 64. *)
Fixpoint pem_lines (fuel : nat) (s : bytes) : bytes :=
  match fuel, s with
  | S fuel, _ :: _ => take 64 s ++ [x0a] ++ pem_lines fuel (drop 64 s)
  | _, _ => []
  end.
Definition pem_EncodeToMemory (type data : bytes) : bytes :=
  $"-----BEGIN " ++ type ++ $"-----" ++ [x0a] ++
  pem_lines (S (length (b64_EncodeToString data))) (b64_EncodeToString data) ++
  $"-----END " ++ type ++ $"-----" ++ [x0a].

(** [rsa.GenerateKey] and the ASN.1 encodings of RSA keys. *)
Class RsaLib (W : Type) := {
  rsa_PrivateKey : Type;
  rsa_GenerateKey : Z → M W rsa_PrivateKey;
  MarshalPKCS1PrivateKey : rsa_PrivateKey → bytes;
  rsa_MarshalPKIXPublicKey : rsa_PrivateKey → res bytes
}.

Definition RSA {W} `{RsaLib W} : M W KeyPair :=
  privateKey ← rsa_GenerateKey 2048;
  let privPEM := pem_EncodeToMemory ($"RSA PRIVATE KEY") (MarshalPKCS1PrivateKey privateKey) in
  pubBytes ← lift (rsa_MarshalPKIXPublicKey privateKey);
  let pubPEM := pem_EncodeToMemory ($"PUBLIC KEY") pubBytes in
  mret {| kp_Private := b64_EncodeToString privPEM; kp_Public := b64_EncodeToString pubPEM |}.

(** [ecdsa.GenerateKey(c, rand.Reader)] *)
Class EcdsaLib (W : Type) := {
  ecdsa_GenerateKey : Curve → M W ecdsa_PrivateKey;
  ecdsa_Sign : ecdsa_PrivateKey → bytes → M W (Z * Z);
  ecdsa_Verify : ecdsa_PublicKey → bytes → Z * Z → bool;
  asn1_Marshal : Z * Z → res bytes;
  asn1_Unmarshal : bytes → res (Z * Z)
}.
(** A private key whose public point is that of its scalar. *)
Definition key_pair_ok `{CurveLib} (k : ecdsa_PrivateKey) : Prop :=
  0 < pk_D k < order (pk_Curve k) ∧ ScalarBaseMult (pk_Curve k) (pk_D k) = (pk_X k, pk_Y k).
(** A signature verifies under the public key when that belongs to the
    scalar it was made with, and DER encoding loses nothing. *)
Class EcdsaLaws (W : Type) `{CurveLib} `{EcdsaLib W} := {
  sign_verifies k h w : key_pair_ok k →
    ∃ sig w', ecdsa_Sign k h w = (Ok sig, w') ∧ ecdsa_Verify (PublicKey k) h sig = true;
  asn1_round_trip sig : ∃ der, asn1_Marshal sig = Ok der ∧ asn1_Unmarshal der = Ok sig
}.
Definition crypto_P256 {W} `{EcdsaLib W} : M W ecdsa_PrivateKey := ecdsa_GenerateKey P256.
Definition crypto_P384 {W} `{EcdsaLib W} : M W ecdsa_PrivateKey := ecdsa_GenerateKey P384.

(** ** sign.go *)

Definition ECDSASign {W} `{EcdsaLib W} (privateKey : ecdsa_PrivateKey) (data : bytes) : M W bytes :=
  let hash := Sum256 data in
  catch (ecdsa_Sign privateKey hash) (λ r,
  match r with
  | inr err => lift (Err (ErrWrap ($"signing failed") err))
  | inl signature => lift (wrap ($"DER encoding failed") (asn1_Marshal signature))
  end).

Definition ECDSAVerify {W} `{EcdsaLib W} (publicKey : ecdsa_PublicKey) (data signatureDER : bytes) : res bool :=
  let hash := Sum256 data in
  sig ← wrap ($"DER decoding failed") (asn1_Unmarshal signatureDER);
  mret (ecdsa_Verify publicKey hash sig).

(** ** random.go *)

(** The node's clock: [time.Now().UnixMilli()]. *)
Class Clock (W : Type) := UnixMilli : W → Z.
Definition Unix {W} `{Clock W} (w : W) : Z := UnixMilli w / 1000.

(** [uuid.GenerateUUID] of hashicorp/go-uuid *)
Class UuidLib (W : Type) := uuid_GenerateUUID : M W bytes.

Definition GenerateNonce {W} `{Entropy W} (len : nat) : M W bytes := λ w,
  let (b, w) := draw len w in (Ok b, w).

Definition GenerateUUID {W} `{UuidLib W} : M W bytes :=
  catch uuid_GenerateUUID (λ r, match r with inl id => mret id | inr err => lift (Panic (Error err)) end).

(** [fmt.Sprintf("%013d.%s", ms, uuid)] *)
Definition session_id (ms : Z) (uuid : bytes) : bytes := Sprintf_013d ms ++ $"." ++ uuid.

Definition GenerateSessionID {W} `{Clock W} `{UuidLib W} : M W bytes := λ w,
  let ms := UnixMilli w in (uuid ← GenerateUUID; mret (session_id ms uuid)) w.

Definition ParseSessionID (sessionId : bytes) : bytes * bool :=
  let '(ts, _, ok) := Cut sessionId "."%byte in (ts, ok).

(** ** Properties *)

Lemma order_bounds c : c ≠ P224 → 1 < order c < 256 ^ Z.of_nat (scalar_size c).
Proof. destruct c; try done; intros _; vm_compute; done. Qed.

Lemma reduce_scalar_range key c : c ≠ P224 → 0 < reduce_scalar key c < order c.
Proof.
  intros Hc. pose proof (order_bounds c Hc). unfold reduce_scalar.
  pose proof (Z.mod_pos_bound (SetBytes key) (order c - 1)). lia.
Qed.

(** [ECDH] takes the scalar only when it fills all its bytes. *)
Lemma NewPrivateKey_Bytes c d : 0 < d < order c → c ≠ P224 →
  ecdh_NewPrivateKey c (Bytes d) =
    if 256 ^ (Z.of_nat (scalar_size c) - 1) <=? d then Ok d
    else Err (ErrString ($"crypto/ecdh: invalid private key size")).
Proof.
  intros Hd Hc. pose proof (order_bounds c Hc) as Ho. unfold ecdh_NewPrivateKey.
  pose proof (Bytes_length_le d (scalar_size c)) as Hle.
  pose proof (Bytes_length_le d (scalar_size c - 1)) as Hlt.
  assert (0 < scalar_size c)%nat as Hs by (destruct c; simpl; lia).
  replace (Z.of_nat (scalar_size c - 1)) with (Z.of_nat (scalar_size c) - 1) in Hlt by lia.
  destruct (Z.leb_spec (256 ^ (Z.of_nat (scalar_size c) - 1)) d) as [Hfull|Hshort].
  - rewrite decide_True by lia. rewrite SetBytes_Bytes by lia.
    rewrite (proj2 (Z.eqb_neq _ _)), (proj2 (Z.leb_gt _ _)) by lia. done.
  - rewrite decide_False by lia. done.
Qed.

Lemma ECDSA_point `{CurveLaws} key c : c ≠ P224 →
  256 ^ (Z.of_nat (scalar_size c) - 1) ≤ reduce_scalar key c → ∃ x y,
    ecdh_PublicKey c (reduce_scalar key c) = x04 :: x ++ y ∧
    ScalarBaseMult c (reduce_scalar key c) = (SetBytes x, SetBytes y) ∧
    ECDSA key c = Ok {| pk_D := reduce_scalar key c; pk_Curve := c; pk_X := SetBytes x; pk_Y := SetBytes y |}.
Proof.
  intros Hc Hr. pose proof (reduce_scalar_range key c Hc) as Hd.
  unfold ECDSA. rewrite decide_False by done. rewrite NewPrivateKey_Bytes by done.
  rewrite (proj2 (Z.leb_le _ _)) by done.
  destruct (ecdh_PublicKey_ok c _ Hc Hd) as (x & y & E & Hx & Hy & Hxy). exists x, y. split; [done|]. split; [done|].
  cbn [wrap mbind res_bind]. rewrite E. cbn [length head]. rewrite length_app, Hx, Hy, Nat.sub_succ, Nat.sub_0_r.
  assert (0 < scalar_size c)%nat as Hs by (destruct c; simpl; lia).
  replace (scalar_size c + scalar_size c)%nat with (scalar_size c * 2)%nat by lia.
  rewrite Nat.Div0.mod_mul, Nat.div_mul by done.
  rewrite bool_decide_false, !bool_decide_true by (done || lia). cbn [negb orb drop Nat.add]. rewrite drop_0.
  by rewrite <- Hx, take_app_length, drop_app_length.
Qed.

Lemma ECDSA_full `{CurveLaws} key c : c ≠ P224 →
  256 ^ (Z.of_nat (scalar_size c) - 1) ≤ reduce_scalar key c →
  ∃ k, ECDSA key c = Ok k ∧ pk_D k = reduce_scalar key c ∧ pk_Curve k = c ∧ key_pair_ok k.
Proof.
  intros Hc Hr. destruct (ECDSA_point key c Hc Hr) as (x & y & _ & Hxy & ->). eexists. split; [done|].
  split; [done|]. split; [done|]. split; [by apply reduce_scalar_range|done].
Qed.

Lemma ECDSA_short `{CurveLib} key c : c ≠ P224 →
  reduce_scalar key c < 256 ^ (Z.of_nat (scalar_size c) - 1) →
  ECDSA key c = Err (ErrWrap ($"failed to create ECDH private key")
                              (ErrString ($"crypto/ecdh: invalid private key size"))).
Proof.
  intros Hc Hr. unfold ECDSA. rewrite decide_False by done.
  rewrite NewPrivateKey_Bytes by (by apply reduce_scalar_range || done).
  by rewrite (proj2 (Z.leb_gt _ _)) by done.
Qed.

(** [ECDSA] reduces the secret to a scalar between 1 and the order of the
    curve.  It returns that scalar with its public point when the scalar
    fills all its bytes, and fails when the scalar starts with a zero byte. *)
Theorem ECDSA_outcome `{CurveLaws} key c : c ≠ P224 →
  let d := reduce_scalar key c in
  0 < d < order c ∧
  (256 ^ (Z.of_nat (scalar_size c) - 1) ≤ d → ∃ x y,
     ecdh_PublicKey c d = x04 :: x ++ y ∧ ScalarBaseMult c d = (SetBytes x, SetBytes y) ∧
     ECDSA key c = Ok {| pk_D := d; pk_Curve := c; pk_X := SetBytes x; pk_Y := SetBytes y |}) ∧
  (d < 256 ^ (Z.of_nat (scalar_size c) - 1) →
     ECDSA key c = Err (ErrWrap ($"failed to create ECDH private key")
                                (ErrString ($"crypto/ecdh: invalid private key size")))).
Proof.
  intros Hc d. pose proof (reduce_scalar_range key c Hc) as Hd. split; [done|]. split; [by apply ECDSA_point|].
  by apply ECDSA_short.
Qed.

(** A secret of 32 bytes never gives a scalar of 48 bytes. *)
Lemma ECDSA_P384_always_fails `{CurveLib} key : length key = 32%nat →
  ECDSA key P384 = Err (ErrWrap ($"failed to create ECDH private key")
                                (ErrString ($"crypto/ecdh: invalid private key size"))).
Proof.
  intros Hl. pose proof (SetBytes_range key) as Hr. rewrite Hl in Hr.
  change (Z.of_nat 32) with 32 in Hr.
  unfold ECDSA. rewrite decide_False by done. rewrite NewPrivateKey_Bytes; [|by apply reduce_scalar_range|done].
  rewrite (proj2 (Z.leb_gt _ _)); [done|]. unfold reduce_scalar.
  rewrite Z.mod_small by (split; [lia|]; etrans; [apply Hr|by vm_compute]).
  eapply Z.le_lt_trans; [|instantiate (1 := 256 ^ 32); by vm_compute]. lia.
Qed.

(** A signature verifies under the public key that belongs to the scalar. *)
Lemma ECDSASign_verifies {W} `{EcdsaLaws W} k data w : key_pair_ok k →
  ∃ der w', ECDSASign k data w = (Ok der, w') ∧ ECDSAVerify (PublicKey k) data der = Ok true.
Proof.
  intros Hk. destruct (sign_verifies k (Sum256 data) w Hk) as (sig & w' & Hs & Hv).
  destruct (asn1_round_trip sig) as (der & Hm & Hu). exists der, w'.
  unfold ECDSASign, ECDSAVerify, catch, lift. rewrite Hs, Hm, Hu. split; [done|]. simpl.
  unfold mbind, res_bind. by rewrite Hv.
Qed.

Lemma session_id_valid ms u : valid_utf8 u → valid_utf8 (session_id ms u).
Proof.
  intros Hu. unfold session_id, Sprintf_013d. apply valid_utf8_app.
  - assert (∀ w n, valid_utf8 (pad_zeros w (digits n))) as Hp.
    { intros w n. unfold pad_zeros. apply valid_utf8_app; [apply ascii_valid, Forall_replicate; done|].
      rewrite <- (N2Z.id n), <- (FormatInt_nonneg (Z.of_N n)) by lia. apply FormatInt_valid. }
    destruct (ms <? 0); [apply (valid_utf8_app ($"-")); [by apply (utf8_ok_valid 1)|]|]; apply Hp.
  - apply valid_utf8_app; [by apply (utf8_ok_valid 1)|done].
Qed.

Lemma Cut_fixed w n t : Cut (fixed_digits w n ++ "."%byte :: t) "."%byte = (fixed_digits w n, t, true).
Proof.
  apply Cut_app. revert n. induction w as [|w IH]; intros n; simpl; [by apply not_elem_of_nil|].
  rewrite elem_of_app, list_elem_of_singleton. intros [?|E]; [by eapply IH|].
  apply (f_equal Byte.to_N) in E. unfold digit in E.
  assert (n mod 10 < 10)%N by (apply N.mod_lt; lia). rewrite byte_to_of_N in E by lia.
  assert (Byte.to_N "."%byte = 46%N) as Hdot by done. rewrite Hdot in E.
  clear -E. generalize dependent (n mod 10)%N. lia.
Qed.

Lemma session_id_fixed ms : 0 ≤ ms < 10 ^ 13 →
  Sprintf_013d ms = fixed_digits 13 (Z.to_N ms).
Proof.
  intros Hms. unfold Sprintf_013d. rewrite (proj2 (Z.ltb_ge _ _)) by lia.
  apply pad_zeros_digits; [done|]. simpl. lia.
Qed.

(** Session ids made at a later millisecond sort after earlier ones, whatever
    the random parts are, and [ParseSessionID] recovers the time. *)
Theorem session_ids_sort_by_time ms1 ms2 u1 u2 : 0 ≤ ms1 < ms2 → ms2 < 10 ^ 13 →
  bytes_leb (session_id ms2 u2) (session_id ms1 u1) = false ∧
  ParseSessionID (session_id ms1 u1) = (Sprintf_013d ms1, true).
Proof.
  intros H1 H2. unfold session_id, ParseSessionID. rewrite !session_id_fixed by lia. split.
  - apply bytes_leb_app; [by rewrite !fixed_digits_length|]. apply fixed_digits_lt; [lia|]. simpl. lia.
  - change ($"." ++ u1) with ("."%byte :: u1). by rewrite Cut_fixed.
Qed.

Lemma session_ids_sort_by_time_witness :
  bytes_leb (session_id 1718000000001 ($"0a")) (session_id 1718000000000 ($"ff")) = false ∧
  ParseSessionID ($"1718000000000.ff") = ($"1718000000000", true).
Proof. apply (session_ids_sort_by_time 1718000000000 1718000000001 ($"ff") ($"0a")); lia. Defined.

(** ** A concrete library *)
Module ToyCurve.
#[export] Instance toy_curve : CurveLib := {|
  ScalarBaseMult c d := (d, 0);
  ecdh_PublicKey c d := x04 :: (replicate (scalar_size c - length (Bytes d)) x00 ++ Bytes d) ++
                        replicate (scalar_size c) x00;
  x25519_PublicKey k := rev k;
  Sprint_curve c := $"curve" |}.
#[export] Instance toy_curve_laws : CurveLaws.
Proof.
  intros c d Hc Hd. do 2 eexists. split; [done|]. pose proof (order_bounds c Hc) as Ho.
  assert (length (Bytes d) ≤ scalar_size c)%nat as Hl by (apply Bytes_length_le; lia).
  rewrite length_app, !length_replicate. split; [lia|]. split; [done|].
  assert (∀ n s, SetBytes (replicate n x00 ++ s) = SetBytes s) as Hz.
  { intros n s. induction n as [|n IH]; [done|]. simpl. by rewrite <- IH. }
  rewrite Hz, SetBytes_Bytes by lia. f_equal. by rewrite <- (app_nil_r (replicate _ _)), Hz.
Qed.

(** A secret whose scalar starts with a zero byte is refused. *)
Definition short_secret : bytes := x00 :: replicate 31 x01.

Lemma ECDSA_outcome_witness : is_ok (ECDSA (replicate 32 x01) P256) = true ∧ is_ok (ECDSA short_secret P256) = false.
Proof.
  destruct (ECDSA_outcome (replicate 32 x01) P256) as (_ & Hok & _); [done|].
  destruct (ECDSA_outcome short_secret P256) as (_ & _ & Hfail); [done|]. split.
  - destruct Hok as (x & y & _ & _ & ->); [by vm_compute|done].
  - rewrite Hfail; [done|by vm_compute].
Defined.
End ToyCurve.
