(* ===== verification/Valkey.v ===== *)
(** * internal/db/valkey.go: the key store on Valkey

    Every id is a Valkey hash under "<namespace>:<id>" with the fields "data"
    (the value sealed with the master key), "size" and "modtime".  The server
    is not part of the repository: [Valkey] are the commands the service
    sends, [ValkeyLaws] their documented effect on the hashes and expiry
    times while the server can be reached.  [Valkey_store_laws] shows that the
    service then keeps the promise of the key store interface. *)

From S2P Require Import Prelude GoBytes GoText Json Common KeyStore Api Crypto.
From Stdlib Require Import ZArith Lia.

Local Open Scope Z_scope.

(** ** The server's commands *)

(** A nil reply to HGET is the error [valkey.Nil]; a nil element in the reply
    to HMGET becomes the empty string. *)
Class Valkey (W : Type) := {
  HGET : bytes → bytes → M W bytes;
  HSET : bytes → list (bytes * bytes) → M W unit;
  HSETNX : bytes → bytes → bytes → M W bool;
  EXPIRE : bytes → Z → M W unit;
  DEL : bytes → M W unit;
  EXISTS : bytes → M W Z;
  KEYS : bytes → M W (list bytes);
  HMGET : bytes → list bytes → M W (list bytes)
}.

(** The characters a Valkey pattern treats specially. *)
Definition glob_special (b : byte) : bool :=
  bool_decide (b ∈ ["*"; "?"; "["; "]"; "\"]%byte).

Class ValkeyLaws (W : Type) `{Valkey W} := {
  vk_ok : W → Prop;
  vk_hash : W → bytes → gmap bytes bytes;     (* a key that is absent has no fields *)
  vk_expiry : W → bytes → option Z;           (* in server seconds *)
  vk_now : W → Z;
  vk_elapse : Z → W → W;

  hget_law w k f : vk_ok w → ∃ w', HGET k f w = (of_option (vk_hash w k !! f) ErrValkeyNil, w') ∧
    vk_ok w' ∧ vk_now w' = vk_now w ∧ ∀ i, vk_hash w' i = vk_hash w i ∧ vk_expiry w' i = vk_expiry w i;
  hset_law w k fvs : vk_ok w → fvs ≠ [] → ∃ w', HSET k fvs w = (Ok tt, w') ∧
    vk_ok w' ∧ vk_now w' = vk_now w ∧
    ∀ i, vk_hash w' i = (if decide (i = k) then list_to_map (reverse fvs) ∪ vk_hash w k else vk_hash w i) ∧
         vk_expiry w' i = vk_expiry w i;
  hsetnx_law w k f v : vk_ok w →
    ∃ w', HSETNX k f v w = (Ok (bool_decide (vk_hash w k !! f = None)), w') ∧
    vk_ok w' ∧ vk_now w' = vk_now w ∧
    ∀ i, vk_hash w' i = (if decide (i = k ∧ vk_hash w k !! f = None)
                         then <[f:=v]> (vk_hash w k) else vk_hash w i) ∧
         vk_expiry w' i = vk_expiry w i;
  expire_law w k s : vk_ok w → 0 < s → vk_hash w k ≠ ∅ → ∃ w', EXPIRE k s w = (Ok tt, w') ∧
    vk_ok w' ∧ vk_now w' = vk_now w ∧
    ∀ i, vk_hash w' i = vk_hash w i ∧
         vk_expiry w' i = (if decide (i = k) then Some (vk_now w + s) else vk_expiry w i);
  del_law w k : vk_ok w → ∃ w', DEL k w = (Ok tt, w') ∧ vk_ok w' ∧ vk_now w' = vk_now w ∧
    ∀ i, vk_hash w' i = (if decide (i = k) then ∅ else vk_hash w i) ∧
         vk_expiry w' i = (if decide (i = k) then None else vk_expiry w i);
  exists_law w k : vk_ok w →
    ∃ w', EXISTS k w = (Ok (if decide (vk_hash w k = ∅) then 0 else 1), w') ∧
    vk_ok w' ∧ vk_now w' = vk_now w ∧ ∀ i, vk_hash w' i = vk_hash w i ∧ vk_expiry w' i = vk_expiry w i;
  hmget_law w k fs : vk_ok w →
    ∃ w', HMGET k fs w = (Ok (map (λ f, default [] (vk_hash w k !! f)) fs), w') ∧
    vk_ok w' ∧ vk_now w' = vk_now w ∧ ∀ i, vk_hash w' i = vk_hash w i ∧ vk_expiry w' i = vk_expiry w i;
  keys_law w p : vk_ok w → existsb glob_special p = false →
    ∃ l w', KEYS (p ++ $"*") w = (Ok l, w') ∧
    ∀ k, k ∈ l ↔ vk_hash w k ≠ ∅ ∧ p `prefix_of` k;
  (* a command that fails because the connection is lost may have been executed *)
  hsetnx_won w k f v w' : HSETNX k f v w = (Ok true, w') → vk_hash w' k !! f = Some v ∧
    ∀ i, vk_expiry w' i = vk_expiry w i;
  hset_failed w k fvs e w' : HSET k fvs w = (Err e, w') →
    ∀ i, (vk_hash w' i = vk_hash w i ∨ i = k ∧ vk_hash w' k = list_to_map (reverse fvs) ∪ vk_hash w k) ∧
         vk_expiry w' i = vk_expiry w i;
  elapse_law w d : 0 ≤ d →
    (vk_ok w → vk_ok (vk_elapse d w)) ∧ vk_now (vk_elapse d w) = vk_now w + d ∧
    ∀ i, match vk_expiry w i with
         | Some t => if decide (t ≤ vk_now w + d)
                     then vk_hash (vk_elapse d w) i = ∅ ∧ vk_expiry (vk_elapse d w) i = None
                     else vk_hash (vk_elapse d w) i = vk_hash w i ∧ vk_expiry (vk_elapse d w) i = Some t
         | None => vk_hash (vk_elapse d w) i = vk_hash w i ∧ vk_expiry (vk_elapse d w) i = None
         end
}.

(** ** ValKeyKeyService *)

Record ValKeyKeyService (W : Type) := {
  vs_uris : list bytes;
  vs_transformer : M W Vault;
  vs_namespace : bytes
}.
Arguments vs_uris {W}.
Arguments vs_transformer {W}.
Arguments vs_namespace {W}.

Section service.
Context {W : Type} `{Valkey W} `{Ecrypto W} `{Clock W}.
Implicit Types (s : ValKeyKeyService W).

(** [NewClient] is the result of connecting; the client itself is the world. *)
Definition NewValKeyKeyService (uris : list bytes) (namespace : bytes) (transformer : M W Vault)
    (NewClient : res unit) : res (ValKeyKeyService W) :=
  _ ← NewClient;
  mret {| vs_uris := uris; vs_transformer := transformer; vs_namespace := namespace ++ $":" |}.

Definition unseal s (data : bytes) : M W bytes :=
  vault ← vs_transformer s;
  if vault_is_nil vault then lift (Err ErrNoEncryptionService) else lift (Unseal vault data).

Definition vk_Read s (id : bytes) : M W bytes :=
  b ← (HGET (vs_namespace s ++ id) ($"data") : M W bytes);
  unseal s b.

(** The fields that describe the sealed data. *)
Definition meta_fields (data : bytes) (w : W) : list (bytes * bytes) :=
  [($"size", FormatInt (Z.of_nat (length data))); ($"modtime", FormatInt (Unix w))].

Definition vk_WriteWithTTL s (id value : bytes) (ttl : Z) : M W unit :=
  vault ← vs_transformer s;
  if vault_is_nil vault then lift (Err ErrNoEncryptionService)
  else
    data ← Seal vault value;
    (λ w, HSET (vs_namespace s ++ id) (($"data", data) :: meta_fields data w) w);;
    if ttl <? 0 then mret tt else (EXPIRE (vs_namespace s ++ id) ttl : M W unit).

Definition vk_Write s (id value : bytes) : M W unit := vk_WriteWithTTL s id value (-1).

Definition vk_WriteNX s (id value : bytes) (ttlSeconds : Z) : M W (bool * option error) :=
  vault ← vs_transformer s;
  if vault_is_nil vault then mret (false, Some ErrNoEncryptionService)
  else
    catch (Seal vault value) (λ r,
    match r with
    | inr err => mret (false, Some err)
    | inl data =>
        catch (HSETNX (vs_namespace s ++ id) ($"data") data) (λ r,
        match r with
        | inr err => mret (false, Some err)
        | inl false => mret (false, None)
        | inl true =>
            catch (λ w, HSET (vs_namespace s ++ id) (meta_fields data w) w) (λ r,
            match r with
            | inr err => mret (true, Some err)
            | inl _ =>
                if 0 <? ttlSeconds then
                  catch (EXPIRE (vs_namespace s ++ id) ttlSeconds) (λ r,
                  match r with inr err => mret (true, Some err) | inl _ => mret (true, None) end)
                else mret (true, None)
            end)
        end)
    end).

Definition vk_Delete s (id : bytes) : M W unit := DEL (vs_namespace s ++ id).
Definition vk_Exists s (id : bytes) : M W Z := EXISTS (vs_namespace s ++ id).

Definition vk_List s (prefix : bytes) (recursive : bool) : M W (list bytes) := KEYS (prefix ++ $"*").

Definition vk_Stat s (id : bytes) : M W StorageStat :=
  res ← (HMGET (vs_namespace s ++ id) [$"size"; $"modtime"] : M W (list bytes));
  lift (match res with
  | [size_s; mod_s] =>
      size ← orelse (ParseInt size_s) (ErrString ($"size field missing or invalid"));
      modUnix ← orelse (ParseInt mod_s) (ErrString ($"modtime field missing or invalid"));
      mret {| Size := size; ModTime := modUnix |}
  | _ => Err (ErrString ($"expected 2 fields but got " ++ FormatInt (Z.of_nat (length res))))
  end).

Definition vk_HasNil (err : option error) : bool := bool_decide (err = Some ErrValkeyNil).

(** The value behind the interface [common.KeyStore]. *)
Definition Valkey_base s : BaseKeyStore W :=
  {| ks_Read := vk_Read s; ks_Write := vk_Write s; ks_WriteWithTTL := vk_WriteWithTTL s;
     ks_Delete := vk_Delete s; ks_Exists := vk_Exists s; ks_HasNil := vk_HasNil |}.
Definition Valkey_store s : KeyStore W :=
  {| ks_base := Valkey_base s; ks_List := vk_List s; ks_Stat := vk_Stat s; ks_WriteNX := vk_WriteNX s |}.
End service.

(** ** Refinement *)

Section refinement.
Context {W : Type} `{VL : ValkeyLaws W} `{EL : EcryptoLaws W} `{Clock W}.

(** Nothing has changed on the server. *)
Definition vk_same (w w' : W) : Prop :=
  (vk_ok w → vk_ok w') ∧ vk_now w' = vk_now w ∧
  ∀ i, vk_hash w' i = vk_hash w i ∧ vk_expiry w' i = vk_expiry w i.

(** Encrypting locally leaves the server alone, and the provider always finds
    the master key [key]. *)
Class ServiceEnv (s : ValKeyKeyService W) (key : bytes) := {
  encrypt_frame data k w : vk_same w (ecrypto_Encrypt data k w).2;
  transformer_key w : ∃ v w', vs_transformer s w = (Ok v, w') ∧
    vault_with_key v key ∧ vk_same w w'
}.

Context (s : ValKeyKeyService W) (key : bytes) `{SE : !ServiceEnv s key}.

Definition hkey (id : bytes) : bytes := vs_namespace s ++ id.

Definition vk_content (w : W) (id : bytes) : option bytes :=
  match vk_hash w (hkey id) !! ($"data") with
  | Some c => match ecrypto_Decrypt c key with Ok v => Some v | _ => None end
  | None => None
  end.

(** Every hash in the namespace has data sealed with the master key. *)
Definition vk_sealed (w : W) : Prop :=
  ∀ id, vk_hash w (hkey id) ≠ ∅ →
    ∃ c v, vk_hash w (hkey id) !! ($"data") = Some c ∧ ecrypto_Decrypt c key = Ok v.

Lemma vk_same_trans w1 w2 w3 : vk_same w1 w2 → vk_same w2 w3 → vk_same w1 w3.
Proof.
  intros (? & Hn1 & Hs1) (? & Hn2 & Hs2). split; [tauto|]. split; [congruence|].
  intros i. destruct (Hs1 i), (Hs2 i). split; congruence.
Qed.

Lemma vk_ok_same w w' : (vk_ok w' ∧ vk_now w' = vk_now w ∧
  ∀ i, vk_hash w' i = vk_hash w i ∧ vk_expiry w' i = vk_expiry w i) → vk_same w w'.
Proof. intros (? & ? & ?). by split_and!. Qed.

Lemma vk_same_sealed w w' : vk_same w w' → vk_sealed w → vk_sealed w'.
Proof. intros (_ & _ & Hs) HS id. rewrite (proj1 (Hs _)). apply HS. Qed.

Lemma vk_same_content w w' id : vk_same w w' → vk_content w' id = vk_content w id.
Proof. intros (_ & _ & Hs). unfold vk_content. by rewrite (proj1 (Hs _)). Qed.

Lemma hkey_inj i j : hkey i = hkey j → i = j.
Proof. apply (inj (app (vs_namespace s))). Qed.

(** Sealing under the provider's vault. *)
Lemma seal_value w value :
  ∃ v data w1 w2, vs_transformer s w = (Ok v, w1) ∧ vault_is_nil v = false ∧
    Seal v value w1 = (Ok data, w2) ∧ vk_same w w2 ∧ ecrypto_Decrypt data key = Ok value.
Proof.
  destruct (transformer_key w) as (v & w1 & Ht & Hv & Hs1).
  destruct (Seal_total v key value w1 Hv) as (data & w2 & Hseal).
  exists v, data, w1, w2. split; [done|]. split; [by destruct Hv as (m & -> & _)|]. split; [done|].
  rewrite (Seal_with_key v key) in Hseal by done. split.
  - eapply vk_same_trans; [done|]. pose proof (encrypt_frame value key w1) as Hf.
    by rewrite Hseal in Hf.
  - by eapply decrypt_encrypt.
Qed.

(** Storing fresh data under an id. *)
Lemma store_content (w w' : W) (id data value : bytes) (ttl now : Z) (m : gmap bytes bytes) :
  vk_sealed w → ecrypto_Decrypt data key = Ok value → m !! ($"data") = Some data →
  (∀ i, vk_hash w' i = (if decide (i = hkey id) then m else vk_hash w i) ∧
        vk_expiry w' i = (if decide (i = hkey id ∧ 0 < ttl) then Some (now + ttl) else vk_expiry w i)) →
  vk_sealed w' ∧
  ∀ i, vk_content w' i = (if decide (i = id) then Some value else vk_content w i) ∧
       vk_expiry w' (hkey i) = (if decide (i = id ∧ 0 < ttl) then Some (now + ttl) else vk_expiry w (hkey i)).
Proof.
  intros HS Hd Hm Hi. split.
  - intros i. rewrite (proj1 (Hi (hkey i))). destruct (decide (hkey i = hkey id)); [|exact (HS i)]. intros _. by exists data, value.
  - intros i. destruct (Hi (hkey i)) as [Hh He]. unfold vk_content. rewrite Hh, He.
    unfold hkey. rewrite !decide_app, decide_app_and. split; [|done].
    destruct (decide (i = id)); [|done]. by rewrite Hm, Hd.
Qed.

Lemma vk_WriteWithTTL_ok w id value ttl : vk_ok w → vk_sealed w → ttl < 0 ∨ 0 < ttl →
  ∃ w', vk_WriteWithTTL s id value ttl w = (Ok tt, w') ∧ vk_ok w' ∧ vk_now w' = vk_now w ∧
    vk_sealed w' ∧
    ∀ i, vk_content w' i = (if decide (i = id) then Some value else vk_content w i) ∧
         vk_expiry w' (hkey i) = (if decide (i = id ∧ 0 < ttl) then Some (vk_now w + ttl)
                                  else vk_expiry w (hkey i)).
Proof.
  intros Hok HS Httl. destruct (seal_value w value) as (v & data & w1 & w2 & Ht & Hn & Hseal & Hs & Hd).
  assert (vk_ok w2) as Hok2 by by apply Hs.
  unfold vk_WriteWithTTL, mbind, M_bind. rewrite Ht, Hn, Hseal.
  set (fvs := ($"data", data) :: meta_fields data w2).
  destruct (hset_law w2 (hkey id) fvs Hok2 ltac:(done)) as (w3 & Hset & Hok3 & Hn3 & Hh3).
  fold (hkey id). rewrite Hset.
  set (m := list_to_map (reverse fvs) ∪ vk_hash w2 (hkey id)) in *.
  assert (m !! ($"data") = Some data) as Hm.
  { subst m. apply lookup_union_Some_l. subst fvs. apply elem_of_list_to_map_1'.
    - intros y Hy. rewrite elem_of_reverse in Hy. unfold meta_fields in Hy.
      rewrite !elem_of_cons, elem_of_nil in Hy. naive_solver.
    - apply elem_of_reverse. by left. }
  destruct Hs as (_ & Hn2 & Hh2). destruct (ttl <? 0) eqn:Hneg.
  - apply Z.ltb_lt in Hneg. exists w3. split; [done|]. split; [done|]. split; [congruence|].
    apply (store_content w w3 id data value ttl (vk_now w) m HS Hd Hm).
    intros i. destruct (Hh3 i) as [Ha Hb], (Hh2 i) as [Hc He].
    rewrite Ha, Hb, Hc, He. split; [done|]. by rewrite decide_False by lia.
  - apply Z.ltb_ge in Hneg. assert (0 < ttl) as Hpos by lia.
    destruct (expire_law w3 (hkey id) ttl Hok3 Hpos) as (w4 & Hexp & Hok4 & Hn4 & Hh4).
    { rewrite (proj1 (Hh3 _)), decide_True by done. intros E. by rewrite E, lookup_empty in Hm. }
    rewrite Hexp. exists w4. split; [done|]. split; [done|]. split; [congruence|].
    apply (store_content w w4 id data value ttl (vk_now w) m HS Hd Hm).
    intros i. destruct (Hh4 i) as [Ha Hb], (Hh3 i) as [Hc He], (Hh2 i) as [Hf Hg].
    rewrite Ha, Hb, Hc, He, Hf, Hg. split; [done|]. rewrite Hn3, Hn2.
    destruct (decide (i = hkey id)); [by rewrite decide_True|by rewrite decide_False by (by intros [])].
Qed.

Lemma vk_content_exists w id : vk_sealed w →
  (if decide (vk_hash w (hkey id) = ∅) then 0 else 1) = (if vk_content w id then 1 else 0).
Proof.
  intros HS. unfold vk_content. case_decide as He; [by rewrite He, lookup_empty|].
  destruct (HS id He) as (c & v & -> & Hv). by rewrite Hv.
Qed.

(** The database service keeps the promise of a key store. *)
#[export, program] Instance Valkey_store_laws : StoreLaws (Valkey_base s) := {|
  st_ok w := vk_ok w ∧ vk_sealed w;
  st_content := vk_content;
  st_deadline w id := vk_expiry w (hkey id);
  st_now := vk_now;
  st_elapse := vk_elapse
|}.
Next Obligation.
  intros w id [Hok HS]. simpl. unfold vk_Read, mbind, M_bind.
  destruct (hget_law w (hkey id) ($"data") Hok) as (w1 & Hg & Hs1%vk_ok_same). fold (hkey id). rewrite Hg.
  unfold vk_content. destruct (vk_hash w (hkey id) !! ($"data")) as [c|] eqn:Hc; simpl.
  - destruct (HS id) as (c' & v & Hc' & Hv); [intros E; by rewrite E, lookup_empty in Hc|].
    rewrite Hc in Hc'. injection Hc' as <-. unfold unseal, mbind, M_bind.
    destruct (transformer_key w1) as (vt & w2 & Ht & Hvk & Hs2). rewrite Ht.
    assert (vault_is_nil vt = false) as -> by (by destruct Hvk as (m & -> & _)).
    unfold lift. rewrite (Unseal_with_key vt key) by done. rewrite Hv. exists w2.
    pose proof (vk_same_trans _ _ _ Hs1 Hs2) as Hs. split; [done|].
    split; [split; [by apply Hs|by eapply vk_same_sealed]|]. split; [apply Hs|].
    intros i. split; [by apply vk_same_content|apply Hs].
  - exists w1. split; [done|]. split; [split; [by apply Hs1|by eapply vk_same_sealed]|].
    split; [apply Hs1|]. intros i. split; [by apply vk_same_content|apply Hs1].
Qed.
Next Obligation.
  intros w id v ttl [Hok HS] Httl. simpl.
  destruct (vk_WriteWithTTL_ok w id v ttl Hok HS Httl) as (w' & Hw & ? & ? & ? & ?). exists w'. by split_and!.
Qed.
Next Obligation. done. Qed.
Next Obligation.
  intros w id [Hok HS]. simpl. destruct (del_law w (hkey id) Hok) as (w' & Hd & ? & ? & Hi).
  exists w'. split; [done|]. split; [split; [done|]|split; [done|]].
  - intros i. rewrite (proj1 (Hi (hkey i))). destruct (decide (hkey i = hkey id)); [done|exact (HS i)].
  - intros i. destruct (Hi (hkey i)) as [Hh He]. unfold vk_content. rewrite Hh, He. unfold hkey.
    rewrite !decide_app. by destruct (decide (i = id)); rewrite ?lookup_empty.
Qed.
Next Obligation.
  intros w id [Hok HS]. simpl. destruct (exists_law w (hkey id) Hok) as (w' & He & Hs%vk_ok_same).
  exists w'. unfold vk_Exists. fold (hkey id). rewrite He, vk_content_exists by done. split; [done|].
  split; [split; [by apply Hs|by eapply vk_same_sealed]|]. split; [apply Hs|].
  intros i. split; [by apply vk_same_content|apply Hs].
Qed.
Next Obligation. intros e. simpl. unfold vk_HasNil. apply bool_decide_ext. naive_solver. Qed.
Next Obligation. done. Qed.
Next Obligation.
  intros w d [Hok HS] Hd. simpl. destruct (elapse_law w d Hd) as (Hok' & Hn & Hi).
  split; [split; [auto|]|split; [done|]].
  - intros i Hne. specialize (Hi (hkey i)). revert Hne.
    destruct (vk_expiry w (hkey i)); [case_decide|]; destruct Hi as [-> _]; [done|exact (HS i)..].
  - intros i. specialize (Hi (hkey i)). unfold vk_content.
    destruct (vk_expiry w (hkey i)); [case_decide|]; destruct Hi as [-> ?]; by rewrite ?lookup_empty.
Qed.

Lemma vk_WriteNX_ok w id value ttl : vk_ok w → vk_sealed w → 0 < ttl →
  ∃ w', vk_WriteNX s id value ttl w = (Ok (bool_decide (vk_content w id = None), None), w') ∧
    vk_ok w' ∧ vk_now w' = vk_now w ∧ vk_sealed w' ∧
    ∀ i, vk_content w' i = (if decide (i = id ∧ vk_content w id = None) then Some value
                            else vk_content w i) ∧
         vk_expiry w' (hkey i) = (if decide (i = id ∧ vk_content w id = None)
                                  then Some (vk_now w + ttl) else vk_expiry w (hkey i)).
Proof.
  intros Hok HS Httl. destruct (seal_value w value) as (v & data & w1 & w2 & Ht & Hn & Hseal & Hs & Hd).
  assert (vk_ok w2) as Hok2 by by apply Hs. destruct Hs as (_ & Hn2 & Hh2).
  unfold vk_WriteNX, mbind, M_bind, catch. rewrite Ht, Hn, Hseal.
  destruct (hsetnx_law w2 (hkey id) ($"data") data Hok2) as (w3 & Hnx & Hok3 & Hn3 & Hh3).
  fold (hkey id). rewrite Hnx. rewrite (proj1 (Hh2 (hkey id))) in Hh3 |- *.
  assert (vk_content w id = None ↔ vk_hash w (hkey id) !! ($"data") = None) as Hc.
  { unfold vk_content. destruct (vk_hash w (hkey id) !! ($"data")) as [c|] eqn:Hc; [|done].
    destruct (HS id) as (c' & x & Hc' & Hv); [intros E; by rewrite E, lookup_empty in Hc|].
    rewrite Hc in Hc'. injection Hc' as <-. by rewrite Hv. }
  rewrite (bool_decide_ext _ _ Hc).
  destruct (decide (vk_hash w (hkey id) !! ($"data") = None)) as [He|He].
  - rewrite bool_decide_true by done.
    destruct (hset_law w3 (hkey id) (meta_fields data w3) Hok3 ltac:(done)) as (w4 & Hset & Hok4 & Hn4 & Hh4).
    rewrite Hset. assert ((0 <? ttl) = true) as -> by by apply Z.ltb_lt.
    set (m := list_to_map (reverse (meta_fields data w3)) ∪ vk_hash w3 (hkey id)) in *.
    assert (m !! ($"data") = Some data) as Hm.
    { subst m. rewrite lookup_union_r.
      - rewrite (proj1 (Hh3 _)), decide_True by done. apply lookup_insert_eq.
      - apply not_elem_of_list_to_map_1. rewrite list_elem_of_fmap. intros ([k x] & Hk & Hin).
        rewrite elem_of_reverse in Hin. unfold meta_fields in Hin.
        rewrite !elem_of_cons, elem_of_nil in Hin. simpl in Hk. naive_solver. }
    destruct (expire_law w4 (hkey id) ttl Hok4 Httl) as (w5 & Hexp & Hok5 & Hn5 & Hh5).
    { rewrite (proj1 (Hh4 _)), decide_True by done. intros E. by rewrite E, lookup_empty in Hm. }
    rewrite Hexp. exists w5. split; [done|]. split; [done|]. split; [congruence|].
    destruct (store_content w w5 id data value ttl (vk_now w) m HS Hd Hm) as [HS5 Hi5].
    + intros i. destruct (Hh5 i) as [Ha Hb], (Hh4 i) as [Ha4 Hb4], (Hh3 i) as [Ha3 Hb3], (Hh2 i) as [Ha2 Hb2].
      rewrite Ha, Hb, Ha4, Hb4, Ha3, Hb3, Ha2, Hb2, Hn4, Hn3, Hn2.
      destruct (decide (i = hkey id)) as [->|Hne]; [by rewrite decide_True|].
      by rewrite !decide_False by (by intros []).
    + split; [done|]. intros i. destruct (Hi5 i) as [-> ->].
      destruct (decide (i = id)) as [->|Hne]; [by rewrite !decide_True by tauto|].
      by rewrite !decide_False by (by intros []).
  - rewrite bool_decide_false by done. exists w3. split; [done|]. split; [done|]. split; [congruence|].
    assert (vk_same w w3) as Hs3.
    { split; [done|]. split; [congruence|]. intros i. rewrite (proj1 (Hh3 i)), (proj2 (Hh3 i)).
      rewrite decide_False by (by intros []). apply Hh2. }
    split; [by eapply vk_same_sealed|]. intros i.
    rewrite !decide_False by (intros []; tauto). split; [by apply vk_same_content|apply Hs3].
Qed.

#[export] Instance Valkey_nx_laws : NXLaws (Valkey_store s).
Proof.
  intros w id v ttl [Hok HS] Ht. destruct (vk_WriteNX_ok w id v ttl Hok HS Ht) as (w' & ? & ? & ? & ? & ?).
  exists w'. by split_and!.
Qed.

(** The invariant of the deployed service. *)
Definition service_ok (w : W) : Prop := vk_ok w ∧ vk_sealed w.

(** C17. A value written with a time to live is read back until the server clock
    reaches its deadline and is missing from then on.  A later plain [Write]
    replaces the value but not the deadline, and writing one id does not
    change what is read under another. *)
Theorem entry_lifetime w id v v2 ttl d : service_ok w → 0 < ttl → 0 ≤ d →
  ∃ w1 w2, vk_WriteWithTTL s id v ttl w = (Ok tt, w1) ∧ vk_Write s id v2 w1 = (Ok tt, w2) ∧
    (vk_Read s id (vk_elapse d w1)).1 = (if decide (ttl ≤ d) then Err ErrValkeyNil else Ok v) ∧
    (vk_Read s id (vk_elapse d w2)).1 = (if decide (ttl ≤ d) then Err ErrValkeyNil else Ok v2) ∧
    (∀ j, j ≠ id → (vk_Read s j w2).1 = (vk_Read s j w).1).
Proof.
  intros Hok Ht Hd. assert (@st_ok _ _ Valkey_store_laws w) as Hst by exact Hok.
  destruct (st_WriteWithTTL w id v ttl Hst) as (w1 & Hw1 & Hok1 & Hn1 & Hi1); [lia|].
  destruct (st_WriteWithTTL w1 id v2 (-1) Hok1) as (w2 & Hw2 & Hok2 & Hn2 & Hi2); [lia|].
  exists w1, w2. split; [done|]. split; [done|].
  assert (∀ w' x, st_ok w' → st_now w' = st_now w → st_content w' id = Some x →
    st_deadline w' id = Some (st_now w + ttl) →
    (vk_Read s id (vk_elapse d w')).1 = (if decide (ttl ≤ d) then Err ErrValkeyNil else Ok x)) as Hread.
  { intros w' x Hok' Hn' Hc' Hdl'.
    destruct (st_Read (st_elapse d w') id) as (w'' & Hr & _); [by apply st_elapse_spec|].
    change (vk_Read s id (vk_elapse d w')) with (ks_Read (Valkey_base s) id (st_elapse d w')). rewrite Hr.
    rewrite (st_elapse_deadline w' d id _ Hok' Hd Hdl'), Hn', Hc'. simpl.
    destruct (decide (ttl ≤ d)); [by rewrite decide_True by lia|by rewrite decide_False by lia]. }
  split; [|split].
  - apply Hread; try done; [by rewrite (proj1 (Hi1 id)), decide_True|by rewrite (proj2 (Hi1 id)), decide_True].
  - apply Hread; try done; [congruence|by rewrite (proj1 (Hi2 id)), decide_True|].
    rewrite (proj2 (Hi2 id)), decide_False by lia. by rewrite (proj2 (Hi1 id)), decide_True.
  - intros j Hj. destruct (st_Read w2 j Hok2) as (? & Hr2 & _), (st_Read w j Hst) as (? & Hr & _).
    change (vk_Read s j) with (ks_Read (Valkey_base s) j). rewrite Hr2, Hr, (proj1 (Hi2 j)), (proj1 (Hi1 j)).
    by rewrite !decide_False.
Qed.

(** When the connection breaks between HSETNX and EXPIRE, [WriteNX] reports
    both success and an error, and the value it wrote has no deadline: it
    is still there after any time. *)
Theorem WriteNX_leak w id value ttl v data w1 w2 w3 e w4 :
  vs_transformer s w = (Ok v, w1) → vault_with_key v key → Seal v value w1 = (Ok data, w2) →
  vk_expiry w2 (hkey id) = None →
  HSETNX (hkey id) ($"data") data w2 = (Ok true, w3) →
  HSET (hkey id) (meta_fields data w3) w3 = (Err e, w4) →
  vk_WriteNX s id value ttl w = (Ok (true, Some e), w4) ∧
  ∀ d, 0 ≤ d → vk_content (vk_elapse d w4) id = Some value.
Proof.
  intros Ht Hv Hseal Hexp Hnx Hset. split.
  - unfold vk_WriteNX, mbind, M_bind, catch. rewrite Ht.
    assert (vault_is_nil v = false) as -> by (by destruct Hv as (m & -> & _)).
    fold (hkey id). by rewrite Hseal, Hnx, Hset.
  - intros d Hd. destruct (elapse_law w4 d Hd) as (_ & _ & Hi). specialize (Hi (hkey id)).
    destruct (hset_failed _ _ _ _ _ Hset (hkey id)) as [Hh Hx].
    destruct (hsetnx_won _ _ _ _ _ Hnx) as [Hdat Hx3]. rewrite Hx, Hx3, Hexp in Hi.
    destruct Hi as [Hi _]. unfold vk_content. rewrite Hi.
    assert (vk_hash w4 (hkey id) !! ($"data") = Some data) as ->.
    { destruct Hh as [-> | [_ ->]]; [done|]. rewrite lookup_union_r; [done|].
      apply not_elem_of_list_to_map_1. rewrite list_elem_of_fmap. intros ([k x] & Hk & Hin).
      rewrite elem_of_reverse in Hin. unfold meta_fields in Hin.
      rewrite !elem_of_cons, elem_of_nil in Hin. simpl in Hk. naive_solver. }
    rewrite (Seal_with_key v key) in Hseal by done. by rewrite (decrypt_encrypt _ _ _ _ _ Hseal).
Qed.

(** [List] matches its prefix against the full keys, namespace included: an
    entry is listed, under its full key, only when the prefix matches the
    namespace first.  A prefix that does not agree with the namespace finds
    nothing that the service has stored. *)
Theorem List_ignores_namespace w prefix recursive : service_ok w → existsb glob_special prefix = false →
  ∃ l w', vk_List s prefix recursive w = (Ok l, w') ∧
    (∀ id, hkey id ∈ l ↔ vk_content w id ≠ None ∧ prefix `prefix_of` hkey id) ∧
    (¬ prefix `prefix_of` vs_namespace s → ¬ vs_namespace s `prefix_of` prefix → ∀ id, hkey id ∉ l).
Proof.
  intros [Hok HS] Hp. destruct (keys_law w prefix Hok Hp) as (l & w' & Hk & Hl).
  exists l, w'. split; [done|]. split.
  - intros id. rewrite Hl. unfold vk_content. split; (intros [He ?]; split; [|done]).
    + destruct (HS id He) as (c & v & -> & Hv). by rewrite Hv.
    + intros E. by rewrite E, lookup_empty in He.
  - intros Hn1 Hn2 id Hin. apply Hl in Hin. destruct Hin as [_ Hpre].
    destruct (prefix_weak_total prefix (vs_namespace s) (hkey id) Hpre); [by apply prefix_app_r|done..].
Qed.

(** The statistics of a key that does not exist are an error unlike
    [fs.ErrNotExist]. *)
Lemma Stat_missing w id : vk_ok w → vk_hash w (hkey id) = ∅ →
  (vk_Stat s id w).1 = Err (ErrString ($"size field missing or invalid")).
Proof.
  intros Hok He. unfold vk_Stat, mbind, M_bind. fold (hkey id).
  destruct (hmget_law w (hkey id) [$"size"; $"modtime"] Hok) as (w' & Hm & _). rewrite Hm, He.
  done.
Qed.
End refinement.

(** *** No operation panics

    Whatever state the connection is in, as long as the client's commands end
    in results and the provider has a master key or none. *)
Class CommandsSafe (W : Type) `{Valkey W} := {
  cs_HGET k f : quiet (HGET k f : M W bytes);
  cs_HSET k fvs : quiet (HSET k fvs : M W unit);
  cs_EXPIRE k s : quiet (EXPIRE k s : M W unit);
  cs_DEL k : quiet (DEL k : M W unit)
}.

Section never_panics.
Context {W : Type} `{VL : ValkeyLaws W} `{EL : EcryptoLaws W} `{Clock W} `{CS : !CommandsSafe W}.
Context (s : ValKeyKeyService W) (key : bytes) `{SE : !ServiceEnv s key}.

(** The provider finds the master key. *)
Lemma transformer_bind {A} (f : Vault → M W A) : (∀ v, vault_with_key v key → quiet (f v)) →
  quiet (vs_transformer s ≫= f).
Proof.
  intros Hf w. destruct (transformer_key w) as (v & w' & Ht & Hv & _). unfold mbind, M_bind.
  rewrite Ht. by apply Hf.
Qed.

Lemma vault_not_nil v : vault_with_key v key → vault_is_nil v = false.
Proof. by intros (m & -> & _). Qed.

#[export] Instance Valkey_base_safe : StoreSafe (Valkey_base s).
Proof.
  assert (∀ id v ttl, quiet (vk_WriteWithTTL s id v ttl)) as HW.
  { intros id value ttl. apply transformer_bind. intros v Hv. rewrite (vault_not_nil v Hv).
    apply quiet_bind; [intros w; by destruct (Seal_total v key value w Hv) as (c & w' & ->)|].
    intros data. apply quiet_bind; [intros w; apply cs_HSET|]. intros _.
    destruct (ttl <? 0); [apply quiet_ret|apply cs_EXPIRE]. }
  split; cbn [ks_Read ks_Write ks_WriteWithTTL ks_Delete Valkey_base].
  - intros id. apply quiet_bind; [apply cs_HGET|]. intros b. apply transformer_bind. intros v Hv.
    rewrite (vault_not_nil v Hv). apply quiet_lift. intros p. by apply (Unseal_safe v key).
  - intros id v. apply HW.
  - apply HW.
  - intros id. apply cs_DEL.
Qed.
End never_panics.

(** ** A concrete server

    Everything in memory; [db_left] counts the commands until the connection
    is lost. *)
Module ToyDb.
Import Toy.

Record db := {
  db_hashes : gmap bytes (gmap bytes bytes);
  db_expiry : gmap bytes Z;
  db_now : Z;
  db_left : option nat;
  db_rand : N
}.

Definition db_hash (w : db) (k : bytes) : gmap bytes bytes := default ∅ (db_hashes w !! k).

(** Run a command on the server if the connection is up. *)
Definition cmd {A} (f : db → res A * db) : M db A := λ w,
  match db_left w with
  | None => f w
  | Some 0%nat => (Err (ErrString ($"connection lost")), w)
  | Some (S n) => f {| db_hashes := db_hashes w; db_expiry := db_expiry w; db_now := db_now w;
                       db_left := Some n; db_rand := db_rand w |}
  end.

Definition set_hash (k : bytes) (h : gmap bytes bytes) (w : db) : db :=
  {| db_hashes := <[k:=h]> (db_hashes w); db_expiry := db_expiry w; db_now := db_now w;
     db_left := db_left w; db_rand := db_rand w |}.
Definition set_expiry (m : gmap bytes Z) (w : db) : db :=
  {| db_hashes := db_hashes w; db_expiry := m; db_now := db_now w;
     db_left := db_left w; db_rand := db_rand w |}.

#[export] Instance toy_valkey : Valkey db := {|
  HGET k f := cmd (λ w, (of_option (db_hash w k !! f) ErrValkeyNil, w));
  HSET k fvs := cmd (λ w, (Ok tt, set_hash k (list_to_map (reverse fvs) ∪ db_hash w k) w));
  HSETNX k f v := cmd (λ w,
    if decide (db_hash w k !! f = None) then (Ok true, set_hash k (<[f:=v]> (db_hash w k)) w)
    else (Ok false, w));
  EXPIRE k s := cmd (λ w,
    (Ok tt, if decide (db_hash w k = ∅) then w else set_expiry (<[k:=db_now w + s]> (db_expiry w)) w));
  DEL k := cmd (λ w, (Ok tt, set_expiry (delete k (db_expiry w)) (set_hash k ∅ w)));
  EXISTS k := cmd (λ w, (Ok (if decide (db_hash w k = ∅) then 0 else 1), w));
  KEYS p := cmd (λ w,
    (Ok (filter (λ k, db_hash w k ≠ ∅ ∧ take (length p - 1) p `prefix_of` k) (elements (dom (db_hashes w)))), w));
  HMGET k fs := cmd (λ w, (Ok (map (λ f, default [] (db_hash w k !! f)) fs), w)) |}.

Definition db_gone (t : Z) (w : db) (k : bytes) : bool :=
  match db_expiry w !! k with Some e => bool_decide (e ≤ t) | None => false end.

Definition db_elapse (d : Z) (w : db) : db :=
  let t := db_now w + d in
  {| db_hashes := filter (λ kv, db_gone t w kv.1 = false) (db_hashes w);
     db_expiry := filter (λ kv, t < kv.2) (db_expiry w);
     db_now := t; db_left := db_left w; db_rand := db_rand w |}.

Lemma hash_insert k h w i : db_hash (set_hash k h w) i = if decide (i = k) then h else db_hash w i.
Proof.
  unfold db_hash, set_hash. simpl. case_decide as E; [by rewrite E, lookup_insert_eq|].
  by rewrite lookup_insert_ne.
Qed.

#[export, program] Instance toy_valkey_laws : ValkeyLaws db := {|
  vk_ok w := db_left w = None; vk_hash := db_hash; vk_expiry w k := db_expiry w !! k;
  vk_now := db_now; vk_elapse := db_elapse |}.
Next Obligation. intros w k f Hok. simpl. unfold cmd. rewrite Hok. eexists. by split_and!. Qed.
Next Obligation.
  intros w k fvs Hok _. simpl. unfold cmd. rewrite Hok. eexists. split_and!; try done.
  intros i. by rewrite hash_insert.
Qed.
Next Obligation.
  intros w k f v Hok. simpl. unfold cmd. rewrite Hok. destruct (decide (db_hash w k !! f = None)) as [He|He].
  - eexists. rewrite bool_decide_true by done. split_and!; try done. intros i. rewrite hash_insert.
    split; [|done]. destruct (decide (i = k)); [by rewrite decide_True|by rewrite decide_False by (by intros [])].
  - eexists. rewrite bool_decide_false by done. split_and!; try done. intros i. by rewrite decide_False by (by intros []).
Qed.
Next Obligation.
  intros w k s Hok _ Hne. simpl. unfold cmd. rewrite Hok, decide_False by done. eexists. split_and!; try done.
  intros i. split; [done|]. simpl. case_decide as E; [by rewrite E, lookup_insert_eq|]. by rewrite lookup_insert_ne.
Qed.
Next Obligation.
  intros w k Hok. simpl. unfold cmd. rewrite Hok. eexists. split_and!; try done. intros i. split.
  - apply (hash_insert k ∅ w).
  - simpl. case_decide as E; [by rewrite E, lookup_delete_eq|]. by rewrite lookup_delete_ne.
Qed.
Next Obligation. intros w k Hok. simpl. unfold cmd. rewrite Hok. eexists. by split_and!. Qed.
Next Obligation. intros w k fs Hok. simpl. unfold cmd. rewrite Hok. eexists. by split_and!. Qed.
Next Obligation.
  intros w p Hok _. simpl. unfold cmd. rewrite Hok. do 2 eexists. split; [done|]. intros k.
  rewrite list_elem_of_filter, length_app, elem_of_elements, elem_of_dom. simpl.
  rewrite Nat.add_sub, take_app_length. unfold db_hash. destruct (db_hashes w !! k); naive_solver.
Qed.
Next Obligation.
  intros w k f v w'. simpl. unfold cmd. intros Hc.
  destruct (db_left w) as [[|n]|]; [done|..]; (case_decide; [|done]); injection Hc as <-;
    (split; [|done]); rewrite hash_insert, decide_True by done; apply lookup_insert_eq.
Qed.
Next Obligation.
  intros w k fvs e w'. simpl. unfold cmd. intros Hc.
  destruct (db_left w) as [[|n]|]; [|done..]. injection Hc as _ <-. auto.
Qed.
Next Obligation.
  intros w d Hd. simpl. split; [done|]. split; [done|]. intros i. unfold db_hash. simpl.
  rewrite !map_lookup_filter. unfold db_gone. simpl.
  destruct (db_expiry w !! i) as [t|] eqn:Ht, (db_hashes w !! i) eqn:Hh; simpl;
    try case_decide; repeat case_guard; simpl; rewrite ?bool_decide_eq_false in *; try done; lia.
Qed.

#[export] Instance toy_clock : Clock db := λ w, 1718000000000 + 1000 * db_now w.

(** Its randomness counts. *)
Definition set_rand (r : N) (w : db) : db :=
  {| db_hashes := db_hashes w; db_expiry := db_expiry w; db_now := db_now w;
     db_left := db_left w; db_rand := r |}.
#[export] Instance db_ecrypto : Ecrypto db := {|
  ecrypto_Encrypt data key w :=
    let (c, r) := ecrypto_Encrypt data key (db_rand w) in (c, set_rand r w);
  ecrypto_Decrypt := ecrypto_Decrypt (Ecrypto := toy_ecrypto);
  ecrypto_SealWithProductKey data w :=
    let (c, r) := ecrypto_SealWithProductKey data (db_rand w) in (c, set_rand r w);
  ecrypto_Unseal := ecrypto_Unseal (Ecrypto := toy_ecrypto) |}.

#[export] Instance db_ecrypto_laws : EcryptoLaws db.
Proof.
  split; simpl.
  - intros data key w Hk. rewrite decide_True by done. eauto.
  - intros data key w c w' [= Hc _]. case_decide; simplify_eq. apply strip_app.
  - intros c key p. unfold strip. by case_decide.
  - eauto.
  - intros data w c w' [= <- _]. apply (strip_app ($"sealed")).
Qed.

(** A connected service whose node has a master key. *)
Definition service : ValKeyKeyService db :=
  {| vs_uris := [$"valkey:6379"]; vs_transformer := mret (VaultMember (Some member1)); vs_namespace := $"prod:" |}.
Definition db0 : db := {| db_hashes := ∅; db_expiry := ∅; db_now := 0; db_left := None; db_rand := 0 |}.

#[export] Instance service_env : ServiceEnv service key32.
Proof.
  split.
  - intros data k w. by split.
  - intros w. exists (VaultMember (Some member1)), w. split; [done|]. split; [apply member1_key|by split].
Qed.

#[export] Instance toy_commands_safe : CommandsSafe db.
Proof.
  assert (∀ A (f : db → res A * db), (∀ w, safe (f w).1) → quiet (cmd f)) as Hc
    by (intros A f Hf w; unfold cmd; by destruct (db_left w) as [[|n]|]).
  split; intros; apply Hc; intros w; try done. cbn. by destruct (db_hash w k !! f).
Qed.
#[export] Instance service_safe : StoreSafe (ks_base (Valkey_store service)).
Proof. apply (Valkey_base_safe service key32). Qed.

Lemma db0_ok : service_ok service key32 db0.
Proof. split; [done|]. intros id Hne. by destruct Hne. Qed.

Lemma entry_lifetime_witness : ∃ w1 w2,
  vk_WriteWithTTL service ($"session:1") ($"old") 60 db0 = (Ok tt, w1) ∧
  vk_Write service ($"session:1") ($"new") w1 = (Ok tt, w2) ∧
  (vk_Read service ($"session:1") (vk_elapse 60 w1)).1 = Err ErrValkeyNil ∧
  (vk_Read service ($"session:1") (vk_elapse 60 w2)).1 = Err ErrValkeyNil ∧
  (∀ j, j ≠ $"session:1" → (vk_Read service j w2).1 = (vk_Read service j db0).1).
Proof. apply (entry_lifetime service key32 db0 ($"session:1") ($"old") ($"new") 60 60 db0_ok); lia. Defined.

(** The connection is lost after one command. *)
Definition db1 : db := {| db_hashes := ∅; db_expiry := ∅; db_now := 0; db_left := Some 1%nat; db_rand := 0 |}.

Lemma WriteNX_leak_witness : ∃ w4,
  vk_WriteNX service ($"lock") ($"node1") 300 db1 = (Ok (true, Some (ErrString ($"connection lost"))), w4) ∧
  ∀ d, 0 ≤ d → vk_content service key32 (vk_elapse d w4) ($"lock") = Some ($"node1").
Proof.
  eexists. eapply (WriteNX_leak service key32 db1 ($"lock") ($"node1") 300 (VaultMember (Some member1))
    (key32 ++ $"node1")); [done|apply member1_key|by vm_compute|done|..].
  - reflexivity.
  - reflexivity.
Defined.

(** A certificate stored under "acme/x". *)
Definition db_acme : db := (vk_Write service ($"acme/x") ($"cert") db0).2.

Lemma db_acme_ok : service_ok service key32 db_acme.
Proof.
  destruct (vk_WriteWithTTL_ok service key32 db0 ($"acme/x") ($"cert") (-1) (proj1 db0_ok) (proj2 db0_ok))
    as (w1 & Hw & Hok & _ & HS & _); [lia|].
  unfold db_acme, vk_Write. by rewrite Hw.
Qed.

Lemma List_ignores_namespace_witness :
  vk_content service key32 db_acme ($"acme/x") = Some ($"cert") ∧
  ∃ l w', vk_List service ($"acme/") true db_acme = (Ok l, w') ∧ ∀ id, hkey service id ∉ l.
Proof.
  split; [by vm_compute|].
  destruct (List_ignores_namespace service key32 db_acme ($"acme/") true) as (l & w' & Hl & _ & Hn);
    [apply db_acme_ok|done|].
  exists l, w'. split; [done|]. apply Hn; by apply (bool_decide_unpack _).
Defined.
End ToyDb.
