(* ===== verification/Session.v ===== *)
(** * internal/web/session.go: attestation sessions

    A session is the nonce a client must put into its quote and the request
    it made, stored under "session:<id>" for a minute.  The store is any
    [BaseKeyStore] that keeps the promise [StoreLaws].  [ErrorWithCode]
    (internal/web/response.go) is an error with its HTTP status. *)

From S2P Require Import Prelude GoBytes GoText Json Common KeyStore Api Crypto Valkey.
From Stdlib Require Import ZArith Lia.

Local Open Scope Z_scope.

(** ** Errors with a status *)

Record ErrorWithCode := { ec_Message : bytes; ec_Code : Z }.
Definition NewError (msg : bytes) (code : Z) : ErrorWithCode := {| ec_Message := msg; ec_Code := code |}.
(** [(e *ErrorWithCode) Error()] *)
Definition ErrorWithCode_Error (e : ErrorWithCode) : bytes := ec_Message e.

Definition StatusOK : Z := 200.
Definition StatusBadRequest : Z := 400.
Definition StatusUnauthorized : Z := 401.
Definition StatusInternalServerError : Z := 500.

(** ** SessionStore *)

Record SessionStore (W : Type) := { kv : BaseKeyStore W }.
Arguments kv {W}.
Definition NewSessionStore {W} (k : BaseKeyStore W) : SessionStore W := {| kv := k |}.

Section session.
Context {W : Type} `{CL : Clock W} `{UL : UuidLib W}.
Implicit Types (s : SessionStore W).

Definition Create s (nonce : bytes) (payload : bytes) : M W bytes :=
  sessionId ← GenerateSessionID;
  let jsonData := json_Marshal {| rs_Nonce := Some nonce; rs_Payload := payload |} in
  ks_WriteWithTTL (kv s) (STORE_PREFIX_SESSION ++ sessionId) jsonData KEY_REQ_SESSION_EXPIRY_SECONDS;;
  mret sessionId.

Definition Get s (sessionId : bytes) : M W (AttestationRequestStore + ErrorWithCode) :=
  catch (ks_Read (kv s) (STORE_PREFIX_SESSION ++ sessionId)) (λ r,
  if ks_HasNil (kv s) (match r with inr err => Some err | inl _ => None end)
  then mret (inr (NewError ($"Session expired or invalid") StatusUnauthorized))
  else
    match r with
    | inr _ => mret (inr (NewError ($"Failed to fetch session") StatusInternalServerError))
    | inl jsonData =>
        match json_Unmarshal AttestationRequestStore jsonData with
        | Ok record => mret (inl record)
        | Err _ => mret (inr (NewError ($"Failed to fetch payload from session store")
                                       StatusInternalServerError))
        | Panic p => lift (Panic p)
        end
    end).

Definition Session_Delete s (sessionId : bytes) : M W unit :=
  ks_Delete (kv s) (STORE_PREFIX_SESSION ++ sessionId).
End session.

(** ** Properties *)

(** Drawing randomness leaves the store alone. *)
Class WebEnv {W : Type} (k : BaseKeyStore W) `{!StoreLaws k} `{Entropy W} `{UuidLib W} := {
  env_draw n w : st_ok w → st_same w (draw n w).2;
  env_uuid w : st_ok w → ∃ u w', uuid_GenerateUUID w = (Ok u, w') ∧ st_same w w' ∧ valid_utf8 u
}.

Section laws.
Context {W : Type} `{CL : Clock W} `{EN : Entropy W} `{UL : UuidLib W}.
Context (k : BaseKeyStore W) `{SL : !StoreLaws k} `{WE : !WebEnv k}.
Local Notation s := (NewSessionStore k).

Definition session_record (nonce payload : bytes) : AttestationRequestStore :=
  {| rs_Nonce := Some nonce; rs_Payload := payload |}.

(** The key under which a session is stored. *)
Definition session_key (id : bytes) : bytes := STORE_PREFIX_SESSION ++ id.

Lemma session_key_inj i j : session_key i = session_key j → i = j.
Proof. apply (inj (app STORE_PREFIX_SESSION)). Qed.

(** A session can be read while its entry is there. *)
Lemma Get_found id w r : st_ok w → AttestationRequestStore_ok r →
  st_content w (session_key id) = Some (json_Marshal r) →
  ∃ w', Get s id w = (Ok (inl r), w') ∧ st_same w w'.
Proof.
  intros Hok Hr Hc. destruct (st_read_found w _ _ Hok Hc) as (w' & Hread & Hs).
  exists w'. unfold Get, catch, session_key, NewSessionStore in *. cbn [kv]. rewrite Hread, st_HasNil_none.
  by rewrite json_round_trip.
Qed.

Lemma Get_missing id w : st_ok w → st_content w (session_key id) = None →
  ∃ w', Get s id w = (Ok (inr (NewError ($"Session expired or invalid") StatusUnauthorized)), w') ∧
    st_same w w'.
Proof.
  intros Hok Hc. destruct (st_read_missing w _ Hok Hc) as (w' & Hread & Hs).
  exists w'. unfold Get, catch, session_key, NewSessionStore in *. cbn [kv]. by rewrite Hread, st_HasNil, bool_decide_true.
Qed.

(** Creating a session stores it with its deadline. *)
Lemma Create_stores nonce payload w : st_ok w →
  ∃ u w', Create s nonce payload w = (Ok (session_id (UnixMilli w) u), w') ∧ st_ok w' ∧
    st_now w' = st_now w ∧ valid_utf8 (session_id (UnixMilli w) u) ∧
    ∀ i, st_content w' i = (if decide (i = session_key (session_id (UnixMilli w) u))
                            then Some (json_Marshal (session_record nonce payload)) else st_content w i) ∧
         st_deadline w' i = (if decide (i = session_key (session_id (UnixMilli w) u))
                             then Some (st_now w + KEY_REQ_SESSION_EXPIRY_SECONDS) else st_deadline w i).
Proof.
  intros Hok. destruct (env_uuid w Hok) as (u & w1 & Hu & (Hok1 & Hn1 & Hs1) & Hutf).
  set (id := session_id (UnixMilli w) u).
  destruct (st_WriteWithTTL w1 (session_key id) (json_Marshal (session_record nonce payload))
    KEY_REQ_SESSION_EXPIRY_SECONDS Hok1) as (w2 & Hw & Hok2 & Hn2 & Hs2); [by right|].
  exists u, w2. split.
  { unfold Create, GenerateSessionID, GenerateUUID, catch, mbind, M_bind, NewSessionStore. rewrite Hu.
    unfold mret, M_ret. cbn [kv]. fold id. unfold session_key, session_record in Hw. by rewrite Hw. }
  split; [done|]. split; [congruence|]. split; [by apply session_id_valid|]. intros i. destruct (Hs1 i) as [Hc1 Hd1], (Hs2 i) as [-> ->].
  fold id. rewrite Hc1, Hd1, Hn1. split; [done|].
  destruct (decide (i = session_key id)); [by rewrite decide_True|by rewrite decide_False by (by intros [])].
Qed.

(** C19. A session is created with its nonce and payload, can be read for 60
    seconds and is refused as expired afterwards, or at once after it has
    been deleted. *)
Theorem session_lifetime nonce payload w d : st_ok w → valid_utf8 payload → 0 ≤ d →
  ∃ id w1, Create s nonce payload w = (Ok id, w1) ∧ st_ok w1 ∧
    (Get s id (st_elapse d w1)).1 =
      Ok (if decide (60 ≤ d) then inr (NewError ($"Session expired or invalid") 401)
          else inl (session_record nonce payload)) ∧
    ∃ w2, Session_Delete s id w1 = (Ok tt, w2) ∧
      (Get s id w2).1 = Ok (inr (NewError ($"Session expired or invalid") 401)).
Proof.
  intros Hok Hp Hd. destruct (Create_stores nonce payload w Hok) as (u & w1 & Hc & Hok1 & Hn1 & _ & Hi).
  set (id := session_id (UnixMilli w) u) in *. exists id, w1. split; [done|]. split; [done|].
  destruct (Hi (session_key id)) as [Hcont Hdl]. rewrite decide_True in Hcont by done.
  rewrite decide_True in Hdl by done.
  split.
  - destruct (st_elapse_spec w1 d Hok1 Hd) as (Hoke & _ & _).
    pose proof (st_elapse_deadline w1 d _ _ Hok1 Hd Hdl) as He. rewrite Hn1, Hcont in He.
    unfold KEY_REQ_SESSION_EXPIRY_SECONDS in He. destruct (decide (60 ≤ d)).
    + rewrite decide_True in He by lia. by destruct (Get_missing id _ Hoke He) as (? & -> & _).
    + rewrite decide_False in He by lia. by destruct (Get_found id _ (session_record nonce payload) Hoke) as (? & -> & _).
  - destruct (st_Delete w1 (session_key id) Hok1) as (w2 & Hdel & Hok2 & _ & Hi2). exists w2. split; [done|].
    destruct (Get_missing id w2 Hok2) as (? & -> & _); [|done]. by rewrite (proj1 (Hi2 _)), decide_True.
Qed.
End laws.

(** ** On the in-memory database *)
Module ToyWeb.
Import Toy ToyDb.

#[export, program] Instance db_entropy : Entropy db := {|
  draw n w := (replicate n (byte_of_N (db_rand w mod 256)), set_rand (db_rand w + 1) w) |}.
Next Obligation. intros n w. apply length_replicate. Qed.

#[export] Instance db_uuid : UuidLib db := mret ($"7c9e6679-7425-40de-944b-e07fc1f90ae7").

Definition toy_store : BaseKeyStore db := Valkey_base service.
#[export] Instance toy_store_laws : StoreLaws toy_store := Valkey_store_laws service key32.

#[export] Instance toy_web_env : WebEnv toy_store.
Proof.
  split.
  - intros n w Hok. split; [exact Hok|]. by split.
  - intros w Hok. do 2 eexists. split; [done|]. split; [split; [done|by split]|]. by apply (utf8_ok_valid 40).
Qed.

Lemma toy_store_ok : @st_ok _ _ toy_store_laws db0.
Proof. exact db0_ok. Qed.

Lemma session_lifetime_witness : ∃ id w1,
  Create (NewSessionStore toy_store) ($"nonce") ($"payload") db0 = (Ok id, w1) ∧
  (Get (NewSessionStore toy_store) id (st_elapse 59 w1)).1 = Ok (inl (session_record ($"nonce") ($"payload"))).
Proof.
  destruct (session_lifetime toy_store ($"nonce") ($"payload") db0 59 toy_store_ok) as (id & w1 & Hc & _ & Hg & _);
    [by apply (utf8_ok_valid 40)|lia|].
  exists id, w1. split; [exact Hc|]. exact Hg.
Defined.
End ToyWeb.
