(* ===== verification/Aes.v ===== *)
(** * pkg/aes: AES-256-GCM with the nonce in front

    [EncryptAESGCM] draws a nonce of 12 bytes and returns base64 of the nonce
    and the ciphertext; [DecryptAESGCM] undoes it.  AES-GCM itself is the
    parameter [AeadLib]. *)

From S2P Require Import Prelude GoBytes GoText Json Common.
From Stdlib Require Import ZArith Lia.

(** [cipher.AEAD] made from a 32-byte key: [Seal(nil, nonce, data, nil)] and
    [Open(nil, nonce, data, nil)].  Both panic when the nonce does not have
    the standard length. *)
Class AeadLib := {
  gcm_Seal : bytes → bytes → bytes → bytes;
  gcm_Open : bytes → bytes → bytes → res bytes
}.
Class AeadLaws `{AeadLib} := {
  open_seal key nonce data : length nonce = 12 → gcm_Open key nonce (gcm_Seal key nonce data) = Ok data;
  open_safe key nonce data p : length nonce = 12 → gcm_Open key nonce data ≠ Panic p;
  open_nonce_size key nonce data : length nonce ≠ 12 → ∃ p, gcm_Open key nonce data = Panic p
}.

(** [aesGCM.NonceSize()] *)
Definition NonceSize : nat := 12.

Section aes.
Context {W : Type} `{Entropy W} `{AeadLib}.

(** [aes.NewCipher] and [cipher.NewGCM] accept every 32-byte key. *)
Definition EncryptAESGCM (key plaintext : bytes) : M W bytes := λ w,
  if negb (bool_decide (length key = 32)) then (Err (ErrString ($"key must be 32 bytes for AES-256")), w)
  else
    let (nonce, w) := draw NonceSize w in
    let ciphertext := gcm_Seal key nonce plaintext in
    (Ok (b64_EncodeToString (nonce ++ ciphertext)), w).

Definition DecryptAESGCM (key encryptedData : bytes) : res bytes :=
  if negb (bool_decide (length key = 32)) then Err (ErrString ($"key must be 32 bytes for AES-256"))
  else
    data ← wrap ($"failed to decode base64") (b64_DecodeString encryptedData);
    if bool_decide (length data < NonceSize) then Err (ErrString ($"ciphertext too short"))
    else
      nonce ← slice_to data NonceSize;
      ciphertext ← slice_from data NonceSize;
      wrap ($"failed to decrypt") (gcm_Open key nonce ciphertext).
End aes.

(** Decryption undoes encryption, whatever randomness was drawn. *)
Lemma Decrypt_Encrypt {W} `{Entropy W} `{AeadLaws} key data (w : W) : length key = 32 →
  ∃ c w', EncryptAESGCM key data w = (Ok c, w') ∧ w' = (draw NonceSize w).2 ∧ DecryptAESGCM key c = Ok data.
Proof.
  intros Hk. unfold EncryptAESGCM, DecryptAESGCM. rewrite !bool_decide_true by done. simpl.
  pose proof (draw_length NonceSize w) as Hl. destruct (draw NonceSize w) as [nonce w'].
  do 2 eexists. split; [done|]. split; [done|]. rewrite b64_round_trip. simpl in *.
  rewrite bool_decide_false by (rewrite length_app; lia).
  unfold slice_to, slice_from. rewrite !decide_True by (rewrite length_app; lia). cbn [mbind res_bind].
  rewrite take_app_length', drop_app_length' by done. by rewrite open_seal.
Qed.

(** C30. [DecryptAESGCM] undoes [EncryptAESGCM] for a 32-byte key whatever the
    nonce; both refuse keys of any other length; a text that decodes to fewer
    bytes than a nonce has is refused; and decryption never panics, although
    slicing beyond the length and opening with a nonce of another length
    do. *)
Theorem aes_round_trip {W} `{Entropy W} `{AeadLaws} key data (w : W) :
  (length key = 32 → ∃ c w', EncryptAESGCM key data w = (Ok c, w') ∧ DecryptAESGCM key c = Ok data) ∧
  (length key ≠ 32 →
    EncryptAESGCM key data w = (Err (ErrString ($"key must be 32 bytes for AES-256")), w) ∧
    ∀ c, DecryptAESGCM key c = Err (ErrString ($"key must be 32 bytes for AES-256"))) ∧
  (∀ c short, length key = 32 → b64_DecodeString c = Ok short → length short < 12 →
    DecryptAESGCM key c = Err (ErrString ($"ciphertext too short"))) ∧
  (∀ c p, DecryptAESGCM key c ≠ Panic p).
Proof.
  split; [|split; [|split]].
  - intros Hk. destruct (Decrypt_Encrypt key data w Hk) as (c & w' & ? & _ & ?). eauto.
  - intros Hk. unfold EncryptAESGCM, DecryptAESGCM. by rewrite bool_decide_false.
  - intros c short Hk Hd Hl. unfold DecryptAESGCM. rewrite bool_decide_true, Hd by done. simpl.
    by rewrite bool_decide_true.
  - intros c p. unfold DecryptAESGCM. case_bool_decide; simpl; [|done].
    destruct (b64_DecodeString c) as [data'| |] eqn:Hd; simpl; [|done|].
    + case_bool_decide as Hl; [done|]. unfold NonceSize in *. unfold slice_to, slice_from.
      rewrite !decide_True by lia. cbn [mbind res_bind].
      destruct (gcm_Open _ _ _) eqn:Ho; simpl; try done. apply open_safe in Ho; [done|].
      rewrite length_take. lia.
    + unfold b64_DecodeString, of_option in Hd. by destruct (b64_quads _).
Qed.

(** ** A concrete cipher *)
Module ToyAead.
Import Toy.
(** The key and the nonce as authentication tag. *)
#[export] Instance toy_aead : AeadLib := {|
  gcm_Seal key nonce data := key ++ nonce ++ data;
  gcm_Open key nonce data :=
    if decide (length nonce = 12)
    then strip (key ++ nonce) data (ErrString ($"cipher: message authentication failed"))
    else Panic ($"crypto/cipher: incorrect nonce length given to GCM") |}.
#[export] Instance toy_aead_laws : AeadLaws.
Proof.
  split.
  - intros key nonce data Hn. simpl. rewrite decide_True by done. rewrite (assoc_L (++)). apply strip_app.
  - intros key nonce data p Hn. simpl. rewrite decide_True by done. unfold strip. by case_decide.
  - intros key nonce data Hn. simpl. rewrite decide_False by done. by eexists.
Qed.

Lemma aes_round_trip_witness : ∃ c w', EncryptAESGCM key32 ($"secret") 7%N = (Ok c, w') ∧
  DecryptAESGCM key32 c = Ok ($"secret").
Proof. apply (aes_round_trip key32 ($"secret") 7%N). done. Defined.
End ToyAead.
