(* ===== verification/Tdx.v ===== *)
(** * internal/tdx: TDX quotes and event logs

    quote.go wraps a parsed TDX quote; eventlog.go replays a CCEL event log
    against it.  The parsers and the cryptographic verification are
    go-tdx-guest's and go-trust's: [QuoteLib] and [CcelLib].  A map lookup
    on a missing register or algorithm gives an empty digest, indexing an
    empty digest list panics, as in Go. *)

From S2P Require Import Prelude GoBytes GoText Json.
From Stdlib Require Import ZArith Lia.

Local Open Scope Z_scope.

(** ** go-tdx-guest: [tdx.QuoteV4] *)

Record Header := {
  h_Version : Z; h_AttestationKeyType : Z; h_TeeType : Z;
  h_QeSvn : option bytes; h_PceSvn : option bytes; h_QeVendorId : option bytes; h_UserData : option bytes
}.
Record TDQuoteBody := {
  b_TeeTcbSvn : option bytes; b_MrSeam : option bytes; b_MrSignerSeam : option bytes;
  b_SeamAttributes : option bytes; b_TdAttributes : option bytes; b_Xfam : option bytes;
  b_MrTd : option bytes; b_MrConfigId : option bytes; b_MrOwner : option bytes;
  b_MrOwnerConfig : option bytes; b_Rtmrs : list bytes; b_ReportData : option bytes
}.
Record QuoteV4 := { q_Header : option Header; q_TdQuoteBody : option TDQuoteBody }.

(** [abi.QuoteToProto] returns a quote of any version. *)
Inductive AnyQuote := IsQuoteV4 (q : QuoteV4) | OtherQuote.
Class QuoteLib := QuoteToProto : bytes → res AnyQuote.

(** [verify.RawTdxQuote] with collateral and revocation lists: it asks
    Intel's servers. *)
Class QuoteVerifier (W : Type) := RawTdxQuote : bytes → M W unit.

(** ** quote.go *)

Record TdxQuote := { raw : bytes; parsed : QuoteV4 }.

Definition NewTdxQuote `{QuoteLib} (rawQuote : bytes) : res TdxQuote :=
  if bool_decide (length rawQuote = 0%nat) then Err (ErrString ($"empty quote provided"))
  else
    quotev4 ← wrap ($"parsing TDX quote") (QuoteToProto rawQuote);
    match quotev4 with
    | IsQuoteV4 parsed => Ok {| raw := rawQuote; parsed := parsed |}
    | OtherQuote => Err (ErrString ($"failed to cast parsed quote to *tdx.QuoteV4"))
    end.

Definition Parsed (q : TdxQuote) : QuoteV4 := parsed q.
Definition Raw (q : TdxQuote) : bytes := raw q.

Definition Quote_Verify {W} `{QuoteVerifier W} (q : TdxQuote) : M W unit := RawTdxQuote (raw q).

(** [q.parsed.TdQuoteBody] *)
Definition body (q : TdxQuote) : res TDQuoteBody := deref (q_TdQuoteBody (parsed q)).

Definition VerifyReportData (q : TdxQuote) (expectedReportData : bytes) : res unit :=
  b ← body q;
  let data := default [] (b_ReportData b) in
  if bool_decide (data = expectedReportData) then Ok tt
  else Err (ErrString ($"report data does not match: expected " ++ hex_EncodeToString expectedReportData
                       ++ $", got " ++ hex_EncodeToString data)).

Definition VerifyRTMR (q : TdxQuote) (index : Z) (expected : bytes) : res unit :=
  b ← body q;
  if (index <? 0) || (Z.of_nat (length (b_Rtmrs b)) <=? index)
  then Err (ErrString ($"invalid RTMR index: " ++ FormatInt index))
  else
    let actual := default [] (b_Rtmrs b !! Z.to_nat index) in
    if bool_decide (actual = expected) then Ok tt
    else Err (ErrString ($"RTMR" ++ FormatInt index ++ $" does not match: expected " ++
                         hex_EncodeToString expected ++ $", got " ++ hex_EncodeToString actual)).

Definition VerifyRTMRs (q : TdxQuote) (rtmr0 rtmr1 rtmr2 : bytes) : res unit :=
  _ ← VerifyRTMR q 0 rtmr0;
  _ ← VerifyRTMR q 1 rtmr1;
  _ ← VerifyRTMR q 2 rtmr2;
  Ok tt.

Definition GetMrTd (q : TdxQuote) : res bytes := b ← body q; Ok (default [] (b_MrTd b)).

Definition GetRTMR (q : TdxQuote) (index : Z) : res bytes :=
  b ← body q;
  if (index <? 0) || (Z.of_nat (length (b_Rtmrs b)) <=? index)
  then Err (ErrString ($"invalid RTMR index: " ++ FormatInt index))
  else Ok (default [] (b_Rtmrs b !! Z.to_nat index)).

Definition VerifyChain {W} `{QuoteVerifier W} (q : TdxQuote) (reportData rtmr0 rtmr1 rtmr2 : bytes) : M W unit :=
  catch (Quote_Verify q) (λ r,
  match r with
  | inr err => lift (Err (ErrWrap ($"quote cryptographic verification failed") err))
  | inl _ =>
      lift (_ ← wrap ($"report data verification failed") (VerifyReportData q reportData);
            wrap ($"RTMR verification failed") (VerifyRTMRs q rtmr0 rtmr1 rtmr2))
  end).

(** *** The summary for the journal *)

Record QuoteHeader := {
  Version : Z; AttestationKeyType : Z; TeeType : Z;
  QeSvn : option bytes; PceSvn : option bytes; QeVendorId : option bytes; UserData : option bytes
}.
Record QuoteBody := {
  TeeTcbSvn : option bytes; MrSeam : option bytes; MrSignerSeam : option bytes;
  SeamAttributes : option bytes; TdAttributes : option bytes; Xfam : option bytes;
  MrTd : option bytes; MrConfigId : option bytes; MrOwner : option bytes;
  MrOwnerConfig : option bytes; Rtmrs : option (list bytes); ReportData : option bytes
}.
Record QuoteSummary := { qs_Header : QuoteHeader; qs_Body : QuoteBody }.

(** The getters of a nil message return zero values. *)
Definition nil_Header : Header :=
  {| h_Version := 0; h_AttestationKeyType := 0; h_TeeType := 0;
     h_QeSvn := None; h_PceSvn := None; h_QeVendorId := None; h_UserData := None |}.

Definition Quote_Summary (q : TdxQuote) : QuoteSummary :=
  let h := default nil_Header (q_Header (parsed q)) in
  let get (f : TDQuoteBody → option bytes) := q_TdQuoteBody (parsed q) ≫= f in
  {| qs_Header :=
       {| Version := h_Version h; AttestationKeyType := h_AttestationKeyType h; TeeType := h_TeeType h;
          QeSvn := h_QeSvn h; PceSvn := h_PceSvn h; QeVendorId := h_QeVendorId h;
          UserData := h_UserData h |};
     qs_Body :=
       {| TeeTcbSvn := get b_TeeTcbSvn; MrSeam := get b_MrSeam; MrSignerSeam := get b_MrSignerSeam;
          SeamAttributes := get b_SeamAttributes; TdAttributes := get b_TdAttributes; Xfam := get b_Xfam;
          MrTd := get b_MrTd; MrConfigId := get b_MrConfigId; MrOwner := get b_MrOwner;
          MrOwnerConfig := get b_MrOwnerConfig; Rtmrs := b_Rtmrs <$> q_TdQuoteBody (parsed q);
          ReportData := get b_ReportData |} |}.

Definition QuoteHeader_json (h : QuoteHeader) : json :=
  JObj [($"version", enc_int (Version h)); ($"attestationKeyType", enc_int (AttestationKeyType h));
        ($"teeType", enc_int (TeeType h)); ($"qeSvn", enc_bytes (QeSvn h));
        ($"pceSvn", enc_bytes (PceSvn h)); ($"qeVendorId", enc_bytes (QeVendorId h));
        ($"userData", enc_bytes (UserData h))].
Definition QuoteBody_json (b : QuoteBody) : json :=
  JObj [($"teeTcbSvn", enc_bytes (TeeTcbSvn b)); ($"mrSeam", enc_bytes (MrSeam b));
        ($"mrSignerSeam", enc_bytes (MrSignerSeam b)); ($"seamAttributes", enc_bytes (SeamAttributes b));
        ($"tdAttributes", enc_bytes (TdAttributes b)); ($"xfam", enc_bytes (Xfam b));
        ($"mrTd", enc_bytes (MrTd b)); ($"mrConfigId", enc_bytes (MrConfigId b));
        ($"mrOwner", enc_bytes (MrOwner b)); ($"mrOwnerConfig", enc_bytes (MrOwnerConfig b));
        ($"rtmrs", match Rtmrs b with
                   | None => JNull
                   | Some l => JArr (map (λ x, enc_bytes (Some x)) l)
                   end);
        ($"reportData", enc_bytes (ReportData b))].
(** [(s *QuoteSummary) JSON()]: marshalling byte slices and integers cannot fail. *)
Definition QuoteSummary_JSON (s : QuoteSummary) : bytes :=
  Marshal (JObj [($"header", QuoteHeader_json (qs_Header s)); ($"body", QuoteBody_json (qs_Body s))]).

(** ** eventlog.go *)

Inductive EventType := EvEfiVariableDriverConfig | EvEfiPlatformFirmwareBlob2.

(** An event: its data and the hashes of its digests. *)
Record Event := { GetEvent : bytes; GetDigests : list bytes }.

(** [ccel.NewEventLogger] with [Parse], [Replay] restricted to the SHA-384
    bank, [FilterByEventType], the event log's summary, and
    [uefi.NewUefiVariableDataFromBytes] with the name of the variable it
    returns a pointer to: [None] is the nil pointer of a failed call, whose
    error the caller drops. *)
Class CcelLib := {
  EventLogger : Type;
  ccel_Parse : bytes → res EventLogger;
  Replay : EventLogger → nat → bytes;
  FilterByEventType : EventLogger → EventType → list Event;
  EventLog_Summary_JSON : EventLogger → bytes;
  uefi_Name : bytes → option bytes
}.

Definition EFISecureBootHash : bytes :=
  $"2cded0c6f453d4c6f59c5e14ec61abc6b018314540a2367cba326a52aa2b315ccc08ce68a816ce09c6ef2ac7e514ae1f".

Section eventlog.
Context `{CcelLib}.

Definition NewEventLog (eventLogB64 : bytes) : res EventLogger :=
  eventLog ← wrap ($"invalid event log") (b64_DecodeString eventLogB64);
  wrap ($"failed to parse event log") (ccel_Parse eventLog).

Definition verifyRTMRs (e : EventLogger) (quote : TdxQuote) : res unit :=
  wrap ($"RTMR verification failed")
    (VerifyRTMRs quote (Replay e 0) (Replay e 1) (Replay e 2)).

(** [event.GetDigests()[0].Hash] *)
Definition first_digest (ev : Event) : res bytes :=
  match GetDigests ev with
  | h :: _ => Ok h
  | [] => Panic ($"runtime error: index out of range")
  end.

Fixpoint secureBoot_loop (events : list Event) : res bool :=
  match events with
  | [] => Ok false
  | event :: events =>
      name ← deref (uefi_Name (GetEvent event));
      if negb (bool_decide (name = $"SecureBoot")) then secureBoot_loop events
      else
        digest ← first_digest event;
        if negb (bool_decide (hex_EncodeToString digest = EFISecureBootHash))
        then Err (ErrString ($"secure boot digest mismatch"))
        else Ok true
  end.
Definition secureBootEnabled (e : EventLogger) : res bool :=
  secureBoot_loop (FilterByEventType e EvEfiVariableDriverConfig).

Definition cfv (e : EventLogger) : res bytes :=
  match FilterByEventType e EvEfiPlatformFirmwareBlob2 with
  | event :: _ => first_digest event
  | [] => Err (ErrString ($"firmware measurement (CFV) not found in event log"))
  end.

Definition EventLog_Verify (e : EventLogger) (quote : TdxQuote) : res bytes :=
  _ ← verifyRTMRs e quote;
  enabled ← secureBootEnabled e;
  if (enabled : bool) then cfv e
  else Err (ErrString ($"secure boot is not enabled")).
End eventlog.

(** ** Properties *)

Lemma VerifyReportData_Ok q d b : q_TdQuoteBody (parsed q) = Some b →
  VerifyReportData q d = Ok tt ↔ default [] (b_ReportData b) = d.
Proof. intros Hb. unfold VerifyReportData, body. rewrite Hb. simpl. by case_bool_decide. Qed.

Lemma VerifyRTMR_Ok q (i : nat) x b : q_TdQuoteBody (parsed q) = Some b →
  VerifyRTMR q (Z.of_nat i) x = Ok tt ↔ b_Rtmrs b !! i = Some x.
Proof.
  intros Hb. unfold VerifyRTMR, body. rewrite Hb. simpl.
  rewrite (proj2 (Z.ltb_ge _ _)) by lia. rewrite Nat2Z.id. simpl.
  destruct (Z.leb_spec (Z.of_nat (length (b_Rtmrs b))) (Z.of_nat i)) as [Hge|Hlt].
  - rewrite lookup_ge_None_2 by lia. done.
  - destruct (lookup_lt_is_Some_2 (b_Rtmrs b) i) as [y Hy]; [lia|]. rewrite Hy. simpl.
    case_bool_decide; naive_solver.
Qed.

Lemma VerifyRTMRs_Ok q r0 r1 r2 b : q_TdQuoteBody (parsed q) = Some b →
  VerifyRTMRs q r0 r1 r2 = Ok tt ↔
  b_Rtmrs b !! 0%nat = Some r0 ∧ b_Rtmrs b !! 1%nat = Some r1 ∧ b_Rtmrs b !! 2%nat = Some r2.
Proof.
  intros Hb. rewrite <- !(VerifyRTMR_Ok q _ _ b Hb). unfold VerifyRTMRs.
  change (Z.of_nat 0) with 0. change (Z.of_nat 1) with 1. change (Z.of_nat 2) with 2.
  destruct (VerifyRTMR q 0 r0) as [[]| |], (VerifyRTMR q 1 r1) as [[]| |], (VerifyRTMR q 2 r2) as [[]| |];
    by (split; [|intros (? & ? & ?)]).
Qed.

(** Secure Boot as the first variable of that name measured it. *)
Definition secure_boot_measured `{CcelLib} (e : EventLogger) : Prop :=
  ∃ pre ev post h, FilterByEventType e EvEfiVariableDriverConfig = pre ++ ev :: post ∧
    Forall (λ x, ∃ n, uefi_Name (GetEvent x) = Some n ∧ n ≠ $"SecureBoot") pre ∧
    uefi_Name (GetEvent ev) = Some ($"SecureBoot") ∧
    head (GetDigests ev) = Some h ∧ hex_EncodeToString h = EFISecureBootHash.

Lemma first_digest_Ok ev h : first_digest ev = Ok h ↔ head (GetDigests ev) = Some h.
Proof. unfold first_digest. destruct (GetDigests ev); naive_solver. Qed.

Lemma secureBoot_loop_true `{CcelLib} l : secureBoot_loop l = Ok true ↔
  ∃ pre ev post h, l = pre ++ ev :: post ∧
    Forall (λ x, ∃ n, uefi_Name (GetEvent x) = Some n ∧ n ≠ $"SecureBoot") pre ∧
    uefi_Name (GetEvent ev) = Some ($"SecureBoot") ∧
    head (GetDigests ev) = Some h ∧ hex_EncodeToString h = EFISecureBootHash.
Proof.
  split.
  - induction l as [|ev l IH]; [done|]. cbn [secureBoot_loop]. unfold mbind, res_bind.
    destruct (uefi_Name (GetEvent ev)) as [n|] eqn:Hn; cbn [deref]; [|done].
    case_bool_decide as Hsb; cbn [negb].
    + destruct (first_digest ev) as [h| |] eqn:Hh; [|done..].
      case_bool_decide as Hx; [|done]. intros _. apply first_digest_Ok in Hh. subst n.
      exists [], ev, l, h. by split_and!.
    + intros Hl. destruct (IH Hl) as (pre & ev' & post & h & -> & Hpre & ?).
      exists (ev :: pre), ev', post, h. split; [done|]. split; [|done]. constructor; eauto.
  - intros (pre & ev & post & h & -> & Hpre & Hn & Hh & Hx).
    induction Hpre as [|x pre (n & Hxn & Hne) _ IH]; cbn [app secureBoot_loop]; unfold mbind, res_bind.
    + apply first_digest_Ok in Hh. rewrite Hn, Hh. cbn [deref]. by rewrite !bool_decide_true by done.
    + rewrite Hxn. cbn [deref]. by rewrite bool_decide_false.
Qed.

(** C18. The event log is accepted with measurement [m] exactly when the first
    three registers of the quote are the replayed ones, Secure Boot was
    measured as enabled by the first variable of that name, and [m] is the
    digest of the first firmware event. *)
Theorem EventLog_accepts `{CcelLib} e q b m : q_TdQuoteBody (parsed q) = Some b →
  EventLog_Verify e q = Ok m ↔
    (∀ i : nat, (i < 3)%nat → b_Rtmrs b !! i = Some (Replay e i)) ∧
    secure_boot_measured e ∧
    ∃ ev, head (FilterByEventType e EvEfiPlatformFirmwareBlob2) = Some ev ∧ head (GetDigests ev) = Some m.
Proof.
  intros Hb. unfold EventLog_Verify, verifyRTMRs.
  assert (∀ P : nat → Prop, (∀ i, (i < 3)%nat → P i) ↔ P 0%nat ∧ P 1%nat ∧ P 2%nat) as Hall.
  { intros P. split; [auto with lia|]. intros (? & ? & ?) [|[|[|]]] ?; auto; lia. }
  rewrite Hall, <- (VerifyRTMRs_Ok q _ _ _ b Hb). clear Hall.
  unfold secure_boot_measured. rewrite <- secureBoot_loop_true. unfold secureBootEnabled, cfv.
  destruct (VerifyRTMRs _ _ _ _) as [[]| |]; simpl; [|by split; [|intros (? & ? & ?)]..].
  destruct (secureBoot_loop _) as [[]| |]; simpl; [|by split; [|intros (? & ? & ?)]..].
  destruct (FilterByEventType e EvEfiPlatformFirmwareBlob2) as [|ev l]; simpl.
  - split; [done|]. by intros (_ & _ & ? & ? & _).
  - rewrite first_digest_Ok. split; [by eauto|]. by intros (_ & _ & ? & [= <-] & ?).
Qed.

(** *** Panics

    An entry for a variable whose data does not decode, or an event without
    digests, in a log that replays to the registers of the quote. *)
Definition log_malformed `{CcelLib} (e : EventLogger) : Prop :=
  (∃ ev, ev ∈ FilterByEventType e EvEfiVariableDriverConfig ∧ uefi_Name (GetEvent ev) = None) ∨
  (∃ t ev, ev ∈ FilterByEventType e t ∧ GetDigests ev = []).

Lemma VerifyRTMR_safe q i x b : q_TdQuoteBody (parsed q) = Some b → safe (VerifyRTMR q i x).
Proof.
  intros Hb. unfold VerifyRTMR, body. rewrite Hb. cbn [deref]. apply safe_bind; [done|]. intros ? _.
  destruct (_ || _); [done|]. by case_bool_decide.
Qed.

Lemma verifyRTMRs_safe `{CcelLib} e q b : q_TdQuoteBody (parsed q) = Some b → safe (verifyRTMRs e q).
Proof.
  intros Hb. apply safe_wrap. unfold VerifyRTMRs.
  repeat (apply safe_bind; [by eapply VerifyRTMR_safe|intros _ _]). done.
Qed.

Lemma first_digest_panics `{CcelLib} e t ev p : ev ∈ FilterByEventType e t → first_digest ev = Panic p →
  log_malformed e.
Proof. intros Hev. unfold first_digest. destruct (GetDigests ev) eqn:Hd; [|done]. right. by exists t, ev. Qed.

Lemma secureBootEnabled_panics `{CcelLib} e p : secureBootEnabled e = Panic p → log_malformed e.
Proof.
  unfold secureBootEnabled. pose proof (first_digest_panics e EvEfiVariableDriverConfig) as Hd.
  assert (∀ ev, ev ∈ FilterByEventType e EvEfiVariableDriverConfig → uefi_Name (GetEvent ev) = None →
    log_malformed e) as Hn by (intros ev ??; left; by exists ev).
  revert Hd Hn. generalize (FilterByEventType e EvEfiVariableDriverConfig) as l.
  induction l as [|ev l IH]; intros Hd Hn; [done|]. cbn [secureBoot_loop].
  destruct (uefi_Name (GetEvent ev)) as [n|] eqn:En; cbn [deref mbind res_bind].
  2: { intros _. apply (Hn ev); [by left|done]. }
  destruct (negb _).
  { apply IH; intros; [eapply Hd|eapply Hn]; try done; by right. }
  destruct (first_digest ev) as [h|e'|p'] eqn:Ef; cbn [mbind res_bind]; [by destruct (negb _)|done|].
  intros _. eapply Hd; [by left|done].
Qed.

Lemma EventLog_Verify_panics `{CcelLib} e q b p : q_TdQuoteBody (parsed q) = Some b →
  EventLog_Verify e q = Panic p → verifyRTMRs e q = Ok tt ∧ log_malformed e.
Proof.
  intros Hb. unfold EventLog_Verify. pose proof (verifyRTMRs_safe e q b Hb) as Hs.
  destruct (verifyRTMRs e q) as [[]|e'|p'] eqn:Ev; cbn [mbind res_bind]; [|done|by destruct (Hs p')].
  destruct (secureBootEnabled e) as [[]|e'|p'] eqn:Es; cbn [mbind res_bind]; [|done..|].
  - unfold cfv. destruct (FilterByEventType e EvEfiPlatformFirmwareBlob2) as [|ev l] eqn:Ef; [done|].
    intros Hd. split; [done|]. eapply (first_digest_panics e EvEfiPlatformFirmwareBlob2); [|done].
    rewrite Ef. by left.
  - intros _. split; [done|]. by eapply secureBootEnabled_panics.
Qed.

(** The error of [uefi.NewUefiVariableDataFromBytes] is dropped and the
    pointer dereferenced (eventlog.go 75-76). *)
Lemma undecodable_variable_panics `{CcelLib} e q ev l : verifyRTMRs e q = Ok tt →
  FilterByEventType e EvEfiVariableDriverConfig = ev :: l → uefi_Name (GetEvent ev) = None →
  EventLog_Verify e q = Panic nil_deref.
Proof.
  intros Hv Hf Hn. unfold EventLog_Verify, secureBootEnabled. rewrite Hv, Hf. cbn [secureBoot_loop]. by rewrite Hn.
Qed.

(** ** A concrete machine *)
Module ToyTdx.
(** A quote is "Q" and the report data; the rest of the machine is fixed. *)
Definition vm_body (data : bytes) : TDQuoteBody :=
  {| b_TeeTcbSvn := None; b_MrSeam := None; b_MrSignerSeam := None; b_SeamAttributes := None;
     b_TdAttributes := None; b_Xfam := None; b_MrTd := Some ($"mrtd"); b_MrConfigId := None;
     b_MrOwner := None; b_MrOwnerConfig := None; b_Rtmrs := [$"r0"; $"r1"; $"r2"; $"r3"];
     b_ReportData := Some data |}.
Definition vm_quote (data : bytes) : QuoteV4 :=
  {| q_Header := None; q_TdQuoteBody := Some (vm_body data) |}.
#[export] Instance toy_quote : QuoteLib := λ qb,
  match qb with
  | "Q"%byte :: data => Ok (IsQuoteV4 (vm_quote data))
  | _ => Err (ErrString ($"unable to determine quote format"))
  end.

Definition secure_boot_digest : bytes :=
  match hex_DecodeString EFISecureBootHash with Ok h => h | _ => [] end.
#[export] Instance toy_ccel : CcelLib := {|
  EventLogger := unit;
  ccel_Parse _ := Ok tt;
  Replay _ i := default [] ([$"r0"; $"r1"; $"r2"; $"r3"] !! i);
  FilterByEventType _ t :=
    match t with
    | EvEfiVariableDriverConfig => [{| GetEvent := $"SecureBoot"; GetDigests := [secure_boot_digest] |}]
    | EvEfiPlatformFirmwareBlob2 => [{| GetEvent := []; GetDigests := [$"fw"] |}]
    end;
  EventLog_Summary_JSON _ := $"{}";
  uefi_Name b := Some b |}.

Definition vm_of (data : bytes) : TdxQuote := {| raw := "Q"%byte :: data; parsed := vm_quote data |}.

Lemma EventLog_accepts_witness : ∃ e, EventLog_Verify e (vm_of ($"nonce")) = Ok ($"fw") ∧ secure_boot_measured e.
Proof.
  exists tt. assert (EventLog_Verify tt (vm_of ($"nonce")) = Ok ($"fw")) as Hv by by vm_compute.
  split; [exact Hv|].
  exact (proj1 (proj2 (proj1 (EventLog_accepts tt (vm_of ($"nonce")) (vm_body ($"nonce")) ($"fw") eq_refl) Hv))).
Defined.
End ToyTdx.
