(* ===== verification/KeyService.v ===== *)
(** * internal/web/key_service.go: the key derivation service

    [VaultKeyService] derives keys from the master secret, the attested
    measurements, a context and an id, keeps RSA keys in the key store, signs
    messages and seals payloads for a VM. *)

From S2P Require Import Prelude GoBytes GoText Json Sha256 Common KeyStore Api Crypto Aes Valkey Session.
From Stdlib Require Import ZArith Lia.

Local Open Scope Z_scope.

(** [x509.MarshalECPrivateKey] and [x509.MarshalPKIXPublicKey] of an EC key. *)
Class EcEncoding := {
  MarshalECPrivateKey : ecdsa_PrivateKey → res bytes;
  ec_MarshalPKIXPublicKey : ecdsa_PrivateKey → res bytes
}.

Record VaultKeyService (W : Type) := {
  vault : Vault;
  keyStore : BaseKeyStore W;
  contextPrefix : bytes
}.
Arguments vault {W}.
Arguments keyStore {W}.
Arguments contextPrefix {W}.

Definition NewKeyGenService {W} (vault : Vault) (keyStore : BaseKeyStore W) (devMode : bool)
    : VaultKeyService W :=
  {| vault := vault; keyStore := keyStore; contextPrefix := if devMode then $"dev-" else [] |}.

(** The seed of the derivation: a hash over the measurements. *)
Definition DeriveSeedFromMeasurements (mrtd cfv : bytes) : bytes := Sum256 (mrtd ++ cfv).

Section service.
Context {W : Type} `{HkdfLib} `{CurveLib} `{EcEncoding} `{RsaLib W} `{EcdsaLib W} `{Entropy W} `{AeadLib}.
Implicit Types (v : VaultKeyService W).

Definition deriveHKDF v (id data context : bytes) : res bytes :=
  Vault_HKDF (vault v) data (contextPrefix v ++ $"-" ++ context ++ $"-" ++ id) 32.

Definition DeriveHKDF v (id data context : bytes) : res bytes :=
  hkdf ← deriveHKDF v id data context; mret (b64_EncodeToString hkdf).

Definition DeriveX25519 v (id data context : bytes) : res KeyPair :=
  key ← deriveHKDF v id data context; X25519 key.

Definition pemencodeECKeyPair (privateKey : ecdsa_PrivateKey) : res KeyPair :=
  privBytes ← MarshalECPrivateKey privateKey;
  let privPEM := pem_EncodeToMemory ($"EC PRIVATE KEY") privBytes in
  pubBytes ← ec_MarshalPKIXPublicKey privateKey;
  let pubPEM := pem_EncodeToMemory ($"PUBLIC KEY") pubBytes in
  mret {| kp_Private := b64_EncodeToString privPEM; kp_Public := b64_EncodeToString pubPEM |}.

(** The length argument is not used. *)
Definition DeriveECDSA v (id data context : bytes) (curve : Curve) (length : Z) : res KeyPair :=
  key ← deriveHKDF v id data context;
  privateKey ← ECDSA key curve;
  pemencodeECKeyPair privateKey.

(** The loop over the messages, in the order the map's iteration takes. *)
Fixpoint sign_all (privateKey : ecdsa_PrivateKey) (messages : list (bytes * bytes))
    (signatures : gmap bytes bytes) : M W (gmap bytes bytes) :=
  match messages with
  | [] => mret signatures
  | (msgId, msgBase64) :: messages =>
      message ← lift (b64_DecodeString msgBase64);
      signed ← ECDSASign privateKey message;
      sign_all privateKey messages (<[msgId := b64_EncodeToString signed]> signatures)
  end.

Definition SignWithECDSA v (order : gmap bytes bytes → list (bytes * bytes)) (req : SigningRequest)
    : M W SigningResponse :=
  mrtd ← lift (b64_DecodeString (sg_Mrtd req));
  key ← lift (deriveHKDF v (sg_Id req) mrtd (sg_Ctx req));
  privateKey ← lift (ECDSA key P256);
  signatures ← sign_all privateKey (order (sg_Messages req)) ∅;
  keyPair ← lift (pemencodeECKeyPair privateKey);
  mret {| sn_Signatures := signatures; sn_PublicKey := kp_Public keyPair |}.

(** The error of the write is dropped. *)
Definition CreateRSA v (id : bytes) : M W (option KeyPair) :=
  let keyId := STORE_PREFIX_RSA_KEY ++ id in
  catch (ks_Read (keyStore v) keyId) (λ r,
  if ks_HasNil (keyStore v) (match r with inr err => Some err | inl _ => None end) then
    key ← RSA;
    catch (ks_Write (keyStore v) keyId (json_Marshal (Some key))) (λ _, mret (Some key))
  else
    match r with
    | inr err => lift (Err err)
    | inl keyBytes => lift (json_Unmarshal (option KeyPair) keyBytes)
    end).

Definition RemoveRSA v (id : bytes) : M W unit :=
  let keyId := STORE_PREFIX_RSA_KEY ++ id in
  exists_ ← ks_Exists (keyStore v) keyId;
  if 0 <? exists_ then ks_Delete (keyStore v) keyId else mret tt.

Definition TDXSeal v (req : TdxSealRequest) : M W TdxSealResponse :=
  mrtd ← lift (wrap ($"failed to decode mrtd") (b64_DecodeString (ts_Mrtd req)));
  cfv ← lift (wrap ($"failed to decode cfv") (b64_DecodeString (ts_Cfv req)));
  payload ← lift (wrap ($"failed to decode payload") (b64_DecodeString (ts_Payload req)));
  let seed := DeriveSeedFromMeasurements mrtd cfv in
  key ← lift (deriveHKDF v (ts_Id req) seed ContextVMBoot);
  catch (EncryptAESGCM key payload) (λ r,
  match r with
  | inr err => lift (Err (ErrWrap ($"failed to encrypt payload") err))
  | inl encryptedPayload => mret {| tr_Id := ts_Id req; tr_SealedPayload := encryptedPayload |}
  end).
End service.

(** ** Properties *)

(** A key pair on one of the standard curves can be encoded. *)
Class EcEncodingLaws `{CurveLib} `{EcEncoding} := {
  ec_private k : key_pair_ok k → ∃ b, MarshalECPrivateKey k = Ok b;
  ec_public k : key_pair_ok k → ∃ b, ec_MarshalPKIXPublicKey k = Ok b
}.

Section laws.
Context {W : Type} `{HL : HkdfLaws} `{CVL : CurveLaws} `{EE : EcEncoding} `{RL : RsaLib W}.
Context `{ED : EcdsaLib W} `{EDL : !EcdsaLaws W} `{EN : Entropy W} `{AL : AeadLaws}.
Implicit Types (v : VaultKeyService W).

(** Two nodes with the same master key [mk] in the same mode. *)
Definition same_keys v v' (mk : bytes) : Prop :=
  vault_with_key (vault v) mk ∧ vault_with_key (vault v') mk ∧ contextPrefix v' = contextPrefix v.

Lemma deriveHKDF_with_key v mk id data ctx : vault_with_key (vault v) mk →
  deriveHKDF v id data ctx = HKDF mk data (contextPrefix v ++ $"-" ++ ctx ++ $"-" ++ id) 32 ∧
  ∃ k, deriveHKDF v id data ctx = Ok k ∧ length k = 32%nat.
Proof.
  intros (m & Hm & Hk & _). unfold deriveHKDF, Vault_HKDF, Member_HKDF. rewrite Hm. simpl. rewrite Hk.
  split; [done|]. apply hkdf_read_ok. lia.
Qed.

Lemma deriveHKDF_same v v' mk id data ctx : same_keys v v' mk →
  deriveHKDF v' id data ctx = deriveHKDF v id data ctx.
Proof.
  intros (Hv & Hv' & Hp). rewrite (proj1 (deriveHKDF_with_key v mk id data ctx Hv)).
  rewrite (proj1 (deriveHKDF_with_key v' mk id data ctx Hv')). by rewrite Hp.
Qed.

(** The curve keys: X25519 keys are always derived, P-256 keys just when the
    scalar fills its 32 bytes. *)
Lemma DeriveX25519_total v mk id data ctx : vault_with_key (vault v) mk →
  ∃ kp, DeriveX25519 v id data ctx = Ok kp.
Proof.
  intros Hv. destruct (deriveHKDF_with_key v mk id data ctx Hv) as (_ & k & Hk & Hl).
  unfold DeriveX25519. rewrite Hk. cbn [mbind res_bind]. unfold X25519. case_decide; [|lia]. by eexists.
Qed.

Lemma DeriveECDSA_P256 `{!EcEncodingLaws} v mk id data ctx len : vault_with_key (vault v) mk →
  ∃ secret, deriveHKDF v id data ctx = Ok secret ∧
    if decide (256 ^ 31 ≤ reduce_scalar secret P256) then ∃ kp, DeriveECDSA v id data ctx P256 len = Ok kp
    else ∃ e, DeriveECDSA v id data ctx P256 len = Err e.
Proof.
  intros Hv. destruct (deriveHKDF_with_key v mk id data ctx Hv) as (_ & k & Hk & Hl).
  exists k. split; [done|]. unfold DeriveECDSA. rewrite Hk. cbn [mbind res_bind]. case_decide as Hd.
  - destruct (ECDSA_full k P256 ltac:(done) Hd) as (sk & -> & _ & _ & Hkp). cbn [mbind res_bind].
    destruct (ec_private sk Hkp) as [b1 Hb1], (ec_public sk Hkp) as [b2 Hb2].
    unfold pemencodeECKeyPair. rewrite Hb1, Hb2. by eexists.
  - rewrite (ECDSA_short k P256); [by eexists|done|]. exact (proj1 (Z.nle_gt _ _) Hd).
Qed.

(** What sealing returns and what opens it. *)
Lemma TDXSeal_opens v mk req mrtd fw payload w : vault_with_key (vault v) mk →
  b64_DecodeString (ts_Mrtd req) = Ok mrtd → b64_DecodeString (ts_Cfv req) = Ok fw →
  b64_DecodeString (ts_Payload req) = Ok payload →
  ∃ sealed key,
    TDXSeal v req w = (Ok {| tr_Id := ts_Id req; tr_SealedPayload := sealed |}, (draw NonceSize w).2) ∧
    deriveHKDF v (ts_Id req) (DeriveSeedFromMeasurements mrtd fw) ContextVMBoot = Ok key ∧
    DecryptAESGCM key sealed = Ok payload.
Proof.
  intros Hv Hm Hc Hp.
  destruct (deriveHKDF_with_key v mk (ts_Id req) (DeriveSeedFromMeasurements mrtd fw) ContextVMBoot Hv)
    as (_ & key & Hk & Hl).
  destruct (Decrypt_Encrypt key payload w Hl) as (c & w' & He & <- & Hd). exists c, key.
  unfold TDXSeal, mbind, M_bind, lift, catch. rewrite Hm, Hc, Hp. simpl. by rewrite Hk, He.
Qed.

(** C16. What [TDXSeal] seals for a VM opens under the symmetric key that a node
    with the same master key derives for the VM's measurements, id and boot
    context. *)
Theorem sealed_payload_opens v v' mk req mrtd fw payload w : same_keys v v' mk →
  b64_DecodeString (ts_Mrtd req) = Ok mrtd → b64_DecodeString (ts_Cfv req) = Ok fw →
  b64_DecodeString (ts_Payload req) = Ok payload →
  ∃ resp w' k64 key, TDXSeal v req w = (Ok resp, w') ∧ tr_Id resp = ts_Id req ∧
    DeriveHKDF v' (ts_Id req) (DeriveSeedFromMeasurements mrtd fw) ContextVMBoot = Ok k64 ∧
    b64_DecodeString k64 = Ok key ∧ DecryptAESGCM key (tr_SealedPayload resp) = Ok payload.
Proof.
  intros Hs Hm Hc Hp. destruct (TDXSeal_opens v mk req mrtd fw payload w) as (c & key & He & Hk & Hd);
    [apply Hs|done..|].
  eexists _, _, (b64_EncodeToString key), key. split; [done|]. split; [done|]. unfold DeriveHKDF.
  rewrite (deriveHKDF_same v v' mk), Hk by done. split; [done|]. by rewrite b64_round_trip.
Qed.

(** A P-384 key can never be derived: the derived secret has 32 bytes and the
    scalar would need 48. *)
Theorem p384_keys_unavailable v mk id data ctx len : vault_with_key (vault v) mk →
  DeriveECDSA v id data ctx P384 len =
    Err (ErrWrap ($"failed to create ECDH private key") (ErrString ($"crypto/ecdh: invalid private key size"))).
Proof.
  intros Hv. destruct (deriveHKDF_with_key v mk id data ctx Hv) as (_ & k & Hk & Hl).
  unfold DeriveECDSA. rewrite Hk. unfold mbind, res_bind. by rewrite ECDSA_P384_always_fails.
Qed.

(** The context and the id are joined with a dash: moving a dash-separated
    part from the id to the context gives the same key. *)
Theorem context_and_id_are_ambiguous v a b c data :
  deriveHKDF v (b ++ $"-" ++ c) data a = deriveHKDF v c data (a ++ $"-" ++ b).
Proof. unfold deriveHKDF. by rewrite <- !(assoc_L (++)). Qed.

Lemma sign_all_verifies k msgs acc w : key_pair_ok k → NoDup msgs.*1 →
  Forall (λ m, is_ok (b64_DecodeString m.2) = true) msgs →
  ∃ sigs w', sign_all k msgs acc w = (Ok sigs, w') ∧
    (∀ id, id ∉ msgs.*1 → sigs !! id = acc !! id) ∧
    (∀ id m, (id, m) ∈ msgs → ∃ msg der, b64_DecodeString m = Ok msg ∧
       sigs !! id = Some (b64_EncodeToString der) ∧ ECDSAVerify (PublicKey k) msg der = Ok true).
Proof.
  intros Hkp. revert acc w. induction msgs as [|[id m] msgs IH]; intros acc w Hnd Hok.
  { exists acc, w. split; [done|]. split; [done|]. by intros ? ? ?%not_elem_of_nil. }
  apply NoDup_cons in Hnd as [Hid Hnd]. apply Forall_cons in Hok as [Hm Hok]. simpl in Hm, Hid.
  destruct (b64_DecodeString m) as [msg| |] eqn:Hdec; [|done..].
  destruct (ECDSASign_verifies k msg w Hkp) as (der & w1 & Hsig & Hver).
  destruct (IH (<[id := b64_EncodeToString der]> acc) w1 Hnd Hok) as (sigs & w2 & Hall & Hout & Hin).
  exists sigs, w2. split; [|split].
  - cbn [sign_all]. unfold mbind, M_bind, lift. by rewrite Hdec, Hsig.
  - intros i Hi. simpl in Hi. apply not_elem_of_cons in Hi as [Hne Hi].
    rewrite Hout by done. by rewrite lookup_insert_ne.
  - intros i m' Him. apply elem_of_cons in Him as [[= -> ->]|Him]; [|by apply Hin].
    exists msg, der. rewrite Hout by done. by rewrite lookup_insert_eq.
Qed.

(** The walk over all messages of a request, in any order. *)
Lemma sign_messages (k : ecdsa_PrivateKey) (msgs : gmap bytes bytes) (l : list (bytes * bytes)) (w : W) : key_pair_ok k → l ≡ₚ map_to_list msgs →
  map_Forall (λ _ m, is_ok (b64_DecodeString m) = true) msgs →
  ∃ sigs w', sign_all k l ∅ w = (Ok sigs, w') ∧ dom sigs = dom msgs ∧
    ∀ id m, msgs !! id = Some m → ∃ msg der, b64_DecodeString m = Ok msg ∧
      sigs !! id = Some (b64_EncodeToString der) ∧ ECDSAVerify (PublicKey k) msg der = Ok true.
Proof.
  intros Hkp Hord Hall. destruct (sign_all_verifies k l ∅ w Hkp) as (sigs & w' & Hs & Hout & Hin).
  { rewrite Hord. apply NoDup_fst_map_to_list. }
  { rewrite Hord. apply Forall_forall. intros [i m] Hi%elem_of_map_to_list. by apply (Hall i m). }
  assert (∀ id m, msgs !! id = Some m → (id, m) ∈ l) as Hmem.
  { intros id m Hid. rewrite Hord. by apply elem_of_map_to_list. }
  exists sigs, w'. split; [done|]. split.
  - apply set_eq. intros id. rewrite !elem_of_dom. split.
    + intros Hsid. destruct (decide (id ∈ l.*1)) as [Hi|Hi].
      * apply list_elem_of_fmap in Hi as ([i m] & -> & Hi). rewrite Hord in Hi.
        apply elem_of_map_to_list in Hi. by exists m.
      * rewrite Hout, lookup_empty in Hsid by done. by destruct Hsid.
    + intros [m Hid]. destruct (Hin id m (Hmem id m Hid)) as (_ & der & _ & -> & _). by eexists.
  - intros id m Hid. apply Hin. by apply Hmem.
Qed.

(** C28. [SignWithECDSA] signs with the P-256 key derived from the measurement.
    When the derived scalar fills its 32 bytes, every message of the request
    is signed, in whatever order the map is walked, and each signature
    verifies under the public key of that scalar, whose encoding the response
    carries (provided it can be encoded); when the scalar is shorter, which
    happens for one secret in 256, the request fails and nothing is signed. *)
Theorem signatures_verify v mk order_ req mrtd key w : vault_with_key (vault v) mk →
  b64_DecodeString (sg_Mrtd req) = Ok mrtd → deriveHKDF v (sg_Id req) mrtd (sg_Ctx req) = Ok key →
  order_ (sg_Messages req) ≡ₚ map_to_list (sg_Messages req) →
  map_Forall (λ _ m, is_ok (b64_DecodeString m) = true) (sg_Messages req) →
  (∀ k, ECDSA key P256 = Ok k → ∃ kp, pemencodeECKeyPair k = Ok kp) →
  let d := reduce_scalar key P256 in
  (256 ^ 31 ≤ d → ∃ resp w' k kp, SignWithECDSA v order_ req w = (Ok resp, w') ∧
    pk_D k = d ∧ ScalarBaseMult P256 d = (pk_X k, pk_Y k) ∧ pemencodeECKeyPair k = Ok kp ∧
    sn_PublicKey resp = kp_Public kp ∧ dom (sn_Signatures resp) = dom (sg_Messages req) ∧
    (∀ id m, sg_Messages req !! id = Some m → ∃ msg der, b64_DecodeString m = Ok msg ∧
       sn_Signatures resp !! id = Some (b64_EncodeToString der) ∧
       ECDSAVerify {| pub_Curve := P256; pub_X := pk_X k; pub_Y := pk_Y k |} msg der = Ok true)) ∧
  (d < 256 ^ 31 → ∃ e, SignWithECDSA v order_ req w = (Err e, w)).
Proof.
  intros Hv Hm Hk Hord Hall Hpem d. unfold SignWithECDSA, mbind, M_bind, lift. rewrite Hm, Hk. split; intros Hd.
  - destruct (ECDSA_full key P256 ltac:(done) Hd) as (k & Hec & HD & Hc & Hkp).
    destruct (sign_messages k (sg_Messages req) (order_ (sg_Messages req)) w Hkp Hord Hall) as (sigs & w' & Hs & Hdom & Hin).
    destruct (Hpem k Hec) as [kp Hp]. rewrite Hec, Hs, Hp. do 2 eexists. exists k, kp. do 2 (split; [done|]).
    split; [unfold d; rewrite <- HD, <- Hc; apply Hkp|]. do 3 (split; [done|]).
    intros id m Hid. destruct (Hin id m Hid) as (msg & der & ? & ? & Hver). exists msg, der. split_and!; try done.
    rewrite <- Hver. unfold PublicKey. by rewrite Hc.
  - rewrite (ECDSA_short key P256) by done. by eexists.
Qed.
End laws.

(** RSA keys live in the key store. *)
Section rsa.
Context {W : Type} `{RL : RsaLib W} (ks : BaseKeyStore W) `{SL : !StoreLaws ks}.

(** Generating a key succeeds and leaves the store alone. *)
Class RsaEnv := {
  rsa_generate n w : st_ok w → ∃ k w', rsa_GenerateKey n w = (Ok k, w') ∧ st_same w w';
  rsa_encode k : ∃ b, rsa_MarshalPKIXPublicKey k = Ok b
}.
Context `{RE : !RsaEnv} (v : VaultKeyService W) (Hks : keyStore v = ks).

Definition rsa_key (id : bytes) : bytes := STORE_PREFIX_RSA_KEY ++ id.

Lemma RSA_ok w : st_ok w → ∃ kp w', RSA w = (Ok kp, w') ∧ st_same w w' ∧ KeyPair_ok kp.
Proof.
  intros Hok. destruct (rsa_generate 2048 w Hok) as (k & w' & Hg & Hs), (rsa_encode k) as [b Hb].
  do 2 eexists. unfold RSA, mbind, M_bind, lift. rewrite Hg, Hb. split; [done|]. split; [done|].
  split; apply ascii_valid, b64_ascii.
Qed.

Lemma CreateRSA_stored id w kp : st_ok w → KeyPair_ok kp →
  st_content w (rsa_key id) = Some (json_Marshal (Some kp)) →
  ∃ w', CreateRSA v id w = (Ok (Some kp), w') ∧ st_same w w'.
Proof.
  intros Hok Hkp Hc. destruct (st_read_found w _ _ Hok Hc) as (w' & Hr & Hs). exists w'.
  unfold CreateRSA, catch. fold (rsa_key id). rewrite Hks, Hr, st_HasNil_none. split; [|done].
  unfold lift. by rewrite (json_round_trip (Some kp)).
Qed.

Lemma CreateRSA_fresh id w : st_ok w → st_content w (rsa_key id) = None →
  ∃ kp w', CreateRSA v id w = (Ok (Some kp), w') ∧ st_ok w' ∧ KeyPair_ok kp ∧
    ∀ i, st_content w' i = if decide (i = rsa_key id) then Some (json_Marshal (Some kp)) else st_content w i.
Proof.
  intros Hok Hc. destruct (st_read_missing w _ Hok Hc) as (w1 & Hr & Hok1 & _ & Hs1).
  destruct (RSA_ok w1 Hok1) as (kp & w2 & Hg & (Hok2 & _ & Hs2) & Hkp).
  destruct (st_WriteWithTTL w2 (rsa_key id) (json_Marshal (Some kp)) (-1) Hok2) as (w3 & Hw & Hok3 & _ & Hs3);
    [lia|]. exists kp, w3. split; [|split; [done|split; [done|]]].
  - unfold CreateRSA, catch, mbind, M_bind. fold (rsa_key id). rewrite Hks, Hr, st_HasNil, bool_decide_true by done.
    by rewrite Hg, st_Write, Hw.
  - intros i. rewrite (proj1 (Hs3 i)), (proj1 (Hs2 i)), (proj1 (Hs1 i)). done.
Qed.

(** C29. The first [CreateRSA] for an id makes a key and the next one returns the
    same; [RemoveRSA] removes it and leaves the rest of the store alone. *)
Theorem rsa_key_is_stable id w : st_ok w → st_content w (rsa_key id) = None →
  ∃ kp w1 w2 w3, CreateRSA v id w = (Ok (Some kp), w1) ∧ CreateRSA v id w1 = (Ok (Some kp), w2) ∧
    RemoveRSA v id w2 = (Ok tt, w3) ∧ ∀ i, st_content w3 i = st_content w i.
Proof.
  intros Hok Hc. destruct (CreateRSA_fresh id w Hok Hc) as (kp & w1 & H1 & Hok1 & Hkp & Hi1).
  assert (st_content w1 (rsa_key id) = Some (json_Marshal (Some kp))) as Hc1 by by rewrite Hi1, decide_True.
  destruct (CreateRSA_stored id w1 kp Hok1 Hkp Hc1) as (w2 & H2 & Hok2 & _ & Hi2).
  destruct (st_Exists w2 (rsa_key id) Hok2) as (w2' & Hex & Hok2' & _ & Hi2').
  destruct (st_Delete w2' (rsa_key id) Hok2') as (w3 & Hdel & _ & _ & Hi3).
  exists kp, w1, w2, w3. split; [done|]. split; [done|]. split.
  - unfold RemoveRSA, mbind, M_bind. fold (rsa_key id). rewrite Hks, Hex, (proj1 (Hi2 _)), Hc1. exact Hdel.
  - intros i. rewrite (proj1 (Hi3 i)), (proj1 (Hi2' i)), (proj1 (Hi2 i)), Hi1. by case_decide; subst.
Qed.

(** A key that could not be stored is handed out all the same. *)
Lemma CreateRSA_drops_write_error id w w1 w2 w3 kp e :
  ks_Read ks (rsa_key id) w = (Err ErrValkeyNil, w1) → RSA w1 = (Ok kp, w2) →
  ks_Write ks (rsa_key id) (json_Marshal (Some kp)) w2 = (Err e, w3) →
  CreateRSA v id w = (Ok (Some kp), w3).
Proof.
  intros Hr Hg Hw. unfold CreateRSA, catch, mbind, M_bind. fold (rsa_key id).
  rewrite Hks, Hr, st_HasNil, bool_decide_true by done. by rewrite Hg, Hw.
Qed.
End rsa.

(** ** Concrete instances *)
Module ToyKeys.
Import Toy ToyDb ToyWeb ToyCurve ToyAead.

#[export] Instance toy_ec : EcEncoding := {|
  MarshalECPrivateKey k := Ok (Bytes (pk_D k));
  ec_MarshalPKIXPublicKey k := Ok (Bytes (pk_X k)) |}.
#[export] Instance toy_ec_laws : EcEncodingLaws.
Proof. by split; eexists. Qed.
#[export] Instance toy_rsa : RsaLib db := {|
  rsa_PrivateKey := N;
  rsa_GenerateKey _ w := (Ok (db_rand w), set_rand (db_rand w + 1) w);
  MarshalPKCS1PrivateKey k := Bytes (Z.of_N k);
  rsa_MarshalPKIXPublicKey k := Ok (Bytes (Z.of_N k + 1)) |}.
(** On the toy curve the public point is the scalar itself; a signature is the
    scalar with the hash. *)
#[export] Instance toy_ecdsa : EcdsaLib db := {|
  ecdsa_GenerateKey c := mret {| pk_D := 1; pk_Curve := c; pk_X := 1; pk_Y := 2 |};
  ecdsa_Sign k h := mret (pk_D k, SetBytes h);
  ecdsa_Verify k h sig := bool_decide (sig = (pub_X k, SetBytes h));
  asn1_Marshal sig := Ok (Bytes (Z.pos (encode sig)));
  asn1_Unmarshal s := of_option (decode (Z.to_pos (SetBytes s))) (ErrString ($"asn1: syntax error")) |}.
#[export] Instance toy_ecdsa_laws : EcdsaLaws db.
Proof.
  split.
  - intros k h w [_ [= Hx _]]. do 2 eexists. split; [done|]. simpl. by rewrite Hx, bool_decide_true.
  - intros sig. eexists. split; [done|]. simpl. rewrite SetBytes_Bytes by done. simpl. by rewrite decode_encode.
Qed.

Definition keys : VaultKeyService db := NewKeyGenService (VaultMember (Some member1)) toy_store false.

Lemma keys_vault : vault_with_key (vault keys) key32.
Proof. apply member1_key. Qed.

Definition seal_req : TdxSealRequest :=
  {| ts_Id := $"vm1"; ts_Mrtd := b64_EncodeToString ($"mrtd"); ts_Cfv := b64_EncodeToString ($"cfv");
     ts_Payload := b64_EncodeToString ($"secret") |}.

Lemma sealed_payload_opens_witness : ∃ resp w' k64 key, TDXSeal keys seal_req db0 = (Ok resp, w') ∧
  DeriveHKDF keys ($"vm1") (DeriveSeedFromMeasurements ($"mrtd") ($"cfv")) ContextVMBoot = Ok k64 ∧
  b64_DecodeString k64 = Ok key ∧ DecryptAESGCM key (tr_SealedPayload resp) = Ok ($"secret").
Proof.
  destruct (sealed_payload_opens keys keys key32 seal_req ($"mrtd") ($"cfv") ($"secret") db0)
    as (resp & w' & k64 & key & Hs & _ & Hk & Hb & Hd).
  - split; [apply keys_vault|]. split; [apply keys_vault|done].
  - apply b64_round_trip.
  - apply b64_round_trip.
  - apply b64_round_trip.
  - exists resp, w', k64, key. by split_and!.
Defined.

Lemma p384_keys_unavailable_witness : is_ok (DeriveECDSA keys ($"vm1") ($"seed") ContextApp P384 48) = false.
Proof. by rewrite (p384_keys_unavailable keys key32 _ _ _ _ keys_vault). Defined.

#[export] Instance toy_rsa_env : RsaEnv toy_store.
Proof.
  split; [|by eexists]. intros n w Hok. do 2 eexists. split; [done|]. split; [exact Hok|]. by split.
Qed.

Lemma rsa_key_is_stable_witness : ∃ kp w1 w2, CreateRSA keys ($"vm1") db0 = (Ok (Some kp), w1) ∧
  CreateRSA keys ($"vm1") w1 = (Ok (Some kp), w2).
Proof.
  destruct (rsa_key_is_stable toy_store keys eq_refl ($"vm1") db0 toy_store_ok) as (kp & w1 & w2 & _ & H1 & H2 & _);
    [by vm_compute|by exists kp, w1, w2].
Defined.

Definition sign_req : SigningRequest :=
  {| sg_Id := $"vm1"; sg_Ctx := ContextApp; sg_Mrtd := b64_EncodeToString ($"mrtd");
     sg_Messages := {[ $"m1" := b64_EncodeToString ($"hello") ]} |}.
Definition sign_secret : bytes :=
  Eval vm_compute in match deriveHKDF keys ($"vm1") ($"mrtd") ContextApp with Ok k => k | _ => [] end.

Lemma signatures_verify_witness : ∃ resp w' k,
  SignWithECDSA keys map_to_list sign_req db0 = (Ok resp, w') ∧
  ∃ der, sn_Signatures resp !! ($"m1") = Some (b64_EncodeToString der) ∧ ECDSAVerify k ($"hello") der = Ok true.
Proof.
  destruct (signatures_verify keys key32 map_to_list sign_req ($"mrtd") sign_secret db0) as [Hfull _].
  - apply keys_vault.
  - apply b64_round_trip.
  - by vm_compute.
  - done.
  - apply map_Forall_singleton. by rewrite b64_round_trip.
  - intros k _. by eexists.
  - destruct Hfull as (resp & w' & k & kp & Hs & _ & _ & _ & _ & _ & Hin); [by vm_compute|].
    destruct (Hin ($"m1") (b64_EncodeToString ($"hello"))) as (msg & der & Hm & Hsig & Hver);
      [apply lookup_singleton_eq|].
    rewrite b64_round_trip in Hm. injection Hm as <-.
    exists resp, w', {| pub_Curve := P256; pub_X := pk_X k; pub_Y := pk_Y k |}. split; [exact Hs|].
    exists der. split; [exact Hsig|exact Hver].
Defined.
End ToyKeys.
