(* ===== verification/Journal.v ===== *)
(** * providers/journal: the record of what the server did

    journal.go: records, entries and their JSON; default.go: the journal that
    drops everything; s3.go: the journal that writes each record into an S3
    bucket, the marker of the event last.  The S3 client and the staging of
    the data in a temporary file are parameters.  JSON text is compacted and
    indented as text, as [encoding/json] does it. *)

From S2P Require Import Prelude GoBytes GoText Json Common Api Crypto.
From Stdlib Require Import ZArith Lia.

Local Open Scope Z_scope.

(** ** journal.go *)

Definition CategoryKDS : bytes := $"KDS".
Definition TypeKeyRequest : bytes := $"KEY_REQUEST".
Definition TypeTDXSeal : bytes := $"TDX_SEAL".
Definition StatusSuccess : bytes := $"SUCCESS".
Definition StatusFailure : bytes := $"FAIL".

(** A [json.RawMessage] is text; nil and empty are both omitted. *)
Record Meta := {
  mt_QuoteSummary : bytes;
  mt_EventLogSummary : bytes;
  mt_Mrtd : bytes;
  mt_Cfv : bytes
}.
Record Entry := {
  en_Category : bytes;
  en_JournalType : bytes;
  en_Description : bytes;
  en_ResourceId : bytes;
  en_Timestamp : Z;
  en_Status : bytes;
  en_Meta : Meta
}.
Record Record_ := {
  jr_Category : bytes;
  jr_Type : bytes;
  jr_ResourceId : bytes;
  jr_SessionId : bytes;
  jr_Description : bytes;
  jr_Status : bytes;
  jr_Quote : bytes;
  jr_QuoteSummary : bytes;
  jr_EventLogSummary : bytes;
  jr_Mrtd : bytes;
  jr_Cfv : bytes
}.
Record Config := { jc_Endpoint : bytes; jc_Region : bytes; jc_AccessKey : bytes; jc_SecretKey : bytes }.

(** ** JSON as text

    [json.RawMessage] is checked and compacted when it is marshalled: white
    space outside of strings goes, the characters that are special in HTML
    are escaped. *)
Fixpoint compact_text (in_string escaped : bool) (s : bytes) : bytes :=
  match s with
  | [] => []
  | a :: s =>
      let next := if escaped then (in_string, false)
                  else if bool_decide (a = backslash) then (in_string, in_string)
                  else if bool_decide (a = quote) then (negb in_string, false)
                  else (in_string, false) in
      let rest := compact_text next.1 next.2 s in
      if negb in_string && is_space a then rest
      else if bool_decide (a ∈ ["<"; ">"; "&"]%byte) then esc_u00 a ++ rest
      else
        match a, s with
        | xe2, b :: c :: s' =>
            if bool_decide (b = x80) && (bool_decide (c = xa8) || bool_decide (c = xa9))
            then $"\u202" ++ [hexdigit (Byte.to_N c - 160)] ++ compact_text in_string false s'
            else a :: rest
        | _, _ => a :: rest
        end
  end.
Definition raw_json (raw : bytes) : res bytes :=
  match Unmarshal raw with
  | Ok _ => Ok (compact_text false false raw)
  | Err e => Err (ErrWrap ($"json: error calling MarshalJSON for type json.RawMessage") e)
  | Panic p => Panic p
  end.

(** [json.Indent] with an empty prefix and two spaces, on compact text. *)
Definition newline (depth : nat) : bytes := x0a :: concat (replicate depth ($"  ")).
Fixpoint indent_text (need in_string escaped : bool) (depth : nat) (s : bytes) : bytes :=
  match s with
  | [] => []
  | a :: s =>
      if in_string then
        a :: (if escaped then indent_text false true false depth s
              else if bool_decide (a = backslash) then indent_text false true true depth s
              else if bool_decide (a = quote) then indent_text false false false depth s
              else indent_text false true false depth s)
      else if is_space a then indent_text need false false depth s
      else if bool_decide (a ∈ ["}"; "]"]%byte) then
        (if need then [a] ++ indent_text false false false depth s
         else newline (depth - 1) ++ [a] ++ indent_text false false false (depth - 1) s)
      else
        let depth' := if need then S depth else depth in
        (if need then newline depth' else []) ++ [a] ++
        (if bool_decide (a ∈ ["{"; "["]%byte) then indent_text true false false depth' s
         else if bool_decide (a = comma) then newline depth' ++ indent_text false false false depth' s
         else if bool_decide (a = colon) then $" " ++ indent_text false false false depth' s
         else if bool_decide (a = quote) then indent_text false true false depth' s
         else indent_text false false false depth' s)
  end.

Definition member (k v : bytes) : bytes := quoted k ++ [colon] ++ v.
Definition object (members : list bytes) : bytes := "{"%byte :: Join members comma ++ ["}"%byte].

(** Optional members: raw text, or a string. *)
Definition opt_raw (k raw : bytes) : res (list bytes) :=
  match raw with [] => Ok [] | _ => t ← raw_json raw; mret [member k t] end.
Definition opt_string (k v : bytes) : list bytes :=
  match v with [] => [] | _ => [member k (quoted v)] end.

Definition Meta_text (m : Meta) : res bytes :=
  q ← opt_raw ($"quote") (mt_QuoteSummary m);
  e ← opt_raw ($"eventlog") (mt_EventLogSummary m);
  mret (object (q ++ e ++ opt_string ($"mrtd") (mt_Mrtd m) ++ opt_string ($"cfv") (mt_Cfv m))).
Definition Entry_text (e : Entry) : res bytes :=
  meta ← Meta_text (en_Meta e);
  mret (object [member ($"category") (quoted (en_Category e));
                member ($"journalType") (quoted (en_JournalType e));
                member ($"description") (quoted (en_Description e));
                member ($"resourceId") (quoted (en_ResourceId e));
                member ($"timeStamp") (FormatInt (en_Timestamp e));
                member ($"status") (quoted (en_Status e));
                member ($"meta") meta]).
(** [json.MarshalIndent(entry, "", "  ")] *)
Definition Entry_MarshalIndent (e : Entry) : res bytes :=
  t ← Entry_text e; mret (indent_text false false false 0 t).

(** ** default.go: nothing is kept *)
Definition noop_Write {W} (rec : Record_) : M W unit := mret tt.

(** ** s3.go *)

Definition eventsPrefix : bytes := $"events".

(** Temporary files, and the S3 client, which uploads from a path. *)
Class Staging (W : Type) := {
  os_CreateTemp : M W bytes;
  tmp_Write : bytes → bytes → M W unit;      (* name, data *)
  tmp_Close : bytes → M W unit;
  os_Remove : bytes → W → W;
  s3_Upload : bytes → bytes → M W unit       (* key, path *)
}.

Section s3.
Context {W : Type} `{Staging W} `{Clock W}.

(** The data in the file and up; the deferred removal runs on every path once
    the file exists. *)
Definition upload_staged (key data name : bytes) : M W unit :=
  catch (tmp_Write name data) (λ r,
  match r with
  | inr err => catch (tmp_Close name) (λ _, lift (Err err))
  | inl _ => tmp_Close name;; s3_Upload key name
  end).
Definition with_removal (name : bytes) (m : M W unit) : M W unit := λ w,
  let (r, w) := m w in (r, os_Remove name w).
Definition upload (key data : bytes) : M W unit :=
  name ← (os_CreateTemp : M W bytes);
  with_removal name (upload_staged key data name).

Definition record_entry (rec : Record_) (now : Z) : Entry :=
  {| en_Category := jr_Category rec; en_JournalType := jr_Type rec; en_Description := jr_Description rec;
     en_ResourceId := jr_ResourceId rec; en_Timestamp := now; en_Status := jr_Status rec;
     en_Meta := {| mt_QuoteSummary := jr_QuoteSummary rec; mt_EventLogSummary := jr_EventLogSummary rec;
                   mt_Mrtd := jr_Mrtd rec; mt_Cfv := jr_Cfv rec |} |}.

Definition artifacts (rec : Record_) (jsonEntry : bytes) : list (bytes * bytes) :=
  ($"journal.json", jsonEntry) ::
  match jr_Quote rec with [] => [] | q => [($"quote.b64", q)] end.

Definition artifact_key (rec : Record_) (name : bytes) : bytes :=
  path_Join [path_Join [jr_ResourceId rec; jr_SessionId rec]; name].

Fixpoint upload_all (rec : Record_) (l : list (bytes * bytes)) : M W unit :=
  match l with
  | [] => mret tt
  | (name, data) :: l =>
      catch (upload (artifact_key rec name) data) (λ r,
      match r with
      | inr err => lift (Err (ErrWrap ($"upload " ++ name) err))
      | inl _ => upload_all rec l
      end)
  end.

(** The key of the event marker. *)
Definition marker_key (rec : Record_) (now : Z) : bytes :=
  let '(ts, ok) := ParseSessionID (jr_SessionId rec) in
  let ts := if (ok : bool) then ts else Sprintf_013d now in
  path_Join [eventsPrefix; ts ++ $"." ++ jr_ResourceId rec ++ $"." ++ ToLower (jr_Type rec)].

(** [ctx_Err] is the state of the context. *)
Definition s3_Write (ctx_Err : W → option error) (rec : Record_) : M W unit := λ w,
  match ctx_Err w with
  | Some err => (Err err, w)
  | None =>
      let now := UnixMilli w in
      match Entry_MarshalIndent (record_entry rec now) with
      | Err err => (Err (ErrWrap ($"marshal journal entry") err), w)
      | Panic p => (Panic p, w)
      | Ok jsonEntry =>
          (upload_all rec (artifacts rec jsonEntry);;
           catch (upload (marker_key rec now) []) (λ r,
           match r with
           | inr err => lift (Err (ErrWrap ($"upload event marker") err))
           | inl _ => mret tt
           end)) w
      end
  end.
End s3.

(** The journal of a server: without endpoint and secret key nothing is kept. *)
Definition NewJournal {W} `{Staging W} `{Clock W} (ctx_Err : W → option error) (cfg : Config)
    : Record_ → M W unit :=
  if bool_decide (jc_Endpoint cfg = []) || bool_decide (jc_SecretKey cfg = []) then noop_Write
  else s3_Write ctx_Err.

(** default.go, the build without the tag s3. *)
Definition default_NewJournal {W} (cfg : Config) : Record_ → M W unit := noop_Write.

Example indent_ex : indent_text false false false 0 (Marshal (JArr [JArr []; JBool true; JNull])) =
  $"[" ++ newline 1 ++ $"[]," ++ newline 1 ++ $"true," ++ newline 1 ++ $"null" ++ newline 0 ++ $"]".
Proof. vm_compute. reflexivity. Qed.
Example compact_ex : compact_text false false ($"[ 1, <]") = $"[1,\u003c]".
Proof. vm_compute. reflexivity. Qed.

(** ** The marker is written last *)

Class StagingLaws (W : Type) `{Staging W} := {
  bucket : W → gmap bytes bytes;
  file : W → bytes → option bytes;
  create_law w : bucket (os_CreateTemp w).2 = bucket w;
  write_law n d w : bucket (tmp_Write n d w).2 = bucket w ∧
    ((tmp_Write n d w).1 = Ok tt → file (tmp_Write n d w).2 n = Some d);
  close_law n w : bucket (tmp_Close n w).2 = bucket w ∧ file (tmp_Close n w).2 n = file w n;
  remove_law n w : bucket (os_Remove n w) = bucket w;
  (* an upload that fails may still have stored something under its key *)
  upload_law k n w :
    ((s3_Upload k n w).1 = Ok tt →
       ∃ d, file w n = Some d ∧ bucket (s3_Upload k n w).2 !! k = Some d) ∧
    ∀ k', k' ≠ k → bucket (s3_Upload k n w).2 !! k' = bucket w !! k'
}.

Section s3_laws.
Context {W : Type} `{SL : StagingLaws W} `{CL : Clock W}.

(** What an upload does to the bucket. *)
Definition stored (key data : bytes) (w : W) (r : res unit) (w' : W) : Prop :=
  (r = Ok tt → bucket w' !! key = Some data) ∧ ∀ k, k ≠ key → bucket w' !! k = bucket w !! k.

Lemma upload_staged_stored key data n w :
  stored key data w (upload_staged key data n w).1 (upload_staged key data n w).2.
Proof.
  unfold upload_staged, catch. destruct (write_law n data w) as [Hb Hf].
  destruct (tmp_Write n data w) as [[[]|e|p] w1]; simpl in Hb, Hf.
  - unfold mbind, M_bind. destruct (close_law n w1) as [Hb1 Hf1].
    destruct (tmp_Close n w1) as [[[]|e|p] w2]; simpl in Hb1, Hf1; simpl.
    + destruct (upload_law key n w2) as [Hu Hk]. split.
      * intros Hr. destruct (Hu Hr) as (d & Hd & ->). rewrite Hf1, (Hf eq_refl) in Hd. done.
      * intros k Hne. rewrite Hk by done. by rewrite Hb1, Hb.
    + split; [done|]. intros k _. by rewrite Hb1, Hb.
    + split; [done|]. intros k _. by rewrite Hb1, Hb.
  - unfold catch. destruct (close_law n w1) as [Hb1 _].
    destruct (tmp_Close n w1) as [[[]|e'|p] w2]; simpl in *; split; try done; intros k _; by rewrite Hb1, Hb.
  - split; [done|]. intros k _. simpl. by rewrite Hb.
Qed.

Lemma upload_stored key data w : stored key data w (upload key data w).1 (upload key data w).2.
Proof.
  unfold upload, mbind, M_bind. pose proof (create_law w) as Hc.
  destruct (os_CreateTemp w) as [[n|e|p] w1]; simpl in Hc.
  - unfold with_removal. destruct (upload_staged_stored key data n w1) as [Hu Hk].
    destruct (upload_staged key data n w1) as [r w2]. simpl in *. unfold stored. rewrite remove_law.
    split; [done|]. intros k Hne. by rewrite Hk, Hc.
  - split; [done|]. intros k _. simpl. by rewrite Hc.
  - split; [done|]. intros k _. simpl. by rewrite Hc.
Qed.

Lemma upload_all_stored rec l w : NoDup (map (λ a, artifact_key rec a.1) l) →
  let (r, w') := upload_all rec l w in
  (r = Ok tt → ∀ n d, (n, d) ∈ l → bucket w' !! artifact_key rec n = Some d) ∧
  ∀ k, k ∉ map (λ a, artifact_key rec a.1) l → bucket w' !! k = bucket w !! k.
Proof.
  revert w. induction l as [|[n d] l IH]; intros w Hnd; cbn [upload_all map].
  { split; [by intros _ ? ? ?%not_elem_of_nil|done]. }
  apply NoDup_cons in Hnd as [Hn Hnd]. cbn [fst] in Hn. unfold catch.
  destruct (upload_stored (artifact_key rec n) d w) as [Hs Hk].
  destruct (upload (artifact_key rec n) d w) as [[[]|e|p] w1]; simpl in Hs, Hk.
  - specialize (IH w1 Hnd). destruct (upload_all rec l w1) as [r w2]. destruct IH as [IHr IHk]. split.
    + intros Hr m x Hin. apply elem_of_cons in Hin as [[= -> ->]|Hin]; [|by apply IHr].
      rewrite IHk by done. by apply Hs.
    + intros k Hkn. apply not_elem_of_cons in Hkn as [Hne Hkn]. rewrite IHk by done. by apply Hk.
  - split; [done|]. intros k Hkn. apply not_elem_of_cons in Hkn as [Hne _]. by apply Hk.
  - split; [done|]. intros k Hkn. apply not_elem_of_cons in Hkn as [Hne _]. by apply Hk.
Qed.

(** C35. When the event marker of a record is in the bucket, whether the write
    reported success or not, the journal entry and the quote are there too;
    a write that succeeds has stored the marker; keys other than these three
    are never touched. *)
Theorem marker_is_last ctx_Err rec w r w' je :
  let now := UnixMilli w in
  let keys := map (λ a, artifact_key rec a.1) (artifacts rec je) in
  s3_Write ctx_Err rec w = (r, w') → Entry_MarshalIndent (record_entry rec now) = Ok je →
  NoDup (marker_key rec now :: keys) → bucket w !! marker_key rec now = None →
  (bucket w' !! marker_key rec now ≠ None →
     ∀ n d, (n, d) ∈ artifacts rec je → bucket w' !! artifact_key rec n = Some d) ∧
  (r = Ok tt → bucket w' !! marker_key rec now = Some []) ∧
  (∀ k, k ∉ marker_key rec now :: keys → bucket w' !! k = bucket w !! k).
Proof.
  intros now keys Hrun Hje Hnd Hfresh. apply NoDup_cons in Hnd as [Hm Hnd].
  assert (∀ n d, (n, d) ∈ artifacts rec je → artifact_key rec n ≠ marker_key rec now) as Hne.
  { intros n d Hin E. apply Hm. rewrite <- E. apply list_elem_of_fmap. by exists (n, d). }
  unfold s3_Write in Hrun. fold now in Hrun. destruct (ctx_Err w) as [e|].
  { injection Hrun as <- <-. by rewrite Hfresh. }
  rewrite Hje in Hrun. unfold mbind, M_bind, catch in Hrun.
  pose proof (upload_all_stored rec (artifacts rec je) w Hnd) as Hall. fold keys in Hall.
  destruct (upload_all rec (artifacts rec je) w) as [[[]|e|p] w1]; destruct Hall as [Hin Hout].
  2,3: injection Hrun as <- <-; rewrite Hout, Hfresh by done; split; [done|]; split; [done|];
    intros k Hk; apply not_elem_of_cons in Hk as [_ Hk]; by apply Hout.
  destruct (upload_stored (marker_key rec now) [] w1) as [Hs Hk].
  assert (w' = (upload (marker_key rec now) [] w1).2 ∧
    (r = Ok tt → (upload (marker_key rec now) [] w1).1 = Ok tt)) as [-> Hr].
  { destruct (upload _ [] w1) as [[[]|e|p] w2]; by injection Hrun as <- <-. }
  split; [|split; [by auto|]].
  - intros _ n d Hnd'. rewrite Hk by by eapply Hne. by apply Hin.
  - intros k Hkn. apply not_elem_of_cons in Hkn as [Hkm Hkn]. rewrite Hk by done. by apply Hout.
Qed.
End s3_laws.

(** ** A concrete bucket *)
Module ToyBucket.
Record s3w := { sw_files : gmap bytes bytes; sw_bucket : gmap bytes bytes; sw_left : nat }.
(** Uploads succeed until the count runs out. *)
#[export] Instance toy_staging : Staging s3w := {|
  os_CreateTemp := mret ($"/tmp/journal-1");
  tmp_Write n d w := (Ok tt, {| sw_files := <[n:=d]> (sw_files w); sw_bucket := sw_bucket w; sw_left := sw_left w |});
  tmp_Close n := mret tt;
  os_Remove n w := {| sw_files := delete n (sw_files w); sw_bucket := sw_bucket w; sw_left := sw_left w |};
  s3_Upload k n w :=
    match sw_left w, sw_files w !! n with
    | S m, Some d => (Ok tt, {| sw_files := sw_files w; sw_bucket := <[k:=d]> (sw_bucket w); sw_left := m |})
    | _, _ => (Err (ErrString ($"upload failed")), w)
    end |}.
#[export] Instance toy_staging_laws : StagingLaws s3w.
Proof.
  refine {| bucket := sw_bucket; file w n := sw_files w !! n |}; simpl; try done.
  - intros n d w. split; [done|]. intros _. apply lookup_insert_eq.
  - intros k n w. destruct (sw_left w) as [|m], (sw_files w !! n) as [d|]; simpl; try by split.
    split; [intros _; exists d; split; [done|apply lookup_insert_eq]|].
    intros k' Hk. by rewrite lookup_insert_ne.
Defined.
#[export] Instance toy_s3_clock : Clock s3w := λ _, 1718000000000.

Definition rec1 : Record_ :=
  {| jr_Category := CategoryKDS; jr_Type := TypeKeyRequest; jr_ResourceId := $"vm1";
     jr_SessionId := $"1718000000000.ab"; jr_Description := $"Key request succeeded";
     jr_Status := StatusSuccess; jr_Quote := $"UQ=="; jr_QuoteSummary := Marshal (JObj []);
     jr_EventLogSummary := []; jr_Mrtd := []; jr_Cfv := [] |}.
(** Key requests choose the resource id: one with parent steps leaves its
    place in the bucket, here for that of an event marker. *)
Definition rec_dots : Record_ :=
  {| jr_Category := CategoryKDS; jr_Type := TypeKeyRequest; jr_ResourceId := $"vm1/../events/x";
     jr_SessionId := $".."; jr_Description := []; jr_Status := StatusSuccess; jr_Quote := [];
     jr_QuoteSummary := []; jr_EventLogSummary := []; jr_Mrtd := []; jr_Cfv := [] |}.
Lemma resource_id_escapes : artifact_key rec_dots ($"journal.json") = $"events/journal.json".
Proof. vm_compute. reflexivity. Qed.
Definition w_left (n : nat) : s3w := {| sw_files := ∅; sw_bucket := ∅; sw_left := n |}.
Definition je1 : bytes :=
  match Entry_MarshalIndent (record_entry rec1 1718000000000) with Ok t => t | _ => [] end.

Definition run (n : nat) : res unit * s3w := s3_Write (λ _, None) rec1 (w_left n).
Definition marker1 : bytes := $"events/1718000000000.vm1.key_request".
Lemma marker1_key : marker_key rec1 1718000000000 = marker1.
Proof. by vm_compute. Qed.

(** With three uploads the record is complete. *)
Lemma marker_is_last_witness : (run 3).1 = Ok tt ∧ bucket (run 3).2 !! marker1 = Some [] ∧
  bucket (run 3).2 !! artifact_key rec1 ($"quote.b64") = Some ($"UQ==").
Proof.
  assert ((run 3).1 = Ok tt) as Hr by by vm_compute.
  destruct (marker_is_last (λ _, None) rec1 (w_left 3) (run 3).1 (run 3).2 je1) as (Hin & Hok & _).
  - apply surjective_pairing.
  - by vm_compute.
  - by apply (bool_decide_unpack _).
  - done.
  - change (UnixMilli (w_left 3)) with 1718000000000 in *. rewrite marker1_key in *.
    split; [exact Hr|]. split; [exact (Hok Hr)|]. apply Hin; [by rewrite (Hok Hr)|].
    right. by left.
Defined.
End ToyBucket.
