(* ===== verification/Server.v ===== *)
(** * internal/web: the key server

    attestation.go (challenge and response), key_handlers.go and
    seal_handlers.go (the four routes that release keys and seal payloads),
    handlers.go (health and the server's own attestation), request.go,
    response.go and server.go.  A handler is a computation on the world [W] that
    ends in a [Reply]: status, body and the journal records it spawned a
    goroutine for.  A panic is what net/http recovers from by dropping the
    connection. *)

From S2P Require Import Prelude GoBytes GoText GoNet Json Sha256 Common KeyStore Enclave Api Crypto Aes Valkey Session Tdx KeyService Journal.
From Stdlib Require Import ZArith Lia.

Local Open Scope Z_scope.

(** ** attestation.go *)

Record AttestationVerificationProtocol (W : Type) := {
  av_sessions : SessionStore W;
  av_devMode : bool;
  av_enforceQuoteVerify : bool
}.
Arguments av_sessions {W}.
Arguments av_devMode {W}.
Arguments av_enforceQuoteVerify {W}.

Definition NewAttestationProtocol {W} (sessions : SessionStore W) (dev enforceQuoteVerify : bool)
    : AttestationVerificationProtocol W :=
  {| av_sessions := sessions; av_devMode := dev; av_enforceQuoteVerify := enforceQuoteVerify |}.

Section attestation.
Context {W : Type} `{Clock W} `{UuidLib W} `{Entropy W} `{QuoteLib} `{QuoteVerifier W}.
Implicit Types (a : AttestationVerificationProtocol W).

Definition Init a (requestData : bytes) : M W VerifyResponse :=
  nonce ← GenerateNonce 64;
  sessionId ← Create (av_sessions a) nonce requestData;
  mret {| vr_Nonce := b64_EncodeToString nonce; vr_SessionId := sessionId |}.

(** The checks after the quote has been verified. *)
Definition check_nonce a (requestStore : AttestationRequestStore) (quote : TdxQuote)
    : res (TdxQuote + ErrorWithCode) :=
  match VerifyReportData quote (default [] (rs_Nonce requestStore)) with
  | Panic p => Panic p
  | Err _ => if negb (av_devMode a)
             then Ok (inr (NewError ($"verification of nonce failed") StatusUnauthorized))
             else Ok (inl quote)
  | Ok _ => Ok (inl quote)
  end.

Definition AttVerify a (requestStore : AttestationRequestStore) (tdQuote : bytes)
    : M W (TdxQuote + ErrorWithCode) :=
  if bool_decide (tdQuote = []) then mret (inr (NewError ($"Invalid quote") StatusUnauthorized))
  else
    catch (lift (b64_DecodeString tdQuote)) (λ r,
    match r with
    | inr _ => mret (inr (NewError ($"Invalid quote") StatusBadRequest))
    | inl quoteBytes =>
        catch (lift (NewTdxQuote quoteBytes)) (λ r,
        match r with
        | inr err => mret (inr (NewError ($"Failed to parse quote: " ++ Error err) StatusBadRequest))
        | inl quote =>
            catch (Quote_Verify quote) (λ r,
            match r with
            | inr _ => if av_enforceQuoteVerify a
                       then mret (inr (NewError ($"Quote verification failed") StatusUnauthorized))
                       else lift (check_nonce a requestStore quote)
            | inl _ => lift (check_nonce a requestStore quote)
            end)
        end)
    end).
End attestation.

(** ** request.go and response.go *)

(** At most a mebibyte of the body is read. *)
Definition body_limit : nat := N.to_nat (1024 * 1024).
Definition decodeRequest (T : Type) `{JsonCodec T} (body : bytes) : res T :=
  Decode_single T (take body_limit body).

Record Reply := { rp_code : Z; rp_body : bytes; rp_journal : list Record_ }.

Definition respondJSON (code : Z) (v : json) : Reply :=
  {| rp_code := code; rp_body := Marshal v ++ [x0a]; rp_journal := [] |}.
Definition respondError (code : Z) (message : bytes) : Reply :=
  respondJSON code (JObj [($"error", JStr message)]).
Definition keyResponseError (status : Z) (message : bytes) : Reply :=
  respondJSON status (KeyResponse_json {| Key := NoKey; Verified := false; Message := message |}).
(** A goroutine that writes a journal record. *)
Definition logJournal (rec : Record_) (r : Reply) : Reply :=
  {| rp_code := rp_code r; rp_body := rp_body r; rp_journal := rec :: rp_journal r |}.

(** ** server.go *)

Record KeyServer (W : Type) := {
  sv_Port : Z;
  sv_Domains : list bytes;
  sv_NodeHost : bytes;
  sv_acme : bool;                (* certificates from ACME, else the node's own *)
  sv_sessions : SessionStore W;
  sv_keyService : VaultKeyService W;
  sv_challengeResponse : AttestationVerificationProtocol W;
  sv_sealingChallengeResponse : AttestationVerificationProtocol W
}.
Arguments sv_Port {W}.
Arguments sv_Domains {W}.
Arguments sv_NodeHost {W}.
Arguments sv_acme {W}.
Arguments sv_sessions {W}.
Arguments sv_keyService {W}.
Arguments sv_challengeResponse {W}.
Arguments sv_sealingChallengeResponse {W}.

Definition NewKeyServer {W} (config : ClusterConfig) (kvStore : KeyStore W) (vault : Vault) : KeyServer W :=
  let keyStore := NewSessionKeyStore kvStore (DevMode config) in
  let sessions := NewSessionStore keyStore in
  {| sv_Port := ServerPort config;
     sv_Domains := Domains config;
     sv_NodeHost := NodeHost config;
     sv_acme := negb (bool_decide (AcmeDnsToken config = []));
     sv_sessions := sessions;
     sv_keyService := NewKeyGenService vault keyStore (DevMode config);
     sv_challengeResponse :=
       NewAttestationProtocol sessions false (EnforceKeyRequestQuoteVerify config);
     sv_sealingChallengeResponse :=
       NewAttestationProtocol sessions (DevMode config) (EnforceSealQuoteVerify config) |}.

(** [tls.DialWithDialer] without verification, followed by
    [PeerCertificates]: the raw certificates of the peer. *)
Class Dialer (W : Type) := tls_Dial : bytes → bytes → M W (list bytes).

Section server.
Context {W : Type} `{Clock W} `{UuidLib W} `{Entropy W} `{QuoteLib} `{QuoteVerifier W} `{CcelLib}.
Context `{HkdfLib} `{CurveLib} `{EcEncoding} `{RsaLib W} `{EcdsaLib W} `{AeadLib} `{EnclaveLib W} `{Dialer W}.
Implicit Types (s : KeyServer W).

(** ** key_handlers.go *)

Definition keyRequestInit s (req : KeyRequest) : M W (VerifyResponse + ErrorWithCode) :=
  if bool_decide (kr_Type req = []) || bool_decide (kr_Id req = [])
  then mret (inr (NewError ($"Invalid request parameters") StatusBadRequest))
  else
    catch (Init (sv_challengeResponse s) (json_Marshal req)) (λ r,
    match r with
    | inr _ => mret (inr (NewError ($"init verify request failed") StatusInternalServerError))
    | inl resp => mret (inl resp)
    end).

(** The switch over the key type: [None] is the default case. *)
Definition derive_key s (id : bytes) (keyType : KeyType) (ctx seed : bytes) : option (M W AnyKey) :=
  let v := sv_keyService s in
  if bool_decide (keyType = Symmetric) then Some (lift (SymmetricKey <$> DeriveHKDF v id seed ctx))
  else if bool_decide (keyType = KT_X25519)
  then Some (lift ((λ k, PairKey (Some k)) <$> DeriveX25519 v id seed ctx))
  else if bool_decide (keyType = KT_P256)
  then Some (lift ((λ k, PairKey (Some k)) <$> DeriveECDSA v id seed ctx P256 32))
  else if bool_decide (keyType = KT_P384)
  then Some (lift ((λ k, PairKey (Some k)) <$> DeriveECDSA v id seed ctx P384 48))
  else if bool_decide (keyType = KT_RSA) then Some (k ← CreateRSA v id; mret (PairKey k))
  else None.

Definition keyRequestFinalize s (id : bytes) (keyType : KeyType) (ctx seed : bytes)
    : M W (KeyResponse + ErrorWithCode) :=
  match derive_key s id keyType ctx seed with
  | None => mret (inr (NewError ($"invalid key type") StatusBadRequest))
  | Some m =>
      catch m (λ r,
      match r with
      | inr _ => mret (inr (NewError ($"key derivation failed") StatusInternalServerError))
      | inl key => mret (inl {| Key := key; Verified := true; Message := [] |})
      end)
  end.

Definition handleKeyRequestInit s (request : bytes) : M W Reply :=
  catch (lift (decodeRequest KeyRequest request)) (λ r,
  match r with
  | inr _ => mret (respondError StatusBadRequest ($"Invalid request"))
  | inl req =>
      r ← keyRequestInit s req;
      match r with
      | inr e => mret (respondError (ec_Code e) (ec_Message e))
      | inl response => mret (respondJSON StatusOK (VerifyResponse_json response))
      end
  end).

Definition journalKeyRequest (resourceId sessionId description quote quoteSummary eventLogSummary
    status : bytes) : Record_ :=
  {| jr_Category := CategoryKDS; jr_Type := TypeKeyRequest; jr_ResourceId := resourceId;
     jr_SessionId := sessionId; jr_Description := description; jr_Status := status;
     jr_Quote := quote; jr_QuoteSummary := quoteSummary; jr_EventLogSummary := eventLogSummary;
     jr_Mrtd := []; jr_Cfv := [] |}.

(** The end of the finalize handler: the key is derived and the outcome
    journaled. *)
Definition release_key s (req : AttestationRequest) (keyRequest : KeyRequest) (quote : TdxQuote)
    (eventLog : EventLogger) (cfv : bytes) : M W Reply :=
  mrtd ← lift (GetMrTd quote);
  let keySeed := DeriveSeedFromMeasurements mrtd cfv in
  r ← keyRequestFinalize s (kr_Id keyRequest) (kr_Type keyRequest) (kr_Ctx keyRequest) keySeed;
  let journal description status :=
    logJournal (journalKeyRequest (kr_Id keyRequest) (ar_SessionId req) description (ar_Quote req)
      (QuoteSummary_JSON (Quote_Summary quote)) (EventLog_Summary_JSON eventLog) status) in
  match r with
  | inr e => mret (journal ($"Key request failed: " ++ ec_Message e) StatusFailure
                     (respondError (ec_Code e) (ec_Message e)))
  | inl keyResponse => mret (journal ($"Key request succeeded") StatusSuccess
                               (respondJSON StatusOK (KeyResponse_json keyResponse)))
  end.

(** From the verified quote to the key: the event log, then the session is
    removed; the error of the removal is only logged. *)
Definition finalize_verified s (req : AttestationRequest) (keyRequest : KeyRequest) (quote : TdxQuote)
    : M W Reply :=
  catch (lift (NewEventLog (ar_EventLog req))) (λ r,
  match r with
  | inr err => mret (keyResponseError StatusUnauthorized (Error err))
  | inl eventLog =>
      catch (lift (EventLog_Verify eventLog quote)) (λ r,
      match r with
      | inr err => mret (keyResponseError StatusUnauthorized (Error err))
      | inl cfv =>
          catch (Session_Delete (sv_sessions s) (ar_SessionId req)) (λ _,
          release_key s req keyRequest quote eventLog cfv)
      end)
  end).

Definition handleKeyRequestFinalize s (request : bytes) : M W Reply :=
  catch (lift (decodeRequest AttestationRequest request)) (λ r,
  match r with
  | inr _ => mret (keyResponseError StatusBadRequest ($"Invalid Request"))
  | inl req =>
      r ← Get (sv_sessions s) (ar_SessionId req);
      match r with
      | inr e => mret (keyResponseError (ec_Code e) (ec_Message e))
      | inl record =>
          catch (lift (json_Unmarshal KeyRequest (rs_Payload record))) (λ r,
          match r with
          | inr _ => mret (keyResponseError StatusInternalServerError
                             ($"Failed to unmarshal key request from store"))
          | inl keyRequest =>
              if bool_decide (kr_Id keyRequest = [])
              then mret (keyResponseError StatusBadRequest ($"Missing id"))
              else
                r ← AttVerify (sv_challengeResponse s) record (ar_Quote req);
                match r with
                | inr e => mret (keyResponseError (ec_Code e) (ec_Message e))
                | inl quote => finalize_verified s req keyRequest quote
                end
          end)
      end
  end).

(** ** seal_handlers.go *)

Definition tdxSealRequestInit s (req : TdxSealRequest) : M W (VerifyResponse + ErrorWithCode) :=
  if bool_decide (ts_Mrtd req = []) || bool_decide (ts_Cfv req = []) || bool_decide (ts_Payload req = [])
  then mret (inr (NewError ($"Missing required parameters") StatusBadRequest))
  else
    catch (Init (sv_sealingChallengeResponse s) (json_Marshal req)) (λ r,
    match r with
    | inr _ => mret (inr (NewError ($"init verify request failed") StatusInternalServerError))
    | inl resp => mret (inl resp)
    end).

Definition handleTdxSealInit s (request : bytes) : M W Reply :=
  catch (lift (decodeRequest TdxSealRequest request)) (λ r,
  match r with
  | inr _ => mret (respondError StatusBadRequest ($"Invalid request"))
  | inl req =>
      r ← tdxSealRequestInit s req;
      match r with
      | inr e => mret (respondError (ec_Code e) (ec_Message e))
      | inl response => mret (respondJSON StatusOK (VerifyResponse_json response))
      end
  end).

Definition journalSealRequest (req : TdxSealRequest) (sessionId description status : bytes) : Record_ :=
  {| jr_Category := CategoryKDS; jr_Type := TypeTDXSeal; jr_ResourceId := ts_Id req;
     jr_SessionId := sessionId; jr_Description := description; jr_Status := status;
     jr_Quote := []; jr_QuoteSummary := []; jr_EventLogSummary := [];
     jr_Mrtd := ts_Mrtd req; jr_Cfv := ts_Cfv req |}.

(** The end of the handler: seal and journal. *)
Definition seal_and_journal s (req : AttestationRequest) (sealRequest : TdxSealRequest) : M W Reply :=
  catch (TDXSeal (sv_keyService s) sealRequest) (λ r,
  match r with
  | inr err =>
      mret (logJournal (journalSealRequest sealRequest (ar_SessionId req)
                          ($"Seal request failed: " ++ Error err) StatusFailure)
              (respondError StatusInternalServerError ($"Failed to seal payload")))
  | inl sealResponse =>
      mret (logJournal (journalSealRequest sealRequest (ar_SessionId req)
                          ($"Seal request succeeded") StatusSuccess)
              (respondJSON StatusOK (TdxSealResponse_json sealResponse)))
  end).

Definition handleTdxSealFinalize s (request : bytes) : M W Reply :=
  catch (lift (decodeRequest AttestationRequest request)) (λ r,
  match r with
  | inr _ => mret (keyResponseError StatusBadRequest ($"Invalid request"))
  | inl req =>
      r ← Get (sv_sessions s) (ar_SessionId req);
      match r with
      | inr e => mret (keyResponseError (ec_Code e) (ec_Message e))
      | inl record =>
          r ← AttVerify (sv_sealingChallengeResponse s) record (ar_Quote req);
          match r with
          | inr e => mret (keyResponseError (ec_Code e) (ec_Message e))
          | inl _ =>
              catch (lift (json_Unmarshal TdxSealRequest (rs_Payload record))) (λ r,
              match r with
              | inr _ => mret (keyResponseError StatusInternalServerError
                                 ($"Failed to unmarshal seal request from store"))
              | inl sealRequest => seal_and_journal s req sealRequest
              end)
          end
      end
  end).

(** ** handlers.go *)

Definition handleHealth : M W Reply :=
  mret {| rp_code := StatusOK; rp_body := $"OK"; rp_journal := [] |}.

(** [serverName] is the name the client asked for in the TLS handshake. *)
Definition handleGenerateAttestation s (serverName : bytes) : M W Reply :=
  let serverName := match serverName, sv_Domains s with
                    | [], d :: _ => d
                    | _, _ => serverName
                    end in
  let endpoint := JoinHostPort (sv_NodeHost s) (FormatInt (sv_Port s)) in
  catch (tls_Dial endpoint serverName) (λ r,
  match r with
  | inr err => mret (respondError StatusInternalServerError
                       ($"cannot connect to:" ++ endpoint ++ $",error:" ++ Error err))
  | inl [] => mret (respondError StatusInternalServerError ($"no peer certificates"))
  | inl (cert :: _) =>
      catch (GetRemoteReport (Sum256 cert) : M W bytes) (λ r,
      match r with
      | inr err => mret (respondError StatusBadRequest ($"cannot generate quote:" ++ Error err))
      | inl att => mret (respondJSON StatusOK (SGXQuote_json {| SignedQuote := b64_EncodeToString att |}))
      end)
  end).

(** ** The routes *)

Record Request := { rq_Method : bytes; rq_Path : bytes; rq_Body : bytes; rq_ServerName : bytes }.

Definition registerRoutes s : list (bytes * bytes * (Request → M W Reply)) :=
  [($"POST", $"/key/init", λ r, handleKeyRequestInit s (rq_Body r));
   ($"POST", $"/key/finalize", λ r, handleKeyRequestFinalize s (rq_Body r));
   ($"POST", $"/tdx/seal/init", λ r, handleTdxSealInit s (rq_Body r));
   ($"POST", $"/tdx/seal/finalize", λ r, handleTdxSealFinalize s (rq_Body r));
   ($"GET", $"/sgx/attestation", λ r, handleGenerateAttestation s (rq_ServerName r));
   ($"GET", $"/health", λ r, handleHealth)].

(** The route of a request, for a router that matches literal patterns. *)
Definition ServeHTTP s (r : Request) : option (M W Reply) :=
  match List.find (λ x, bool_decide (x.1.1 = rq_Method r) && bool_decide (x.1.2 = rq_Path r)) (registerRoutes s) with
  | Some (_, handler) => Some (handler r)
  | None => None
  end.
End server.

(** ** Reading a handler's result backwards *)

Lemma bind_inv {W A B} (m : M W A) (f : A → M W B) w b w' : (m ≫= f) w = (Ok b, w') →
  ∃ a w1, m w = (Ok a, w1) ∧ f a w1 = (Ok b, w').
Proof. unfold mbind, M_bind. destruct (m w) as [[] w1]; intros; simplify_eq; eauto. Qed.

Lemma catch_inv {W A B} (m : M W A) (k : A + error → M W B) w b w' : catch m k w = (Ok b, w') →
  (∃ a w1, m w = (Ok a, w1) ∧ k (inl a) w1 = (Ok b, w')) ∨
  (∃ e w1, m w = (Err e, w1) ∧ k (inr e) w1 = (Ok b, w')).
Proof. unfold catch. destruct (m w) as [[] w1]; intros; simplify_eq; eauto. Qed.

Lemma catch_lift_inv {W A B} (r : res A) (k : A + error → M W B) w b w' :
  catch (lift r) k w = (Ok b, w') →
  (∃ a, r = Ok a ∧ k (inl a) w = (Ok b, w')) ∨ (∃ e, r = Err e ∧ k (inr e) w = (Ok b, w')).
Proof. unfold catch, lift. destruct r; intros; simplify_eq; eauto. Qed.

Lemma decodeRequest_Marshal `{JsonCodec T} (x : T) : json_ok x →
  (length (json_Marshal x) ≤ body_limit)%nat → decodeRequest T (json_Marshal x) = Ok x.
Proof. intros Hx Hl. unfold decodeRequest. rewrite take_ge by done. by apply Decode_single_Marshal. Qed.

Section inversion.
Context {W : Type} `{Clock W} `{UuidLib W} `{Entropy W} `{QuoteLib} `{QuoteVerifier W} `{CcelLib}.
Context `{HkdfLib} `{CurveLib} `{EcEncoding} `{RsaLib W} `{EcdsaLib W} `{AeadLib} `{EnclaveLib W} `{Dialer W}.
Implicit Types (s : KeyServer W).

(** What a quote that passed the check satisfies. *)
Definition quote_checked (a : AttestationVerificationProtocol W) (record : AttestationRequestStore)
    (tdQuote : bytes) (q : TdxQuote) (w w' : W) : Prop :=
  ∃ qb, b64_DecodeString tdQuote = Ok qb ∧ NewTdxQuote qb = Ok q ∧
    (av_enforceQuoteVerify a = true → Quote_Verify q w = (Ok tt, w')) ∧
    (av_devMode a = false → VerifyReportData q (default [] (rs_Nonce record)) = Ok tt).

Lemma check_nonce_inv (a : AttestationVerificationProtocol W) record q r : check_nonce a record q = Ok r →
  match r with
  | inl q' => q' = q ∧ (av_devMode a = false → VerifyReportData q (default [] (rs_Nonce record)) = Ok tt)
  | inr e => ec_Code e = 401
  end.
Proof.
  unfold check_nonce. destruct (VerifyReportData _ _) as [[]| |]; [by intros [= <-]| |done].
  destruct (av_devMode a); intros [= <-]; done.
Qed.

Lemma AttVerify_inv (a : AttestationVerificationProtocol W) record tdQuote w r w' : AttVerify a record tdQuote w = (Ok r, w') →
  match r with
  | inl q => quote_checked a record tdQuote q w w'
  | inr e => ec_Code e = 400 ∨ ec_Code e = 401
  end.
Proof.
  unfold AttVerify. case_bool_decide; [intros [= <- <-]; by right|].
  intros [(qb & Hb & Hk)|(e & _ & [= <- <-])]%catch_lift_inv; [|by left].
  apply catch_lift_inv in Hk as [(q & Hq & Hk)|(e & _ & [= <- <-])]; [|by left].
  apply catch_inv in Hk as [([] & w1 & Hv & Hk)|(e & w1 & Hv & Hk)].
  - injection Hk as Hk <-. apply check_nonce_inv in Hk. destruct r as [q'|e]; [|by right].
    destruct Hk as [-> Hn]. exists qb. by split_and!.
  - destruct (av_enforceQuoteVerify a) eqn:Henf; [injection Hk as <- <-; by right|].
    injection Hk as Hk <-. apply check_nonce_inv in Hk. destruct r as [q'|e']; [|by right].
    destruct Hk as [-> Hn]. exists qb. split_and!; try done. by rewrite Henf.
Qed.

Lemma Get_code (st : SessionStore W) id w e w' : Get st id w = (Ok (inr e), w') →
  ec_Code e = 401 ∨ ec_Code e = 500.
Proof.
  unfold Get. intros [(a & w1 & _ & Hk)|(x & w1 & _ & Hk)]%catch_inv.
  - destruct (ks_HasNil _ _); [injection Hk as <- _; by left|].
    destruct (json_Unmarshal _ _); [done|injection Hk as <- _; by right|done].
  - destruct (ks_HasNil _ _); injection Hk as <- _; [by left|by right].
Qed.

Lemma keyRequestFinalize_code s id t ctx seed w e w' :
  keyRequestFinalize s id t ctx seed w = (Ok (inr e), w') → ec_Code e = 400 ∨ ec_Code e = 500.
Proof.
  unfold keyRequestFinalize. destruct (derive_key s id t ctx seed); [|intros [= <- _]; by left].
  intros [(a & w1 & _ & [=])|(x & w1 & _ & Hk)]%catch_inv. injection Hk as <- _. by right.
Qed.

(** The key that is handed out. *)
Lemma keyRequestFinalize_key s id t ctx seed w r w' :
  keyRequestFinalize s id t ctx seed w = (Ok (inl r), w') →
  ∃ m, derive_key s id t ctx seed = Some m ∧ m w = (Ok (Key r), w') ∧
    r = {| Key := Key r; Verified := true; Message := [] |}.
Proof.
  unfold keyRequestFinalize. destruct (derive_key s id t ctx seed) as [m|]; [|done].
  intros [(a & w1 & Hm & [= <- <-])|(x & w1 & _ & Hk)]%catch_inv; [|done]. by exists m.
Qed.

Lemma finalize_verified_inv s req kreq q w reply w' :
  finalize_verified s req kreq q w = (Ok reply, w') → rp_code reply = 200 →
  ∃ log fw mrtd m k w1, NewEventLog (ar_EventLog req) = Ok log ∧ EventLog_Verify log q = Ok fw ∧
    GetMrTd q = Ok mrtd ∧ (Session_Delete (sv_sessions s) (ar_SessionId req) w).2 = w1 ∧
    derive_key s (kr_Id kreq) (kr_Type kreq) (kr_Ctx kreq) (DeriveSeedFromMeasurements mrtd fw) = Some m ∧
    m w1 = (Ok k, w') ∧
    rp_body reply = Marshal (KeyResponse_json {| Key := k; Verified := true; Message := [] |}) ++ [x0a].
Proof.
  unfold finalize_verified. intros Hf Hcode.
  apply catch_lift_inv in Hf as [(log & Hlog & Hf)|(e & _ & [= <- _])]; [|done].
  apply catch_lift_inv in Hf as [(fw & Hfw & Hf)|(e & _ & [= <- _])]; [|done].
  assert (∃ w1, (Session_Delete (sv_sessions s) (ar_SessionId req) w).2 = w1 ∧
    release_key s req kreq q log fw w1 = (Ok reply, w')) as (w1 & Hw1 & Hrel).
  { apply catch_inv in Hf as [(a & w1 & Hd & Hf)|(e & w1 & Hd & Hf)]; exists w1; by rewrite Hd. }
  apply bind_inv in Hrel as (mrtd & w2 & Hm & Hrel). injection Hm as Hm <-.
  apply bind_inv in Hrel as ([kr|e] & w3 & Hk & Hrel); injection Hrel as <- <-.
  - apply keyRequestFinalize_key in Hk as (m & Hd & Hrun & ->).
    exists log, fw, mrtd, m, (Key kr), w1. by split_and!.
  - apply keyRequestFinalize_code in Hk as [E|E]; simpl in Hcode; by rewrite E in Hcode.
Qed.

Lemma key_release_inv s request w reply w' :
  handleKeyRequestFinalize s request w = (Ok reply, w') → rp_code reply = 200 →
  ∃ req record kreq q log fw mrtd m k w1 w2,
    decodeRequest AttestationRequest request = Ok req ∧
    Get (sv_sessions s) (ar_SessionId req) w = (Ok (inl record), w1) ∧
    json_Unmarshal KeyRequest (rs_Payload record) = Ok kreq ∧ kr_Id kreq ≠ [] ∧
    quote_checked (sv_challengeResponse s) record (ar_Quote req) q w1 w2 ∧
    NewEventLog (ar_EventLog req) = Ok log ∧ EventLog_Verify log q = Ok fw ∧ GetMrTd q = Ok mrtd ∧
    derive_key s (kr_Id kreq) (kr_Type kreq) (kr_Ctx kreq) (DeriveSeedFromMeasurements mrtd fw) = Some m ∧
    m (Session_Delete (sv_sessions s) (ar_SessionId req) w2).2 = (Ok k, w') ∧
    rp_body reply = Marshal (KeyResponse_json {| Key := k; Verified := true; Message := [] |}) ++ [x0a].
Proof.
  unfold handleKeyRequestFinalize. intros Hf Hcode.
  apply catch_lift_inv in Hf as [(req & Hreq & Hf)|(e & _ & [= <- _])]; [|done].
  apply bind_inv in Hf as ([record|e] & w1 & Hget & Hf).
  2:{ injection Hf as <- _. apply Get_code in Hget as [E|E]; simpl in Hcode; by rewrite E in Hcode. }
  apply catch_lift_inv in Hf as [(kreq & Hkreq & Hf)|(e & _ & [= <- _])]; [|done].
  case_bool_decide as Hid; [by injection Hf as <- _|].
  apply bind_inv in Hf as ([q|e] & w2 & Hv & Hf); apply AttVerify_inv in Hv.
  2:{ injection Hf as <- _. destruct Hv as [E|E]; simpl in Hcode; by rewrite E in Hcode. }
  destruct (finalize_verified_inv s req kreq q w2 reply w' Hf Hcode)
    as (log & fw & mrtd & m & k & w3 & ? & ? & ? & <- & ? & ? & ?).
  exists req, record, kreq, q, log, fw, mrtd, m, k, w1, w2. by split_and!.
Qed.

(** C1. A key is released (status 200) only when the session exists and names an
    id, the quote parses, was verified where verification is enforced, and
    carries the session's nonce outside dev mode, and the event log is
    accepted against that quote.  The key is derived from the quote's MRTD and
    the firmware measurement, after the session was deleted. *)
Theorem key_release_requires_attestation s request w reply w' :
  handleKeyRequestFinalize s request w = (Ok reply, w') → rp_code reply = 200 →
  ∃ req record kreq q log fw mrtd m k w1 w2,
    decodeRequest AttestationRequest request = Ok req ∧
    Get (sv_sessions s) (ar_SessionId req) w = (Ok (inl record), w1) ∧
    json_Unmarshal KeyRequest (rs_Payload record) = Ok kreq ∧ kr_Id kreq ≠ [] ∧
    quote_checked (sv_challengeResponse s) record (ar_Quote req) q w1 w2 ∧
    NewEventLog (ar_EventLog req) = Ok log ∧ EventLog_Verify log q = Ok fw ∧ GetMrTd q = Ok mrtd ∧
    derive_key s (kr_Id kreq) (kr_Type kreq) (kr_Ctx kreq) (DeriveSeedFromMeasurements mrtd fw) = Some m ∧
    m (Session_Delete (sv_sessions s) (ar_SessionId req) w2).2 = (Ok k, w') ∧
    rp_body reply = Marshal (KeyResponse_json {| Key := k; Verified := true; Message := [] |}) ++ [x0a].
Proof. apply key_release_inv. Qed.

(** A finalize request whose attestation succeeds in the state [w]: the
    session exists and names an id, the quote is accepted for it, and the
    event log is accepted against the quote.  [w2] is the state then. *)
Definition attested_request s (request : bytes) (w : W) (req : AttestationRequest) (kreq : KeyRequest)
    (q : TdxQuote) (log : EventLogger) (fw : bytes) (w2 : W) : Prop :=
  ∃ record w1, decodeRequest AttestationRequest request = Ok req ∧
    Get (sv_sessions s) (ar_SessionId req) w = (Ok (inl record), w1) ∧
    json_Unmarshal KeyRequest (rs_Payload record) = Ok kreq ∧ kr_Id kreq ≠ [] ∧
    AttVerify (sv_challengeResponse s) record (ar_Quote req) w1 = (Ok (inl q), w2) ∧
    NewEventLog (ar_EventLog req) = Ok log ∧ EventLog_Verify log q = Ok fw.

(** What the end of the handler writes to the journal: one record with the
    outcome, for the request that was verified. *)
Definition journaled (req : AttestationRequest) (kreq : KeyRequest) (reply : Reply) : Prop :=
  ∃ rec, rp_journal reply = [rec] ∧ jr_Category rec = CategoryKDS ∧ jr_Type rec = TypeKeyRequest ∧
    jr_ResourceId rec = kr_Id kreq ∧ jr_SessionId rec = ar_SessionId req ∧ jr_Quote rec = ar_Quote req ∧
    jr_Status rec = if decide (rp_code reply = 200) then StatusSuccess else StatusFailure.

Lemma release_key_journaled s req kreq q log fw w reply w' :
  release_key s req kreq q log fw w = (Ok reply, w') →
  journaled req kreq reply ∧ rp_code reply ∈ [200; 400; 500].
Proof.
  intros Hrel. apply bind_inv in Hrel as (mrtd & w2 & _ & Hrel).
  apply bind_inv in Hrel as ([kr|e] & w3 & Hk & Hrel); injection Hrel as <- <-.
  - split; [eexists; split_and!; done|by left].
  - apply keyRequestFinalize_code in Hk. split; [|cbn; destruct Hk as [-> | ->]; set_solver].
    eexists; split_and!; try done. cbn. rewrite decide_False; [done|]. lia.
Qed.

(** After a successful attestation the handler deletes the session and goes
    on with [release_key]. *)
Lemma attested_releases s request w req kreq q log fw w2 : attested_request s request w req kreq q log fw w2 →
  handleKeyRequestFinalize s request w =
  catch (Session_Delete (sv_sessions s) (ar_SessionId req)) (λ _, release_key s req kreq q log fw) w2.
Proof.
  intros (record & w1 & Hreq & Hget & Hk & Hid & Hv & Hlog & Hfw).
  unfold handleKeyRequestFinalize, mbind, M_bind, catch at 1, lift. rewrite Hreq, Hget.
  unfold catch at 1. rewrite Hk, bool_decide_false, Hv by done. unfold finalize_verified.
  unfold catch at 1, lift. rewrite Hlog. unfold catch at 1. by rewrite Hfw.
Qed.

(** A reply comes from there or from a refusal. *)
Lemma finalize_cases s request w reply w' : handleKeyRequestFinalize s request w = (Ok reply, w') →
  (rp_journal reply = [] ∧ rp_code reply ∈ [400; 401; 500]) ∨
  ∃ req kreq q log fw w2, attested_request s request w req kreq q log fw w2.
Proof.
  unfold handleKeyRequestFinalize. intros Hf.
  apply catch_lift_inv in Hf as [(req & Hreq & Hf)|(e & _ & [= <- _])]; [|left; by set_solver].
  apply bind_inv in Hf as ([record|e] & w1 & Hget & Hf).
  2:{ injection Hf as <- _. apply Get_code in Hget. left. set_solver. }
  apply catch_lift_inv in Hf as [(kreq & Hkreq & Hf)|(e & _ & [= <- _])]; [|left; by set_solver].
  case_bool_decide as Hid; [injection Hf as <- _; left; by set_solver|].
  apply bind_inv in Hf as ([q|e] & w2 & Hv & Hf).
  2:{ apply AttVerify_inv in Hv. injection Hf as <- _. left. set_solver. }
  apply catch_lift_inv in Hf as [(log & Hlog & Hf)|(e & _ & [= <- _])]; [|left; by set_solver].
  apply catch_lift_inv in Hf as [(fw & Hfw & Hf)|(e & _ & [= <- _])]; [|left; by set_solver].
  right. exists req, kreq, q, log, fw, w2, record, w1. by split_and!.
Qed.

(** C23. The journal of the finalize handler, whenever it replies.  A request
    whose attestation succeeded leaves exactly one record, for its session,
    resource and quote, that says SUCCESS if the key was released (status
    200) and FAIL if the derivation failed (400 for an unknown key type, 500
    otherwise).  Any other request is refused (400, 401 or 500) and leaves
    none: failed attestations are not journaled. *)
Theorem journal_records_attested_requests s request w reply w' :
  handleKeyRequestFinalize s request w = (Ok reply, w') →
  (∀ req kreq q log fw w2, attested_request s request w req kreq q log fw w2 →
     journaled req kreq reply ∧ rp_code reply ∈ [200; 400; 500]) ∧
  ((¬ ∃ req kreq q log fw w2, attested_request s request w req kreq q log fw w2) →
     rp_journal reply = [] ∧ rp_code reply ∈ [400; 401; 500]).
Proof.
  intros Hf. split.
  - intros req kreq q log fw w2 Ha. rewrite (attested_releases _ _ _ _ _ _ _ _ _ Ha) in Hf.
    apply catch_inv in Hf as [(a & w1 & _ & Hf)|(e & w1 & _ & Hf)]; by eapply release_key_journaled.
  - intros Hn. by destruct (finalize_cases s request w reply w' Hf).
Qed.
End inversion.

(** ** The protocols from end to end *)

Section protocol.
Context {W : Type} `{CL : Clock W} `{UL : UuidLib W} `{EN : Entropy W} `{QL : QuoteLib} `{QV : QuoteVerifier W}.
Context `{CC : CcelLib} `{HL : HkdfLaws} `{CVL : CurveLaws} `{EE : EcEncoding} `{RL : RsaLib W} `{ED : EcdsaLib W}.
Context `{AL : AeadLaws}.
Context `{EEL : !EcEncodingLaws} (ks : BaseKeyStore W) `{SL : !StoreLaws ks} `{WE : !WebEnv ks} `{RE : !RsaEnv ks}.

(** A server on the store [ks] whose node holds the master key [mk]. *)
Record wired (s : KeyServer W) (mk : bytes) : Prop := {
  w_sessions : sv_sessions s = NewSessionStore ks;
  w_challenge : av_sessions (sv_challengeResponse s) = NewSessionStore ks;
  w_sealing : av_sessions (sv_sealingChallengeResponse s) = NewSessionStore ks;
  w_vault : vault_with_key (vault (sv_keyService s)) mk;
  w_keyStore : keyStore (sv_keyService s) = ks
}.

(** The quote that a VM sends for a nonce: it parses, Intel vouches for it and
    it carries the nonce. *)
Definition attests (qb nonce mrtd : bytes) (q : TdxQuote) : Prop :=
  NewTdxQuote qb = Ok q ∧
  (∃ b, q_TdQuoteBody (parsed q) = Some b ∧ b_ReportData b = Some nonce ∧ b_MrTd b = Some mrtd) ∧
  ∀ w, st_ok w → ∃ w', Quote_Verify q w = (Ok tt, w') ∧ st_same w w'.

(** A session that exists. *)
Definition has_session (w : W) (id nonce payload : bytes) : Prop :=
  st_ok w ∧ st_content w (session_key id) = Some (json_Marshal (session_record nonce payload)).

Lemma has_session_same w w' id nonce payload : st_same w w' → has_session w id nonce payload →
  has_session w' id nonce payload.
Proof. intros (Hok & _ & Hs) [_ Hc]. split; [done|]. by rewrite (proj1 (Hs _)). Qed.

Lemma Init_session (a : AttestationVerificationProtocol W) data w :
  av_sessions a = NewSessionStore ks → st_ok w →
  ∃ nonce id w1, Init a data w = (Ok {| vr_Nonce := b64_EncodeToString nonce; vr_SessionId := id |}, w1) ∧
    length nonce = 64%nat ∧ valid_utf8 id ∧
    ∀ d, 0 ≤ d < 60 → has_session (st_elapse d w1) id nonce data.
Proof.
  intros Ha Hok. pose proof (env_draw 64 w Hok) as (Hok1 & _ & _). pose proof (draw_length 64 w) as Hl.
  unfold Init, GenerateNonce, mbind, M_bind. rewrite Ha.
  destruct (draw 64 w) as [nonce w1]. simpl in Hl, Hok1.
  destruct (Create_stores ks nonce data w1 Hok1) as (u & w2 & Hc & Hok2 & Hn2 & Hutf & Hi).
  set (id := session_id (UnixMilli w1) u) in *. exists nonce, id, w2. rewrite Hc. split; [done|].
  split; [done|]. split; [done|]. intros d Hd. destruct (Hi (session_key id)) as [Hcont Hdl].
  rewrite decide_True in Hcont by done. rewrite decide_True in Hdl by done.
  split; [apply st_elapse_spec; [done|lia]|].
  rewrite (st_elapse_deadline w2 d _ _ Hok2 ltac:(lia) Hdl), decide_False, Hcont; [done|].
  rewrite Hn2. unfold KEY_REQ_SESSION_EXPIRY_SECONDS. lia.
Qed.

(** An attesting quote is accepted. *)
Lemma AttVerify_attests (a : AttestationVerificationProtocol W) qb nonce payload mrtd q w :
  attests qb nonce mrtd q → st_ok w →
  ∃ w', AttVerify a (session_record nonce payload) (b64_EncodeToString qb) w = (Ok (inl q), w') ∧ st_same w w'.
Proof.
  intros (Hq & (b & Hb & Hrd & _) & Hv) Hok. destruct (Hv w Hok) as (w' & Hver & Hs). exists w'.
  split; [|done]. unfold AttVerify. rewrite bool_decide_false.
  2:{ rewrite b64_empty. intros ->. by unfold NewTdxQuote in Hq. }
  unfold catch, lift. rewrite b64_round_trip, Hq, Hver. unfold check_nonce.
  assert (VerifyReportData q (default [] (rs_Nonce (session_record nonce payload))) = Ok tt) as ->; [|done].
  apply (VerifyReportData_Ok q _ b Hb). by rewrite Hrd.
Qed.

(** A request that refers to a session and carries a quote. *)
Definition finalize_request (id qb eventLog : bytes) : AttestationRequest :=
  {| ar_SessionId := id; ar_Quote := b64_EncodeToString qb; ar_EventLog := eventLog |}.

Lemma finalize_request_ok id qb log : valid_utf8 id → valid_utf8 log →
  json_ok (finalize_request id qb log).
Proof. intros. split_and!; try done. apply ascii_valid, b64_ascii. Qed.

(** The finalize handler up to the verified quote, then what comes after. *)
Lemma finalize_reaches s mk kreq id qb log nonce mrtd q w : wired s mk →
  KeyRequest_ok kreq → kr_Id kreq ≠ [] → valid_utf8 id → valid_utf8 log →
  (length (json_Marshal (finalize_request id qb log)) ≤ body_limit)%nat →
  has_session w id nonce (json_Marshal kreq) → attests qb nonce mrtd q →
  ∃ w1, st_same w w1 ∧
    handleKeyRequestFinalize s (json_Marshal (finalize_request id qb log)) w =
    finalize_verified s (finalize_request id qb log) kreq q w1.
Proof.
  intros Hw Hk Hid Hu1 Hu2 Hlen [Hok Hc] Hq.
  destruct (Get_found ks id w (session_record nonce (json_Marshal kreq)) Hok) as (w1 & Hget & Hs1);
    [by apply json_Marshal_valid|done|].
  destruct (AttVerify_attests (sv_challengeResponse s) qb nonce (json_Marshal kreq) mrtd q w1 Hq)
    as (w2 & Hv & Hs2); [apply Hs1|].
  exists w2. split; [by eapply st_same_trans|].
  unfold handleKeyRequestFinalize, mbind, M_bind, catch, lift.
  rewrite decodeRequest_Marshal by (done || by apply finalize_request_ok).
  rewrite (w_sessions _ _ Hw). cbn [finalize_request ar_SessionId ar_Quote rs_Payload session_record].
  rewrite Hget. cbn [rs_Payload session_record]. rewrite json_round_trip by done.
  rewrite bool_decide_false by done. by rewrite Hv.
Qed.

(** After its deletion a session is refused. *)
Lemma finalize_refused s mk id qb log w : wired s mk → valid_utf8 id → valid_utf8 log →
  (length (json_Marshal (finalize_request id qb log)) ≤ body_limit)%nat →
  st_ok w → st_content w (session_key id) = None →
  (handleKeyRequestFinalize s (json_Marshal (finalize_request id qb log)) w).1 =
    Ok (keyResponseError 401 ($"Session expired or invalid")).
Proof.
  intros Hw Hu1 Hu2 Hlen Hok Hc. destruct (Get_missing ks id w Hok Hc) as (w1 & Hget & _).
  unfold handleKeyRequestFinalize, mbind, M_bind, catch, lift.
  rewrite decodeRequest_Marshal by (done || by apply finalize_request_ok).
  rewrite (w_sessions _ _ Hw). cbn [finalize_request ar_SessionId]. by rewrite Hget.
Qed.

(** What a key request comes to, for the id, context and key type of [kreq]
    and the measurements' [seed]: the key, or the status of the error.  [w]
    and [w2] are the states before and after.  A P-256 key exists when the
    derived scalar fills its 32 bytes, a P-384 key never; RSA keys are made
    once and kept in the store. *)
Inductive key_outcome (s : KeyServer W) (kreq : KeyRequest) (seed : bytes) (w w2 : W) : AnyKey + Z → Prop :=
  | out_symmetric k : kr_Type kreq = Symmetric →
      DeriveHKDF (sv_keyService s) (kr_Id kreq) seed (kr_Ctx kreq) = Ok k →
      key_outcome s kreq seed w w2 (inl (SymmetricKey k))
  | out_x25519 kp : kr_Type kreq = KT_X25519 →
      DeriveX25519 (sv_keyService s) (kr_Id kreq) seed (kr_Ctx kreq) = Ok kp →
      key_outcome s kreq seed w w2 (inl (PairKey (Some kp)))
  | out_p256 secret kp : kr_Type kreq = KT_P256 →
      deriveHKDF (sv_keyService s) (kr_Id kreq) seed (kr_Ctx kreq) = Ok secret →
      256 ^ 31 ≤ reduce_scalar secret P256 →
      DeriveECDSA (sv_keyService s) (kr_Id kreq) seed (kr_Ctx kreq) P256 32 = Ok kp →
      key_outcome s kreq seed w w2 (inl (PairKey (Some kp)))
  | out_p256_short secret : kr_Type kreq = KT_P256 →
      deriveHKDF (sv_keyService s) (kr_Id kreq) seed (kr_Ctx kreq) = Ok secret →
      reduce_scalar secret P256 < 256 ^ 31 → key_outcome s kreq seed w w2 (inr 500)
  | out_p384 : kr_Type kreq = KT_P384 → key_outcome s kreq seed w w2 (inr 500)
  | out_rsa_stored kp : kr_Type kreq = KT_RSA → KeyPair_ok kp →
      st_content w (rsa_key (kr_Id kreq)) = Some (json_Marshal (Some kp)) →
      key_outcome s kreq seed w w2 (inl (PairKey (Some kp)))
  | out_rsa_new kp : kr_Type kreq = KT_RSA → KeyPair_ok kp →
      st_content w (rsa_key (kr_Id kreq)) = None →
      st_content w2 (rsa_key (kr_Id kreq)) = Some (json_Marshal (Some kp)) →
      key_outcome s kreq seed w w2 (inl (PairKey (Some kp)))
  | out_unknown : kr_Type kreq ∉ [Symmetric; KT_X25519; KT_P256; KT_P384; KT_RSA] →
      key_outcome s kreq seed w w2 (inr 400).

(** Of the state before, only the stored RSA key matters. *)
Lemma key_outcome_state s kreq seed w w' w2 o :
  st_content w' (rsa_key (kr_Id kreq)) = st_content w (rsa_key (kr_Id kreq)) →
  key_outcome s kreq seed w w2 o → key_outcome s kreq seed w' w2 o.
Proof.
  intros E [k ??|kp ??|secret kp ????|secret ???|?|kp ???|kp ????|?].
  - by apply out_symmetric.
  - by apply out_x25519.
  - by apply (out_p256 s kreq seed w' w2 secret).
  - by apply (out_p256_short s kreq seed w' w2 secret).
  - by apply out_p384.
  - apply out_rsa_stored; [done..|by rewrite E].
  - apply out_rsa_new; [done..|by rewrite E|done].
  - by apply out_unknown.
Qed.

Definition answers (reply : Reply) (o : AnyKey + Z) : Prop :=
  match o with
  | inl k => rp_code reply = 200 ∧
      rp_body reply = Marshal (KeyResponse_json {| Key := k; Verified := true; Message := [] |}) ++ [x0a]
  | inr code => rp_code reply = code
  end.

(** The RSA key of the id, if there is one, was stored by [CreateRSA]. *)
Definition rsa_stored (w : W) (id : bytes) : Prop :=
  ∀ c, st_content w (rsa_key id) = Some c → ∃ kp, KeyPair_ok kp ∧ c = json_Marshal (Some kp).

Lemma rsa_not_session id id' : rsa_key id ≠ session_key id'.
Proof. done. Qed.

(** The derivation in a state [w] of the store. *)
Lemma derive_outcome s mk kreq seed w : wired s mk → st_ok w →
  (kr_Type kreq = KT_RSA → rsa_stored w (kr_Id kreq)) →
  ∃ r w2, keyRequestFinalize s (kr_Id kreq) (kr_Type kreq) (kr_Ctx kreq) seed w = (Ok r, w2) ∧
    st_ok w2 ∧ (∀ i, i ≠ rsa_key (kr_Id kreq) → st_content w2 i = st_content w i) ∧
    ∃ o, key_outcome s kreq seed w w2 o ∧
      match r, o with
      | inl kr, inl k => kr = {| Key := k; Verified := true; Message := [] |}
      | inr e, inr code => ec_Code e = code
      | _, _ => False
      end.
Proof.
  intros Hw Hok Hrsa. pose proof (w_vault _ _ Hw) as Hv. unfold keyRequestFinalize, derive_key.
  case_bool_decide as Ht1; [|case_bool_decide as Ht2; [|case_bool_decide as Ht3;
    [|case_bool_decide as Ht4; [|case_bool_decide as Ht5]]]].
  - destruct (deriveHKDF_with_key _ mk (kr_Id kreq) seed (kr_Ctx kreq) Hv) as (_ & k & Hk & _).
    unfold catch, lift, DeriveHKDF. rewrite Hk. eexists _, w. split; [done|]. split; [done|]. split; [done|].
    eexists (inl _). split; [apply out_symmetric; [done|]|done]. unfold DeriveHKDF. by rewrite Hk.
  - destruct (DeriveX25519_total _ mk (kr_Id kreq) seed (kr_Ctx kreq) Hv) as (kp & Hk).
    unfold catch, lift. rewrite Hk. eexists _, w. split; [done|]. split; [done|]. split; [done|].
    eexists (inl _). by split; [apply out_x25519|].
  - destruct (DeriveECDSA_P256 _ mk (kr_Id kreq) seed (kr_Ctx kreq) 32 Hv) as (secret & Hk & Hd).
    case_decide as Hs; [destruct Hd as [kp Hd]|destruct Hd as [e Hd]]; unfold catch, lift; rewrite Hd;
      eexists _, w; (split; [done|]); (split; [done|]); (split; [done|]).
    + eexists (inl _). by split; [eapply out_p256|].
    + eexists (inr _). split; [eapply out_p256_short; [done..|]|done]. by apply Z.nle_gt.
  - destruct (deriveHKDF_with_key _ mk (kr_Id kreq) seed (kr_Ctx kreq) Hv) as (_ & k & Hk & Hl).
    unfold catch, lift, DeriveECDSA. rewrite Hk. cbn [mbind res_bind]. rewrite ECDSA_P384_always_fails by done.
    eexists _, w. split; [done|]. split; [done|]. split; [done|]. eexists (inr _). by split; [apply out_p384|].
  - destruct (st_content w (rsa_key (kr_Id kreq))) as [c|] eqn:Hc.
    + destruct (Hrsa Ht5 c Hc) as (kp & Hkp & ->).
      destruct (CreateRSA_stored ks _ (w_keyStore _ _ Hw) _ w kp Hok Hkp Hc) as (w2 & Hr & Hok2 & _ & Hi).
      unfold catch, mbind, M_bind. rewrite Hr. eexists _, w2. split; [done|]. split; [done|].
      split; [intros i _; apply Hi|]. eexists (inl _). by split; [eapply out_rsa_stored|].
    + destruct (CreateRSA_fresh ks _ (w_keyStore _ _ Hw) _ w Hok Hc) as (kp & w2 & Hr & Hok2 & Hkp & Hi).
      unfold catch, mbind, M_bind. rewrite Hr. eexists _, w2. split; [done|]. split; [done|].
      split; [intros i Hne; by rewrite Hi, decide_False|]. eexists (inl _).
      split; [eapply out_rsa_new; try done|done]. by rewrite Hi, decide_True.
  - eexists _, w. split; [done|]. split; [done|]. split; [done|]. eexists (inr _).
    split; [apply out_unknown|done]. rewrite !not_elem_of_cons. split_and!; try done. apply not_elem_of_nil.
Qed.

(** From the verified quote on: the outcome and the end of the session. *)
Lemma finalize_verified_outcome s mk kreq id qb log64 log fw mrtd q b w : wired s mk → st_ok w →
  (kr_Type kreq = KT_RSA → rsa_stored w (kr_Id kreq)) →
  q_TdQuoteBody (parsed q) = Some b → b_MrTd b = Some mrtd →
  NewEventLog log64 = Ok log → EventLog_Verify log q = Ok fw →
  ∃ o reply w2, key_outcome s kreq (DeriveSeedFromMeasurements mrtd fw) w w2 o ∧
    finalize_verified s (finalize_request id qb log64) kreq q w = (Ok reply, w2) ∧ answers reply o ∧
    st_ok w2 ∧ st_content w2 (session_key id) = None.
Proof.
  intros Hw Hok Hrsa Hb Hm Hlog Hfw.
  destruct (st_Delete w (session_key id) Hok) as (w3 & Hdel & Hok3 & _ & Hi3).
  assert (st_content w3 (rsa_key (kr_Id kreq)) = st_content w (rsa_key (kr_Id kreq))) as Hk3
    by by rewrite (proj1 (Hi3 _)), decide_False.
  destruct (derive_outcome s mk kreq (DeriveSeedFromMeasurements mrtd fw) w3 Hw Hok3)
    as (r & w4 & Hr & Hok4 & Hi4 & o & Ho & Hro).
  { unfold rsa_stored. rewrite Hk3. done. }
  exists o. assert (key_outcome s kreq (DeriveSeedFromMeasurements mrtd fw) w w4 o) as Ho'.
  { by apply (key_outcome_state s kreq _ w3). }
  assert (∃ reply, finalize_verified s (finalize_request id qb log64) kreq q w = (Ok reply, w4) ∧ answers reply o)
    as (reply & Hrun & Ha).
  { unfold finalize_verified, release_key, mbind, M_bind, catch, lift. cbn [finalize_request ar_EventLog].
    rewrite Hlog, Hfw. unfold Session_Delete. rewrite (w_sessions _ _ Hw).
    cbn [NewSessionStore kv finalize_request ar_SessionId]. unfold session_key in Hdel. rewrite Hdel.
    unfold GetMrTd, body. rewrite Hb. cbn [deref]. unfold mbind, res_bind. rewrite Hm.
    change (default [] (Some mrtd)) with mrtd. rewrite Hr.
    destruct r as [kr|e], o as [k|code]; try done; eexists; (split; [done|]); [by subst kr|done]. }
  exists reply, w4. do 3 (split; [done|]). split; [done|].
  rewrite Hi4 by (intros E; by eapply rsa_not_session). by rewrite (proj1 (Hi3 _)), decide_True.
Qed.

(** One round of the protocol in which different servers on one store may
    answer: [s] opens the session, [s'] answers the request, and no server
    accepts the request again. *)
Lemma key_round s mk kreq w : wired s mk → st_ok w →
  KeyRequest_ok kreq → kr_Id kreq ≠ [] → kr_Type kreq ≠ [] →
  (length (json_Marshal kreq) ≤ body_limit)%nat →
  ∃ nonce id w1,
    handleKeyRequestInit s (json_Marshal kreq) w =
      (Ok (respondJSON 200 (VerifyResponse_json
             {| vr_Nonce := b64_EncodeToString nonce; vr_SessionId := id |})), w1) ∧
    length nonce = 64%nat ∧ valid_utf8 id ∧
    ∀ s' mk' d q qb log64 log fw mrtd, wired s' mk' → 0 ≤ d < 60 → attests qb nonce mrtd q →
      (kr_Type kreq = KT_RSA → rsa_stored (st_elapse d w1) (kr_Id kreq)) →
      valid_utf8 log64 → NewEventLog log64 = Ok log → EventLog_Verify log q = Ok fw →
      let request := json_Marshal (finalize_request id qb log64) in
      (length request ≤ body_limit)%nat →
      ∃ o reply w2,
        key_outcome s' kreq (DeriveSeedFromMeasurements mrtd fw) (st_elapse d w1) w2 o ∧
        handleKeyRequestFinalize s' request (st_elapse d w1) = (Ok reply, w2) ∧ answers reply o ∧
        ∀ s'' mk'', wired s'' mk'' →
          (handleKeyRequestFinalize s'' request w2).1 = Ok (keyResponseError 401 ($"Session expired or invalid")).
Proof.
  intros Hw Hok Hk Hid Hty Hlen.
  destruct (Init_session (sv_challengeResponse s) (json_Marshal kreq) w (w_challenge _ _ Hw) Hok)
    as (nonce & id & w1 & Hinit & Hn & Hutf & Hses).
  exists nonce, id, w1. split; [|split; [done|split; [done|]]].
  { unfold handleKeyRequestInit, mbind, M_bind, catch, lift. rewrite decodeRequest_Marshal by done.
    unfold keyRequestInit, catch. rewrite !bool_decide_false by done. cbn [orb]. by rewrite Hinit. }
  intros s' mk' d q qb log64 log fw mrtd Hw' Hd Hq Hrsa Hlog64 Hlog Hfw request Hreq.
  destruct (finalize_reaches s' mk' kreq id qb log64 nonce mrtd q (st_elapse d w1) Hw' Hk Hid Hutf Hlog64 Hreq
    (Hses d Hd) Hq) as (w2 & (Hok2 & _ & Hi2) & Hfin).
  destruct Hq as (_ & (b & Hb & _ & Hm) & _).
  destruct (finalize_verified_outcome s' mk' kreq id qb log64 log fw mrtd q b w2 Hw' Hok2)
    as (o & reply & w3 & Ho & Hrel & Ha & Hok3 & Hgone); [|done..|].
  { unfold rsa_stored. by rewrite (proj1 (Hi2 _)). }
  exists o, reply, w3. unfold request. rewrite Hfin. split.
  { apply (key_outcome_state s' kreq _ w2); [|done]. by rewrite (proj1 (Hi2 _)). }
  do 2 (split; [done|]). intros s'' mk'' Hw''. by apply (finalize_refused s'' mk'' id qb log64 w3).
Qed.

(** C4. The whole protocol, one call after the other on a store that keeps
    its laws.  Init hands out a fresh 64-byte nonce and a session for a
    request of any key type; within 60 seconds a VM whose quote carries the
    nonce and whose event log is accepted gets what [key_outcome] says: the
    key derived from its id, context and measurements for the types SYMMETRIC
    and X25519, also for P256 unless the derived scalar is shorter than 32
    bytes (then 500), the stored or a new key for RSA, 500 for P384 and 400
    for a type there is no derivation for.  In every case the session is used
    up: the same request afterwards is refused. *)
Theorem attested_vm_gets_its_key s mk kreq w : wired s mk → st_ok w →
  KeyRequest_ok kreq → kr_Id kreq ≠ [] → kr_Type kreq ≠ [] →
  (length (json_Marshal kreq) ≤ body_limit)%nat →
  ∃ nonce id w1,
    handleKeyRequestInit s (json_Marshal kreq) w =
      (Ok (respondJSON 200 (VerifyResponse_json
             {| vr_Nonce := b64_EncodeToString nonce; vr_SessionId := id |})), w1) ∧
    length nonce = 64%nat ∧ valid_utf8 id ∧
    ∀ d q qb log64 log fw mrtd, 0 ≤ d < 60 → attests qb nonce mrtd q →
      (kr_Type kreq = KT_RSA → rsa_stored (st_elapse d w1) (kr_Id kreq)) →
      valid_utf8 log64 → NewEventLog log64 = Ok log → EventLog_Verify log q = Ok fw →
      let request := json_Marshal (finalize_request id qb log64) in
      (length request ≤ body_limit)%nat →
      ∃ o reply w2,
        key_outcome s kreq (DeriveSeedFromMeasurements mrtd fw) (st_elapse d w1) w2 o ∧
        handleKeyRequestFinalize s request (st_elapse d w1) = (Ok reply, w2) ∧ answers reply o ∧
        (handleKeyRequestFinalize s request w2).1 = Ok (keyResponseError 401 ($"Session expired or invalid")).
Proof.
  intros Hw Hok Hk Hid Hty Hlen. destruct (key_round s mk kreq w Hw Hok Hk Hid Hty Hlen) as (nonce & id & w1 & Hinit & Hnonce & Hutf & Hfin).
  exists nonce, id, w1. split; [exact Hinit|]. split; [exact Hnonce|]. split; [exact Hutf|]. intros d q qb log64 log fw mrtd Hd Hq Hrsa Hlog64 Hlog Hfw request Hreq.
  destruct (Hfin s mk d q qb log64 log fw mrtd Hw Hd Hq Hrsa Hlog64 Hlog Hfw Hreq) as (o & reply & w2 & Ho & Hf & Ha & Hagain).
  exists o, reply, w2. split; [exact Ho|]. split; [exact Hf|]. split; [exact Ha|]. exact (Hagain s mk Hw).
Qed.

(** One round of the sealing protocol's end; the session stays. *)
Lemma seal_round s mk req mrtd fw payload id qb log nonce mq q w : wired s mk →
  TdxSealRequest_ok req → b64_DecodeString (ts_Mrtd req) = Ok mrtd →
  b64_DecodeString (ts_Cfv req) = Ok fw → b64_DecodeString (ts_Payload req) = Ok payload →
  valid_utf8 id → valid_utf8 log →
  (length (json_Marshal (finalize_request id qb log)) ≤ body_limit)%nat →
  has_session w id nonce (json_Marshal req) → attests qb nonce mq q →
  ∃ reply sealed key w', 
    handleTdxSealFinalize s (json_Marshal (finalize_request id qb log)) w = (Ok reply, w') ∧
    rp_code reply = 200 ∧
    rp_body reply = Marshal (TdxSealResponse_json {| tr_Id := ts_Id req; tr_SealedPayload := sealed |}) ++ [x0a] ∧
    deriveHKDF (sv_keyService s) (ts_Id req) (DeriveSeedFromMeasurements mrtd fw) ContextVMBoot = Ok key ∧
    DecryptAESGCM key sealed = Ok payload ∧ has_session w' id nonce (json_Marshal req).
Proof.
  intros Hw Hreq Hm Hf Hp Hu1 Hu2 Hlen Hses Hq. pose proof Hses as [Hok Hc].
  destruct (Get_found ks id w (session_record nonce (json_Marshal req)) Hok) as (w1 & Hget & Hs1);
    [by apply json_Marshal_valid|done|].
  destruct (AttVerify_attests (sv_sealingChallengeResponse s) qb nonce (json_Marshal req) mq q w1 Hq)
    as (w2 & Hv & Hs2); [apply Hs1|].
  destruct (TDXSeal_opens (sv_keyService s) mk req mrtd fw payload w2 (w_vault _ _ Hw) Hm Hf Hp)
    as (sealed & key & Hseal & Hkey & Hdec).
  assert (st_ok w2) as Hok2 by apply Hs2.
  eexists _, sealed, key, _. split.
  { unfold handleTdxSealFinalize, mbind, M_bind, catch, lift.
    rewrite decodeRequest_Marshal by (done || by apply finalize_request_ok).
    rewrite (w_sessions _ _ Hw). cbn [finalize_request ar_SessionId ar_Quote].
    rewrite Hget, Hv. cbn [rs_Payload session_record]. rewrite json_round_trip by done.
    unfold seal_and_journal, catch. by rewrite Hseal. }
  split_and!; try done. eapply has_session_same; [|exact Hses].
  eapply st_same_trans; [done|]. eapply st_same_trans; [done|]. by apply env_draw.
Qed.

(** C25. The sealing protocol: within 60 seconds of init a quote over the nonce, of
    a machine with any measurements, seals the payload for the measurements
    named in the request; the session stays, so that the same request
    succeeds again. *)
Theorem seal_session_is_reusable s mk req mrtd fw payload w : wired s mk → st_ok w →
  TdxSealRequest_ok req → (length (json_Marshal req) ≤ body_limit)%nat →
  ts_Mrtd req ≠ [] → ts_Cfv req ≠ [] → ts_Payload req ≠ [] →
  b64_DecodeString (ts_Mrtd req) = Ok mrtd → b64_DecodeString (ts_Cfv req) = Ok fw →
  b64_DecodeString (ts_Payload req) = Ok payload →
  ∃ nonce id w1,
    handleTdxSealInit s (json_Marshal req) w =
      (Ok (respondJSON 200 (VerifyResponse_json
             {| vr_Nonce := b64_EncodeToString nonce; vr_SessionId := id |})), w1) ∧ valid_utf8 id ∧
    ∀ d qb q mq log64, 0 ≤ d < 60 → attests qb nonce mq q → valid_utf8 log64 →
      let request := json_Marshal (finalize_request id qb log64) in
      (length request ≤ body_limit)%nat →
      ∃ reply sealed key w2 reply' w3,
        handleTdxSealFinalize s request (st_elapse d w1) = (Ok reply, w2) ∧ rp_code reply = 200 ∧
        rp_body reply = Marshal (TdxSealResponse_json
          {| tr_Id := ts_Id req; tr_SealedPayload := sealed |}) ++ [x0a] ∧
        deriveHKDF (sv_keyService s) (ts_Id req) (DeriveSeedFromMeasurements mrtd fw) ContextVMBoot = Ok key ∧
        DecryptAESGCM key sealed = Ok payload ∧
        handleTdxSealFinalize s request w2 = (Ok reply', w3) ∧ rp_code reply' = 200.
Proof.
  intros Hw Hok Hreq Hlen Hn1 Hn2 Hn3 Hm Hf Hp.
  destruct (Init_session (sv_sealingChallengeResponse s) (json_Marshal req) w (w_sealing _ _ Hw) Hok)
    as (nonce & id & w1 & Hinit & Hn & Hutf & Hses).
  exists nonce, id, w1. split; [|split; [done|]].
  { unfold handleTdxSealInit, mbind, M_bind, catch, lift. rewrite decodeRequest_Marshal by done.
    unfold tdxSealRequestInit, catch. rewrite !bool_decide_false by done. cbn [orb]. by rewrite Hinit. }
  intros d qb q mq log64 Hd Hq Hlog64 request Hrl.
  destruct (seal_round s mk req mrtd fw payload id qb log64 nonce mq q (st_elapse d w1) Hw Hreq Hm Hf Hp
    Hutf Hlog64 Hrl (Hses d Hd) Hq) as (reply & sealed & key & w2 & ? & ? & ? & ? & ? & Hses2).
  destruct (seal_round s mk req mrtd fw payload id qb log64 nonce mq q w2 Hw Hreq Hm Hf Hp
    Hutf Hlog64 Hrl Hses2 Hq) as (reply' & _ & _ & w3 & ? & ? & _).
  exists reply, sealed, key, w2, reply', w3. by split_and!.
Qed.

End protocol.

(** ** Every request gets a reply *)

(** The libraries do not panic, whatever their results, and a quote that
    parses has a body.  Nothing is assumed about event logs, the contents of
    the store or its availability. *)
Class LibrariesSafe (W : Type) `{QuoteLib} `{QuoteVerifier W} `{CcelLib} `{EcEncoding} `{RsaLib W} := {
  ls_quote qb : safe (QuoteToProto qb);
  ls_body qb q : QuoteToProto qb = Ok (IsQuoteV4 q) → is_Some (q_TdQuoteBody q);
  ls_verify (raw : bytes) : quiet (RawTdxQuote raw : M W unit);
  ls_ccel b : safe (ccel_Parse b);
  ls_ec k : safe (MarshalECPrivateKey k);
  ls_pkix k : safe (ec_MarshalPKIXPublicKey k);
  ls_rsa n : quiet (rsa_GenerateKey n : M W _);
  ls_rsa_pkix (k : rsa_PrivateKey) : safe (rsa_MarshalPKIXPublicKey k)
}.

Section replies.
Context {W : Type} `{CL : Clock W} `{UL : UuidLib W} `{EN : Entropy W} `{QL : QuoteLib} `{QV : QuoteVerifier W}.
Context `{CC : CcelLib} `{HL : HkdfLaws} `{CVL : CurveLaws} `{EE : EcEncoding} `{RL : RsaLib W} `{ED : EcdsaLib W}.
Context `{AL : AeadLaws} `{LS : !LibrariesSafe W}.
Context (ks : BaseKeyStore W) `{SS : !StoreSafe ks}.
Notation wired := (wired ks).

Lemma NewTdxQuote_safe qb : safe (NewTdxQuote qb).
Proof.
  unfold NewTdxQuote. case_bool_decide; [done|]. apply safe_bind; [apply safe_wrap, ls_quote|].
  by intros [].
Qed.

Lemma NewTdxQuote_body qb q : NewTdxQuote qb = Ok q → is_Some (q_TdQuoteBody (parsed q)).
Proof.
  unfold NewTdxQuote. case_bool_decide; [done|]. destruct (QuoteToProto qb) as [[q'|]| |] eqn:Hq; try done.
  intros [= <-]. by eapply ls_body.
Qed.

Lemma check_nonce_safe (a : AttestationVerificationProtocol W) record q : is_Some (q_TdQuoteBody (parsed q)) →
  ∃ r, check_nonce a record q = Ok r ∧ match r with inl q' => q' = q | inr _ => True end.
Proof.
  intros [b Hb]. unfold check_nonce, VerifyReportData, body. rewrite Hb. cbn [deref mbind res_bind].
  case_bool_decide; simpl; [|destruct (av_devMode a); simpl]; (eexists; split; [done|]); done.
Qed.

Lemma AttVerify_replies (a : AttestationVerificationProtocol W) record tq w :
  ∃ r w', AttVerify a record tq w = (Ok r, w') ∧
    match r with inl q => is_Some (q_TdQuoteBody (parsed q)) | inr _ => True end.
Proof.
  unfold AttVerify. case_bool_decide; [by eexists _, _|]. unfold catch, lift.
  destruct (b64_DecodeString tq) as [qb| |p] eqn:Hb; [|by eexists _, _|by destruct (b64_DecodeString_safe tq p)].
  destruct (NewTdxQuote qb) as [q| |p] eqn:Hq; [|by eexists _, _|by destruct (NewTdxQuote_safe qb p)].
  pose proof (NewTdxQuote_body qb q Hq) as Hbody. pose proof (ls_verify (raw q) w) as Hsafe.
  destruct (check_nonce_safe a record q Hbody) as (r & Hr & Hr').
  assert (match r with inl q => is_Some (q_TdQuoteBody (parsed q)) | inr _ => True end) as Hres
    by (destruct r; [by subst|done]).
  unfold Quote_Verify. destruct (RawTdxQuote (raw q) w) as [[[]|e|p] w1]; [| |by destruct (Hsafe p)].
  - rewrite Hr. by eexists _, _.
  - destruct (av_enforceQuoteVerify a); [by eexists _, _|]. rewrite Hr. by eexists _, _.
Qed.

Lemma Get_replies id w : ∃ r w', Get (NewSessionStore ks) id w = (Ok r, w').
Proof.
  unfold Get, NewSessionStore, catch. cbn [kv]. pose proof (ss_Read (STORE_PREFIX_SESSION ++ id) w) as Hs.
  destruct (ks_Read ks _ w) as [[v|e|p] w1]; [| |by destruct (Hs p)]; destruct (ks_HasNil _ _); try by eexists _, _.
  assert (safe (json_Unmarshal AttestationRequestStore v)) as Hj by apply json_Unmarshal_safe.
  destruct (json_Unmarshal AttestationRequestStore v) as [| |p]; [by eexists _, _..|by destruct (Hj p)].
Qed.

Lemma CreateRSA_quiet s mk id : wired s mk → quiet (CreateRSA (sv_keyService s) id).
Proof.
  intros Hw. unfold CreateRSA. rewrite (w_keyStore _ _ _ Hw). apply quiet_catch; [apply ss_Read|]. intros r.
  destruct (ks_HasNil _ _).
  - apply quiet_bind.
    + unfold RSA. apply quiet_bind; [apply ls_rsa|]. intros k.
      apply quiet_bind; [apply quiet_lift, ls_rsa_pkix|]. intros ?. apply quiet_ret.
    + intros key. apply quiet_catch; [apply ss_Write|]. intros _. apply quiet_ret.
  - destruct r; apply quiet_lift; [apply json_Unmarshal_safe|done].
Qed.

Lemma DeriveECDSA_safe s mk id seed ctx c len : wired s mk → safe (DeriveECDSA (sv_keyService s) id seed ctx c len).
Proof.
  intros Hw. destruct (deriveHKDF_with_key (sv_keyService s) mk id seed ctx (w_vault _ _ _ Hw)) as (_ & k & Hk & _).
  unfold DeriveECDSA. rewrite Hk. apply safe_bind; [done|]. intros ? _. apply safe_bind.
  - unfold ECDSA. case_decide; [done|]. apply safe_bind.
    + apply safe_wrap. unfold ecdh_NewPrivateKey. case_decide; [|done]. by destruct (_ || _).
    + intros d _. destruct (_ || _); [done|]. by destruct (negb _).
  - intros pk _. unfold pemencodeECKeyPair. apply safe_bind; [apply ls_ec|]. intros ? _.
    apply safe_bind; [apply ls_pkix|done].
Qed.

Lemma derive_key_quiet s mk id t ctx seed m : wired s mk → derive_key s id t ctx seed = Some m → quiet m.
Proof.
  intros Hw. destruct (deriveHKDF_with_key (sv_keyService s) mk id seed ctx (w_vault _ _ _ Hw)) as (_ & k & Hk & _).
  unfold derive_key. repeat case_bool_decide; intros [= <-].
  - apply quiet_lift, safe_fmap. unfold DeriveHKDF. by rewrite Hk.
  - apply quiet_lift, safe_fmap. unfold DeriveX25519. rewrite Hk. apply safe_bind; [done|]. intros ? _.
    unfold X25519. by case_decide.
  - by eapply quiet_lift, safe_fmap, DeriveECDSA_safe.
  - by eapply quiet_lift, safe_fmap, DeriveECDSA_safe.
  - apply quiet_bind; [by eapply CreateRSA_quiet|]. intros kp. apply quiet_ret.
Qed.

Lemma release_key_replies s mk req kreq q log fw w : wired s mk → is_Some (q_TdQuoteBody (parsed q)) →
  ∃ reply w', release_key s req kreq q log fw w = (Ok reply, w').
Proof.
  intros Hw [b Hb]. unfold release_key, mbind, M_bind, lift.
  assert (∃ m, GetMrTd q = Ok m) as [m ->] by (unfold GetMrTd, body; rewrite Hb; by eexists).
  unfold keyRequestFinalize. destruct (derive_key _ _ _ _ _) as [d|] eqn:Hd; [|by eexists _, _].
  pose proof (derive_key_quiet _ _ _ _ _ _ d Hw Hd w) as Hs. unfold catch.
  destruct (d w) as [[k|e|p] w1]; [by eexists _, _..|by destruct (Hs p)].
Qed.

(** C24. For every request of any client, and whatever the store does (it may
    be out of reach, fail at any operation or hold anything), the finalize
    handler of a server whose node holds the master key ends in a reply; the
    only exception is a panic of [EventLog.Verify], and then the session
    existed, the quote had been accepted for it, the event log replays to the
    quote's registers, and it has an entry for a variable that does not
    decode or an event without digests (eventlog.go drops the decoder's error
    and dereferences its result). *)
Theorem finalize_always_replies s mk request w : wired s mk →
  (∃ reply w', handleKeyRequestFinalize s request w = (Ok reply, w')) ∨
  ∃ p w2 req record kreq q log w1, handleKeyRequestFinalize s request w = (Panic p, w2) ∧
    decodeRequest AttestationRequest request = Ok req ∧
    Get (sv_sessions s) (ar_SessionId req) w = (Ok (inl record), w1) ∧
    json_Unmarshal KeyRequest (rs_Payload record) = Ok kreq ∧
    AttVerify (sv_challengeResponse s) record (ar_Quote req) w1 = (Ok (inl q), w2) ∧
    NewEventLog (ar_EventLog req) = Ok log ∧ EventLog_Verify log q = Panic p ∧
    verifyRTMRs log q = Ok tt ∧ log_malformed log.
Proof.
  intros Hw. unfold handleKeyRequestFinalize, catch, lift, mbind, M_bind.
  assert (safe (decodeRequest AttestationRequest request)) as Hs1 by apply Decode_single_safe.
  destruct (decodeRequest AttestationRequest request) as [req|e|p] eqn:Hreq;
    [|left; by eexists _, _|by destruct (Hs1 p)].
  rewrite (w_sessions _ _ _ Hw). destruct (Get_replies (ar_SessionId req) w) as (r & w1 & Hget). rewrite Hget.
  destruct r as [record|e]; [|left; by eexists _, _].
  assert (safe (json_Unmarshal KeyRequest (rs_Payload record))) as Hs2 by apply json_Unmarshal_safe.
  destruct (json_Unmarshal KeyRequest (rs_Payload record)) as [kreq|e|p] eqn:Hk;
    [|left; by eexists _, _|by destruct (Hs2 p)].
  case_bool_decide; [left; by eexists _, _|].
  destruct (AttVerify_replies (sv_challengeResponse s) record (ar_Quote req) w1) as (r & w2 & Hv & Hr). rewrite Hv.
  destruct r as [q|e]; [|left; by eexists _, _]. unfold finalize_verified, catch at 1, lift.
  assert (safe (NewEventLog (ar_EventLog req))) as Hs3.
  { unfold NewEventLog. apply safe_bind; [apply safe_wrap, b64_DecodeString_safe|].
    intros ? _. apply safe_wrap, ls_ccel. }
  destruct (NewEventLog (ar_EventLog req)) as [log|e|p] eqn:Hlog; [|left; by eexists _, _|by destruct (Hs3 p)].
  unfold catch at 1. destruct (EventLog_Verify log q) as [fw|e|p] eqn:Hfw; [|left; by eexists _, _|].
  - left. unfold catch at 1. unfold Session_Delete. rewrite (w_sessions _ _ _ Hw). cbn [NewSessionStore kv].
    pose proof (ss_Delete (STORE_PREFIX_SESSION ++ ar_SessionId req) w2) as Hs4.
    destruct (ks_Delete ks _ w2) as [[[]|e|p] w3]; [by eapply release_key_replies..|by destruct (Hs4 p)].
  - right. destruct Hr as [b Hb]. destruct (EventLog_Verify_panics log q b p Hb Hfw) as [Hrt Hm].
    exists p, w2, req, record, kreq, q, log, w1. unfold catch. rewrite Hfw. split; [done|].
    rewrite Hk. by split_and!.
Qed.
End replies.

(** ** A concrete server *)
Module ToyServer.
Import Toy ToyDb ToyWeb ToyCurve ToyAead ToyKeys ToyTdx.

#[export] Instance toy_verifier : QuoteVerifier db := λ _, mret tt.

Definition config : ClusterConfig :=
  {| Id := $"node1"; EncryptionKey := []; Port := 7946; PeerAddresses := []; SeedNodes := [];
     BindAddress := $"0.0.0.0"; NodeHost := $"localhost"; MasterKeyFolder := $"/sealed";
     ValkeyUris := []; ValkeyUser := []; ValkeyPassword := []; ValkeyNamespace := $"prod"; ValkeyTLS := false;
     Domains := []; ServerPort := 8443; AcmeDnsToken := []; AcmeOwner := []; AcmeRetryDelay := 5;
     AcmeRetryCount := 10; AcmeProvider := []; DevMode := false; EnforceSealQuoteVerify := true;
     EnforceKeyRequestQuoteVerify := true; JournalEndpoint := []; JournalRegion := [];
     JournalAccessKey := []; JournalSecretKey := [] |}.
Definition kvs : KeyStore db := Valkey_store service.
Definition web_store : BaseKeyStore db := NewSessionKeyStore kvs false.
#[export] Instance web_store_laws : StoreLaws web_store :=
  session_store_laws kvs false (L := Valkey_store_laws service key32).
#[export] Instance web_store_env : WebEnv web_store.
Proof.
  split.
  - intros n w Hok. split; [exact Hok|]. by split.
  - intros w Hok. do 2 eexists. split; [done|]. split; [split; [done|by split]|]. by apply (utf8_ok_valid 40).
Qed.
Definition server : KeyServer db := NewKeyServer config kvs (VaultMember (Some member1)).
Lemma server_wired : wired web_store server key32.
Proof. split; try done. apply member1_key. Qed.
Lemma db0_web : @st_ok _ _ web_store_laws db0.
Proof. exact db0_ok. Qed.

Lemma vm_attests nonce : attests web_store ("Q"%byte :: nonce) nonce ($"mrtd")
  {| raw := "Q"%byte :: nonce; parsed := vm_quote nonce |}.
Proof.
  split; [done|]. split; [by eexists|]. intros w Hok. exists w. split; [done|]. split; [exact Hok|by split].
Qed.

Definition key_request : KeyRequest := {| kr_Id := $"vm1"; kr_Ctx := ContextApp; kr_Type := Symmetric |}.
Lemma key_request_ok : KeyRequest_ok key_request.
Proof. split_and!; by apply (utf8_ok_valid 40). Qed.

(** The first session: its id and the nonce the toy randomness gives. *)
Definition first_id : bytes := session_id 1718000000000 ($"7c9e6679-7425-40de-944b-e07fc1f90ae7").
Definition first_nonce : bytes := replicate 64 x00.

Lemma body_limit_le n : (N.of_nat n <= 1048576)%N → (n <= body_limit)%nat.
Proof. unfold body_limit. lia. Qed.

(** The session is read off the reply. *)
Lemma session_of_reply (m : res Reply) nonce id : valid_utf8 id →
  m = Ok (respondJSON 200 (VerifyResponse_json
            {| vr_Nonce := b64_EncodeToString nonce; vr_SessionId := id |})) →
  match m with
  | Ok r => Unmarshal (take (length (rp_body r) - 1) (rp_body r)) =
            Ok (VerifyResponse_json {| vr_Nonce := b64_EncodeToString first_nonce; vr_SessionId := first_id |})
  | _ => False
  end → nonce = first_nonce ∧ id = first_id.
Proof.
  intros Hid ->. cbn [respondJSON rp_body].
  rewrite length_app, Nat.add_sub, take_app_length, Unmarshal_Marshal.
  - intros [= Hn ->]. split; [|done]. apply (f_equal b64_DecodeString) in Hn.
    rewrite !b64_round_trip in Hn. by injection Hn.
  - simpl. split_and!; first [done | by apply (utf8_ok_valid 40) | apply ascii_valid, b64_ascii].
Qed.

Definition vm : TdxQuote := {| raw := "Q"%byte :: first_nonce; parsed := vm_quote first_nonce |}.

#[export] Instance web_rsa_env : RsaEnv web_store.
Proof.
  split; [|by eexists]. intros n w Hok. do 2 eexists. split; [done|]. split; [exact Hok|]. by split.
Qed.

Lemma symmetric_outcome s kreq seed w w2 o : kr_Type kreq = Symmetric →
  key_outcome web_store s kreq seed w w2 o →
  ∃ k, DeriveHKDF (sv_keyService s) (kr_Id kreq) seed (kr_Ctx kreq) = Ok k ∧ o = inl (SymmetricKey k).
Proof.
  intros Ht [] ; try by (match goal with H : kr_Type kreq = _ |- _ => rewrite Ht in H end).
  - eauto.
  - rewrite Ht in *. exfalso. match goal with H : _ ∉ _ |- _ => apply H end. by left.
Qed.

Lemma attested_vm_gets_its_key_witness : ∃ w1 key reply w2,
  handleKeyRequestInit server (json_Marshal key_request) db0 =
    (Ok (respondJSON 200 (VerifyResponse_json
           {| vr_Nonce := b64_EncodeToString first_nonce; vr_SessionId := first_id |})), w1) ∧
  DeriveHKDF (sv_keyService server) ($"vm1") (DeriveSeedFromMeasurements ($"mrtd") ($"fw")) ContextApp = Ok key ∧
  handleKeyRequestFinalize server (json_Marshal (finalize_request first_id ("Q"%byte :: first_nonce) []))
    (st_elapse 59 w1) = (Ok reply, w2) ∧ rp_code reply = 200.
Proof.
  destruct (attested_vm_gets_its_key web_store server key32 key_request db0 server_wired db0_web key_request_ok)
    as (nonce & id & w1 & Hinit & _ & Hid & Hfin); [done|done|apply body_limit_le; by vm_compute|].
  destruct (session_of_reply _ _ _ Hid (f_equal fst Hinit)) as [-> ->];
    [by vm_compute|].
  destruct (Hfin 59 vm ("Q"%byte :: first_nonce) [] tt ($"fw") ($"mrtd"))
    as (o & reply & w2 & Ho & Hf & Hc & _); [lia|apply vm_attests|done|constructor|done| | |].
  - by vm_compute.
  - apply body_limit_le. by vm_compute.
  - apply (symmetric_outcome server key_request) in Ho as (key & Hk & ->); [|reflexivity].
    exists w1, key, reply, w2. split; [exact Hinit|]. split; [exact Hk|]. split; [exact Hf|exact (proj1 Hc)].
Defined.

Lemma seal_req_ok : TdxSealRequest_ok seal_req.
Proof. split_and!; [by apply (utf8_ok_valid 40)|apply ascii_valid, b64_ascii..]. Qed.

Lemma seal_session_is_reusable_witness : ∃ w1 reply sealed w2 reply' w3,
  handleTdxSealInit server (json_Marshal seal_req) db0 =
    (Ok (respondJSON 200 (VerifyResponse_json
           {| vr_Nonce := b64_EncodeToString first_nonce; vr_SessionId := first_id |})), w1) ∧
  (let request := json_Marshal (finalize_request first_id ("Q"%byte :: first_nonce) []) in
   handleTdxSealFinalize server request (st_elapse 0 w1) = (Ok reply, w2) ∧
   rp_body reply = Marshal (TdxSealResponse_json {| tr_Id := $"vm1"; tr_SealedPayload := sealed |}) ++ [x0a] ∧
   handleTdxSealFinalize server request w2 = (Ok reply', w3) ∧ rp_code reply' = 200).
Proof.
  destruct (seal_session_is_reusable web_store server key32 seal_req ($"mrtd") ($"cfv") ($"secret") db0
    server_wired db0_web seal_req_ok) as (nonce & id & w1 & Hinit & Hid & Hfin);
    [apply body_limit_le; by vm_compute|done|done|done|apply b64_round_trip..|].
  destruct (session_of_reply _ _ _ Hid (f_equal fst Hinit)) as [-> ->];
    [by vm_compute|].
  destruct (Hfin 0 ("Q"%byte :: first_nonce) vm ($"mrtd") [])
    as (reply & sealed & key & w2 & reply' & w3 & Hf & _ & Hb & _ & _ & Hf' & Hc');
    [lia|apply vm_attests|constructor|apply body_limit_le; by vm_compute|].
  exists w1, reply, sealed, w2, reply', w3. split; [exact Hinit|]. split; [exact Hf|].
  split; [exact Hb|]. split; [exact Hf'|exact Hc'].
Defined.

(** A run of the whole protocol. *)
Definition after_init : db := (handleKeyRequestInit server (json_Marshal key_request) db0).2.
Definition first_request : bytes := json_Marshal (finalize_request first_id ("Q"%byte :: first_nonce) []).

(** The reply to the first request. *)
Definition after_first : db := (handleKeyRequestFinalize server first_request after_init).2.
Lemma first_reply : ∃ reply,
  handleKeyRequestFinalize server first_request after_init = (Ok reply, after_first) ∧ rp_code reply = 200.
Proof.
  assert (∃ reply, (handleKeyRequestFinalize server first_request after_init).1 = Ok reply ∧
    rp_code reply = 200) as (reply & Hr & Hc) by (eexists; split; by vm_compute).
  exists reply. split; [|exact Hc]. exact (eq_trans (surjective_pairing _) (f_equal (λ r, (r, _)) Hr)).
Qed.

Lemma key_release_requires_attestation_witness : ∃ reply w' req q fw,
  handleKeyRequestFinalize server first_request after_init = (Ok reply, w') ∧ rp_code reply = 200 ∧
  decodeRequest AttestationRequest first_request = Ok req ∧
  NewTdxQuote ("Q"%byte :: first_nonce) = Ok q ∧ EventLog_Verify tt q = Ok fw.
Proof.
  destruct first_reply as (reply & Hrun & Hc).
  destruct (key_release_requires_attestation server first_request after_init _ _ Hrun Hc)
    as (req & record & kreq & q & [] & fw & mrtd & m & k & w1 & w2 & Hreq & _ & _ & _ & (qb & Hqb & Hq & _) & _ & Hfw & _).
  exists reply, after_first, req, q, fw.
  split; [exact Hrun|]. split; [exact Hc|]. split; [exact Hreq|]. split; [|exact Hfw].
  assert (ar_Quote req = b64_EncodeToString ("Q"%byte :: first_nonce)) as Hquote.
  { vm_compute in Hreq. by injection Hreq as <-. }
  rewrite Hquote, b64_round_trip in Hqb. injection Hqb as <-. exact Hq.
Defined.

Lemma journal_records_attested_requests_witness : ∃ reply rec,
  handleKeyRequestFinalize server first_request after_init = (Ok reply, after_first) ∧
  rp_journal reply = [rec] ∧ jr_Status rec = StatusSuccess.
Proof.
  destruct first_reply as (reply & Hrun & Hc).
  destruct (journal_records_attested_requests server first_request after_init _ _ Hrun) as [Hyes _].
  destruct (key_release_inv server first_request after_init _ _ Hrun Hc)
    as (req & record & kreq & q & log & fw & _ & _ & _ & w1 & w2 & Hreq & Hget & Hk & Hid & _ & _).
  destruct (finalize_cases server first_request after_init _ _ Hrun) as [[_ Hno]|Ha].
  { rewrite Hc in Hno. exfalso. clear - Hno. set_solver. }
  destruct Ha as (req' & kreq' & q' & log' & fw' & w2' & Ha).
  destruct (Hyes req' kreq' q' log' fw' w2' Ha) as [(rec & Hj & _ & _ & _ & _ & _ & Hs) _].
  clear - Hrun Hj Hs Hc. rewrite decide_True in Hs by exact Hc.
  exists reply, rec. split; [exact Hrun|]. split; [exact Hj|exact Hs].
Defined.

#[export] Instance toy_libraries_safe : LibrariesSafe db.
Proof.
  split.
  - intros [|[] qb]; done.
  - intros [|[] qb] q; try done. intros [= <-]. by eexists.
  - by intros raw w.
  - done.
  - done.
  - done.
  - by intros n w.
  - done.
Qed.
#[export] Instance web_store_safe : StoreSafe web_store := session_store_safe kvs false.

(** A database that is out of reach. *)
Definition db_down : db := {| db_hashes := ∅; db_expiry := ∅; db_now := 0; db_left := Some 0%nat; db_rand := 0 |}.

Lemma finalize_always_replies_witness : ∃ reply w',
  handleKeyRequestFinalize server first_request db_down = (Ok reply, w') ∧ rp_code reply = 500.
Proof.
  destruct (finalize_always_replies web_store server key32 first_request db_down server_wired)
    as [(reply & w' & Hf)|(p & w2 & req & record & kreq & q & log & w1 & Hf & _)].
  - exists reply, w'. split; [exact Hf|].
    assert (match handleKeyRequestFinalize server first_request db_down with
            | (Ok r, _) => rp_code r = 500 | _ => True end) as Hc by by vm_compute.
    rewrite Hf in Hc. exact Hc.
  - exfalso. assert (match (handleKeyRequestFinalize server first_request db_down).1 with
                     | Panic _ => False | _ => True end) as Hc by by vm_compute.
    rewrite Hf in Hc. exact Hc.
Defined.
End ToyServer.
