(* ===== verification/Http.v ===== *)
(** * internal/web: responses on the wire

    response.go and middleware.go against [http.ResponseWriter].  Server.v
    summarises what a handler sends as a [Reply]; here the functions that
    send it are written out on the state of a response writer of net/http (the
    header map, the status line once it is written, the body), a connection
    may stop taking bytes, and the two middlewares wrap the handlers.

    net/http's rules that matter: the first [WriteHeader] freezes status and
    headers and later ones are ignored; a [Write] before it implies status
    200; a status below 100 or above 999 is a panic. *)

From S2P Require Import Prelude GoBytes GoText GoNet Json Sha256 Common KeyStore Enclave Api Crypto Aes Valkey Session Tdx KeyService Journal Server.
From Stdlib Require Import ZArith Lia.

Local Open Scope Z_scope.

(** ** http.ResponseWriter *)

(** [rw_room]: the bytes of the body the connection still takes, [None] for
    all. *)
Record ResponseWriter := {
  rw_Header : gmap bytes bytes;
  rw_status : option (Z * gmap bytes bytes);   (* the written status and headers *)
  rw_body : bytes;
  rw_room : option nat
}.

Definition new_writer (room : option nat) : ResponseWriter :=
  {| rw_Header := ∅; rw_status := None; rw_body := []; rw_room := room |}.

(** [w.Header().Set(k, v)] and [w.Header().Del(k)] *)
Definition Header_Set (k v : bytes) : M ResponseWriter unit := λ w,
  (Ok tt, {| rw_Header := <[k:=v]> (rw_Header w); rw_status := rw_status w; rw_body := rw_body w; rw_room := rw_room w |}).
Definition Header_Del (k : bytes) : M ResponseWriter unit := λ w,
  (Ok tt, {| rw_Header := delete k (rw_Header w); rw_status := rw_status w; rw_body := rw_body w; rw_room := rw_room w |}).

Definition WriteHeader (code : Z) : M ResponseWriter unit := λ w,
  if (code <? 100) || (999 <? code) then (Panic ($"invalid WriteHeader code " ++ FormatInt code), w)
  else match rw_status w with
       | Some _ => (Ok tt, w)          (* superfluous response.WriteHeader call *)
       | None => (Ok tt, {| rw_Header := rw_Header w; rw_status := Some (code, rw_Header w);
                            rw_body := rw_body w; rw_room := rw_room w |})
       end.

Definition broken_pipe : error := ErrString ($"write: broken pipe").

(** [Write], once the status is written. *)
Definition write_body (b : bytes) : M ResponseWriter unit := λ w,
  match rw_room w with
  | None => (Ok tt, {| rw_Header := rw_Header w; rw_status := rw_status w; rw_body := rw_body w ++ b; rw_room := None |})
  | Some n =>
      let w' := {| rw_Header := rw_Header w; rw_status := rw_status w; rw_body := rw_body w ++ take n b;
                   rw_room := Some (n - length b)%nat |} in
      if decide (length b ≤ n)%nat then (Ok tt, w') else (Err broken_pipe, w')
  end.
Definition Write (b : bytes) : M ResponseWriter unit :=
  w ← (λ w, (Ok w, w));
  match rw_status w with
  | Some _ => write_body b
  | None => WriteHeader 200;; write_body b
  end.

(** [http.Error] *)
Definition http_Error (msg : bytes) (code : Z) : M ResponseWriter unit :=
  Header_Del ($"Content-Length");;
  Header_Set ($"Content-Type") ($"text/plain; charset=utf-8");;
  Header_Set ($"X-Content-Type-Options") ($"nosniff");;
  WriteHeader code;;
  catch (Write (msg ++ [x0a])) (λ _, mret tt).

(** ** response.go *)

(** [json.NewEncoder(w).Encode(v)] sends the text and a newline in one
    write. *)
Definition w_respondJSON (code : Z) (v : json) : M ResponseWriter unit :=
  WriteHeader code;;
  catch (Write (Marshal v ++ [x0a])) (λ r,
  match r with
  | inl _ => mret tt
  | inr _ => http_Error ($"failed to encode response") StatusInternalServerError
  end).

Definition application_json : bytes := $"application/json".
Definition w_respondError (code : Z) (message : bytes) : M ResponseWriter unit :=
  Header_Set ($"Content-Type") application_json;;
  w_respondJSON code (JObj [($"error", JStr message)]).

Definition w_keyResponseError (status : Z) (message : bytes) : M ResponseWriter unit :=
  w_respondJSON status (KeyResponse_json {| Key := NoKey; Verified := false; Message := message |}).

(** [handleHealth]: the error of the write is not looked at. *)
Definition w_handleHealth : M ResponseWriter unit :=
  WriteHeader StatusOK;; catch (Write ($"OK")) (λ _, mret tt).

(** ** middleware.go *)

(** [LoggingMiddleware] and [DefaultHeaders] around the rest of the chain;
    the log line is not modelled. *)
Definition LoggingMiddleware {A} (next : M ResponseWriter A) : M ResponseWriter A := next.
Definition DefaultHeaders {A} (next : M ResponseWriter A) : M ResponseWriter A :=
  Header_Set ($"Content-Type") application_json;; next.

(** [router.Use(LoggingMiddleware, DefaultHeaders)] *)
Definition with_middleware {A} (h : M ResponseWriter A) : M ResponseWriter A := LoggingMiddleware (DefaultHeaders h).

(** ** What a reply stands for *)

(** [sends reply m]: [m] is the call that the handlers of Server.v write as
    [reply]. *)
Inductive sends : Reply → M ResponseWriter unit → Prop :=
  | sends_json code v : sends (respondJSON code v) (w_respondJSON code v)
  | sends_error code msg : sends (respondError code msg) (w_respondError code msg)
  | sends_key_error code msg : sends (keyResponseError code msg) (w_keyResponseError code msg)
  | sends_health : sends {| rp_code := StatusOK; rp_body := $"OK"; rp_journal := [] |} w_handleHealth
  | sends_journal rec reply m : sends reply m → sends (logJournal rec reply) m.

Definition json_headers : gmap bytes bytes := {[ $"Content-Type" := application_json ]}.

(** What has arrived at the client. *)
Definition received (room : option nat) (reply : Reply) (w : ResponseWriter) : Prop :=
  rw_status w = Some (rp_code reply, json_headers) ∧
  rw_body w = match room with None => rp_body reply | Some n => take n (rp_body reply) end.

Lemma Write_after st h b r room : ∃ w' x,
  Write b {| rw_Header := h; rw_status := Some st; rw_body := r; rw_room := room |} = (x, w') ∧
  rw_status w' = Some st ∧ rw_body w' = r ++ match room with None => b | Some n => take n b end ∧
  (x = Ok tt ∨ x = Err broken_pipe ∧ rw_room w' = Some 0%nat).
Proof.
  unfold Write, mbind, M_bind, write_body. cbn [rw_status rw_room]. destruct room as [n|].
  - case_decide; do 2 eexists; (split; [done|]); (split; [done|]); (split; [done|]); [by left|].
    right. split; [done|]. cbn [rw_room]. f_equal. lia.
  - do 2 eexists. split; [done|]. split; [done|]. split; [done|]. by left.
Qed.

Lemma WriteHeader_first code h room : 100 ≤ code ≤ 999 →
  WriteHeader code {| rw_Header := h; rw_status := None; rw_body := []; rw_room := room |} =
    (Ok tt, {| rw_Header := h; rw_status := Some (code, h); rw_body := []; rw_room := room |}).
Proof.
  intros Hc. unfold WriteHeader. destruct (Z.ltb_spec code 100); [lia|]. destruct (Z.ltb_spec 999 code); [lia|]. done.
Qed.

(** After a write that failed, [http.Error] changes nothing any more. *)
Lemma http_Error_late msg code st w : 100 ≤ code ≤ 999 → rw_status w = Some st → rw_room w = Some 0%nat →
  ∃ w', http_Error msg code w = (Ok tt, w') ∧ rw_status w' = Some st ∧ rw_body w' = rw_body w.
Proof.
  intros Hc Hs Hr. destruct w as [h s r room]. simpl in Hs, Hr. subst s room.
  unfold http_Error, mbind, M_bind, Header_Del, Header_Set. cbn [rw_Header rw_status rw_body rw_room].
  unfold WriteHeader. destruct (Z.ltb_spec code 100); [lia|]. destruct (Z.ltb_spec 999 code); [lia|].
  cbn [orb rw_status]. unfold catch.
  match goal with |- context [Write ?b {| rw_Header := ?h; rw_status := _; rw_body := _; rw_room := _ |}] =>
    destruct (Write_after st h b r (Some 0%nat)) as (w' & x & -> & Hs' & Hb & [->|[-> _]]) end;
    (eexists; split; [done|]); rewrite Hb, take_0, app_nil_r; done.
Qed.

Lemma w_respondJSON_received code v h room : 100 ≤ code ≤ 999 → ∃ w',
  w_respondJSON code v {| rw_Header := h; rw_status := None; rw_body := []; rw_room := room |} = (Ok tt, w') ∧
  rw_status w' = Some (code, h) ∧
  rw_body w' = match room with None => Marshal v ++ [x0a] | Some n => take n (Marshal v ++ [x0a]) end.
Proof.
  intros Hc. unfold w_respondJSON, mbind, M_bind. rewrite WriteHeader_first by done. unfold catch.
  destruct (Write_after (code, h) h (Marshal v ++ [x0a]) [] room) as (w' & x & -> & Hs & Hb & [->|[-> Hr]]); [by exists w'|].
  destruct (http_Error_late ($"failed to encode response") StatusInternalServerError (code, h) w')
    as (w2 & -> & ? & Hb2); [done..|]. exists w2. rewrite Hb2. by rewrite Hb.
Qed.

(** Through the middlewares a reply arrives as it is written down, with the
    content type of [DefaultHeaders]; a broken connection cuts the body. *)
Lemma sends_received reply m room : sends reply m → 100 ≤ rp_code reply ≤ 999 →
  ∃ w', with_middleware m (new_writer room) = (Ok tt, w') ∧ received room reply w'.
Proof.
  unfold with_middleware, LoggingMiddleware, DefaultHeaders, Header_Set, new_writer, mbind, M_bind.
  cbn [rw_Header rw_status rw_body rw_room]. rewrite insert_empty.
  induction 1 as [code v|code msg|code msg| |rec reply m Hm IH]; intros Hc.
  - by apply w_respondJSON_received.
  - unfold w_respondError, Header_Set, mbind, M_bind. cbn [rw_Header rw_status rw_body rw_room].
    rewrite insert_singleton_eq. by apply w_respondJSON_received.
  - by apply w_respondJSON_received.
  - unfold w_handleHealth, mbind, M_bind. rewrite WriteHeader_first by done. unfold catch.
    destruct (Write_after (StatusOK, json_headers) json_headers ($"OK") [] room) as (w' & x & Hw & Hs & Hb & Hx).
    unfold json_headers in Hw at 2. exists w'. unfold json_headers in Hw. rewrite Hw.
    by destruct Hx as [->|[-> _]].
  - by apply IH.
Qed.

(** ** Every handler answers that way *)

Section handlers.
Context {W : Type} `{Clock W} `{UuidLib W} `{Entropy W} `{QuoteLib} `{QuoteVerifier W} `{CcelLib}.
Context `{HkdfLib} `{CurveLib} `{EcEncoding} `{RsaLib W} `{EcdsaLib W} `{AeadLib} `{EnclaveLib W} `{Dialer W}.
Implicit Types (s : KeyServer W).

(** Whatever [m] returns, it is as [P] says. *)
Definition yields {A} (m : M W A) (P : A → Prop) : Prop := ∀ w a w', m w = (Ok a, w') → P a.

Lemma yields_ret {A} (a : A) (P : A → Prop) : P a → yields (mret a) P.
Proof. by intros Ha w b w' [= <- _]. Qed.
Lemma yields_bind {A B} (m : M W A) (f : A → M W B) (Q : A → Prop) (P : B → Prop) :
  yields m Q → (∀ a, Q a → yields (f a) P) → yields (m ≫= f) P.
Proof. intros Hm Hf w b w' (a & w1 & Ha & Hb)%bind_inv. by eapply Hf; [eapply Hm|]. Qed.
Lemma yields_catch {A B} (m : M W A) (k : A + error → M W B) (P : B → Prop) :
  (∀ r, yields (k r) P) → yields (catch m k) P.
Proof. intros Hk w b w' [(a & w1 & _ & Hb)|(e & w1 & _ & Hb)]%catch_inv; by eapply Hk. Qed.
Lemma yields_any {A} (m : M W A) : yields m (λ _, True).
Proof. done. Qed.

Definition web_code (c : Z) : Prop := c = 400 ∨ c = 401 ∨ c = 500.
(** An error carries a status of its own. *)
Definition coded {A} (r : A + ErrorWithCode) : Prop := match r with inr e => web_code (ec_Code e) | inl _ => True end.

(** A reply that a call of response.go sends. *)
Definition sent (reply : Reply) : Prop := ∃ m, sends reply m ∧ (rp_code reply = 200 ∨ web_code (rp_code reply)).

Lemma sent_json c v : c = 200 ∨ web_code c → sent (respondJSON c v).
Proof. intros Hc. eexists. split; [constructor|done]. Qed.
Lemma sent_error c msg : web_code c → sent (respondError c msg).
Proof. intros Hc. eexists. split; [constructor|by right]. Qed.
Lemma sent_key_error c msg : web_code c → sent (keyResponseError c msg).
Proof. intros Hc. eexists. split; [constructor|by right]. Qed.
Lemma sent_journal rec reply : sent reply → sent (logJournal rec reply).
Proof. intros (m & Hm & Hc). exists m. split; [by constructor|done]. Qed.

Lemma web_code_400 : web_code 400. Proof. by left. Qed.
Lemma web_code_401 : web_code 401. Proof. by right; left. Qed.
Lemma web_code_500 : web_code 500. Proof. by right; right. Qed.
#[local] Hint Resolve sent_json sent_error sent_key_error sent_journal web_code_400 web_code_401 web_code_500 : core.

Lemma Get_coded (st : SessionStore W) id : yields (Get st id) coded.
Proof. intros w [a|e] w' Hg; [done|]. apply Get_code in Hg. unfold coded, web_code. tauto. Qed.
Lemma AttVerify_coded (a : AttestationVerificationProtocol W) record tq : yields (AttVerify a record tq) coded.
Proof. intros w [q|e] w' Hv; [done|]. apply AttVerify_inv in Hv. unfold coded, web_code. tauto. Qed.
Lemma keyRequestFinalize_coded s id t ctx seed : yields (keyRequestFinalize s id t ctx seed) coded.
Proof. intros w [k|e] w' Hk; [done|]. apply keyRequestFinalize_code in Hk. unfold coded, web_code. tauto. Qed.
Lemma keyRequestInit_coded s req : yields (keyRequestInit s req) coded.
Proof.
  unfold keyRequestInit. destruct (_ || _); [|apply yields_catch; intros []]; apply yields_ret; simpl; auto.
Qed.
Lemma tdxSealRequestInit_coded s req : yields (tdxSealRequestInit s req) coded.
Proof.
  unfold tdxSealRequestInit. destruct (_ || _); [|apply yields_catch; intros []]; apply yields_ret; simpl; auto.
Qed.

(** Take a handler apart. *)
Ltac solve_sent := repeat first
  [ apply yields_catch; intros []
  | eapply yields_bind; [first [apply Get_coded | apply AttVerify_coded | apply keyRequestFinalize_coded
      | apply keyRequestInit_coded | apply tdxSealRequestInit_coded | apply yields_any]|intros [] ?]
  | case_bool_decide
  | apply yields_ret; by auto 6
  | match goal with H : coded (inr ?e) |- _ => apply yields_ret; simpl in H; by auto 6 end ].

Lemma key_init_sent s request : yields (handleKeyRequestInit s request) sent.
Proof. unfold handleKeyRequestInit. solve_sent. Qed.

Lemma release_sent s req kreq q log fw : yields (release_key s req kreq q log fw) sent.
Proof.
  unfold release_key. eapply yields_bind; [apply yields_any|]. intros mrtd _. solve_sent.
Qed.
Lemma key_finalize_sent s request : yields (handleKeyRequestFinalize s request) sent.
Proof. unfold handleKeyRequestFinalize, finalize_verified. solve_sent; apply release_sent. Qed.
Lemma seal_init_sent s request : yields (handleTdxSealInit s request) sent.
Proof. unfold handleTdxSealInit. solve_sent. Qed.
Lemma seal_finalize_sent s request : yields (handleTdxSealFinalize s request) sent.
Proof. unfold handleTdxSealFinalize, seal_and_journal. solve_sent. Qed.
Lemma attestation_sent s name : yields (handleGenerateAttestation s name) sent.
Proof.
  unfold handleGenerateAttestation. apply yields_catch. intros [[|c cs]|e]; solve_sent.
Qed.
Lemma health_sent : yields (handleHealth (W := W)) sent.
Proof. apply yields_ret. eexists. split; [constructor|by left]. Qed.

(** C12. A reply of the model is what the client gets: every handler of every
    route answers with one of the calls of response.go (or the OK of
    [handleHealth]), and run below the two middlewares on a fresh connection
    that call sends exactly the status and the body of the reply with the
    content type application/json; a connection that breaks cuts the body and
    changes nothing else, [http.Error] included. *)
Theorem responses_are_delivered s r h w reply w' room : ServeHTTP s r = Some h → h w = (Ok reply, w') →
  ∃ m rw, sends reply m ∧ with_middleware m (new_writer room) = (Ok tt, rw) ∧ received room reply rw ∧
    (rp_code reply = 200 ∨ web_code (rp_code reply)).
Proof.
  unfold ServeHTTP. destruct (List.find _ _) as [[route handler]|] eqn:Hf; [|done]. intros [= <-] Hrun.
  apply List.find_some in Hf as [Hin _]. assert (sent reply) as (m & Hm & Hc).
  { revert Hin Hrun. unfold registerRoutes. simpl. intros [[= _ <-]|[[= _ <-]|[[= _ <-]|[[= _ <-]|[[= _ <-]|[[= _ <-]|[]]]]]]];
      [apply key_init_sent|apply key_finalize_sent|apply seal_init_sent|apply seal_finalize_sent|apply attestation_sent|apply health_sent]. }
  destruct (sends_received reply m room Hm) as (rw & Hrw & Hrec); [unfold web_code in Hc; lia|].
  by exists m, rw.
Qed.
End handlers.

(** ** A concrete response *)
Module ToyHttp.
Import Toy ToyDb ToyWeb ToyCurve ToyAead ToyKeys ToyTdx ToyServer.

#[export] Instance db_enclave : EnclaveLib db := {|
  GetRemoteReport data w := (Ok data, w);
  VerifyRemoteReport quote :=
    ({| Data := quote; SecurityVersion := 2; rep_Debug := false; UniqueID := []; SignerID := []; ProductID := [];
        TCBStatus := 0; TCBAdvisories := []; TCBAdvisoriesErr := None |}, None);
  TCBStatus_String z := FormatInt z |}.
#[export] Instance db_dialer : Dialer db := λ _ _, mret [$"certificate"].

Definition finalize_rq : Request :=
  {| rq_Method := $"POST"; rq_Path := $"/key/finalize"; rq_Body := first_request; rq_ServerName := [] |}.

(** The client reads five bytes and hangs up. *)
Lemma responses_are_delivered_witness : ∃ reply m rw,
  handleKeyRequestFinalize server first_request after_init = (Ok reply, after_first) ∧
  with_middleware m (new_writer (Some 5%nat)) = (Ok tt, rw) ∧ length (Http.rw_body rw) = 5%nat.
Proof.
  destruct first_reply as (reply & Hrun & Hc).
  destruct (responses_are_delivered server finalize_rq _ after_init reply after_first (Some 5%nat) eq_refl Hrun)
    as (m & rw & Hm & Hrw & [_ Hb] & _).
  exists reply, m, rw. split; [exact Hrun|]. split; [exact Hrw|]. rewrite Hb, length_take.
  assert (bool_decide (5 ≤ length (rp_body reply))%nat = true) as Hl%bool_decide_eq_true; [|lia].
  assert (reply = match (handleKeyRequestFinalize server first_request after_init).1 with Ok r => r | _ => reply end) as ->.
  { rewrite Hrun. reflexivity. }
  vm_compute. reflexivity.
Defined.
End ToyHttp.
