(* ===== verification/Requests.v ===== *)
(** * internal/web: key requests that run at the same time

    net/http serves every request in a goroutine of its own, and the key
    servers of a cluster share one database.  Server.v runs a handler from
    its first line to its reply; here [handleKeyRequestFinalize] is cut at its
    accesses to the store (the session is read, then deleted; an RSA key is
    looked up, then stored), [phases_are_the_handler] shows that the pieces
    make up the handler, and [srv_step] interleaves the pieces of any number
    of requests at any number of servers, with the other handlers and with
    time.  A [trace] records what happened to the sessions. *)

From S2P Require Import Prelude GoBytes GoText GoNet Json Sha256 Common KeyStore Enclave Api JsonText Crypto Aes Valkey Session Tdx KeyService Journal Server.
From Stdlib Require Import ZArith Lia.

Local Open Scope Z_scope.

(** Whatever bytes a client sends, a decoded request is valid text. *)
Lemma decodeRequest_text `{JsonText T} body (x : T) : decodeRequest T body = Ok x → json_ok x.
Proof. unfold decodeRequest. apply Decode_single_text. Qed.

Section phases.
Context {W : Type} `{Clock W} `{UuidLib W} `{Entropy W} `{QuoteLib} `{QuoteVerifier W} `{CcelLib}.
Context `{HkdfLib} `{CurveLib} `{EcEncoding} `{RsaLib W} `{EcdsaLib W} `{AeadLib}.
Implicit Types (s : KeyServer W).

(** [CreateRSA] up to its first access to the store ([None]: there is no
    key yet) and from there on. *)
Definition rsa_lookup (v : VaultKeyService W) (id : bytes) : M W (option (option KeyPair)) :=
  catch (ks_Read (keyStore v) (STORE_PREFIX_RSA_KEY ++ id)) (λ r,
  if ks_HasNil (keyStore v) (match r with inr err => Some err | inl _ => None end) then mret None
  else
    match r with
    | inr err => lift (Err err)
    | inl keyBytes => lift (Some <$> json_Unmarshal (option KeyPair) keyBytes)
    end).

Definition rsa_generate_and_store (v : VaultKeyService W) (id : bytes) : M W (option KeyPair) :=
  key ← RSA;
  catch (ks_Write (keyStore v) (STORE_PREFIX_RSA_KEY ++ id) (json_Marshal (Some key))) (λ _, mret (Some key)).

Lemma CreateRSA_phases v id w : CreateRSA v id w =
  (o ← rsa_lookup v id; match o with Some k => mret k | None => rsa_generate_and_store v id end) w.
Proof.
  unfold CreateRSA, rsa_lookup, rsa_generate_and_store, catch, mbind, M_bind, lift.
  destruct (ks_Read _ _ w) as [[b|e|p] w1]; [| |done]; (destruct (ks_HasNil _ _); [done|]); [|done].
  by destruct (json_Unmarshal _ b).
Qed.

(** Where a finalize request is. *)
Inductive phase :=
  | Arrived (request : bytes)
  | Attesting (req : AttestationRequest) (record : AttestationRequestStore) (kreq : KeyRequest)
  | Consuming (req : AttestationRequest) (kreq : KeyRequest) (q : TdxQuote) (log : EventLogger) (fw : bytes)
  | Releasing (req : AttestationRequest) (kreq : KeyRequest) (q : TdxQuote) (log : EventLogger) (fw : bytes)
  | Generating (req : AttestationRequest) (kreq : KeyRequest) (q : TdxQuote) (log : EventLogger) (fw : bytes)
  | Replied (reply : Reply)
  | Dropped.                       (* a panic: net/http drops the connection *)

(** The end of [release_key], once there is a key or an error. *)
Definition release_reply (req : AttestationRequest) (kreq : KeyRequest) (q : TdxQuote) (log : EventLogger)
    (r : AnyKey + ErrorWithCode) : Reply :=
  let journal description status :=
    logJournal (journalKeyRequest (kr_Id kreq) (ar_SessionId req) description (ar_Quote req)
      (QuoteSummary_JSON (Quote_Summary q)) (EventLog_Summary_JSON log) status) in
  match r with
  | inr e => journal ($"Key request failed: " ++ ec_Message e) StatusFailure
               (respondError (ec_Code e) (ec_Message e))
  | inl key => journal ($"Key request succeeded") StatusSuccess
                 (respondJSON StatusOK (KeyResponse_json {| Key := key; Verified := true; Message := [] |}))
  end.
Definition derivation_failed : ErrorWithCode := NewError ($"key derivation failed") StatusInternalServerError.

(** The reads of a session and of the request it keeps. *)
Definition arrived_step s (request : bytes) : M W phase :=
  catch (lift (decodeRequest AttestationRequest request)) (λ r,
  match r with
  | inr _ => mret (Replied (keyResponseError StatusBadRequest ($"Invalid Request")))
  | inl req =>
      r ← Get (sv_sessions s) (ar_SessionId req);
      match r with
      | inr e => mret (Replied (keyResponseError (ec_Code e) (ec_Message e)))
      | inl record =>
          catch (lift (json_Unmarshal KeyRequest (rs_Payload record))) (λ r,
          match r with
          | inr _ => mret (Replied (keyResponseError StatusInternalServerError
                             ($"Failed to unmarshal key request from store")))
          | inl keyRequest =>
              if bool_decide (kr_Id keyRequest = [])
              then mret (Replied (keyResponseError StatusBadRequest ($"Missing id")))
              else mret (Attesting req record keyRequest)
          end)
      end
  end).

(** The checks of quote and event log. *)
Definition attesting_step s (req : AttestationRequest) (record : AttestationRequestStore) (kreq : KeyRequest)
    : M W phase :=
  r ← AttVerify (sv_challengeResponse s) record (ar_Quote req);
  match r with
  | inr e => mret (Replied (keyResponseError (ec_Code e) (ec_Message e)))
  | inl quote =>
      catch (lift (NewEventLog (ar_EventLog req))) (λ r,
      match r with
      | inr err => mret (Replied (keyResponseError StatusUnauthorized (Error err)))
      | inl eventLog =>
          catch (lift (EventLog_Verify eventLog quote)) (λ r,
          match r with
          | inr err => mret (Replied (keyResponseError StatusUnauthorized (Error err)))
          | inl cfv => mret (Consuming req kreq quote eventLog cfv)
          end)
      end)
  end.

(** The key; an RSA key is looked up first. *)
Definition releasing_step s req kreq q log fw : M W phase :=
  if bool_decide (kr_Type kreq = KT_RSA) then
    _ ← lift (GetMrTd q);
    catch (rsa_lookup (sv_keyService s) (kr_Id kreq)) (λ r,
    match r with
    | inr _ => mret (Replied (release_reply req kreq q log (inr derivation_failed)))
    | inl None => mret (Generating req kreq q log fw)
    | inl (Some k) => mret (Replied (release_reply req kreq q log (inl (PairKey k))))
    end)
  else reply ← release_key s req kreq q log fw; mret (Replied reply).

Definition phase_step s (p : phase) : M W phase :=
  match p with
  | Arrived request => arrived_step s request
  | Attesting req record kreq => attesting_step s req record kreq
  | Consuming req kreq q log fw =>
      catch (Session_Delete (sv_sessions s) (ar_SessionId req)) (λ _, mret (Releasing req kreq q log fw))
  | Releasing req kreq q log fw => releasing_step s req kreq q log fw
  | Generating req kreq q log fw =>
      catch (rsa_generate_and_store (sv_keyService s) (kr_Id kreq)) (λ r,
      mret (Replied (release_reply req kreq q log
        (match r with inl k => inl (PairKey k) | inr _ => inr derivation_failed end))))
  | Replied reply => mret (Replied reply)
  | Dropped => mret Dropped
  end.

Definition phase_next s (p : phase) (w : W) : phase * W :=
  match phase_step s p w with
  | (Ok p', w') => (p', w')
  | (_, w') => (Dropped, w')
  end.

(** [n] pieces of a request that nothing interrupts. *)
Fixpoint phase_run s (n : nat) (p : phase) (w : W) : phase * W :=
  match n with
  | O => (p, w)
  | S n => let '(p, w) := phase_next s p w in phase_run s n p w
  end.

(** Where a handler has got when it returns. *)
Definition handler_end (r : res Reply * W) : phase * W :=
  match r with
  | (Ok reply, w) => (Replied reply, w)
  | (_, w) => (Dropped, w)
  end.

Lemma phase_run_end s n reply w : phase_run s n (Replied reply) w = (Replied reply, w).
Proof. induction n; [done|]. cbn. done. Qed.
Lemma phase_run_dropped s n w : phase_run s n Dropped w = (Dropped, w).
Proof. induction n; [done|]. cbn. done. Qed.

Lemma phase_run_S s n p w :
  phase_run s (S n) p w = let '(p, w) := phase_next s p w in phase_run s n p w.
Proof. done. Qed.

(** The end of the handler in pieces. *)
Lemma releasing_run s req kreq q log fw w :
  phase_run s 2 (Releasing req kreq q log fw) w = handler_end (release_key s req kreq q log fw w).
Proof.
  rewrite phase_run_S. unfold phase_next. cbn [phase_step]. unfold releasing_step.
  case_bool_decide as Hty.
  2:{ unfold mbind, M_bind. by destruct (release_key s req kreq q log fw w) as [[r|e|p] w1]. }
  unfold release_key, mbind, M_bind, lift. destruct (GetMrTd q) as [mrtd|e|p]; [|done..].
  unfold keyRequestFinalize, derive_key. rewrite Hty.
  change (bool_decide (KT_RSA = Symmetric)) with false. change (bool_decide (KT_RSA = KT_X25519)) with false.
  change (bool_decide (KT_RSA = KT_P256)) with false. change (bool_decide (KT_RSA = KT_P384)) with false.
  change (bool_decide (KT_RSA = KT_RSA)) with true. cbn match.
  unfold catch, mbind, M_bind. rewrite CreateRSA_phases. unfold mbind, M_bind.
  destruct (rsa_lookup (sv_keyService s) (kr_Id kreq) w) as [[[k|]|e|p] w1]; [done| |done..].
  unfold mret at 1, M_ret. rewrite phase_run_S. unfold phase_next. cbn [phase_step]. unfold catch, mret, M_ret.
  by destruct (rsa_generate_and_store (sv_keyService s) (kr_Id kreq) w1) as [[k|e|p] w2].
Qed.

Lemma attesting_run s req record kreq w :
  phase_run s 4 (Attesting req record kreq) w = handler_end (
    (r ← AttVerify (sv_challengeResponse s) record (ar_Quote req);
     match r with
     | inr e => mret (keyResponseError (ec_Code e) (ec_Message e))
     | inl quote => finalize_verified s req kreq quote
     end) w).
Proof.
  rewrite phase_run_S. unfold phase_next. cbn [phase_step].
  unfold attesting_step, mbind, M_bind.
  destruct (AttVerify (sv_challengeResponse s) record (ar_Quote req) w) as [[[q|e]|e|p] w1]; [|done..].
  unfold finalize_verified, catch, lift. destruct (NewEventLog (ar_EventLog req)) as [log|e|p]; [|done..].
  destruct (EventLog_Verify log q) as [fw|e|p]; [|done..].
  unfold mret at 1, M_ret. rewrite phase_run_S. unfold phase_next. cbn [phase_step]. unfold catch.
  destruct (Session_Delete (sv_sessions s) (ar_SessionId req) w1) as [[u|e|p] w2]; [| |done];
    apply releasing_run.
Qed.

(** The pieces are the handler: a finalize request that nothing interrupts
    has, after five pieces, the reply, the effect on the store and the panics
    of [handleKeyRequestFinalize], for every request and every store. *)
Theorem phases_are_the_handler s request w :
  phase_run s 5 (Arrived request) w = handler_end (handleKeyRequestFinalize s request w).
Proof.
  rewrite phase_run_S. unfold phase_next. cbn [phase_step]. unfold arrived_step, handleKeyRequestFinalize, catch, lift, mbind, M_bind.
  destruct (decodeRequest AttestationRequest request) as [req|e|p]; [|done..].
  destruct (Get (sv_sessions s) (ar_SessionId req) w) as [[[record|e]|e|p] w1]; [|done..].
  destruct (json_Unmarshal KeyRequest (rs_Payload record)) as [kreq|e|p]; [|done..].
  case_bool_decide; [done|]. unfold mret, M_ret. apply attesting_run.
Qed.
End phases.

(** ** Servers, requests and sessions *)

(** What happened to the sessions, with the number of the request and the
    time. *)
Inductive event :=
  | EInit (id nonce payload : bytes) (t : Z)
  | ERead (k : nat) (id : bytes) (record : AttestationRequestStore) (t : Z)
  | EDelete (k : nat) (id : bytes)
  | ERelease (k : nat) (id : bytes) (reply : Reply).

Definition issued (h : list event) : list bytes :=
  omap (λ e, match e with EInit id _ _ _ => Some id | _ => None end) h.

(** [e1], later [e2]. *)
Definition precedes (h : list event) (e1 e2 : event) : Prop :=
  ∃ h1 h2 h3, h = h1 ++ e1 :: h2 ++ e2 :: h3.

Lemma precedes_snoc h e1 e2 : e1 ∈ h → precedes (h ++ [e2]) e1 e2.
Proof. intros (h1 & h2 & ->)%list_elem_of_split. exists h1, h2, []. by rewrite <- app_assoc. Qed.
Lemma precedes_app h h' e1 e2 : precedes h e1 e2 → precedes (h ++ h') e1 e2.
Proof. intros (h1 & h2 & h3 & ->). exists h1, h2, (h3 ++ h'). by rewrite <- app_assoc, <- !app_comm_cons, <- app_assoc. Qed.
Lemma precedes_l h e1 e2 : precedes h e1 e2 → e1 ∈ h.
Proof. intros (h1 & h2 & h3 & ->). set_solver. Qed.

(** The session [id] has been made with this nonce and payload at time [t],
    and has not been deleted since. *)
Definition opened (h : list event) (id nonce payload : bytes) (t : Z) : Prop :=
  ∃ h1 h2, h = h1 ++ EInit id nonce payload t :: h2 ∧ ∀ k, EDelete k id ∉ h2.

Lemma opened_snoc h id nonce payload t e : opened h id nonce payload t → (∀ k, e ≠ EDelete k id) →
  opened (h ++ [e]) id nonce payload t.
Proof.
  intros (h1 & h2 & -> & Hd) He. exists h1, (h2 ++ [e]). rewrite <- app_assoc. split; [done|].
  intros k. rewrite not_elem_of_app, list_elem_of_singleton. split; [done|]. intros Heq. by apply (He k).
Qed.
Lemma opened_init h id nonce payload t : opened (h ++ [EInit id nonce payload t]) id nonce payload t.
Proof. exists h, []. split; [done|]. intros k. apply not_elem_of_nil. Qed.

Section pool.
Context {W : Type} `{CL : Clock W} `{UL : UuidLib W} `{EN : Entropy W} `{QL : QuoteLib} `{QV : QuoteVerifier W}.
Context `{CC : CcelLib} `{HL : HkdfLaws} `{CVL : CurveLaws} `{EE : EcEncoding} `{RL : RsaLib W} `{ED : EcdsaLib W}.
Context `{AL : AeadLaws}.
Context (ks : BaseKeyStore W) `{SL : !StoreLaws ks} `{WE : !WebEnv ks} `{RE : !RsaEnv ks}.

(** The servers on the store [ks], their requests with what has become of
    them, and the trace. *)
Record Srv := { srv_w : W; srv_requests : list (KeyServer W * phase); srv_trace : list event }.

Definition phase_events (k : nat) (t : Z) (p p' : phase) : list event :=
  match p, p' with
  | Arrived _, Attesting req record _ => [ERead k (ar_SessionId req) record t]
  | Consuming req _ _ _ _, Releasing _ _ _ _ _ => [EDelete k (ar_SessionId req)]
  | (Releasing req _ _ _ _ | Generating req _ _ _ _), Replied reply =>
      if decide (rp_code reply = 200) then [ERelease k (ar_SessionId req) reply] else []
  | _, _ => []
  end.

(** One step of the servers that [servers] holds of: a request for a key
    arrives or goes on; another handler runs; time passes. *)
Inductive srv_step (servers : KeyServer W → Prop) (σ : Srv) : Srv → Prop :=
  | srv_arrives s request :
      servers s →
      srv_step servers σ
        {| srv_w := srv_w σ; srv_requests := srv_requests σ ++ [(s, Arrived request)]; srv_trace := srv_trace σ |}
  | srv_goes_on k s p p' w' :
      srv_requests σ !! k = Some (s, p) → phase_next s p (srv_w σ) = (p', w') →
      srv_step servers σ
        {| srv_w := w'; srv_requests := <[k:=(s, p')]> (srv_requests σ);
           srv_trace := srv_trace σ ++ phase_events k (st_now (srv_w σ)) p p' |}
  | srv_key_init s request req nonce id w' :
      servers s → decodeRequest KeyRequest request = Ok req →
      keyRequestInit s req (srv_w σ) =
        (Ok (inl {| vr_Nonce := b64_EncodeToString nonce; vr_SessionId := id |}), w') →
      srv_step servers σ
        {| srv_w := w'; srv_requests := srv_requests σ;
           srv_trace := srv_trace σ ++ [EInit id nonce (json_Marshal req) (st_now (srv_w σ))] |}
  | srv_seal_init s request req nonce id w' :
      servers s → decodeRequest TdxSealRequest request = Ok req →
      tdxSealRequestInit s req (srv_w σ) =
        (Ok (inl {| vr_Nonce := b64_EncodeToString nonce; vr_SessionId := id |}), w') →
      srv_step servers σ
        {| srv_w := w'; srv_requests := srv_requests σ;
           srv_trace := srv_trace σ ++ [EInit id nonce (json_Marshal req) (st_now (srv_w σ))] |}
  | srv_seal_finalize s request r w' :
      servers s → handleTdxSealFinalize s request (srv_w σ) = (r, w') →
      srv_step servers σ {| srv_w := w'; srv_requests := srv_requests σ; srv_trace := srv_trace σ |}
  | srv_elapse d :
      0 ≤ d →
      srv_step servers σ
        {| srv_w := st_elapse d (srv_w σ); srv_requests := srv_requests σ; srv_trace := srv_trace σ |}.

(** Intel's servers do not touch the store. *)
Class VerifierEnv := verify_same raw w : st_ok w → st_same w (RawTdxQuote raw w : res unit * W).2.

(** *** What the pieces do to the store *)

(** The sessions are as before. *)
Definition sessions_same (w w' : W) : Prop :=
  st_ok w' ∧ st_now w' = st_now w ∧
  ∀ id, st_content w' (session_key id) = st_content w (session_key id) ∧
        st_deadline w' (session_key id) = st_deadline w (session_key id).

Lemma st_same_sessions w w' : st_same w w' → sessions_same w w'.
Proof. intros (? & ? & Hi). split; [done|]. split; [done|]. intros id. apply Hi. Qed.
Lemma st_same_refl w : st_ok w → st_same w w.
Proof. intros Hok. split; [done|by split]. Qed.

Context `{VE : !VerifierEnv}.

(** A quote that was checked against the nonce of a session, and its event
    log. *)
Definition attested (s : KeyServer W) (req : AttestationRequest) (record : AttestationRequestStore)
    (q : TdxQuote) (log : EventLogger) (fw : bytes) : Prop :=
  (∃ w w', st_ok w ∧ quote_checked (sv_challengeResponse s) record (ar_Quote req) q w w') ∧
  NewEventLog (ar_EventLog req) = Ok log ∧ EventLog_Verify log q = Ok fw.

(** The request that a session keeps. *)
Definition requested (record : AttestationRequestStore) (kreq : KeyRequest) : Prop :=
  json_Unmarshal KeyRequest (rs_Payload record) = Ok kreq ∧ kr_Id kreq ≠ [].

Lemma Get_inv (st : SessionStore W) id w r w' : kv st = ks → st_ok w → Get st id w = (r, w') →
  st_same w w' ∧ ∀ record, r = Ok (inl record) → ∃ c, st_content w (session_key id) = Some c ∧
    json_Unmarshal AttestationRequestStore c = Ok record.
Proof.
  intros Hkv Hok. unfold Get, catch. rewrite Hkv. fold (session_key id).
  destruct (st_content w (session_key id)) as [c|] eqn:Hc.
  - destruct (st_read_found w _ _ Hok Hc) as (w1 & -> & Hs). rewrite st_HasNil_none.
    destruct (json_Unmarshal AttestationRequestStore c) as [x|e|p] eqn:Hx; intros [= <- <-]; (split; [done|]);
      intros record [= ->]. by exists c.
  - destruct (st_read_missing w _ Hok Hc) as (w1 & -> & Hs). rewrite st_HasNil, bool_decide_true by done.
    by intros [= <- <-].
Qed.

Lemma arrived_effect s mk request w p' w' : wired ks s mk → st_ok w →
  phase_next s (Arrived request) w = (p', w') →
  st_same w w' ∧
  match p' with
  | Attesting req record kreq => requested record kreq ∧
      ∃ c, st_content w (session_key (ar_SessionId req)) = Some c ∧
           json_Unmarshal AttestationRequestStore c = Ok record
  | Replied _ | Dropped => True
  | _ => False
  end.
Proof.
  intros Hw Hok. pose proof (st_same_refl w Hok). unfold phase_next. cbn [phase_step].
  unfold arrived_step, catch, lift, mbind, M_bind.
  destruct (decodeRequest AttestationRequest request) as [req|e|p]; [|by intros [= <- <-]..].
  destruct (Get (sv_sessions s) (ar_SessionId req) w) as [r w1] eqn:Hget.
  destruct (Get_inv _ _ _ _ _ (f_equal kv (w_sessions _ _ _ Hw)) Hok Hget) as [Hs Hr].
  destruct r as [[record|e]|e|p]; [|by intros [= <- <-]..].
  destruct (json_Unmarshal KeyRequest (rs_Payload record)) as [kreq|e|p] eqn:Hk; [|by intros [= <- <-]..].
  case_bool_decide; [by intros [= <- <-]|]. intros [= <- <-]. split; [done|]. split; [done|]. by apply Hr.
Qed.

Lemma AttVerify_same (a : AttestationVerificationProtocol W) record tq w : st_ok w →
  st_same w (AttVerify a record tq w).2.
Proof.
  intros Hok. pose proof (st_same_refl w Hok). unfold AttVerify. case_bool_decide; [done|]. unfold catch, lift.
  destruct (b64_DecodeString tq) as [qb|e|p]; [|done..]. destruct (NewTdxQuote qb) as [q|e|p]; [|done..].
  pose proof (verify_same (raw q) w Hok) as Hv. unfold Quote_Verify.
  destruct (RawTdxQuote (raw q) w) as [[[]|e|p] w1]; simpl in Hv; [done| |done].
  by destruct (av_enforceQuoteVerify a).
Qed.

Lemma attesting_effect s req record kreq w p' w' : st_ok w →
  phase_next s (Attesting req record kreq) w = (p', w') →
  st_same w w' ∧
  match p' with
  | Consuming req' kreq' q log fw => req' = req ∧ kreq' = kreq ∧ attested s req record q log fw
  | Replied _ | Dropped => True
  | _ => False
  end.
Proof.
  intros Hok. unfold phase_next. cbn [phase_step]. unfold attesting_step, mbind, M_bind.
  pose proof (AttVerify_same (sv_challengeResponse s) record (ar_Quote req) w Hok) as Hs.
  destruct (AttVerify (sv_challengeResponse s) record (ar_Quote req) w) as [r w1] eqn:Hv. simpl in Hs.
  destruct r as [[q|e]|e|p]; [|by intros [= <- <-]..]. unfold catch, lift.
  destruct (NewEventLog (ar_EventLog req)) as [log|e|p] eqn:Hlog; [|by intros [= <- <-]..].
  destruct (EventLog_Verify log q) as [fw|e|p] eqn:Hfw; [|by intros [= <- <-]..].
  intros [= <- <-]. split; [done|]. split; [done|]. split; [done|]. split; [|done].
  exists w, w1. split; [done|]. by apply AttVerify_inv in Hv.
Qed.

Lemma consuming_effect s mk req kreq q log fw w p' w' : wired ks s mk → st_ok w →
  phase_next s (Consuming req kreq q log fw) w = (p', w') →
  p' = Releasing req kreq q log fw ∧ st_ok w' ∧ st_now w' = st_now w ∧
  ∀ i, st_content w' i = (if decide (i = session_key (ar_SessionId req)) then None else st_content w i) ∧
       st_deadline w' i = (if decide (i = session_key (ar_SessionId req)) then None else st_deadline w i).
Proof.
  intros Hw Hok. unfold phase_next. cbn [phase_step]. unfold catch, Session_Delete. rewrite (w_sessions _ _ _ Hw).
  cbn [kv NewSessionStore]. fold (session_key (ar_SessionId req)).
  destruct (st_Delete w (session_key (ar_SessionId req)) Hok) as (w1 & -> & ? & ? & ?). by intros [= <- <-].
Qed.

(** A reply that hands out the key for the attested measurements. *)
Definition releases (s : KeyServer W) (kreq : KeyRequest) (q : TdxQuote) (fw : bytes) (reply : Reply) : Prop :=
  ∃ mrtd key, GetMrTd q = Ok mrtd ∧
    rp_body reply = Marshal (KeyResponse_json {| Key := key; Verified := true; Message := [] |}) ++ [x0a] ∧
    (kr_Type kreq ≠ KT_RSA →
     derive_key s (kr_Id kreq) (kr_Type kreq) (kr_Ctx kreq) (DeriveSeedFromMeasurements mrtd fw) =
       Some (lift (Ok key))).

(** Other keys than RSA keys are computed without the store. *)
Lemma derive_key_pure (s : KeyServer W) id t ctx seed m : t ≠ KT_RSA → derive_key s id t ctx seed = Some m →
  ∃ r, m = lift r.
Proof.
  intros Ht. unfold derive_key. rewrite (bool_decide_false (t = KT_RSA)) by done.
  repeat case_bool_decide; intros [= <-]; by eexists.
Qed.

Lemma rsa_lookup_same s mk id w : wired ks s mk → st_ok w → st_same w (rsa_lookup (sv_keyService s) id w).2.
Proof.
  intros Hw Hok. unfold rsa_lookup, catch. rewrite (w_keyStore _ _ _ Hw).
  destruct (st_content w (STORE_PREFIX_RSA_KEY ++ id)) as [c|] eqn:Hc.
  - destruct (st_read_found w _ _ Hok Hc) as (w1 & -> & Hs). by rewrite st_HasNil_none.
  - destruct (st_read_missing w _ Hok Hc) as (w1 & -> & Hs). by rewrite st_HasNil, bool_decide_true.
Qed.

Lemma releasing_effect s mk req kreq q log fw w p' w' : wired ks s mk → st_ok w →
  phase_next s (Releasing req kreq q log fw) w = (p', w') →
  st_same w w' ∧
  match p' with
  | Generating req' kreq' q' log' fw' => (req', kreq', q', fw') = (req, kreq, q, fw) ∧ log' = log ∧
      kr_Type kreq = KT_RSA ∧ (∃ mrtd, GetMrTd q = Ok mrtd)
  | Replied reply => rp_code reply = 200 → releases s kreq q fw reply
  | Dropped => True
  | _ => False
  end.
Proof.
  intros Hw Hok. pose proof (st_same_refl w Hok) as Hrefl. unfold phase_next. cbn [phase_step].
  unfold releasing_step. case_bool_decide as Hty.
  - unfold mbind, M_bind, lift. destruct (GetMrTd q) as [mrtd|e|p] eqn:Hm; [|by intros [= <- <-]..]. unfold catch.
    pose proof (rsa_lookup_same s mk (kr_Id kreq) w Hw Hok) as Hs.
    destruct (rsa_lookup (sv_keyService s) (kr_Id kreq) w) as [[[k|]|e|p] w1]; simpl in Hs; intros [= <- <-];
      (split; [done|]); try done.
    + intros _. exists mrtd, (PairKey k). by split_and!.
    + split_and!; try done. by exists mrtd.
  - unfold release_key, mbind, M_bind, lift. destruct (GetMrTd q) as [mrtd|e|p] eqn:Hm; [|by intros [= <- <-]..].
    unfold keyRequestFinalize.
    destruct (derive_key s _ _ _ _) as [m|] eqn:Hd; [|intros [= <- <-]; by split].
    destruct (derive_key_pure _ _ _ _ _ _ Hty Hd) as [r ->]. unfold catch, lift.
    destruct r as [key|e|p]; intros [= <- <-]; (split; [done|]); try done.
    intros _. exists mrtd, key. by split_and!.
Qed.

Lemma session_key_rsa id i : session_key id ≠ rsa_key i.
Proof. by unfold session_key, rsa_key. Qed.

Lemma generating_effect s mk req kreq q log fw w p' w' : wired ks s mk → st_ok w →
  kr_Type kreq = KT_RSA → (∃ mrtd, GetMrTd q = Ok mrtd) →
  phase_next s (Generating req kreq q log fw) w = (p', w') →
  sessions_same w w' ∧
  match p' with Replied reply => rp_code reply = 200 → releases s kreq q fw reply | _ => False end.
Proof.
  intros Hw Hok Hty [mrtd Hm]. unfold phase_next. cbn [phase_step].
  unfold rsa_generate_and_store, catch, mbind, M_bind.
  destruct (RSA_ok ks w Hok) as (kp & w1 & -> & (Hok1 & Hn1 & Hs1) & _).
  rewrite (w_keyStore _ _ _ Hw), st_Write. fold (rsa_key (kr_Id kreq)).
  destruct (st_WriteWithTTL w1 (rsa_key (kr_Id kreq)) (json_Marshal (Some kp)) (-1) Hok1) as (w2 & -> & Hok2 & Hn2 & Hs2);
    [lia|]. intros [= <- <-]. split.
  - split; [done|]. split; [congruence|]. intros id. destruct (Hs1 (session_key id)), (Hs2 (session_key id)) as [-> ->].
    rewrite !decide_False by (try (intros [? _]); by eapply session_key_rsa). by split.
  - intros _. exists mrtd, (PairKey (Some kp)). by split_and!.
Qed.

(** Making a session. *)
Lemma Init_effect (a : AttestationVerificationProtocol W) data w nonce id w' :
  av_sessions a = NewSessionStore ks → st_ok w →
  Init a data w = (Ok {| vr_Nonce := b64_EncodeToString nonce; vr_SessionId := id |}, w') →
  st_ok w' ∧ st_now w' = st_now w ∧
  ∀ i, st_content w' i = (if decide (i = session_key id)
                          then Some (json_Marshal (session_record nonce data)) else st_content w i) ∧
       st_deadline w' i = (if decide (i = session_key id) then Some (st_now w + 60) else st_deadline w i).
Proof.
  intros Ha Hok. pose proof (env_draw 64 w Hok) as (Hok1 & Hn1 & Hs1). unfold Init, GenerateNonce, mbind, M_bind.
  rewrite Ha. destruct (draw 64 w) as [nonce' w1]. simpl in Hok1, Hn1, Hs1.
  destruct (Create_stores ks nonce' data w1 Hok1) as (u & w2 & -> & Hok2 & Hn2 & _ & Hi).
  intros [= Hnonce <- <-]. assert (nonce' = nonce) as ->.
  { apply (f_equal b64_DecodeString) in Hnonce. rewrite !b64_round_trip in Hnonce. by injection Hnonce. }
  split; [done|]. split; [congruence|]. intros i. destruct (Hi i) as [-> ->], (Hs1 i) as [-> ->]. by rewrite Hn1.
Qed.

Lemma key_init_Init (s : KeyServer W) req w v w' : keyRequestInit s req w = (Ok (inl v), w') →
  Init (sv_challengeResponse s) (json_Marshal req) w = (Ok v, w').
Proof.
  unfold keyRequestInit. destruct (_ || _); [done|]. unfold catch.
  destruct (Init (sv_challengeResponse s) (json_Marshal req) w) as [[r|e|p] w1]; by intros [= -> ->].
Qed.
Lemma seal_init_Init (s : KeyServer W) req w v w' : tdxSealRequestInit s req w = (Ok (inl v), w') →
  Init (sv_sealingChallengeResponse s) (json_Marshal req) w = (Ok v, w').
Proof.
  unfold tdxSealRequestInit. destruct (_ || _); [done|]. unfold catch.
  destruct (Init (sv_sealingChallengeResponse s) (json_Marshal req) w) as [[r|e|p] w1]; by intros [= -> ->].
Qed.

Lemma TDXSeal_same (v : VaultKeyService W) req w : st_ok w → st_same w (TDXSeal v req w).2.
Proof.
  intros Hok. pose proof (st_same_refl w Hok). unfold TDXSeal, mbind, M_bind, lift.
  destruct (wrap _ (b64_DecodeString (ts_Mrtd req))) as [mrtd|e|p]; [|done..].
  destruct (wrap _ (b64_DecodeString (ts_Cfv req))) as [fw|e|p]; [|done..].
  destruct (wrap _ (b64_DecodeString (ts_Payload req))) as [payload|e|p]; [|done..].
  destruct (deriveHKDF v _ _ _) as [key|e|p]; [|done..]. unfold catch, EncryptAESGCM.
  destruct (negb _); [done|]. pose proof (env_draw NonceSize w Hok) as Hd. by destruct (draw NonceSize w).
Qed.

Lemma seal_finalize_same s mk request w : wired ks s mk → st_ok w →
  st_same w (handleTdxSealFinalize s request w).2.
Proof.
  intros Hw Hok. pose proof (st_same_refl w Hok). unfold handleTdxSealFinalize, catch, mbind, M_bind, lift.
  destruct (decodeRequest AttestationRequest request) as [req|e|p]; [|done..].
  destruct (Get (sv_sessions s) (ar_SessionId req) w) as [r w1] eqn:Hget.
  destruct (Get_inv _ _ _ _ _ (f_equal kv (w_sessions _ _ _ Hw)) Hok Hget) as [Hs _].
  destruct r as [[record|e]|e|p]; [|done..]. assert (st_ok w1) as Hok1 by apply Hs.
  pose proof (AttVerify_same (sv_sealingChallengeResponse s) record (ar_Quote req) w1 Hok1) as Hv.
  destruct (AttVerify _ record _ w1) as [r w2]. simpl in Hv.
  assert (st_same w w2) as Hs2 by by eapply st_same_trans.
  destruct r as [[q|e]|e|p]; [|done..].
  destruct (json_Unmarshal TdxSealRequest (rs_Payload record)) as [sreq|e|p]; [|done..].
  unfold seal_and_journal, catch. pose proof (TDXSeal_same (sv_keyService s) sreq w2 (proj1 Hs2)) as Hs3.
  destruct (TDXSeal (sv_keyService s) sreq w2) as [[r|e|p] w3]; simpl in *; by eapply st_same_trans.
Qed.

(** *** The invariant *)

Context (servers : KeyServer W → Prop) (mk : bytes) (Hservers : ∀ s, servers s → wired ks s mk).

(** What an event says about the ones before it. *)
Definition event_ok (h : list event) (e : event) : Prop :=
  match e with
  | EInit _ _ _ _ => True
  | ERead k id record t => ∃ nonce payload t0,
      record = session_record nonce payload ∧ opened h id nonce payload t0 ∧ t0 ≤ t < t0 + 60
  | EDelete k id => ∃ record t, ERead k id record t ∈ h
  | ERelease k id reply => ∃ s req record kreq q log fw t,
      servers s ∧ ar_SessionId req = id ∧ precedes h (ERead k id record t) (EDelete k id) ∧
      requested record kreq ∧ attested s req record q log fw ∧ releases s kreq q fw reply
  end.
Definition trace_ok (h : list event) : Prop := ∀ h1 e h2, h = h1 ++ e :: h2 → event_ok h1 e.

(** What a request that is under way has behind it. *)
Definition phase_ok (h : list event) (k : nat) (s : KeyServer W) (p : phase) : Prop :=
  match p with
  | Attesting req record kreq => requested record kreq ∧ ∃ t, ERead k (ar_SessionId req) record t ∈ h
  | Consuming req kreq q log fw => ∃ record t,
      requested record kreq ∧ attested s req record q log fw ∧ ERead k (ar_SessionId req) record t ∈ h
  | Releasing req kreq q log fw => ∃ record t, requested record kreq ∧ attested s req record q log fw ∧
      precedes h (ERead k (ar_SessionId req) record t) (EDelete k (ar_SessionId req))
  | Generating req kreq q log fw => (∃ record t, requested record kreq ∧ attested s req record q log fw ∧
      precedes h (ERead k (ar_SessionId req) record t) (EDelete k (ar_SessionId req))) ∧
      kr_Type kreq = KT_RSA ∧ ∃ mrtd, GetMrTd q = Ok mrtd
  | Arrived _ | Replied _ | Dropped => True
  end.

(** The sessions in the store are the opened ones, each until its deadline. *)
Definition sessions_ok (w : W) (h : list event) : Prop :=
  ∀ id c, st_content w (session_key id) = Some c → ∃ nonce payload t,
    c = json_Marshal (session_record nonce payload) ∧ valid_utf8 payload ∧ opened h id nonce payload t ∧
    st_deadline w (session_key id) = Some (t + 60) ∧ t ≤ st_now w < t + 60.

Record Srv_inv (σ : Srv) : Prop := {
  inv_ok : st_ok (srv_w σ);
  inv_sessions : sessions_ok (srv_w σ) (srv_trace σ);
  inv_trace : trace_ok (srv_trace σ);
  inv_requests k s p : srv_requests σ !! k = Some (s, p) → servers s ∧ phase_ok (srv_trace σ) k s p
}.

Lemma trace_ok_snoc h e : trace_ok h → event_ok h e → trace_ok (h ++ [e]).
Proof.
  intros Hh He h1 e' h2 Heq. destruct h2 as [|e2 h2 _] using rev_ind.
  - apply app_inj_tail in Heq as [-> ->]. done.
  - rewrite app_comm_cons, app_assoc in Heq. apply app_inj_tail in Heq as [-> ->]. by eapply Hh.
Qed.

Lemma phase_ok_app h h' k s p : phase_ok h k s p → phase_ok (h ++ h') k s p.
Proof.
  destruct p as [b|req rec kreq|req kreq q log fw|req kreq q log fw|req kreq q log fw|r|]; simpl; [done|..|done|done].
  - intros (? & t & ?). split; [done|]. exists t. set_solver.
  - intros (rec & t & ? & ? & ?). exists rec, t. set_solver.
  - intros (rec & t & ? & ? & ?). exists rec, t. split_and!; try done. by apply precedes_app.
  - intros ((rec & t & ? & ? & ?) & ? & ?). split; [|done]. exists rec, t. split_and!; try done. by apply precedes_app.
Qed.

(** The sessions stay as they are while something else is recorded. *)
Lemma sessions_ok_same w w' h : sessions_same w w' → sessions_ok w h → sessions_ok w' h.
Proof. intros (_ & Hn & Hs) Hh id c. destruct (Hs id) as [-> ->]. rewrite Hn. apply Hh. Qed.
Lemma sessions_ok_snoc w h e : (∀ k id, e ≠ EDelete k id) → sessions_ok w h → sessions_ok w (h ++ [e]).
Proof.
  intros He Hh id c Hc. destruct (Hh id c Hc) as (nonce & payload & t & ? & ? & Ho & ?). exists nonce, payload, t.
  split_and!; try done; [|tauto..]. by apply opened_snoc.
Qed.

(** A new state of one request. *)
Lemma requests_ok_insert h h' (l : list (KeyServer W * phase)) k s p p' : l !! k = Some (s, p) →
  (∀ j s p, l !! j = Some (s, p) → servers s ∧ phase_ok h j s p) → phase_ok (h ++ h') k s p' →
  ∀ j s' q, <[k:=(s, p')]> l !! j = Some (s', q) → servers s' ∧ phase_ok (h ++ h') j s' q.
Proof.
  intros Hk Hl Hp j s' q. rewrite list_lookup_insert. case_decide as Hj.
  - destruct Hj as [-> _]. intros [= <- <-]. split; [by eapply Hl|done].
  - intros Hj'. destruct (Hl j s' q Hj'). split; [done|]. by apply phase_ok_app.
Qed.

(** A step that records nothing or one event, and changes one request. *)
Lemma inv_update σ k s p p' w' h' : Srv_inv σ → srv_requests σ !! k = Some (s, p) →
  st_ok w' → sessions_ok w' (srv_trace σ ++ h') → trace_ok (srv_trace σ ++ h') →
  phase_ok (srv_trace σ ++ h') k s p' →
  Srv_inv {| srv_w := w'; srv_requests := <[k:=(s, p')]> (srv_requests σ); srv_trace := srv_trace σ ++ h' |}.
Proof.
  intros [] Hk ? ? ? ?. split; try done. cbn [srv_requests srv_trace]. by eapply requests_ok_insert.
Qed.

Lemma sessions_ok_delete w w' id k h : sessions_ok w h → st_now w' = st_now w →
  (∀ i, st_content w' i = (if decide (i = session_key id) then None else st_content w i) ∧
        st_deadline w' i = (if decide (i = session_key id) then None else st_deadline w i)) →
  sessions_ok w' (h ++ [EDelete k id]).
Proof.
  intros Hh Hn Hi id' c. destruct (Hi (session_key id')) as [-> ->]. rewrite Hn. case_decide as Hd; [done|].
  intros Hc. destruct (Hh id' c Hc) as (nonce & payload & t & ? & ? & Ho & ?). exists nonce, payload, t.
  split_and!; try done; [|tauto..]. apply opened_snoc; [done|]. intros k' [= _ ->]. by apply Hd.
Qed.

(** The two shapes of a step that leaves the sessions alone. *)
Lemma inv_quiet σ k s p p' w' : Srv_inv σ → srv_requests σ !! k = Some (s, p) →
  sessions_same (srv_w σ) w' → phase_ok (srv_trace σ) k s p' →
  Srv_inv {| srv_w := w'; srv_requests := <[k:=(s, p')]> (srv_requests σ); srv_trace := srv_trace σ ++ [] |}.
Proof.
  intros Hinv Hk Hsame Hp. apply inv_update with p; [done|done|apply Hsame|rewrite app_nil_r..|by rewrite app_nil_r].
  - eapply sessions_ok_same; [done|apply Hinv].
  - apply Hinv.
Qed.
Lemma inv_event σ k s p p' w' e : Srv_inv σ → srv_requests σ !! k = Some (s, p) →
  sessions_same (srv_w σ) w' → (∀ k id, e ≠ EDelete k id) → event_ok (srv_trace σ) e →
  phase_ok (srv_trace σ ++ [e]) k s p' →
  Srv_inv {| srv_w := w'; srv_requests := <[k:=(s, p')]> (srv_requests σ); srv_trace := srv_trace σ ++ [e] |}.
Proof.
  intros Hinv Hk Hsame Hne He Hp. apply inv_update with p; try done; [apply Hsame|..].
  - apply sessions_ok_snoc; [done|]. eapply sessions_ok_same; [done|apply Hinv].
  - by apply trace_ok_snoc; [apply Hinv|].
Qed.

(** A reply, with the release it stands for. *)
Lemma inv_reply σ k s p req rec kreq q log fw t reply w' : Srv_inv σ → srv_requests σ !! k = Some (s, p) →
  (∃ log, p = Releasing req kreq q log fw ∨ p = Generating req kreq q log fw) →
  requested rec kreq → attested s req rec q log fw →
  precedes (srv_trace σ) (ERead k (ar_SessionId req) rec t) (EDelete k (ar_SessionId req)) →
  sessions_same (srv_w σ) w' → (rp_code reply = 200 → releases s kreq q fw reply) →
  Srv_inv {| srv_w := w'; srv_requests := <[k:=(s, Replied reply)]> (srv_requests σ);
             srv_trace := srv_trace σ ++ phase_events k (st_now (srv_w σ)) p (Replied reply) |}.
Proof.
  intros Hinv Hk Hp Hr Ha Ht Hsame Hrel. destruct (inv_requests _ Hinv k s p Hk) as [Hs _].
  assert (phase_events k (st_now (srv_w σ)) p (Replied reply) =
    if decide (rp_code reply = 200) then [ERelease k (ar_SessionId req) reply] else []) as ->
    by (by destruct Hp as (? & [->| ->])).
  case_decide; [|by eapply inv_quiet]. eapply inv_event; try done.
  exists s, req, rec, kreq, q, log, fw, t. split_and!; try done. by apply Hrel.
Qed.

Lemma inv_arrived σ k s b p' w' : Srv_inv σ → srv_requests σ !! k = Some (s, Arrived b) →
  phase_next s (Arrived b) (srv_w σ) = (p', w') →
  Srv_inv {| srv_w := w'; srv_requests := <[k:=(s, p')]> (srv_requests σ);
             srv_trace := srv_trace σ ++ phase_events k (st_now (srv_w σ)) (Arrived b) p' |}.
Proof.
  intros Hinv Hk Hnext. destruct (inv_requests _ Hinv k s _ Hk) as [Hs _].
  destruct (arrived_effect s mk b (srv_w σ) p' w' (Hservers s Hs) (inv_ok _ Hinv) Hnext) as [Hsame Hp'].
  apply st_same_sessions in Hsame. destruct p' as [|req rec kreq|?|?|?|?|]; try done;
    [eapply inv_event; try done|by eapply inv_quiet..].
  - destruct Hp' as (_ & c & Hc & Hrec).
    destruct (inv_sessions _ Hinv _ _ Hc) as (nonce & payload & t & -> & Hu & Ho & _ & Ht).
    exists nonce, payload, t. rewrite json_round_trip in Hrec by done. by injection Hrec as <-.
  - destruct Hp' as [? _]. split; [done|]. exists (st_now (srv_w σ)). apply elem_of_app. right. by left.
Qed.

Lemma inv_attesting σ k s req rec kreq p' w' : Srv_inv σ →
  srv_requests σ !! k = Some (s, Attesting req rec kreq) →
  phase_next s (Attesting req rec kreq) (srv_w σ) = (p', w') →
  Srv_inv {| srv_w := w'; srv_requests := <[k:=(s, p')]> (srv_requests σ);
             srv_trace := srv_trace σ ++ phase_events k (st_now (srv_w σ)) (Attesting req rec kreq) p' |}.
Proof.
  intros Hinv Hk Hnext. destruct (inv_requests _ Hinv k s _ Hk) as [_ [Hr [t Ht]]].
  destruct (attesting_effect s req rec kreq (srv_w σ) p' w' (inv_ok _ Hinv) Hnext) as [Hsame Hp'].
  apply st_same_sessions in Hsame. destruct p' as [|?|req' kreq' q log fw|?|?|?|]; try done; eapply inv_quiet; try done.
  destruct Hp' as (-> & -> & Ha). by exists rec, t.
Qed.

Lemma inv_consuming σ k s req kreq q log fw p' w' : Srv_inv σ →
  srv_requests σ !! k = Some (s, Consuming req kreq q log fw) →
  phase_next s (Consuming req kreq q log fw) (srv_w σ) = (p', w') →
  Srv_inv {| srv_w := w'; srv_requests := <[k:=(s, p')]> (srv_requests σ);
             srv_trace := srv_trace σ ++ phase_events k (st_now (srv_w σ)) (Consuming req kreq q log fw) p' |}.
Proof.
  intros Hinv Hk Hnext. destruct (inv_requests _ Hinv k s _ Hk) as [Hs (rec & t & Hr & Ha & Ht)].
  destruct (consuming_effect s mk req kreq q log fw (srv_w σ) p' w' (Hservers s Hs) (inv_ok _ Hinv) Hnext)
    as (-> & Hok' & Hn & Hi).
  eapply inv_update; try done.
  - eapply sessions_ok_delete; [apply Hinv|done..].
  - apply trace_ok_snoc; [apply Hinv|]. by exists rec, t.
  - exists rec, t. split; [done|]. split; [done|]. by apply precedes_snoc.
Qed.

Lemma inv_goes_on σ k s p p' w' : Srv_inv σ → srv_requests σ !! k = Some (s, p) →
  phase_next s p (srv_w σ) = (p', w') →
  Srv_inv {| srv_w := w'; srv_requests := <[k:=(s, p')]> (srv_requests σ);
             srv_trace := srv_trace σ ++ phase_events k (st_now (srv_w σ)) p p' |}.
Proof.
  intros Hinv Hk Hnext. destruct (inv_requests _ Hinv k s p Hk) as [Hs Hp]. pose proof (inv_ok _ Hinv) as Hok.
  pose proof (st_same_sessions _ _ (st_same_refl _ Hok)) as Hrefl.
  destruct p as [b|req rec kreq|req kreq q log fw|req kreq q log fw|req kreq q log fw|r|];
    [by apply inv_arrived|by apply inv_attesting|by apply inv_consuming| |
     |by injection Hnext as <- <-; eapply inv_quiet|by injection Hnext as <- <-; eapply inv_quiet].
  - destruct (releasing_effect s mk req kreq q log fw (srv_w σ) p' w' (Hservers s Hs) Hok Hnext) as [Hsame Hp'].
    apply st_same_sessions in Hsame. destruct Hp as (rec & t & Hr & Ha & Ht).
    destruct p' as [|?|?|?|req' kreq' q' log' fw'|reply|]; try done; [|eapply inv_reply; eauto|by eapply inv_quiet].
    eapply inv_quiet; try done. destruct Hp' as ([= -> -> -> ->] & -> & Hm). split; [|done]. by exists rec, t.
  - destruct Hp as ((rec & t & Hr & Ha & Ht) & Hty & Hm).
    destruct (generating_effect s mk req kreq q log fw (srv_w σ) p' w' (Hservers s Hs) Hok Hty Hm Hnext) as [Hsame Hp'].
    destruct p' as [|?|?|?|?|reply|]; try done. eapply inv_reply; eauto.
Qed.

Lemma inv_init σ (a : AttestationVerificationProtocol W) nonce id payload w' : Srv_inv σ →
  av_sessions a = NewSessionStore ks → valid_utf8 payload →
  Init a payload (srv_w σ) = (Ok {| vr_Nonce := b64_EncodeToString nonce; vr_SessionId := id |}, w') →
  Srv_inv {| srv_w := w'; srv_requests := srv_requests σ;
             srv_trace := srv_trace σ ++ [EInit id nonce payload (st_now (srv_w σ))] |}.
Proof.
  intros [Hok Hses Htr Hreq] Ha Hp Hinit.
  destruct (Init_effect a payload (srv_w σ) nonce id w' Ha Hok Hinit) as (Hok' & Hn & Hi).
  split; [done|..].
  - intros id' c. cbn [srv_w srv_trace]. destruct (Hi (session_key id')) as [-> ->]. rewrite Hn. case_decide as Hd.
    + apply session_key_inj in Hd as ->. intros [= <-]. exists nonce, payload, (st_now (srv_w σ)).
      split_and!; try done; [apply opened_init|lia..].
    + by refine (sessions_ok_snoc (srv_w σ) (srv_trace σ) (EInit id nonce payload (st_now (srv_w σ))) _ Hses id' c).
  - by apply trace_ok_snoc.
  - intros k s p Hk. destruct (Hreq k s p Hk). split; [done|]. by apply phase_ok_app.
Qed.

Lemma inv_elapse σ d : Srv_inv σ → 0 ≤ d →
  Srv_inv {| srv_w := st_elapse d (srv_w σ); srv_requests := srv_requests σ; srv_trace := srv_trace σ |}.
Proof.
  intros [Hok Hses Htr Hreq] Hd. destruct (st_elapse_spec (srv_w σ) d Hok Hd) as (Hok' & Hn & Hi).
  split; try done. cbn [srv_w]. intros id c Hc. specialize (Hi (session_key id)).
  destruct (st_content (srv_w σ) (session_key id)) as [c'|] eqn:Hc'.
  - destruct (Hses id c' Hc') as (nonce & payload & t & -> & Hu & Ho & Hdl & Ht). rewrite Hdl in Hi.
    case_decide; destruct Hi as [Hi1 Hi2]; rewrite Hi1 in Hc; [done|]. injection Hc as <-.
    exists nonce, payload, t. rewrite Hn. split_and!; try done; lia.
  - destruct (st_deadline (srv_w σ) (session_key id)); [case_decide|]; destruct Hi as [Hi1 _]; by rewrite Hi1 in Hc.
Qed.

Lemma inv_step σ σ' : Srv_inv σ → srv_step servers σ σ' → Srv_inv σ'.
Proof.
  intros Hinv Hstep. destruct Hstep as [s request Hs|k s p p' w' Hk Hnext|s request req nonce id w' Hs Hreq Hinit|
    s request req nonce id w' Hs Hreq Hinit|s request r w' Hs Hrun|d Hd].
  - destruct Hinv as [? ? ? Hreq]. split; try done. cbn [srv_requests srv_trace]. intros k s' p Hk.
    apply lookup_app_Some in Hk as [Hk|[_ Hk]]; [by apply Hreq|].
    apply list_lookup_singleton_Some in Hk as [_ [= <- <-]]. done.
  - by apply inv_goes_on.
  - apply key_init_Init in Hinit. eapply inv_init; [done|by apply (w_challenge _ _ _ (Hservers s Hs))| |done].
    eapply json_Marshal_valid, decodeRequest_text, Hreq.
  - apply seal_init_Init in Hinit. eapply inv_init; [done|by apply (w_sealing _ _ _ (Hservers s Hs))| |done].
    eapply json_Marshal_valid, decodeRequest_text, Hreq.
  - pose proof (seal_finalize_same s mk request (srv_w σ) (Hservers s Hs) (inv_ok _ Hinv)) as Hsame.
    rewrite Hrun in Hsame. simpl in Hsame. apply st_same_sessions in Hsame. destruct Hinv as [? ? ? ?].
    split; try done; [apply Hsame|]. by eapply sessions_ok_same.
  - by apply inv_elapse.
Qed.

(** Before the first request: no sessions. *)
Definition srv_start (σ : Srv) : Prop :=
  st_ok (srv_w σ) ∧ (∀ id, st_content (srv_w σ) (session_key id) = None) ∧
  srv_requests σ = [] ∧ srv_trace σ = [].

Lemma servers_inv σ0 σ : srv_start σ0 → rtc (srv_step servers) σ0 σ → Srv_inv σ.
Proof.
  intros (Hok & Hs & Hr & Ht) Hreach. assert (Srv_inv σ0) as Hinv.
  { split; [done|..].
    - intros id c. by rewrite Hs.
    - rewrite Ht. intros [|e1 h1] e2 h2; done.
    - intros k s p. by rewrite Hr. }
  clear Hok Hs Hr Ht. induction Hreach as [|σ1 σ2 σ3 H12 _ IH]; [done|]. apply IH. by eapply inv_step.
Qed.

Lemma release_event σ0 σ h1 k id reply h2 : srv_start σ0 → rtc (srv_step servers) σ0 σ →
  srv_trace σ = h1 ++ ERelease k id reply :: h2 →
  ∃ s req kreq q log fw nonce payload t0 t ha hb hc,
    servers s ∧ ar_SessionId req = id ∧
    h1 = ha ++ ERead k id (session_record nonce payload) t :: hb ++ EDelete k id :: hc ∧
    opened ha id nonce payload t0 ∧ t0 ≤ t < t0 + 60 ∧
    requested (session_record nonce payload) kreq ∧
    attested s req (session_record nonce payload) q log fw ∧ releases s kreq q fw reply.
Proof.
  intros H0' Hr Heq. pose proof (inv_trace _ (servers_inv σ0 σ H0' Hr)) as Htr.
  destruct (Htr _ _ _ Heq) as (s & req & record & kreq & q & log & fw & t & Hs & Hid & (ha & hb & hc & ->) & Hreq & Ha & Hrel).
  rewrite <- app_assoc in Heq. destruct (Htr _ _ _ Heq) as (nonce & payload & t0 & -> & Ho & Ht).
  exists s, req, kreq, q, log, fw, nonce, payload, t0, t, ha, hb, hc. do 7 (split; [done|]). done.
Qed.

(** C5. However requests at any number of servers interleave, and whatever the
    clients send: a key that a request releases was asked for in a session
    that one of the servers had opened at most 60 seconds before the request
    read it and that nobody had deleted by then, the request deleted the
    session after reading it, its quote passed the checks against the nonce of
    that session, and the key is the one for the measurements attested. *)
Theorem concurrent_release_is_attested σ0 σ h1 k id reply h2 : srv_start σ0 → rtc (srv_step servers) σ0 σ →
  srv_trace σ = h1 ++ ERelease k id reply :: h2 →
  ∃ s req kreq q log fw nonce payload t0 t ha hb hc,
    servers s ∧ ar_SessionId req = id ∧
    h1 = ha ++ ERead k id (session_record nonce payload) t :: hb ++ EDelete k id :: hc ∧
    opened ha id nonce payload t0 ∧ t0 ≤ t < t0 + 60 ∧
    requested (session_record nonce payload) kreq ∧
    attested s req (session_record nonce payload) q log fw ∧ releases s kreq q fw reply.
Proof. apply release_event. Qed.

Lemma issued_app h h' : issued (h ++ h') = issued h ++ issued h'.
Proof. apply omap_app. Qed.
Lemma issued_in h id nonce payload t : EInit id nonce payload t ∈ h → id ∈ issued h.
Proof. intros Hin. apply list_elem_of_omap. by eexists. Qed.

(** With fresh session ids, a deleted session is not read again. *)
Lemma no_read_after_delete σ h1 k id h2 : Srv_inv σ → NoDup (issued (srv_trace σ)) →
  srv_trace σ = h1 ++ EDelete k id :: h2 → ∀ k' record t, ERead k' id record t ∉ h2.
Proof.
  intros Hinv Hnd Heq k' record t (ha & hb & ->)%list_elem_of_split. pose proof (inv_trace _ Hinv) as Htr.
  destruct (Htr _ _ _ Heq) as (record1 & t1 & (hc & hd & ->)%list_elem_of_split).
  assert (srv_trace σ = hc ++ ERead k id record1 t1 :: (hd ++ EDelete k id :: ha ++ ERead k' id record t :: hb)) as Heq1
    by by rewrite Heq, <- app_assoc.
  destruct (Htr _ _ _ Heq1) as (n1 & p1 & t10 & _ & (hx & hy & -> & _) & _).
  rewrite app_comm_cons, app_assoc in Heq.
  destruct (Htr _ _ _ Heq) as (n2 & p2 & t20 & _ & (hz & hw & Hsplit & Hdel) & _).
  assert (EInit id n2 p2 t20 ∈ ha) as Hin.
  { symmetry in Hsplit. apply app_eq_inv in Hsplit as [(l & Hl1 & Hl2)|(l & Hl1 & Hl2)].
    - destruct l as [|e l]; simpl in Hl2; [done|]. injection Hl2 as <- ->. apply elem_of_app. right. by left.
    - destruct l as [|e l]; simpl in Hl2; [done|]. injection Hl2 as <- ->. exfalso. apply (Hdel k), elem_of_app.
      right. by left. }
  apply issued_in in Hin. rewrite Heq, !issued_app in Hnd. cbn [issued omap list_omap] in Hnd.
  apply NoDup_app in Hnd as (Hnd & _ & _). apply NoDup_app in Hnd as (_ & Hnd & _).
  eapply Hnd; [|exact Hin]. apply elem_of_app. left. apply elem_of_app. right. by left.
Qed.

(** C7. Sessions are used once, up to a race: with distinct session ids, of any
    two releases for one session each had read it before the other deleted
    it.  A request that arrives after a session was used gets no key, but
    requests that run at the same time all can ([double_release]). *)
Theorem releases_of_a_session_overlap σ0 σ k k' id reply reply' : srv_start σ0 → rtc (srv_step servers) σ0 σ →
  NoDup (issued (srv_trace σ)) →
  ERelease k id reply ∈ srv_trace σ → ERelease k' id reply' ∈ srv_trace σ →
  ∃ record t, precedes (srv_trace σ) (ERead k id record t) (EDelete k' id).
Proof.
  intros H0' Hr Hnd (h1 & h2 & Heq)%list_elem_of_split (h1' & h2' & Heq')%list_elem_of_split.
  destruct (release_event σ0 σ _ _ _ _ _ H0' Hr Heq)
    as (s & req & kreq & q & log & fw & n & pl & t0 & t & ha & hb & hc & _ & _ & -> & _).
  destruct (release_event σ0 σ _ _ _ _ _ H0' Hr Heq')
    as (s' & req' & kreq' & q' & log' & fw' & n' & pl' & t0' & t' & ha' & hb' & hc' & _ & _ & -> & _).
  exists (session_record n pl), t.
  assert (srv_trace σ = (ha' ++ ERead k' id (session_record n' pl') t' :: hb') ++ EDelete k' id ::
    (hc' ++ ERelease k' id reply' :: h2')) as Hd.
  { rewrite Heq'. by rewrite <- !app_assoc, <- !app_comm_cons, <- !app_assoc. }
  assert (ERead k id (session_record n pl) t ∈ srv_trace σ) as Hin.
  { rewrite Heq. apply elem_of_app. left. apply elem_of_app. right. by left. }
  rewrite Hd, elem_of_app, elem_of_cons in Hin. destruct Hin as [Hin|[Hin|Hin]]; [|done|].
  - apply list_elem_of_split in Hin as (hx & hy & Hxy). exists hx, hy, (hc' ++ ERelease k' id reply' :: h2').
    rewrite Hd, Hxy. by rewrite <- app_assoc.
  - exfalso. eapply no_read_after_delete; [by eapply servers_inv|done|exact Hd|exact Hin].
Qed.

(** The payload of a sealing session, read as a key request, names no type
    of key. *)
Lemma seal_payload_as_key_request sreq : TdxSealRequest_ok sreq →
  json_Unmarshal KeyRequest (json_Marshal sreq) = Ok {| kr_Id := ts_Id sreq; kr_Ctx := []; kr_Type := [] |}.
Proof.
  intros Hok. unfold json_Unmarshal, json_Marshal. rewrite Unmarshal_Marshal by by apply to_json_wf.
  destruct sreq. solve_codec.
Qed.

(** In the trace of unique ids, a session has one origin. *)
Lemma origin_unique h id n p t n' p' t' : NoDup (issued h) →
  EInit id n p t ∈ h → EInit id n' p' t' ∈ h → p' = p.
Proof.
  intros Hnd (h1 & h2 & ->)%list_elem_of_split Hin. rewrite issued_app in Hnd. cbn [issued omap list_omap] in Hnd.
  apply NoDup_app in Hnd as (_ & Hd & Hnd%NoDup_cons). rewrite elem_of_app, elem_of_cons in Hin.
  destruct Hin as [Hin|[[= -> -> ->]|Hin]]; [|done|]; apply issued_in in Hin; [|by destruct Hnd].
  exfalso. eapply Hd; [exact Hin|]. by left.
Qed.

(** C15. The session of a sealing request, though the routes for keys read it
    from the same table, never releases a key, in any interleaving. *)
Theorem seal_sessions_release_no_key σ0 σ id nonce sreq t : srv_start σ0 → rtc (srv_step servers) σ0 σ →
  NoDup (issued (srv_trace σ)) → TdxSealRequest_ok sreq →
  EInit id nonce (json_Marshal sreq) t ∈ srv_trace σ →
  ∀ k reply, ERelease k id reply ∉ srv_trace σ.
Proof.
  intros H0' Hr Hnd Hok Hin k reply (h1 & h2 & Heq)%list_elem_of_split.
  destruct (release_event σ0 σ _ _ _ _ _ H0' Hr Heq)
    as (s & req & kreq & q & log & fw & n & pl & t0 & t' & ha & hb & hc & _ & _ & -> & (hx & hy & -> & _) & _ & [Hk _] & _ & Hrel).
  assert (pl = json_Marshal sreq) as ->.
  { eapply origin_unique; [exact Hnd|exact Hin|]. rewrite Heq. apply elem_of_app. left. apply elem_of_app. left.
    apply elem_of_app. right. by left. }
  cbn [rs_Payload session_record] in Hk. rewrite seal_payload_as_key_request in Hk by done. injection Hk as <-.
  destruct Hrel as (mrtd & key & _ & _ & Hd). by specialize (Hd ltac:(done)).
Qed.

(** A key request decoded from any bytes comes back from the session it is
    kept in: decoded text is valid UTF-8, so that nothing of it is replaced
    when it is marshalled. *)
Theorem decoded_requests_are_kept request req nonce w st : decodeRequest KeyRequest request = Ok req →
  kv st = ks → st_ok w →
  ∃ id w1 w2, Create st nonce (json_Marshal req) w = (Ok id, w1) ∧
    Get st id w1 = (Ok (inl (session_record nonce (json_Marshal req))), w2) ∧
    json_Unmarshal KeyRequest (rs_Payload (session_record nonce (json_Marshal req))) = Ok req.
Proof.
  intros Hreq Hkv Hok. destruct st as [k]. simpl in Hkv. subst k. pose proof (decodeRequest_text _ _ Hreq) as Htext.
  destruct (Create_stores ks nonce (json_Marshal req) w Hok) as (u & w1 & Hc & Hok1 & _ & _ & Hi).
  destruct (Get_found ks (session_id (UnixMilli w) u) w1 (session_record nonce (json_Marshal req)) Hok1)
    as (w2 & Hg & _); [by apply json_Marshal_valid|by rewrite (proj1 (Hi _)), decide_True|].
  exists (session_id (UnixMilli w) u), w1, w2. split; [exact Hc|]. split; [exact Hg|]. by apply json_round_trip.
Qed.

(** *** Scripts *)

Inductive srv_cmd :=
  | CArrive (s : KeyServer W) (request : bytes)
  | CGo (k : nat)
  | CKeyInit (s : KeyServer W) (request : bytes)
  | CSealInit (s : KeyServer W) (request : bytes)
  | CElapse (d : N).

(** The session that an init handler has made. *)
Definition srv_made (σ : Srv) (payload : bytes) (r : res (VerifyResponse + ErrorWithCode) * W) : option Srv :=
  match r with
  | (Ok (inl v), w') =>
      match b64_DecodeString (vr_Nonce v) with
      | Ok nonce =>
          if decide (b64_EncodeToString nonce = vr_Nonce v)
          then Some {| srv_w := w'; srv_requests := srv_requests σ;
                       srv_trace := srv_trace σ ++ [EInit (vr_SessionId v) nonce payload (st_now (srv_w σ))] |}
          else None
      | _ => None
      end
  | _ => None
  end.

Definition srv_exec_cmd (σ : Srv) (c : srv_cmd) : option Srv :=
  match c with
  | CArrive s request =>
      Some {| srv_w := srv_w σ; srv_requests := srv_requests σ ++ [(s, Arrived request)]; srv_trace := srv_trace σ |}
  | CGo k =>
      '(s, p) ← srv_requests σ !! k;
      let '(p', w') := phase_next s p (srv_w σ) in
      Some {| srv_w := w'; srv_requests := <[k:=(s, p')]> (srv_requests σ);
              srv_trace := srv_trace σ ++ phase_events k (st_now (srv_w σ)) p p' |}
  | CKeyInit s request =>
      match decodeRequest KeyRequest request with
      | Ok req => srv_made σ (json_Marshal req) (keyRequestInit s req (srv_w σ))
      | _ => None
      end
  | CSealInit s request =>
      match decodeRequest TdxSealRequest request with
      | Ok req => srv_made σ (json_Marshal req) (tdxSealRequestInit s req (srv_w σ))
      | _ => None
      end
  | CElapse d =>
      Some {| srv_w := st_elapse (Z.of_N d) (srv_w σ); srv_requests := srv_requests σ; srv_trace := srv_trace σ |}
  end.
Definition srv_exec (σ : Srv) (l : list srv_cmd) : option Srv :=
  foldl (λ acc c, σ ← acc; srv_exec_cmd σ c) (Some σ) l.

(** The servers a script names. *)
Definition cmd_ok (c : srv_cmd) : Prop :=
  match c with CArrive s _ | CKeyInit s _ | CSealInit s _ => servers s | _ => True end.

Lemma srv_made_inv σ payload r σ' : srv_made σ payload r = Some σ' → ∃ nonce id w',
  r = (Ok (inl {| vr_Nonce := b64_EncodeToString nonce; vr_SessionId := id |}), w') ∧
  σ' = {| srv_w := w'; srv_requests := srv_requests σ;
          srv_trace := srv_trace σ ++ [EInit id nonce payload (st_now (srv_w σ))] |}.
Proof.
  unfold srv_made. destruct r as [[[[nonce64 id]|e]|e|p] w']; try done. cbn [vr_Nonce vr_SessionId].
  destruct (b64_DecodeString nonce64) as [nonce|e|p]; try done. case_decide as Heq; [|done]. intros [= <-].
  subst nonce64. by exists nonce, id, w'.
Qed.

Lemma srv_exec_cmd_step σ c σ' : cmd_ok c → srv_exec_cmd σ c = Some σ' → srv_step servers σ σ'.
Proof.
  intros Hok. destruct c as [s request|k|s request|s request|d]; cbn [srv_exec_cmd].
  - intros [= <-]. by apply srv_arrives.
  - intros ([s p] & Hk & Hc)%bind_Some. destruct (phase_next s p (srv_w σ)) as [p' w'] eqn:Hn.
    injection Hc as <-. by apply srv_goes_on.
  - destruct (decodeRequest KeyRequest request) as [req|e|p] eqn:Hreq; [|done..].
    intros (nonce & id & w' & Hrun & ->)%srv_made_inv. by eapply srv_key_init.
  - destruct (decodeRequest TdxSealRequest request) as [req|e|p] eqn:Hreq; [|done..].
    intros (nonce & id & w' & Hrun & ->)%srv_made_inv. by eapply srv_seal_init.
  - intros [= <-]. apply srv_elapse. lia.
Qed.

Lemma srv_exec_reachable σ l σ' : Forall cmd_ok l → srv_exec σ l = Some σ' → rtc (srv_step servers) σ σ'.
Proof.
  revert σ'. induction l as [|c l IH] using rev_ind; intros σ' Hl He; [by injection He as <-|].
  apply Forall_app in Hl as [Hl [Hc _]%Forall_cons]. unfold srv_exec in *. rewrite foldl_app in He.
  apply bind_Some in He as (σ1 & H1' & H2). apply rtc_r with σ1; [by apply IH|]. by eapply srv_exec_cmd_step.
Qed.
End pool.

(** ** A concrete run *)
Module ToyRequests.
Import Toy ToyDb ToyWeb ToyCurve ToyAead ToyKeys ToyTdx ToyServer.

#[export] Instance toy_verifier_env : VerifierEnv web_store.
Proof. intros raw w Hok. by apply st_same_refl. Qed.

Definition servers1 (s : KeyServer db) : Prop := s = server.
Lemma servers1_wired s : servers1 s → wired web_store s key32.
Proof. intros ->. apply server_wired. Qed.

Definition start1 : Srv := {| srv_w := db0; srv_requests := []; srv_trace := [] |}.

(** Two requests with the session's quote: both read the session before the
    first one deletes it. *)
Definition race : list srv_cmd :=
  [CKeyInit server (json_Marshal key_request); CArrive server first_request; CArrive server first_request;
   CGo 0; CGo 1; CGo 0; CGo 0; CGo 0; CGo 1; CGo 1; CGo 1].
Definition after_race : option Srv := srv_exec web_store start1 race.

Example double_release : (λ σ, omap (λ e, match e with ERelease k id _ => Some (k, id) | _ => None end) (srv_trace σ))
  <$> after_race = Some [(0%nat, first_id); (1%nat, first_id)].
Proof. vm_compute. reflexivity. Qed.

Definition raced : Srv := default start1 after_race.
Lemma raced_reachable : rtc (srv_step web_store servers1) start1 raced.
Proof.
  assert (after_race = Some raced) as Hr.
  { unfold raced. pose proof double_release as Hd. destruct after_race; [done|by vm_compute in Hd]. }
  eapply srv_exec_reachable; [|exact Hr]. by repeat constructor.
Qed.
Lemma start1_start : srv_start web_store start1.
Proof. split; [exact db0_web|]. by split. Qed.
Lemma raced_trace : ∃ n p t rec t1 t2 r0 r1, srv_trace raced =
  [EInit first_id n p t; ERead 0 first_id rec t1; ERead 1 first_id rec t2; EDelete 0 first_id;
   ERelease 0 first_id r0; EDelete 1 first_id; ERelease 1 first_id r1].
Proof. do 8 eexists. vm_compute. reflexivity. Qed.
Lemma raced_issued : NoDup (issued (srv_trace raced)).
Proof. destruct raced_trace as (n & p & t & rec & t1 & t2 & r0 & r1 & ->). apply NoDup_singleton. Qed.

Lemma concurrent_release_is_attested_witness : ∃ nonce payload t0 t ha,
  opened ha first_id nonce payload t0 ∧ t0 ≤ t < t0 + 60.
Proof.
  destruct raced_trace as (n & p & t & rec & t1 & t2 & r0 & r1 & Htr).
  destruct (concurrent_release_is_attested web_store servers1 key32 servers1_wired start1 raced
    [EInit first_id n p t; ERead 0 first_id rec t1; ERead 1 first_id rec t2; EDelete 0 first_id;
     ERelease 0 first_id r0; EDelete 1 first_id] 1%nat first_id r1 [] start1_start raced_reachable Htr)
    as (s & req & kreq & q & log & fw & nonce & payload & t0 & t' & ha & hb & hc & _ & _ & _ & Ho & Ht & _).
  exists nonce, payload, t0, t', ha. split; [exact Ho|exact Ht].
Defined.

Lemma releases_of_a_session_overlap_witness : ∃ record t,
  precedes (srv_trace raced) (ERead 1 first_id record t) (EDelete 0 first_id).
Proof.
  destruct raced_trace as (n & p & t & rec & t1 & t2 & r0 & r1 & Htr).
  apply (releases_of_a_session_overlap web_store servers1 key32 servers1_wired start1 raced 1 0 first_id r1 r0
    start1_start raced_reachable raced_issued); rewrite Htr.
  - do 6 right. left.
  - do 4 right. left.
Defined.

(** Two requests for an RSA key that both find none: each gets a key of its
    own, and the store keeps the second. *)
Definition rsa_request : KeyRequest := {| kr_Id := $"vm1"; kr_Ctx := ContextApp; kr_Type := KT_RSA |}.
Definition rsa_race_run : list srv_cmd :=
  [CKeyInit server (json_Marshal rsa_request); CArrive server first_request; CArrive server first_request;
   CGo 0; CGo 1; CGo 0; CGo 1; CGo 0; CGo 1; CGo 0; CGo 1; CGo 0; CGo 1].
Example rsa_race :
  match srv_exec web_store start1 rsa_race_run with
  | Some σ =>
      match srv_requests σ with
      | [(_, Replied r0); (_, Replied r1)] => rp_code r0 = 200 ∧ rp_code r1 = 200 ∧ rp_body r0 ≠ rp_body r1
      | _ => False
      end
  | None => False
  end.
Proof. vm_compute. split; [reflexivity|]. split; [reflexivity|]. discriminate. Qed.

(** A sealing session whose id is sent to the route for keys. *)
Definition confused_run : list srv_cmd :=
  [CSealInit server (json_Marshal seal_req); CArrive server first_request; CGo 0; CGo 0; CGo 0; CGo 0].
Definition confused : Srv := default start1 (srv_exec web_store start1 confused_run).
Example confused_reply : ∃ r, snd <$> srv_requests confused !! 0%nat = Some (Replied r) ∧ rp_code r = 400.
Proof. eexists. split; [vm_compute; reflexivity|]. reflexivity. Qed.

Lemma seal_sessions_release_no_key_witness : ∃ r,
  snd <$> srv_requests confused !! 0%nat = Some (Replied r) ∧
  ∀ k reply, ERelease k first_id reply ∉ srv_trace confused.
Proof.
  destruct confused_reply as (r & Hr & _). exists r. split; [exact Hr|].
  assert (srv_exec web_store start1 confused_run = Some confused) as Hc.
  { assert (bool_decide (is_Some (srv_exec web_store start1 confused_run)) = true) as [σ Hσ]%bool_decide_eq_true
      by (vm_compute; reflexivity). unfold confused. by rewrite Hσ. }
  assert (∃ n t l, srv_trace confused = EInit first_id n (json_Marshal seal_req) t :: l ∧ issued l = [])
    as (n & t & l & Htr & Hl) by (do 3 eexists; split; vm_compute; reflexivity).
  apply (seal_sessions_release_no_key web_store servers1 key32 servers1_wired start1 confused first_id n seal_req t).
  - exact start1_start.
  - eapply srv_exec_reachable; [|exact Hc]. by repeat constructor.
  - rewrite Htr. cbn [issued omap list_omap]. fold (issued l). rewrite Hl. apply NoDup_singleton.
  - exact seal_req_ok.
  - rewrite Htr. left.
Defined.

Lemma decoded_requests_are_kept_witness : ∃ id w1 w2,
  Create (NewSessionStore web_store) first_nonce (json_Marshal key_request) db0 = (Ok id, w1) ∧
  Get (NewSessionStore web_store) id w1 = (Ok (inl (session_record first_nonce (json_Marshal key_request))), w2).
Proof.
  destruct (decoded_requests_are_kept web_store (json_Marshal key_request) key_request first_nonce db0
    (NewSessionStore web_store)) as (id & w1 & w2 & Hc & Hg & _).
  - apply decodeRequest_Marshal; [exact key_request_ok|]. apply body_limit_le. by vm_compute.
  - reflexivity.
  - exact db0_web.
  - exists id, w1, w2. split; [exact Hc|exact Hg].
Defined.
End ToyRequests.
