(* ===== verification/CertStorage.v ===== *)
(** * internal/web/cert: certificates and locks in the key store

    cert_storage.go implements certmagic's storage on a [KeyStore], with a
    lock that is a key written conditionally with a time to live; cert.go
    asks certmagic for certificates until it succeeds.

    [Lock] polls in a loop without bound, so [Lock] here takes fuel and
    returns [None] when it runs out; [lock_is_acquired] gives the fuel that is
    enough.  A context is what [select] observes of it: [wait] either reports
    that the context is done or lets the poll interval pass. *)

From S2P Require Import Prelude GoBytes GoText Json Common KeyStore Api Crypto Valkey Session.
From Stdlib Require Import ZArith Lia.

Local Open Scope Z_scope.

(** ** cert_storage.go *)

Definition lockTTLSeconds : Z := 300.
(** In seconds. *)
Definition lockPollInterval : Z := 2.

Record CertStorage (W : Type) := { client : KeyStore W; nodeId : bytes }.
Arguments client {W}.
Arguments nodeId {W}.
Definition NewCertStorage {W} (kvStore : KeyStore W) (nodeId : bytes) : CertStorage W :=
  {| client := kvStore; nodeId := nodeId |}.

(** [certmagic.KeyInfo] *)
Record KeyInfo := { ki_Key : bytes; ki_Modified : Z; ki_Size : Z; ki_IsTerminal : bool }.

Section storage.
Context {W : Type}.
Implicit Types (c : CertStorage W).

Definition err_opt {A} (r : A + error) : option error := match r with inr err => Some err | inl _ => None end.

Definition Store c (key value : bytes) : M W unit :=
  catch (ks_Write (ks_base (client c)) key value) (λ r,
  let err := err_opt r in
  let err := if ks_HasNil (ks_base (client c)) err then None else err in
  match err with Some e => lift (Err e) | None => mret tt end).

Definition Load c (key : bytes) : M W bytes :=
  catch (ks_Read (ks_base (client c)) key) (λ r,
  if ks_HasNil (ks_base (client c)) (err_opt r) then lift (Err ErrNotExist)
  else match r with inr err => lift (Err err) | inl data => mret data end).

Definition Exists c (key : bytes) : M W bool :=
  catch (ks_Exists (ks_base (client c)) key) (λ r,
  match r with inr _ => mret false | inl n => mret (0 <? n) end).

Definition Delete c (key : bytes) : M W unit := ks_Delete (ks_base (client c)) key.

Definition List_ c (prefix : bytes) (recursive : bool) : M W (list bytes) :=
  ks_List (client c) prefix recursive.

Definition Stat c (key : bytes) : M W KeyInfo :=
  stat ← ks_Stat (client c) key;
  mret {| ki_Key := key; ki_Modified := ModTime stat; ki_Size := Size stat; ki_IsTerminal := true |}.

(** What [select] on the context and the timer ends with. *)
Implicit Types (wait : Z → W → option error * W).

(** One attempt at the lock: [None] when it is held by another node. *)
Definition lock_attempt c (key : bytes) : M W (option unit) :=
  catch (ks_WriteNX (client c) key (nodeId c) lockTTLSeconds) (λ r,
  let '(acquired, err) := match r with inl p => p | inr e => (false, Some e) end in
  let err := if ks_HasNil (ks_base (client c)) err then None else err in
  match err with
  | Some e => lift (Err e)
  | None => mret (if (acquired : bool) then Some tt else None)
  end).

Fixpoint Lock wait (fuel : nat) c (key : bytes) (w : W) : option (res unit * W) :=
  match fuel with
  | O => None
  | S fuel =>
      match lock_attempt c key w with
      | (Ok (Some _), w) => Some (Ok tt, w)
      | (Ok None, w) =>
          match wait lockPollInterval w with
          | (Some e, w) => Some (Err e, w)
          | (None, w) => Lock wait fuel c key w
          end
      | (Err e, w) => Some (Err e, w)
      | (Panic p, w) => Some (Panic p, w)
      end
  end.

(** The result of the deletion is ignored. *)
Definition Unlock c (key : bytes) : M W unit :=
  catch (Load c key) (λ r,
  match r with
  | inl val => if bool_decide (val = nodeId c) then catch (Delete c key) (λ _, mret tt) else mret tt
  | inr err => if bool_decide (err = ErrNotExist) then mret tt else lift (Err err)
  end).
End storage.

(** ** cert.go *)

(** [D] is the type of the DNS providers, [certmagic.DNSProvider]. *)
Record AcmeConfig (W D : Type) := {
  ac_Domains : list bytes;
  ac_DnsProvider : D;
  ac_AcmeOwner : bytes;
  ac_AcmeProvider : bytes;
  ac_KVStore : KeyStore W;
  ac_NodeId : bytes;
  ac_RetryDelay : Z;
  ac_RetryCount : Z
}.
Arguments ac_Domains {W D}.
Arguments ac_DnsProvider {W D}.
Arguments ac_AcmeOwner {W D}.
Arguments ac_AcmeProvider {W D}.
Arguments ac_KVStore {W D}.
Arguments ac_NodeId {W D}.
Arguments ac_RetryDelay {W D}.
Arguments ac_RetryCount {W D}.

(** What [Setup] puts into certmagic's [Default] and [DefaultACME], which
    [NewDefault] copies. *)
Record AcmeDefaults (W D : Type) := {
  ad_Storage : CertStorage W;
  ad_CA : bytes; ad_Email : bytes; ad_Agreed : bool;
  ad_DisableHTTPChallenge : bool; ad_DisableTLSALPNChallenge : bool;
  ad_DNSProvider : D
}.
Arguments ad_Storage {W D}.
Definition acme_defaults {W D} (a : AcmeConfig W D) : AcmeDefaults W D :=
  {| ad_Storage := NewCertStorage (ac_KVStore a) (ac_NodeId a);
     ad_CA := ac_AcmeProvider a; ad_Email := ac_AcmeOwner a; ad_Agreed := true;
     ad_DisableHTTPChallenge := true; ad_DisableTLSALPNChallenge := true;
     ad_DNSProvider := ac_DnsProvider a |}.

(** certmagic's [ManageSync] under a configuration, and [time.Sleep] in
    seconds. *)
Class Certmagic (W D : Type) := {
  ManageSync : AcmeDefaults W D → list bytes → M W unit;
  Sleep : Z → W → W
}.

(** The loop [for range a.RetryCount]: the error is only logged. *)
Fixpoint manage {W D} `{Certmagic W D} (cm : AcmeDefaults W D) (a : AcmeConfig W D) (n : nat) : M W unit :=
  match n with
  | O => mret tt
  | S n =>
      catch (ManageSync cm (ac_Domains a)) (λ r,
      match r with
      | inl _ => mret tt
      | inr _ => λ w, manage cm a n (Sleep (ac_RetryDelay a) w)
      end)
  end.

Definition Setup {W D} `{Certmagic W D} (a : AcmeConfig W D) : M W (AcmeDefaults W D) :=
  let cm := acme_defaults a in
  manage cm a (Z.to_nat (ac_RetryCount a));;
  mret cm.

(** ** Properties *)

Section laws.
Context {W : Type} (ks : KeyStore W) `{SL : !StoreLaws (ks_base ks)}.

(** The view of a certificate storage that certmagic has: what [Load] and
    [Exists] answer. *)
Lemma Load_content c key w : client c = ks → st_ok w →
  ∃ w', Load c key w = (of_option (st_content w key) ErrNotExist, w') ∧ st_same w w'.
Proof.
  intros Hc Hok. destruct (st_Read w key Hok) as (w' & Hr & Hs). exists w'. split; [|done].
  unfold Load, catch. rewrite Hc, Hr. destruct (st_content w key) as [v|]; simpl.
  - by rewrite st_HasNil_none.
  - by rewrite st_HasNil, bool_decide_true.
Qed.

Context `{NX : !NXLaws ks}.

(** What one attempt at the lock does. *)
Lemma lock_attempt_spec c key w : client c = ks → st_ok w →
  ∃ w', lock_attempt c key w = (Ok (if st_content w key then None else Some tt), w') ∧
    st_ok w' ∧ st_now w' = st_now w ∧
    ∀ i, st_content w' i = (if decide (i = key ∧ st_content w key = None) then Some (nodeId c)
                            else st_content w i) ∧
         st_deadline w' i = (if decide (i = key ∧ st_content w key = None)
                             then Some (st_now w + lockTTLSeconds) else st_deadline w i).
Proof.
  intros Hc Hok. destruct (st_WriteNX w key (nodeId c) lockTTLSeconds Hok) as (w' & Hw & Hrest); [done|].
  exists w'. split; [|done]. unfold lock_attempt, catch. rewrite Hc, Hw, st_HasNil_none.
  destruct (st_content w key); [by rewrite bool_decide_false|by rewrite bool_decide_true].
Qed.

Lemma Exists_content c key w : client c = ks → st_ok w →
  ∃ w', Exists c key w = (Ok (if st_content w key then true else false), w') ∧ st_same w w'.
Proof.
  intros Hc Hok. destruct (st_Exists w key Hok) as (w' & He & Hs). exists w'. split; [|done].
  unfold Exists, catch. rewrite Hc, He. by destruct (st_content w key).
Qed.

Lemma Store_content c key value w : client c = ks → st_ok w →
  ∃ w', Store c key value w = (Ok tt, w') ∧ st_ok w' ∧
    ∀ i, st_content w' i = (if decide (i = key) then Some value else st_content w i) ∧
         st_deadline w' i = st_deadline w i.
Proof.
  intros Hc Hok. destruct (st_WriteWithTTL w key value (-1) Hok) as (w' & Hw & Hok' & _ & Hi); [lia|].
  exists w'. split; [unfold Store, catch; rewrite Hc, st_Write, Hw; simpl; by rewrite st_HasNil_none|].
  split; [done|]. intros i. destruct (Hi i) as [-> ->]. by rewrite (decide_False (P := _ ∧ _)) by (intros []; lia).
Qed.

Lemma Delete_content c key w : client c = ks → st_ok w →
  ∃ w', Delete c key w = (Ok tt, w') ∧ st_ok w' ∧
    ∀ i, st_content w' i = (if decide (i = key) then None else st_content w i) ∧
         st_deadline w' i = (if decide (i = key) then None else st_deadline w i).
Proof.
  intros Hc Hok. destruct (st_Delete w key Hok) as (w' & Hd & Hok' & _ & Hi). exists w'.
  unfold Delete. by rewrite Hc.
Qed.

(** Anything but a write or a deletion of [key]: time passes, nodes read
    any key, and store, delete, lock and unlock others; the sessions and keys
    of the key servers are written to the same store. *)
Inductive elsewhere (key : bytes) : W → W → Prop :=
  | el_time d w : 0 ≤ d → elsewhere key w (st_elapse d w)
  | el_load c k w : client c = ks → elsewhere key w (Load c k w).2
  | el_exists c k w : client c = ks → elsewhere key w (Exists c k w).2
  | el_store c k v w : client c = ks → k ≠ key → elsewhere key w (Store c k v w).2
  | el_delete c k w : client c = ks → k ≠ key → elsewhere key w (Delete c k w).2
  | el_lock c k w : client c = ks → k ≠ key → elsewhere key w (lock_attempt c k w).2
  | el_write k v ttl w : k ≠ key → ttl < 0 ∨ 0 < ttl →
      elsewhere key w (ks_WriteWithTTL (ks_base ks) k v ttl w).2.

(** What the key holds, for good. *)
Definition keeps (key : bytes) (o : option bytes) (w : W) : Prop :=
  st_ok w ∧ st_content w key = o ∧ st_deadline w key = None.

Lemma keeps_same key o w w' : st_same w w' → keeps key o w → keeps key o w'.
Proof. intros (Hok & _ & Hs) (_ & Hc & Hd). destruct (Hs key). split; [done|]. split; congruence. Qed.

Lemma keeps_elsewhere key o w w' : rtc (elsewhere key) w w' → keeps key o w → keeps key o w'.
Proof.
  induction 1 as [|w1 w2 w3 H12 _ IH]; [done|]. intros HK. apply IH. clear IH.
  pose proof HK as (Hok & Hc & Hd).
  destruct H12 as [d w Hd0|c k w Hcl|c k w Hcl|c k v w Hcl Hk|c k w Hcl Hk|c k w Hcl Hk|k v ttl w Hk Ht].
  - destruct (st_elapse_spec w d Hok Hd0) as (Hok' & _ & Hi). specialize (Hi key). rewrite Hd in Hi.
    destruct Hi. split; [done|]. split; congruence.
  - destruct (Load_content c k w Hcl Hok) as (w' & -> & Hs). by apply (keeps_same _ _ w).
  - destruct (Exists_content c k w Hcl Hok) as (w' & -> & Hs). by apply (keeps_same _ _ w).
  - destruct (Store_content c k v w Hcl Hok) as (w' & -> & Hok' & Hi). destruct (Hi key) as [Hc' Hd'].
    rewrite decide_False in Hc' by done. split; [done|]. split; cbn; congruence.
  - destruct (Delete_content c k w Hcl Hok) as (w' & -> & Hok' & Hi). destruct (Hi key) as [Hc' Hd'].
    rewrite decide_False in Hc' by done. rewrite decide_False in Hd' by done. split; [done|]. split; cbn; congruence.
  - destruct (lock_attempt_spec c k w Hcl Hok) as (w' & -> & Hok' & _ & Hi). destruct (Hi key) as [Hc' Hd'].
    rewrite decide_False in Hc' by (by intros []). rewrite decide_False in Hd' by (by intros []). split; [done|]. split; cbn; congruence.
  - destruct (st_WriteWithTTL w k v ttl Hok Ht) as (w' & -> & Hok' & _ & Hi). destruct (Hi key) as [Hc' Hd'].
    rewrite decide_False in Hc' by done. rewrite decide_False in Hd' by (by intros []). split; [done|]. split; cbn; congruence.
Qed.

(** C32. What one node stores under a key without a deadline every node loads
    from then on, however much time passes and whatever is done to other
    keys, until a node deletes it; then no node finds it again.  Other keys
    are not affected.  (Only a key that was written with a time to live and
    never deleted has a deadline, which a plain write keeps: certmagic stores
    certificates and takes locks under different names.) *)
Theorem certificates_round_trip c key value w : client c = ks → st_ok w → st_deadline w key = None →
  ∃ w1, Store c key value w = (Ok tt, w1) ∧
    (∀ c' k, client c' = ks → k ≠ key → (Load c' k w1).1 = (Load c' k w).1) ∧
    ∀ w2, rtc (elsewhere key) w1 w2 → ∀ c', client c' = ks →
      (Load c' key w2).1 = Ok value ∧ (Exists c' key w2).1 = Ok true ∧
      ∃ w3, Delete c' key w2 = (Ok tt, w3) ∧
        ∀ w4, rtc (elsewhere key) w3 w4 → ∀ c'', client c'' = ks →
          (Load c'' key w4).1 = Err ErrNotExist ∧ (Exists c'' key w4).1 = Ok false.
Proof.
  intros Hc Hok Hd. destruct (Store_content c key value w Hc Hok) as (w1 & Hs & Hok1 & Hi1).
  exists w1. split; [done|]. split.
  { intros c' k Hc' Hk. destruct (Load_content c' k w1 Hc' Hok1) as (? & -> & _).
    destruct (Load_content c' k w Hc' Hok) as (? & -> & _). by rewrite (proj1 (Hi1 k)), decide_False. }
  assert (keeps key (Some value) w1) as HK1.
  { split; [done|]. destruct (Hi1 key) as [-> ->]. by rewrite decide_True. }
  intros w2 H12 c' Hc'. destruct (keeps_elsewhere _ _ _ _ H12 HK1) as (Hok2 & Hc2 & _).
  destruct (Load_content c' key w2 Hc' Hok2) as (? & -> & _), (Exists_content c' key w2 Hc' Hok2) as (? & -> & _).
  rewrite Hc2. split; [done|]. split; [done|].
  destruct (Delete_content c' key w2 Hc' Hok2) as (w3 & Hdel & Hok3 & Hi3). exists w3. split; [done|].
  assert (keeps key None w3) as HK3.
  { split; [done|]. destruct (Hi3 key) as [-> ->]. by rewrite !decide_True. }
  intros w4 H34 c'' Hc''. destruct (keeps_elsewhere _ _ _ _ H34 HK3) as (Hok4 & Hc4 & _).
  destruct (Load_content c'' key w4 Hc'' Hok4) as (? & -> & _), (Exists_content c'' key w4 Hc'' Hok4) as (? & -> & _).
  by rewrite Hc4.
Qed.

(** A context that is not cancelled: every wait lets at least the interval
    pass, and nobody else touches the store. *)
Definition patient (wait : Z → W → option error * W) : Prop :=
  ∀ w, st_ok w → ∃ d, lockPollInterval ≤ d ∧ wait lockPollInterval w = (None, st_elapse d w).

(** The time until the lock is free. *)
Definition remaining (w : W) (key : bytes) : Z :=
  match st_content w key, st_deadline w key with
  | Some _, Some t => t - st_now w
  | _, _ => 0
  end.
Definition free_eventually (w : W) (key : bytes) : Prop :=
  st_content w key = None ∨ ∃ t, st_deadline w key = Some t ∧ st_now w < t.

(** C33. Polling acquires a lock that is free, or whose holder never returns, with
    one attempt per poll interval of the holder's remaining time and one
    more; afterwards this node owns it for the full time to live. *)
Theorem lock_is_acquired wait c key w fuel : client c = ks → patient wait → st_ok w →
  free_eventually w key → remaining w key ≤ lockPollInterval * (Z.of_nat fuel - 1) → (0 < fuel)%nat →
  ∃ w', Lock wait fuel c key w = Some (Ok tt, w') ∧ st_ok w' ∧
    st_content w' key = Some (nodeId c) ∧ st_deadline w' key = Some (st_now w' + lockTTLSeconds).
Proof.
  intros Hc Hp. revert w. induction fuel as [|fuel IH]; intros w Hok Hfree Hfuel Hpos; [lia|].
  cbn [Lock]. destruct (lock_attempt_spec c key w Hc Hok) as (w1 & -> & Hok1 & Hn1 & Hi1).
  destruct (st_content w key) as [v|] eqn:Hv.
  - destruct Hfree as [?|(t & Ht & Hlt)]; [congruence|].
    destruct (Hp w1 Hok1) as (d & Hd & ->). unfold lockPollInterval in Hd, Hfuel.
    destruct (Hi1 key) as [Hc1 Hd1]. rewrite decide_False in Hc1 by (by intros []).
    rewrite decide_False in Hd1 by (by intros []).
    destruct (st_elapse_spec w1 d Hok1 ltac:(lia)) as (Hok2 & Hn2 & Hi2). specialize (Hi2 key).
    rewrite Hd1, Ht, Hn1 in Hi2. unfold remaining in Hfuel. rewrite Hv, Ht in Hfuel.
    destruct (decide (t ≤ st_now w + d)); destruct Hi2 as [Hc2 Hd2].
    + apply IH; [done|by left| |lia]. unfold remaining, lockPollInterval. rewrite Hc2. lia.
    + apply IH; [done|right; exists t; split; [done|lia]| |lia].
      unfold remaining, lockPollInterval. rewrite Hc2, Hd2, Hc1, Hv, Hn2, Hn1. lia.
  - exists w1. destruct (Hi1 key) as [Hc1 Hd1]. rewrite decide_True in Hc1 by done.
    rewrite decide_True in Hd1 by done. rewrite Hn1. by split_and!.
Qed.

(** C34. While another node holds the lock, [Lock] does not return before the
    deadline of that node's lock. *)
Theorem lock_excludes wait c key w fuel owner t r w' : client c = ks → patient wait → st_ok w →
  st_content w key = Some owner → st_deadline w key = Some t →
  Lock wait fuel c key w = Some (r, w') → r = Ok tt ∧ t ≤ st_now w'.
Proof.
  intros Hc Hp. revert w. induction fuel as [|fuel IH]; intros w Hok Hv Ht HL; [done|].
  cbn [Lock] in HL. destruct (lock_attempt_spec c key w Hc Hok) as (w1 & Ha & Hok1 & Hn1 & Hi1).
  rewrite Ha, Hv in HL. destruct (Hp w1 Hok1) as (d & Hd & Hw). rewrite Hw in HL. unfold lockPollInterval in Hd.
  destruct (Hi1 key) as [Hc1 Hd1]. rewrite decide_False in Hc1 by (intros [_ ?]; congruence).
  rewrite decide_False in Hd1 by (intros [_ ?]; congruence).
  destruct (st_elapse_spec w1 d Hok1 ltac:(lia)) as (Hok2 & Hn2 & Hi2). specialize (Hi2 key).
  rewrite Hd1, Ht, Hn1 in Hi2. destruct (decide (t ≤ st_now w + d)) as [Hle|Hgt]; destruct Hi2 as [Hc2 Hd2].
  - destruct fuel as [|fuel]; [done|]. cbn [Lock] in HL.
    destruct (lock_attempt_spec c key (st_elapse d w1) Hc Hok2) as (w3 & Ha3 & _ & Hn3 & _).
    rewrite Ha3, Hc2 in HL. injection HL as <- <-. split; [done|]. lia.
  - apply (IH _ Hok2); [congruence|done|done].
Qed.

(** [Unlock] removes the lock exactly when it holds this node's name, and
    changes nothing else; an absent lock is not an error. *)
Theorem unlock_only_own c key w : client c = ks → st_ok w →
  ∃ w', Unlock c key w = (Ok tt, w') ∧ st_ok w' ∧
    ∀ i, st_content w' i = (if decide (i = key ∧ st_content w key = Some (nodeId c)) then None
                            else st_content w i).
Proof.
  intros Hc Hok. destruct (Load_content c key w Hc Hok) as (w1 & HL & (Hok1 & _ & Hs1)).
  unfold Unlock, catch. rewrite HL. destruct (st_content w key) as [v|] eqn:Hv; simpl.
  - case_bool_decide as Hid.
    + destruct (st_Delete w1 key Hok1) as (w2 & Hd & Hok2 & _ & Hi2). unfold Delete. rewrite Hc, Hd.
      exists w2. split; [done|]. split; [done|]. intros i. rewrite (proj1 (Hi2 i)), (proj1 (Hs1 i)).
      destruct (decide (i = key)) as [->|Hne]; [by rewrite decide_True by (split; congruence)|].
      by rewrite decide_False by (by intros []).
    + exists w1. split; [done|]. split; [done|]. intros i. rewrite (proj1 (Hs1 i)).
      by rewrite decide_False by (intros [_ ?]; congruence).
  - exists w1. split; [done|]. split; [done|]. intros i. rewrite (proj1 (Hs1 i)).
    by rewrite decide_False by (intros [_ ?]; congruence).
Qed.
End laws.

(** A lock that was taken but could not be given its deadline is reported as
    an error: the caller does not know that it holds it. *)
Lemma lock_error_after_acquisition {W} wait fuel (c : CertStorage W) key w w' e :
  ks_WriteNX (client c) key (nodeId c) lockTTLSeconds w = (Ok (true, Some e), w') →
  ks_HasNil (ks_base (client c)) (Some e) = false →
  Lock wait (S fuel) c key w = Some (Err e, w').
Proof. intros Hw Hn. cbn [Lock]. unfold lock_attempt, catch. by rewrite Hw, Hn. Qed.

(** Asking for certificates ends, with or without success: the server starts
    with the configured storage in either case. *)
Lemma Setup_ends {W D} `{Certmagic W D} (a : AcmeConfig W D) (w : W) :
  (∀ cm ds w' p, (ManageSync cm ds w').1 ≠ Panic p) →
  (Setup a w).1 = Ok (acme_defaults a).
Proof.
  intros Hs. unfold Setup. assert (∀ n w, (manage (acme_defaults a) a n w).1 = Ok tt) as Hm.
  { intros n. induction n as [|n IH]; intros w'; [done|]. cbn [manage]. unfold catch.
    pose proof (Hs (acme_defaults a) (ac_Domains a) w') as Hw.
    destruct (ManageSync _ _ w') as [[[]|e|p] w1]; [done|apply IH|by destruct (Hw p)]. }
  specialize (Hm (Z.to_nat (ac_RetryCount a)) w). unfold mbind, M_bind.
  by destruct (manage _ _ _ w) as [[[]|e|p] w1].
Qed.

(** ** On the in-memory database *)
Module ToyCerts.
Import Toy ToyDb.

Definition kvs : KeyStore db := Valkey_store service.
#[export] Instance kvs_laws : StoreLaws (ks_base kvs) := Valkey_store_laws service key32.
#[export] Instance kvs_nx : NXLaws kvs := Valkey_nx_laws service key32.
Definition node_a : CertStorage db := NewCertStorage kvs ($"a").
Definition node_b : CertStorage db := NewCertStorage kvs ($"b").
Definition poll (d : Z) (w : db) : option error * db := (None, st_elapse d w).

Lemma poll_patient : patient kvs poll.
Proof. intros w _. exists lockPollInterval. by split. Qed.
Lemma db0_kvs : @st_ok _ _ kvs_laws db0.
Proof. exact db0_ok. Qed.

(** A year later, and after a deletion. *)
Lemma certificates_round_trip_witness : ∃ w1 w3, Store node_a ($"acme/x") ($"cert") db0 = (Ok tt, w1) ∧
  (Load node_b ($"acme/x") (st_elapse 31536000 w1)).1 = Ok ($"cert") ∧
  Delete node_b ($"acme/x") (st_elapse 31536000 w1) = (Ok tt, w3) ∧
  (Load node_a ($"acme/x") w3).1 = Err ErrNotExist.
Proof.
  destruct (certificates_round_trip kvs node_a ($"acme/x") ($"cert") db0 eq_refl db0_kvs eq_refl)
    as (w1 & Hs & _ & Hkeep).
  destruct (Hkeep (st_elapse 31536000 w1) (rtc_once _ _ (el_time kvs _ 31536000 w1 ltac:(lia))) node_b eq_refl)
    as (Hl & _ & w3 & Hd & Hgone).
  exists w1, w3. split; [exact Hs|]. split; [exact Hl|]. split; [exact Hd|].
  exact (proj1 (Hgone w3 (rtc_refl _ w3) node_a eq_refl)).
Defined.

(** Node a takes the lock; its state afterwards. *)
Definition held : db := match Lock poll 1 node_a ($"lock") db0 with Some (_, w) => w | None => db0 end.
Lemma held_ok : st_ok held ∧ st_content held ($"lock") = Some ($"a") ∧ st_deadline held ($"lock") = Some 300.
Proof.
  destruct (lock_attempt_spec kvs node_a ($"lock") db0 eq_refl db0_kvs) as (w' & Ha & Hok & _ & Hi).
  assert (held = w') as -> by (unfold held; cbn [Lock]; by rewrite Ha).
  split; [exact Hok|]. destruct (Hi ($"lock")) as [-> ->]. split; by vm_compute.
Qed.

Lemma lock_is_acquired_witness : ∃ w', Lock poll 151 node_b ($"lock") held = Some (Ok tt, w') ∧
  st_content w' ($"lock") = Some ($"b").
Proof.
  destruct held_ok as (Hok & Hc & Hd).
  destruct (lock_is_acquired kvs poll node_b ($"lock") held 151 eq_refl poll_patient Hok) as (w' & HL & _ & Hb & _).
  - right. exists 300. split; [exact Hd|by vm_compute].
  - unfold remaining. rewrite Hc, Hd. by vm_compute.
  - lia.
  - exists w'. split; [exact HL|exact Hb].
Defined.

Lemma lock_excludes_witness : ¬ ∃ w', Lock poll 200 node_b ($"lock") held = Some (Ok tt, w') ∧ st_now w' < 300.
Proof.
  intros (w' & HL & Hn). destruct held_ok as (Hok & Hc & Hd).
  destruct (lock_excludes kvs poll node_b ($"lock") held 200 ($"a") 300 (Ok tt) w' eq_refl poll_patient Hok Hc Hd HL)
    as [_ Ht]. lia.
Defined.

Lemma unlock_only_own_witness : ∃ w', Unlock node_b ($"lock") held = (Ok tt, w') ∧
  st_content w' ($"lock") = Some ($"a").
Proof.
  destruct held_ok as (Hok & Hc & _).
  destruct (unlock_only_own kvs node_b ($"lock") held eq_refl Hok) as (w' & Hu & _ & Hi).
  exists w'. split; [exact Hu|]. rewrite Hi, decide_False; [exact Hc|]. rewrite Hc. by intros [_ [=]].
Defined.
End ToyCerts.
