(* ===== verification/Transport.v ===== *)
(** * internal/cluster/transport/tls.go: memberlist over TLS

    A gossip packet travels on a TLS connection of its own, a state exchange
    on a TLS stream; the first byte a dialer writes says which of the two it
    is.  [Transport] is the [NetTransport] together with what its goroutines
    share: the channels as the sequences of values sent on them (memberlist
    receives without end), the accepted connections, the accept loops of the
    listeners and the goroutines that read packets.  [step] lets one of them
    move.

    Blocking is modelled: a peer may leave a connection open and silent, in
    the handshake or later, and what waits for it then waits forever (no
    deadline is set on accepted connections).

    [PrivateKey] is left open ([K]).  What package net and crypto/tls do is
    written out on [Conn], [Net] and [Dialer]; [strconv.Quote], which only
    occurs in error messages, and go-sockaddr's [GetPrivateIP] are
    parameters. *)

From S2P Require Import Prelude GoBytes GoText GoNet Json Sha256 Common Enclave.
From Stdlib Require Import ZArith Lia.

Local Open Scope Z_scope.

Definition tcpConnStream : byte := x00.
Definition tcpConnPacket : byte := x01.

(** ** Connections *)

Definition EOF : error := ErrString ($"EOF").
Definition ErrClosed : error := ErrString ($"use of closed network connection").

(** How the peer behaves in the handshake: it presents certificates, fails,
    or never answers.  After its last byte it closes, fails or stays silent. *)
Inductive Handshake := HsDone (certs : list bytes) | HsErr (e : error) | HsSilent.
Inductive Ending := EndEOF | EndErr (e : error) | EndSilent.

(** An accepted connection: what the peer will send, and its state here. *)
Record Conn := {
  cn_tls : bool;                        (* is it a *tls.Conn? *)
  cn_RemoteAddr : bytes;
  cn_handshake : Handshake;
  cn_in : bytes;                        (* what is left to read *)
  cn_end : Ending;
  cn_handshakeErr : option error;       (* crypto/tls keeps it for later calls *)
  cn_closed : bool
}.

Definition Close (c : Conn) : Conn :=
  {| cn_tls := cn_tls c; cn_RemoteAddr := cn_RemoteAddr c; cn_handshake := cn_handshake c; cn_in := cn_in c;
     cn_end := cn_end c; cn_handshakeErr := cn_handshakeErr c; cn_closed := true |}.
Definition set_cn_in (c : Conn) (l : bytes) : Conn :=
  {| cn_tls := cn_tls c; cn_RemoteAddr := cn_RemoteAddr c; cn_handshake := cn_handshake c; cn_in := l;
     cn_end := cn_end c; cn_handshakeErr := cn_handshakeErr c; cn_closed := cn_closed c |}.
Definition set_hsErr (c : Conn) (e : option error) : Conn :=
  {| cn_tls := cn_tls c; cn_RemoteAddr := cn_RemoteAddr c; cn_handshake := cn_handshake c; cn_in := cn_in c;
     cn_end := cn_end c; cn_handshakeErr := e; cn_closed := cn_closed c |}.

(** The server's side of the handshake: a configuration that requests
    certificates hands those of the peer, possibly none, to its callback. *)
Definition check_peer {K} (cfg : TlsConfig K) (now : Z) (certs : list bytes) : res unit :=
  match ClientAuth cfg, VerifyPeerCertificate cfg with
  | RequestClientCert, Some verify => verify now certs
  | _, _ => Ok tt
  end.

(** [tlsConn.Handshake()]; [None]: it does not return. *)
Definition conn_Handshake {K} (cfg : TlsConfig K) (now : Z) (c : Conn) : option (res unit * Conn) :=
  match cn_handshake c with
  | HsSilent => None
  | HsErr e => Some (Err e, set_hsErr c (Some e))
  | HsDone certs =>
      match check_peer cfg now certs with
      | Ok _ => Some (Ok tt, c)
      | Err e => Some (Err e, set_hsErr c (Some e))
      | Panic p => Some (Panic p, c)
      end
  end.

(** Reading fails with the handshake's error, or on a closed connection. *)
Definition read_error (c : Conn) : option error :=
  match cn_handshakeErr c with
  | Some e => Some e
  | None => if cn_closed c then Some ErrClosed else None
  end.
(** What the end of the peer's bytes is to a reader; [None]: it waits. *)
Definition at_end (c : Conn) : option error :=
  match cn_end c with EndEOF => Some EOF | EndErr e => Some e | EndSilent => None end.

(** [io.ReadFull] of one byte. *)
Definition read_byte (c : Conn) : option (res byte * Conn) :=
  match read_error c with
  | Some e => Some (Err e, c)
  | None =>
      match cn_in c with
      | b :: l => Some (Ok b, set_cn_in c l)
      | [] => (λ e, (Err e, c)) <$> at_end c
      end
  end.

(** [io.Copy(&buf, conn)]: what is read up to the end of the stream. *)
Definition copy_all (c : Conn) : option (res bytes * Conn) :=
  match read_error c with
  | Some e => Some (Err e, c)
  | None =>
      match cn_end c with
      | EndEOF => Some (Ok (cn_in c), set_cn_in c [])
      | EndErr e => Some (Err e, set_cn_in c [])
      | EndSilent => None
      end
  end.

(** ** The transport *)

Record NetTransportConfig (K : Type) := {
  BindAddrs : list bytes;
  tc_BindPort : Z;
  TLSConfig : TlsConfig K;
  TLSClientConfig : TlsConfig K
}.
Arguments BindAddrs {K}.
Arguments tc_BindPort {K}.
Arguments TLSConfig {K}.
Arguments TLSClientConfig {K}.

(** A listener: the socket and the address that was asked for. *)
Record Listener := { ln_socket : nat; ln_addr : TCPAddr }.

Record Packet := { pk_Buf : bytes; pk_From : bytes; pk_Timestamp : Z }.

(** The goroutine of a listener.  [Stuck] waits for a silent peer, [Crashed]
    has brought the process down. *)
Inductive Status := Running | Stopped | Stuck | Crashed (msg : bytes).
#[export] Instance Status_eq_dec : EqDecision Status.
Proof. solve_decision. Defined.
Record Loop := { lp_status : Status; loopDelay : Z; lp_slept : list Z }.
(** [loopDelay] starts at zero; [lp_slept] lists the delays slept so far. *)
Definition new_loop : Loop := {| lp_status := Running; loopDelay := 0; lp_slept := [] |}.

Record NetTransport (K : Type) := {
  t_config : NetTransportConfig K;
  packetCh : list Packet;
  streamCh : list nat;
  tcpListeners : list Listener;
  t_shutdown : bool;
  t_conns : list Conn;              (* accepted connections *)
  t_jobs : list nat;                (* goroutines in IngestPacket *)
  t_loops : list Loop               (* goroutines in tcpListen *)
}.
Arguments t_config {K}.
Arguments packetCh {K}.
Arguments streamCh {K}.
Arguments tcpListeners {K}.
Arguments t_shutdown {K}.
Arguments t_conns {K}.
Arguments t_jobs {K}.
Arguments t_loops {K}.

Section transport.
Context {K : Type}.
Implicit Types (t : NetTransport K).

Definition set_packetCh t l : NetTransport K :=
  {| t_config := t_config t; packetCh := l; streamCh := streamCh t; tcpListeners := tcpListeners t;
     t_shutdown := t_shutdown t; t_conns := t_conns t; t_jobs := t_jobs t; t_loops := t_loops t |}.
Definition set_streamCh t l : NetTransport K :=
  {| t_config := t_config t; packetCh := packetCh t; streamCh := l; tcpListeners := tcpListeners t;
     t_shutdown := t_shutdown t; t_conns := t_conns t; t_jobs := t_jobs t; t_loops := t_loops t |}.
Definition set_shutdown t b : NetTransport K :=
  {| t_config := t_config t; packetCh := packetCh t; streamCh := streamCh t; tcpListeners := tcpListeners t;
     t_shutdown := b; t_conns := t_conns t; t_jobs := t_jobs t; t_loops := t_loops t |}.
Definition set_conns t l : NetTransport K :=
  {| t_config := t_config t; packetCh := packetCh t; streamCh := streamCh t; tcpListeners := tcpListeners t;
     t_shutdown := t_shutdown t; t_conns := l; t_jobs := t_jobs t; t_loops := t_loops t |}.
Definition set_jobs t l : NetTransport K :=
  {| t_config := t_config t; packetCh := packetCh t; streamCh := streamCh t; tcpListeners := tcpListeners t;
     t_shutdown := t_shutdown t; t_conns := t_conns t; t_jobs := l; t_loops := t_loops t |}.
Definition set_loops t l : NetTransport K :=
  {| t_config := t_config t; packetCh := packetCh t; streamCh := streamCh t; tcpListeners := tcpListeners t;
     t_shutdown := t_shutdown t; t_conns := t_conns t; t_jobs := t_jobs t; t_loops := l |}.
(** Connection [k] has become [c]. *)
Definition set_conn t (k : nat) (c : Conn) : NetTransport K := set_conns t (<[k:=c]> (t_conns t)).

(** *** Packets and streams *)

(** [memberlist.LogAddress] *)
Context (LogAddress : bytes → bytes).

(** [None]: the goroutine waits for the peer. *)
Definition IngestPacket (k : nat) (addr : bytes) (now : Z) (shouldClose : bool) t
    : option (res unit * NetTransport K) :=
  conn ← t_conns t !! k;
  '(r, conn) ← copy_all conn;
  let t := set_conn t k (if shouldClose then Close conn else conn) in
  Some match r with
       | Err err => (Err (ErrString ($"failed to read packet: " ++ Error err)), t)
       | Panic p => (Panic p, t)
       | Ok buf =>
           if (length buf <? 1)%nat
           then (Err (ErrString ($"packet too short (" ++ FormatInt (Z.of_nat (length buf)) ++ $" bytes) " ++ LogAddress addr)), t)
           else (Ok tt, set_packetCh t (packetCh t ++ [{| pk_Buf := buf; pk_From := addr; pk_Timestamp := now |}]))
       end.

Definition IngestStream (k : nat) t : res unit * NetTransport K := (Ok tt, set_streamCh t (streamCh t ++ [k])).

(** *** The accept loop *)

(** In nanoseconds. *)
Definition baseDelay : Z := 5 * 1000000.
Definition maxDelay : Z := 1 * 1000000000.

Definition set_status (lp : Loop) (s : Status) : Loop :=
  {| lp_status := s; loopDelay := loopDelay lp; lp_slept := lp_slept lp |}.
Definition reset_delay (lp : Loop) : Loop :=
  {| lp_status := lp_status lp; loopDelay := 0; lp_slept := lp_slept lp |}.

(** The branch for an error of [Accept]. *)
Definition accept_failed (shutdown : bool) (lp : Loop) : Loop :=
  if shutdown then set_status lp Stopped
  else
    let d := if loopDelay lp =? 0 then baseDelay else loopDelay lp * 2 in
    let d := if maxDelay <? d then maxDelay else d in
    {| lp_status := lp_status lp; loopDelay := d; lp_slept := lp_slept lp ++ [d] |}.

(** Where the type byte leads. *)
Definition route_conn (k : nat) (conn : Conn) t : option (NetTransport K) :=
  match read_byte conn with
  | None => None
  | Some (r, conn) =>
      Some match r with
           | Ok b =>
               if bool_decide (b = tcpConnPacket) then let t := set_conn t k conn in set_jobs t (t_jobs t ++ [k])
               else if bool_decide (b = tcpConnStream) then let t := set_conn t k conn in set_streamCh t (streamCh t ++ [k])
               else set_conn t k (Close conn)
           | _ => set_conn t k (Close conn)
           end
  end.

(** The branch for a connection.  A connection that is not TLS is closed, and
    then the handshake is called on a nil pointer.  After a failed handshake
    the loop goes on with the closed connection. *)
Definition accept_conn (now : Z) (k : nat) (conn : Conn) (lp : Loop) t : Loop * NetTransport K :=
  if negb (cn_tls conn) then (set_status lp (Crashed nil_deref), set_conn t k (Close conn))
  else
    match conn_Handshake (TLSConfig (t_config t)) now conn with
    | None => (set_status lp Stuck, t)
    | Some (Panic p, conn) => (set_status lp (Crashed p), set_conn t k conn)
    | Some (r, conn) =>
        let conn := match r with Err _ => Close conn | _ => conn end in
        let lp := reset_delay lp in
        match route_conn k conn (set_conn t k conn) with
        | Some t => (lp, t)
        | None => (set_status lp Stuck, set_conn t k conn)
        end
    end.

(** *** The transport and its goroutines *)

(** A connection as [Accept] returns it. *)
Definition accepted (c : Conn) : Conn :=
  {| cn_tls := cn_tls c; cn_RemoteAddr := cn_RemoteAddr c; cn_handshake := cn_handshake c;
     cn_in := cn_in c; cn_end := cn_end c; cn_handshakeErr := None; cn_closed := false |}.

Inductive event :=
  | EvAccept (i : nat) (now : Z) (c : Conn)     (* listener i accepts c *)
  | EvAcceptErr (i : nat)
  | EvPacket (j : nat) (now : Z)                (* goroutine j, at its start time *)
  | EvShutdown.                                 (* the flag is stored *)

(** The loop of listener [i] does something only while it runs. *)
Definition with_loop (i : nat) (f : Loop → Loop * NetTransport K) t : NetTransport K :=
  match t_loops t !! i with
  | Some lp => if bool_decide (lp_status lp = Running)
               then let (lp, t') := f lp in set_loops t' (<[i:=lp]> (t_loops t')) else t
  | None => t
  end.

Definition step (ev : event) t : NetTransport K :=
  match ev with
  | EvAccept i now c =>
      with_loop i (λ lp, accept_conn now (length (t_conns t)) (accepted c) lp
                           (set_conns t (t_conns t ++ [accepted c]))) t
  | EvAcceptErr i => with_loop i (λ lp, (accept_failed (t_shutdown t) lp, t)) t
  | EvPacket j now =>
      match t_jobs t !! j with
      | Some k =>
          match t_conns t !! k with
          | Some conn =>
              match IngestPacket k (cn_RemoteAddr conn) now true t with
              | Some (_, t) => set_jobs t (delete j (t_jobs t))
              | None => t
              end
          | None => t
          end
      | None => t
      end
  | EvShutdown => set_shutdown t true
  end.
Definition run (evs : list event) t : NetTransport K := foldl (λ t ev, step ev t) t evs.

(** What [t.wg] counts: the loops that have not returned and the packets
    being read. *)
Definition wg t : nat := length (filter (λ lp, lp_status lp ≠ Stopped) (t_loops t)) + length (t_jobs t).
End transport.

(** ** Listening *)

(** The sockets of the host: the address asked for, the port that was bound
    and whether the socket is open. [sk_bind] says what binding an address
    gives. *)
Record Net := { sk_bind : bytes → Z + error; sockets : list (bytes * Z * bool) }.

Definition tls_Listen {K} (addr : bytes) (cfg : TlsConfig K) (w : Net) : (nat + error) * Net :=
  if bool_decide (length (Certificates cfg) = 0%nat)
  then (inr (ErrString ($"tls: neither Certificates, GetCertificate, nor GetConfigForClient set in Config")), w)
  else match sk_bind w addr with
       | inl p => (inl (length (sockets w)), {| sk_bind := sk_bind w; sockets := sockets w ++ [(addr, p, true)] |})
       | inr e => (inr e, w)
       end.
Definition socket_port (w : Net) (k : nat) : Z := match sockets w !! k with Some (_, p, _) => p | None => 0 end.
Definition is_open (w : Net) (k : nat) : bool := match sockets w !! k with Some (_, _, o) => o | None => false end.
Definition socket_Close (w : Net) (k : nat) : Net :=
  {| sk_bind := sk_bind w; sockets := alter (λ s, (s.1, false)) k (sockets w) |}.

(** The loop of [Shutdown] over the listeners. *)
Definition close_all (ls : list Listener) (w : Net) : Net := foldl (λ w l, socket_Close w (ln_socket l)) w ls.

Section listening.
Context {K : Type} (Quote : bytes → bytes).

(** The loop over the addresses, with the listeners made so far. *)
Fixpoint build_listeners (cfg : TlsConfig K) (addrs : list bytes) (port : Z) (ls : list Listener) (w : Net)
    : option error * list Listener * Net :=
  match addrs with
  | [] => (None, ls, w)
  | addr :: addrs =>
      let tcpAddr := {| ta_IP := ParseIP addr; ta_Port := port |} in
      match tls_Listen (TCPAddr_String tcpAddr) cfg w with
      | (inr err, w) =>
          (Some (ErrString ($"Failed to start TCP listener on " ++ Quote addr ++ $" port " ++ FormatInt port
                            ++ $": " ++ Error err)), ls, w)
      | (inl tcpLn, w) =>
          build_listeners cfg addrs (if port =? 0 then socket_port w tcpLn else port)
            (ls ++ [{| ln_socket := tcpLn; ln_addr := tcpAddr |}]) w
      end
  end.

(** On an error the deferred [Shutdown] closes the listeners; no goroutine
    has been started, so it has nothing to wait for. *)
Definition NewNetTransport (config : NetTransportConfig K) : M Net (NetTransport K) := λ w,
  if bool_decide (length (BindAddrs config) = 0%nat) then (Err (ErrString ($"At least one bind address is required")), w)
  else
    match build_listeners (TLSConfig config) (BindAddrs config) (tc_BindPort config) [] w with
    | (Some err, ls, w) => (Err err, close_all ls w)
    | (None, ls, w) =>
        (Ok {| t_config := config; packetCh := []; streamCh := []; tcpListeners := ls; t_shutdown := false;
               t_conns := []; t_jobs := []; t_loops := replicate (length (BindAddrs config)) new_loop |}, w)
    end.

(** [Shutdown] up to the point where it waits for the goroutines. *)
Definition Shutdown (t : NetTransport K) (w : Net) : NetTransport K * Net :=
  (set_shutdown t true, close_all (tcpListeners t) w).

(** Indexing the first listener panics when there is none. *)
Definition first_listener (t : NetTransport K) : res Listener :=
  match tcpListeners t with
  | l :: _ => Ok l
  | [] => Panic ($"runtime error: index out of range [0] with length 0")
  end.
Definition GetAutoBindPort (t : NetTransport K) : res Z := l ← first_listener t; mret (ta_Port (ln_addr l)).

Context (GetPrivateIP : bytes + error).

Definition FinalAdvertiseAddr (t : NetTransport K) (ip : bytes) (port : Z) : res (option bytes * Z) :=
  if bool_decide (ip ≠ []) then
    match ParseIP ip with
    | None => Err (ErrString ($"Failed to parse advertise address " ++ Quote ip))
    | Some advertiseAddr => Ok (Some (default advertiseAddr (To4 advertiseAddr)), port)
    end
  else
    addr0 ← match BindAddrs (t_config t) with
            | a :: _ => Ok a
            | [] => Panic ($"runtime error: index out of range [0] with length 0")
            end;
    advertiseAddr ←
      (if bool_decide (addr0 = $"0.0.0.0") then
         match GetPrivateIP with
         | inr err => Err (ErrString ($"Failed to get interface addresses: " ++ Error err))
         | inl ip =>
             if bool_decide (ip = []) then
               Err (ErrString ($"No private IP address found, and explicit IP not provided"))
             else match ParseIP ip with
                  | None => Err (ErrString ($"Failed to parse advertise address: " ++ Quote ip))
                  | Some a => Ok (Some a)
                  end
         end
       else l ← first_listener t; mret (ta_IP (ln_addr l)));
    advertisePort ← GetAutoBindPort t;
    mret (advertiseAddr, advertisePort).
End listening.

(** ** Dialing *)

(** An outgoing connection: what was written, whether it is closed, and the
    error its next write meets. *)
Record OutConn := { oc_addr : bytes; oc_sent : bytes; oc_closed : bool; oc_fault : option error }.

(** [dl_dial] says what dialing an address within a time (ns) gives: an
    error, TLS handshake included, or a connection with its fault. *)
Record Dialer := { dl_dial : Z → bytes → error + option error; dl_conns : list OutConn; dl_now : Z }.
Definition set_dl (w : Dialer) (l : list OutConn) : Dialer :=
  {| dl_dial := dl_dial w; dl_conns := l; dl_now := dl_now w |}.

Definition DialWithDialer (timeout : Z) (addr : bytes) : M Dialer nat := λ w,
  match dl_dial w timeout addr with
  | inl err => (Err err, w)
  | inr fault =>
      (Ok (length (dl_conns w)),
       set_dl w (dl_conns w ++ [{| oc_addr := addr; oc_sent := []; oc_closed := false; oc_fault := fault |}]))
  end.
(** A write that fails has sent nothing. *)
Definition conn_Write (k : nat) (b : bytes) : M Dialer unit := λ w,
  match dl_conns w !! k with
  | None => (Panic nil_deref, w)
  | Some o =>
      match oc_fault o with
      | Some e => (Err e, w)
      | None => (Ok tt, set_dl w (<[k := {| oc_addr := oc_addr o; oc_sent := oc_sent o ++ b;
                                           oc_closed := oc_closed o; oc_fault := None |}]> (dl_conns w)))
      end
  end.
Definition conn_Close (k : nat) (w : Dialer) : Dialer :=
  set_dl w (alter (λ o, {| oc_addr := oc_addr o; oc_sent := oc_sent o; oc_closed := true;
                          oc_fault := oc_fault o |}) k (dl_conns w)).

Definition second : Z := 1000000000.

(** The time is [None] for Go's zero time; time and error are both returned. *)
Definition WriteToAddress (b addr : bytes) : M Dialer (option Z * option error) :=
  catch (DialWithDialer (3 * second) addr) (λ r,
  match r with
  | inr err => mret (None, Some err)
  | inl conn =>
      let pkt := tcpConnPacket :: b in
      catch (conn_Write conn pkt) (λ r w,
      (Ok (Some (dl_now w), match r with inr err => Some err | inl _ => None end), conn_Close conn w))
  end).
Definition WriteTo (b addr : bytes) : M Dialer (option Z * option error) := WriteToAddress b addr.

Definition DialAddressTimeout (addr : bytes) (timeout : Z) : M Dialer nat :=
  conn ← DialWithDialer timeout addr;
  catch (conn_Write conn [tcpConnStream]) (λ r,
  match r with
  | inr err => λ w, (Err err, conn_Close conn w)
  | inl _ => mret conn
  end).
Definition DialTimeout (addr : bytes) (timeout : Z) : M Dialer nat := DialAddressTimeout addr timeout.

(** ** What one step changes *)

(** What a connection keeps: who the peer is. *)
Definition same_peer (c c' : Conn) : Prop :=
  cn_RemoteAddr c' = cn_RemoteAddr c ∧ cn_handshake c' = cn_handshake c.

Section steps.
Context {K : Type} (LogAddress : bytes → bytes).
Implicit Types (t : NetTransport K).

Lemma read_byte_same c r c' : read_byte c = Some (r, c') → same_peer c c'.
Proof.
  unfold read_byte. destruct (read_error c); [by intros [= _ <-]|].
  destruct (cn_in c); [|by intros [= _ <-]]. by destruct (at_end c) as [e|]; [intros [= _ <-]|].
Qed.
Lemma copy_all_same c r c' : copy_all c = Some (r, c') → same_peer c c'.
Proof.
  unfold copy_all. destruct (read_error c); [by intros [= _ <-]|]. by destruct (cn_end c); intros [= _ <-].
Qed.
Lemma conn_Handshake_same (cfg : TlsConfig K) now c r c' : conn_Handshake cfg now c = Some (r, c') → same_peer c c'.
Proof.
  unfold conn_Handshake. destruct (cn_handshake c) as [certs|e|] eqn:Hc; [|by intros [= _ <-]|done].
  destruct (check_peer cfg now certs); intros [= _ <-]; done.
Qed.

(** The peer passed the check of this configuration at some time. *)
Definition verified (cfg : TlsConfig K) (c : Conn) : Prop :=
  ∃ now certs, cn_handshake c = HsDone certs ∧ check_peer cfg now certs = Ok tt.

Lemma verified_same cfg c c' : same_peer c c' → verified cfg c → verified cfg c'.
Proof. intros [_ H1] (now & certs & H2 & H3). exists now, certs. split; [congruence|done]. Qed.

(** A handshake that succeeds has checked the peer; after one that failed
    nothing can be read. *)
Lemma conn_Handshake_Ok (cfg : TlsConfig K) now c c' : conn_Handshake cfg now c = Some (Ok tt, c') →
  c' = c ∧ verified cfg c.
Proof.
  unfold conn_Handshake, verified. destruct (cn_handshake c) as [certs|e|] eqn:Hc; [|done..].
  destruct (check_peer cfg now certs) as [[]|e|p] eqn:Hv; [|done..]. intros [= <-].
  split; [done|]. by exists now, certs.
Qed.
Lemma conn_Handshake_Err (cfg : TlsConfig K) now c e c' : conn_Handshake cfg now c = Some (Err e, c') →
  cn_handshakeErr c' = Some e.
Proof.
  unfold conn_Handshake. destruct (cn_handshake c) as [certs|e'|] eqn:Hc; [|by intros [= <- <-]|done].
  by destruct (check_peer cfg now certs) as [[]|e'|p]; intros [= <- <-].
Qed.

(** A connection is only handed on after a byte was read from it. *)
Lemma route_conn_spec k conn t t' : route_conn k conn t = Some t' →
  ∃ c', same_peer conn c' ∧ t_conns t' = <[k:=c']> (t_conns t) ∧
    t_config t' = t_config t ∧ t_loops t' = t_loops t ∧ t_shutdown t' = t_shutdown t ∧ packetCh t' = packetCh t ∧
    ((streamCh t' = streamCh t ∧ t_jobs t' = t_jobs t) ∨
     (read_error conn = None ∧
      ((streamCh t' = streamCh t ++ [k] ∧ t_jobs t' = t_jobs t) ∨
       (streamCh t' = streamCh t ∧ t_jobs t' = t_jobs t ++ [k])))).
Proof.
  unfold route_conn. destruct (read_byte conn) as [[r c]|] eqn:Hr; [|done]. intros [= <-].
  pose proof (read_byte_same _ _ _ Hr) as Hs. destruct r as [b|e|p].
  - assert (read_error conn = None) as Hn.
    { revert Hr. unfold read_byte. by destruct (read_error conn). }
    case_bool_decide; [exists c; split_and!; naive_solver|].
    case_bool_decide; [exists c; split_and!; naive_solver|]. exists (Close c). split_and!; try done. by left.
  - exists (Close c). split_and!; try done. by left.
  - exists (Close c). split_and!; try done. by left.
Qed.

Lemma accept_conn_spec now k conn lp t lp' t' :
  accept_conn now k conn lp t = (lp', t') → t_conns t !! k = Some conn →
  ∃ c', same_peer conn c' ∧ t_conns t' = <[k:=c']> (t_conns t) ∧
    t_config t' = t_config t ∧ t_loops t' = t_loops t ∧ t_shutdown t' = t_shutdown t ∧ packetCh t' = packetCh t ∧
    lp_slept lp' = lp_slept lp ∧ (loopDelay lp' = loopDelay lp ∨ loopDelay lp' = 0) ∧
    ((streamCh t' = streamCh t ∧ t_jobs t' = t_jobs t) ∨
     (verified (TLSConfig (t_config t)) conn ∧
      ((streamCh t' = streamCh t ++ [k] ∧ t_jobs t' = t_jobs t) ∨
       (streamCh t' = streamCh t ∧ t_jobs t' = t_jobs t ++ [k])))).
Proof.
  intros Ha Hk. unfold accept_conn in Ha. destruct (cn_tls conn); simpl in Ha.
  2:{ injection Ha as <- <-. exists (Close conn). split_and!; try done; by left. }
  destruct (conn_Handshake _ now conn) as [[r c]|] eqn:Hh.
  2:{ injection Ha as <- <-. exists conn. split_and!; try done; [|by left..].
      by rewrite list_insert_id. }
  pose proof (conn_Handshake_same _ _ _ _ _ Hh) as Hs. destruct r as [[]|e|p].
  - apply conn_Handshake_Ok in Hh as [-> Hv].
    destruct (route_conn k conn (set_conn t k conn)) as [t1|] eqn:Hr; injection Ha as <- <-.
    + apply route_conn_spec in Hr as (c' & Hs' & Hc & Hcfg & Hl & Hsd & Hp & Hrest).
      exists c'. simpl in *. rewrite list_insert_insert_eq in Hc. split_and!; try done; [by right|]. naive_solver.
    + exists conn. split_and!; try done; [by right|by left].
  - apply conn_Handshake_Err in Hh.
    destruct (route_conn k (Close c) (set_conn t k (Close c))) as [t1|] eqn:Hr; injection Ha as <- <-.
    + apply route_conn_spec in Hr as (c' & Hs' & Hc & Hcfg & Hl & Hsd & Hp & Hrest).
      exists c'. simpl in *. rewrite list_insert_insert_eq in Hc. split_and!; try done.
      * destruct Hs, Hs'. simpl in *. split; simpl; congruence.
      * by right.
      * destruct Hrest as [?|[Hre _]]; [by left|]. unfold read_error in Hre. simpl in Hre. by rewrite Hh in Hre.
    + exists (Close c). split_and!; try done; [by right|by left].
  - injection Ha as <- <-. exists c. split_and!; try done; by left.
Qed.

Definition extends (l l' : list Conn) : Prop :=
  ∀ k c, l !! k = Some c → ∃ c', l' !! k = Some c' ∧ same_peer c c'.

Lemma same_peer_trans c1 c2 c3 : same_peer c1 c2 → same_peer c2 c3 → same_peer c1 c3.
Proof. intros [] []. split; congruence. Qed.

Lemma extends_refl l : extends l l.
Proof. intros k c Hk. by exists c. Qed.
Lemma extends_insert l k c c' : l !! k = Some c → same_peer c c' → extends l (<[k:=c']> l).
Proof.
  intros Hk Hs j d Hj. destruct (decide (j = k)) as [->|Hne].
  - exists c'. rewrite list_lookup_insert_eq by (by eapply lookup_lt_Some). simplify_eq. done.
  - exists d. by rewrite list_lookup_insert_ne.
Qed.
Lemma extends_snoc l c c' : same_peer c c' → extends l (<[length l:=c']> (l ++ [c])).
Proof.
  intros Hs j d Hj. pose proof (lookup_lt_Some _ _ _ Hj). exists d.
  rewrite list_lookup_insert_ne by lia. by rewrite lookup_app_l.
Qed.

(** Reading a packet leaves everything else alone. *)
Lemma IngestPacket_spec k addr now t r t' : IngestPacket LogAddress k addr now true t = Some (r, t') →
  ∃ c c', t_conns t !! k = Some c ∧ same_peer c c' ∧ t_conns t' = <[k:=c']> (t_conns t) ∧ cn_closed c' = true ∧
    t_config t' = t_config t ∧ t_loops t' = t_loops t ∧ t_shutdown t' = t_shutdown t ∧
    streamCh t' = streamCh t ∧ t_jobs t' = t_jobs t ∧
    (packetCh t' = packetCh t ∨
     ∃ buf, buf ≠ [] ∧ packetCh t' = packetCh t ++ [{| pk_Buf := buf; pk_From := addr; pk_Timestamp := now |}]).
Proof.
  unfold IngestPacket. destruct (t_conns t !! k) as [c|] eqn:Hk; [|done]. simpl.
  destruct (copy_all c) as [[r0 c0]|] eqn:Hr; [|done]. simpl. intros [= Ht].
  pose proof (copy_all_same _ _ _ Hr) as Hs. exists c, (Close c0). do 2 (split; [done|]).
  destruct r0 as [[|b buf]|e|p]; simpl in Ht; injection Ht as <- <-; simpl; split_and!; try done;
    try (by left).
  right. by exists (b :: buf).
Qed.

(** One step keeps the configuration and the peers, and hands on only
    connections whose peer was verified. *)
Lemma step_spec ev t : let t' := step LogAddress ev t in
  t_config t' = t_config t ∧ extends (t_conns t) (t_conns t') ∧
  (∀ k, k ∈ streamCh t' ∨ k ∈ t_jobs t' →
     k ∈ streamCh t ∨ k ∈ t_jobs t ∨
     ∃ c, t_conns t' !! k = Some c ∧ verified (TLSConfig (t_config t)) c) ∧
  (∀ p, p ∈ packetCh t' → p ∈ packetCh t ∨
     ∃ k c, k ∈ t_jobs t ∧ t_conns t !! k = Some c ∧ pk_From p = cn_RemoteAddr c).
Proof.
  destruct ev as [i now c|i|j now|]; simpl.
  - unfold with_loop. destruct (t_loops t !! i) as [lp|]; [|split_and!; [done|apply extends_refl|naive_solver..]].
    case_bool_decide; [|split_and!; [done|apply extends_refl|naive_solver..]].
    destruct (accept_conn _ _ _ _ _) as [lp' t'] eqn:Ha. apply accept_conn_spec in Ha; [|by simpl; apply list_lookup_middle].
    destruct Ha as (c' & Hs & Hc & Hcfg & _ & _ & Hp & _ & _ & Hr). simpl in *. rewrite Hc, Hp, Hcfg.
    split_and!; [done|by apply extends_snoc| |by left]. intros k.
    assert (verified (TLSConfig (t_config t)) (accepted c) → ∃ c0,
      <[length (t_conns t):=c']> (t_conns t ++ [accepted c]) !! length (t_conns t) = Some c0 ∧
      verified (TLSConfig (t_config t)) c0) as Hv.
    { intros Hv. exists c'. split; [|by eapply verified_same].
      rewrite list_lookup_insert_eq; [done|]. rewrite length_app. simpl. lia. }
    destruct Hr as [[-> ->]|(Hver & [[-> ->]|[-> ->]])]; rewrite ?elem_of_app, ?list_elem_of_singleton;
      naive_solver.
  - unfold with_loop. destruct (t_loops t !! i) as [lp|]; [case_bool_decide|];
      split_and!; try done; try apply extends_refl; naive_solver.
  - destruct (t_jobs t !! j) as [k|] eqn:Hj; [|split_and!; [done|apply extends_refl|naive_solver..]].
    destruct (t_conns t !! k) as [c|] eqn:Hk; [|split_and!; [done|apply extends_refl|naive_solver..]].
    destruct (IngestPacket _ _ _ _ _ _) as [[r t']|] eqn:HI; [|split_and!; [done|apply extends_refl|naive_solver..]].
    apply IngestPacket_spec in HI as (c0 & c' & Hk' & Hs & Hc & _ & Hcfg & _ & _ & Hst & Hjobs & Hp). simplify_eq/=.
    rewrite Hc, Hcfg, Hst, Hjobs. split_and!; [done|by eapply extends_insert| |].
    + intros k' [?|Hin]; [by left|]. right. left. apply list_elem_of_lookup in Hin as [n Hn].
      apply list_elem_of_lookup. destruct (decide (n < j)%nat) as [Hlt|Hge].
      * exists n. by rewrite list_lookup_delete_lt in Hn.
      * exists (S n). rewrite list_lookup_delete_ge in Hn by lia. done.
    + intros p. assert (k ∈ t_jobs t) by (by eapply list_elem_of_lookup_2).
      destruct Hp as [->|(buf & _ & ->)]; rewrite ?elem_of_app, ?list_elem_of_singleton; [by left|].
      intros [Hin| ->]; [by left|right; by exists k, c].
  - split_and!; try done; try apply extends_refl; naive_solver.
Qed.

Lemma extends_trans l1 l2 l3 : extends l1 l2 → extends l2 l3 → extends l1 l3.
Proof.
  intros H12 H23 k c Hk. destruct (H12 k c Hk) as (c2 & Hk2 & Hs2). destruct (H23 k c2 Hk2) as (c3 & Hk3 & Hs3).
  exists c3. split; [done|by eapply same_peer_trans].
Qed.

(** Everything handed on comes from a verified peer. *)
Definition attested t : Prop :=
  (∀ k, k ∈ streamCh t ∨ k ∈ t_jobs t → ∃ c, t_conns t !! k = Some c ∧ verified (TLSConfig (t_config t)) c) ∧
  (∀ p, p ∈ packetCh t →
     ∃ k c, t_conns t !! k = Some c ∧ verified (TLSConfig (t_config t)) c ∧ pk_From p = cn_RemoteAddr c).

Lemma step_attested ev t : attested t → attested (step LogAddress ev t).
Proof.
  intros [Hk Hp]. pose proof (step_spec ev t) as (Hcfg & Hext & Hr & Hpk). simpl in *.
  assert (∀ k c, t_conns t !! k = Some c → verified (TLSConfig (t_config t)) c →
    ∃ c', t_conns (step LogAddress ev t) !! k = Some c' ∧ verified (TLSConfig (t_config t)) c' ∧
          cn_RemoteAddr c' = cn_RemoteAddr c) as Hmono.
  { intros k c Hc Hv. destruct (Hext k c Hc) as (c' & Hc' & Hs). exists c'. split_and!; [done| |apply Hs].
    by eapply verified_same. }
  split; rewrite Hcfg.
  - intros k Hin. destruct (Hr k Hin) as [?|[?|?]]; [| |done].
    all: destruct (Hk k) as (c & Hc & Hv); [by (left + right)|]; destruct (Hmono k c Hc Hv) as (c' & ? & ? & _); eauto.
  - intros p Hin. destruct (Hpk p Hin) as [Hold|(k & c & Hjob & Hc & Hf)].
    + destruct (Hp p Hold) as (k & c & Hc & Hv & Hf). destruct (Hmono k c Hc Hv) as (c' & ? & ? & Ha).
      exists k, c'. split_and!; [done..|congruence].
    + destruct (Hk k (or_intror Hjob)) as (c2 & Hc2 & Hv). rewrite Hc in Hc2. injection Hc2 as <-.
      destruct (Hmono k c Hc Hv) as (c' & ? & ? & Ha). exists k, c'. split_and!; [done..|congruence].
Qed.

Lemma run_ind (P : NetTransport K → Prop) evs t : (∀ ev t, P t → P (step LogAddress ev t)) → P t →
  P (run LogAddress evs t).
Proof. intros Hstep. revert t. induction evs as [|ev evs IH]; intros t Ht; [done|]. apply IH, Hstep, Ht. Qed.

Lemma run_config evs t : t_config (run LogAddress evs t) = t_config t.
Proof.
  apply (run_ind (λ t', t_config t' = t_config t)); [|done]. intros ev t' <-. apply step_spec.
Qed.

(** *** The delays of the accept loops *)

Definition delay_ok (d : Z) : Prop := baseDelay ≤ d ≤ maxDelay.
Definition loop_ok (lp : Loop) : Prop :=
  (loopDelay lp = 0 ∨ delay_ok (loopDelay lp)) ∧ Forall delay_ok (lp_slept lp).

Lemma accept_failed_ok sd lp : loop_ok lp → loop_ok (accept_failed sd lp).
Proof.
  intros [Hd Hs]. unfold accept_failed. destruct sd; [done|].
  assert (delay_ok (let d := if loopDelay lp =? 0 then baseDelay else loopDelay lp * 2 in
                    if maxDelay <? d then maxDelay else d)) as Hok.
  { cbv zeta. set (d := if loopDelay lp =? 0 then baseDelay else loopDelay lp * 2).
    assert (baseDelay ≤ d) by (unfold d, delay_ok, baseDelay in *; destruct (Z.eqb_spec (loopDelay lp) 0); lia).
    unfold delay_ok. destruct (Z.ltb_spec maxDelay d); unfold baseDelay, maxDelay in *; lia. }
  split; [by right|]. apply Forall_app. split; [done|]. by constructor.
Qed.

Lemma step_loops ev t : Forall loop_ok (t_loops t) → Forall loop_ok (t_loops (step LogAddress ev t)).
Proof.
  intros HF. destruct ev as [i now c|i|j now|]; simpl; [| | |done].
  - unfold with_loop. destruct (t_loops t !! i) as [lp|] eqn:Hi; [|done]. case_bool_decide; [|done].
    destruct (accept_conn _ _ _ _ _) as [lp' t'] eqn:Ha. apply accept_conn_spec in Ha; [|by simpl; apply list_lookup_middle].
    destruct Ha as (c' & _ & _ & _ & Hl & _ & _ & Hsl & Hd & _). simpl in *. rewrite Hl.
    apply Forall_insert; [done|]. rewrite Forall_lookup in HF. destruct (HF i lp Hi) as [Hd0 Hs0].
    split; [|by rewrite Hsl]. destruct Hd as [->| ->]; [done|by left].
  - unfold with_loop. destruct (t_loops t !! i) as [lp|] eqn:Hi; [|done]. case_bool_decide; [|done].
    simpl. apply Forall_insert; [done|]. apply accept_failed_ok. rewrite Forall_lookup in HF. by apply (HF i).
  - destruct (t_jobs t !! j) as [k|]; [|done]. destruct (t_conns t !! k) as [c|]; [|done].
    destruct (IngestPacket _ _ _ _ _ _) as [[r t']|] eqn:HI; [|done].
    apply IngestPacket_spec in HI as (? & ? & _ & _ & _ & _ & _ & Hl & _). simpl. by rewrite Hl.
Qed.

(** The delay after [n] failures in a row, and the sum of the doubling. *)
Definition backoff (n : nat) : Z := Z.min maxDelay (baseDelay * 2 ^ Z.of_nat n).

Lemma backoff_next n : (if maxDelay <? backoff n * 2 then maxDelay else backoff n * 2) = backoff (S n).
Proof.
  unfold backoff. rewrite Nat2Z.inj_succ, Z.pow_succ_r by lia.
  assert (1 ≤ 2 ^ Z.of_nat n) by (pose proof (Z.pow_pos_nonneg 2 (Z.of_nat n)); lia).
  unfold maxDelay, baseDelay in *. destruct (Z.ltb_spec (1 * 1000000000) (Z.min (1 * 1000000000) (5 * 1000000 * 2 ^ Z.of_nat n) * 2)); lia.
Qed.

Lemma accept_failed_iter n lp : loopDelay lp = 0 → lp_slept lp = [] →
  Nat.iter (S n) (accept_failed false) lp =
  {| lp_status := lp_status lp; loopDelay := backoff n; lp_slept := map backoff (seq 0 (S n)) |}.
Proof.
  intros Hd Hs. induction n as [|n IH].
  - unfold accept_failed. simpl. by rewrite Hd, Hs.
  - rewrite Nat.iter_succ, IH. clear IH. unfold accept_failed.
    cbn [loopDelay lp_slept lp_status]. rewrite (seq_S (S n)), map_app. cbn [map Nat.add].
    replace (backoff n =? 0) with false.
    2: { symmetry. apply Z.eqb_neq. unfold backoff, maxDelay, baseDelay.
         pose proof (Z.pow_pos_nonneg 2 (Z.of_nat n)). lia. }
    cbv zeta iota. by rewrite backoff_next.
Qed.

Lemma run_failures n i t lp : t_shutdown t = false → t_loops t !! i = Some lp → lp_status lp = Running →
  t_loops (run LogAddress (replicate n (EvAcceptErr i)) t) !! i = Some (Nat.iter n (accept_failed false) lp).
Proof.
  intros Hsd. revert t lp Hsd. induction n as [|n IH]; intros t lp Hsd Hi Hst; [done|].
  rewrite Nat.iter_succ_r. unfold run. cbn [replicate foldl step]. unfold with_loop. rewrite Hi, bool_decide_true by done.
  rewrite Hsd. apply IH; [done| |].
  - simpl. apply list_lookup_insert_eq. by eapply lookup_lt_Some.
  - done.
Qed.

(** *** Silent peers *)

(** A loop that does not run stays as it is. *)
Lemma step_stuck ev t i lp : t_loops t !! i = Some lp → lp_status lp ≠ Running →
  t_loops (step LogAddress ev t) !! i = Some lp.
Proof.
  intros Hi Hne. assert (∀ j f, (∀ l, t_loops (f l).2 = t_loops t) →
    t_loops (with_loop j f t) !! i = Some lp) as Hw.
  { intros j f Hf. unfold with_loop. destruct (t_loops t !! j) as [l|] eqn:Hj; [|done]. case_bool_decide; [|done].
    specialize (Hf l). destruct (f l) as [l' t']. simpl in *. rewrite Hf.
    rewrite list_lookup_insert_ne; [done|]. intros ->. congruence. }
  destruct ev as [j now c|j|j now|]; simpl; [|apply Hw; done| |done].
  - apply Hw. intros l. destruct (accept_conn _ _ _ _ _) as [lp' t'] eqn:Ha. simpl.
    apply accept_conn_spec in Ha; [|by simpl; apply list_lookup_middle].
    by destruct Ha as (? & _ & _ & _ & Hl & _).
  - destruct (t_jobs t !! j) as [k|]; [|done]. destruct (t_conns t !! k) as [c|]; [|done].
    destruct (IngestPacket _ _ _ _ _ _) as [[r t']|] eqn:HI; [|done].
    apply IngestPacket_spec in HI as (? & ? & _ & _ & _ & _ & _ & Hl & _). simpl. by rewrite Hl.
Qed.
End steps.

(** ** Properties of the goroutines *)

Section goroutines.
Context {K : Type} (LogAddress : bytes → bytes).
Implicit Types (t : NetTransport K).

(** C39. The accept loops sleep between 5 milliseconds and one second after an
    error, at any time; after n errors in a row the delays were 5 ms doubled
    up to one second; a connection resets the delay. *)
Theorem backoff_bounds t i : t_shutdown t = false → t_loops t !! i = Some new_loop →
  Forall loop_ok (t_loops t) →
  (∀ evs, Forall loop_ok (t_loops (run LogAddress evs t))) ∧
  (∀ n, t_loops (run LogAddress (replicate (S n) (EvAcceptErr i)) t) !! i =
        Some {| lp_status := Running; loopDelay := backoff n; lp_slept := map backoff (seq 0 (S n)) |}) ∧
  (∀ now c t' lp, t_loops t' !! i = Some lp → lp_status lp = Running → cn_tls c = true →
     match t_loops (step LogAddress (EvAccept i now c) t') !! i with
     | Some lp' => lp_status lp' = Running → loopDelay lp' = 0
     | None => False
     end).
Proof.
  intros Hsd Hi HF. split; [|split].
  - intros evs. apply (run_ind LogAddress (λ t, Forall loop_ok (t_loops t))); [|done].
    intros ev t'. apply step_loops.
  - intros n. by rewrite (run_failures _ _ _ _ new_loop), accept_failed_iter.
  - intros now c t' lp Hl Hrun Htls. simpl. unfold with_loop. rewrite Hl, bool_decide_true by done.
    destruct (accept_conn _ _ _ _ _) as [lp' t2] eqn:Ha.
    assert (lp_status lp' = Running → loopDelay lp' = 0) as Hz.
    { revert Ha. unfold accept_conn. simpl. rewrite Htls. simpl. destruct (conn_Handshake _ _ _) as [[[[]|e|p] c']|].
      - destruct (route_conn _ _ _); by intros [= <- _].
      - destruct (route_conn _ _ _); by intros [= <- _].
      - by intros [= <- _].
      - by intros [= <- _]. }
    apply accept_conn_spec in Ha; [|by simpl; apply list_lookup_middle].
    destruct Ha as (? & _ & _ & _ & Hl2 & _). simpl in *. rewrite Hl2, list_lookup_insert_eq; [done|].
    by eapply lookup_lt_Some.
Qed.

(** A peer that never answers the handshake, or passes it and sends nothing. *)
Definition silent (cfg : TlsConfig K) (now : Z) (c : Conn) : Prop :=
  cn_handshake c = HsSilent ∨
  ∃ certs, cn_handshake c = HsDone certs ∧ check_peer cfg now certs = Ok tt ∧ cn_in c = [] ∧ cn_end c = EndSilent.

Lemma accept_silent i now c t lp : t_loops t !! i = Some lp → lp_status lp = Running → cn_tls c = true →
  silent (TLSConfig (t_config t)) now c →
  ∃ lp', t_loops (step LogAddress (EvAccept i now c) t) !! i = Some lp' ∧ lp_status lp' = Stuck.
Proof.
  intros Hl Hrun Htls Hs. simpl. unfold with_loop. rewrite Hl, bool_decide_true by done.
  unfold accept_conn. simpl. rewrite Htls. simpl. unfold conn_Handshake. simpl.
  pose proof (lookup_lt_Some _ _ _ Hl) as Hlt.
  destruct Hs as [-> |(certs & -> & Hv & Hin & Hend)]; simpl.
  - eexists. by rewrite list_lookup_insert_eq.
  - rewrite Hv. unfold route_conn, read_byte, at_end. simpl. rewrite Hin, Hend. simpl.
    eexists. by rewrite list_lookup_insert_eq.
Qed.

Lemma wg_stuck t i lp : t_loops t !! i = Some lp → lp_status lp ≠ Stopped → wg t ≠ 0%nat.
Proof.
  intros Hi Hne. unfold wg. assert (lp ∈ filter (λ lp, lp_status lp ≠ Stopped) (t_loops t)) as Hin.
  { apply list_elem_of_filter. split; [done|by eapply list_elem_of_lookup_2]. }
  destruct (filter _ _); [by apply not_elem_of_nil in Hin|simpl; lia].
Qed.

(** C38. A peer that opens a connection and never answers the handshake, or
    passes it and sends nothing, stops its listener for good: whatever
    happens afterwards, no further connection is accepted there, and a
    shutdown waits forever.  No certificate is needed for it. *)
Theorem silent_peer_blocks i now c t lp evs : t_loops t !! i = Some lp → lp_status lp = Running →
  cn_tls c = true → silent (TLSConfig (t_config t)) now c →
  let t' := run LogAddress evs (step LogAddress (EvAccept i now c) t) in
  (∀ now' c', step LogAddress (EvAccept i now' c') t' = t') ∧ wg t' ≠ 0%nat.
Proof.
  intros Hl Hrun Htls Hs t'. destruct (accept_silent i now c t lp Hl Hrun Htls Hs) as (lp' & Hl' & Hst).
  assert (t_loops t' !! i = Some lp') as Hf.
  { apply (run_ind LogAddress (λ t', t_loops t' !! i = Some lp')); [|done].
    intros ev t0 H0. apply step_stuck; [done|by rewrite Hst]. }
  split; [|eapply wg_stuck; [done|by rewrite Hst]].
  intros now' c'. simpl. unfold with_loop. rewrite Hf. by rewrite bool_decide_false by (by rewrite Hst).
Qed.
End goroutines.

Section attestation.
Context {E : Type} `{EnclaveLib E} `{X509Lib E}.
Context (LogAddress : bytes → bytes).

(** C36. A node with an enclave configuration hands to memberlist only packets and
    streams of peers whose certificate [certVerifier] accepted, whatever is
    accepted, fails or is read in whatever order; a failed handshake, which
    the accept loop does not act upon, cannot get past the type byte. *)
Theorem only_attested_peers_are_routed cfg priv cert evs (t : NetTransport PrivateKey) :
  TLSConfig (t_config t) = ServerTlsConfig (SGXTlsConfig cfg priv cert) →
  packetCh t = [] → streamCh t = [] → t_jobs t = [] →
  let t' := run LogAddress evs t in
  (∀ k, k ∈ streamCh t' →
     ∃ c certs now, t_conns t' !! k = Some c ∧ cn_handshake c = HsDone certs ∧ certVerifier cfg now certs = Ok tt) ∧
  (∀ p, p ∈ packetCh t' →
     ∃ k c certs now, t_conns t' !! k = Some c ∧ pk_From p = cn_RemoteAddr c ∧
       cn_handshake c = HsDone certs ∧ certVerifier cfg now certs = Ok tt).
Proof.
  intros Hcfg Hp Hs Hj t'. pose proof (run_ind LogAddress attested evs t (step_attested LogAddress)) as Hinv.
  pose proof (run_config LogAddress evs t) as Hc. fold t' in Hinv, Hc.
  destruct Hinv as [Hk Hpk].
  { split; rewrite ?Hp, ?Hs, ?Hj; [intros k [Hin|Hin]|intros p Hin]; by apply not_elem_of_nil in Hin. }
  rewrite Hc, Hcfg in Hk, Hpk. split.
  - intros k Hin. destruct (Hk k (or_introl Hin)) as (c & Hkc & now & certs & Hh & Hv). by exists c, certs, now.
  - intros p Hin. destruct (Hpk p Hin) as (k & c & Hkc & (now & certs & Hh & Hv) & Hf). by exists k, c, certs, now.
Qed.
End attestation.

(** ** Framing *)

Lemma list_insert_snoc {A} (l : list A) x y : <[length l:=y]> (l ++ [x]) = l ++ [y].
Proof. rewrite insert_app_r_alt by lia. by rewrite Nat.sub_diag. Qed.

(** What the other side of an outgoing connection accepts, once its dialer
    has written and closed as recorded. *)
Definition delivered (o : OutConn) (certs : list bytes) (from : bytes) : Conn :=
  {| cn_tls := true; cn_RemoteAddr := from; cn_handshake := HsDone certs; cn_in := oc_sent o;
     cn_end := if oc_closed o then EndEOF else EndSilent; cn_handshakeErr := None; cn_closed := false |}.

Lemma DialWithDialer_ok timeout addr w : dl_dial w timeout addr = inr None →
  DialWithDialer timeout addr w =
  (Ok (length (dl_conns w)), set_dl w (dl_conns w ++ [{| oc_addr := addr; oc_sent := []; oc_closed := false; oc_fault := None |}])).
Proof. intros Hd. unfold DialWithDialer. by rewrite Hd. Qed.

(** Writing to the connection that was dialed last. *)
Lemma conn_Write_last w l o b : dl_conns w = l ++ [o] → oc_fault o = None →
  conn_Write (length l) b w =
  (Ok tt, set_dl w (l ++ [{| oc_addr := oc_addr o; oc_sent := oc_sent o ++ b; oc_closed := oc_closed o; oc_fault := None |}])).
Proof.
  intros Hw Hf. unfold conn_Write. rewrite Hw, list_lookup_middle, Hf by done. by rewrite list_insert_snoc.
Qed.

Section framing.
Context {K : Type} (LogAddress : bytes → bytes).
Implicit Types (t : NetTransport K).

(** A verified peer's first byte decides. *)
Lemma accept_routed i now c t lp certs b l : t_loops t !! i = Some lp → lp_status lp = Running →
  cn_tls c = true → cn_handshake c = HsDone certs → check_peer (TLSConfig (t_config t)) now certs = Ok tt →
  cn_in c = b :: l → b = tcpConnPacket ∨ b = tcpConnStream →
  let t' := step LogAddress (EvAccept i now c) t in
  t_conns t' = t_conns t ++ [set_cn_in (accepted c) l] ∧ packetCh t' = packetCh t ∧
  t_loops t' !! i = Some (reset_delay lp) ∧
  (b = tcpConnPacket → streamCh t' = streamCh t ∧ t_jobs t' = t_jobs t ++ [length (t_conns t)]) ∧
  (b = tcpConnStream → streamCh t' = streamCh t ++ [length (t_conns t)] ∧ t_jobs t' = t_jobs t).
Proof.
  intros Hl Hrun Htls Hh Hv Hin Hb. pose proof (lookup_lt_Some _ _ _ Hl) as Hlt. simpl.
  unfold with_loop. rewrite Hl, bool_decide_true by done.
  unfold accept_conn. simpl. rewrite Htls. simpl. unfold conn_Handshake. simpl. rewrite Hh, Hv.
  unfold route_conn, read_byte. simpl. rewrite Hin. simpl.
  destruct Hb as [-> | ->]; simpl; rewrite !list_insert_insert_eq, list_insert_snoc; simpl;
    (split_and!; [done|done|by apply list_lookup_insert_eq|done|done]).
Qed.

(** C37. What [WriteTo] sends to an address arrives there, from a peer that the
    configuration accepts, as one packet with the same bytes, or as no
    packet when it is empty, and its connection is closed; what is written
    to a connection of [DialTimeout] arrives as a stream that reads these
    bytes. *)
Theorem messages_are_routed i now now' t lp certs from b addr timeout w :
  t_loops t !! i = Some lp → lp_status lp = Running → check_peer (TLSConfig (t_config t)) now certs = Ok tt →
  (∀ d, dl_dial w d addr = inr None) →
  (∃ o w', WriteTo b addr w = (Ok (Some (dl_now w), None), w') ∧ dl_conns w' = dl_conns w ++ [o] ∧
     let t' := step LogAddress (EvPacket (length (t_jobs t)) now')
                 (step LogAddress (EvAccept i now (delivered o certs from)) t) in
     packetCh t' = packetCh t ++ match b with [] => [] | _ => [{| pk_Buf := b; pk_From := from; pk_Timestamp := now' |}] end ∧
     streamCh t' = streamCh t ∧ t_jobs t' = t_jobs t ∧
     ∃ c, t_conns t' = t_conns t ++ [c] ∧ cn_closed c = true) ∧
  (∃ k o w' w'', DialTimeout addr timeout w = (Ok k, w') ∧ conn_Write k b w' = (Ok tt, w'') ∧
     dl_conns w'' = dl_conns w ++ [o] ∧
     let t' := step LogAddress (EvAccept i now (delivered o certs from)) t in
     streamCh t' = streamCh t ++ [length (t_conns t)] ∧ packetCh t' = packetCh t ∧ t_jobs t' = t_jobs t ∧
     ∃ c, t_conns t' = t_conns t ++ [c] ∧ cn_in c = b ∧ cn_closed c = false).
Proof.
  intros Hl Hrun Hv Hd. split.
  - exists {| oc_addr := addr; oc_sent := tcpConnPacket :: b; oc_closed := true; oc_fault := None |}.
    eexists. unfold WriteTo, WriteToAddress, catch. rewrite DialWithDialer_ok by done.
    erewrite conn_Write_last by done. split; [done|]. split.
    { unfold conn_Close. simpl. by rewrite alter_app_r_alt, Nat.sub_diag by lia. }
    destruct (accept_routed i now (delivered {| oc_addr := addr; oc_sent := tcpConnPacket :: b; oc_closed := true;
      oc_fault := None |} certs from) t lp certs tcpConnPacket b Hl Hrun eq_refl eq_refl Hv eq_refl (or_introl eq_refl))
      as (Hc & Hp & _ & Hk & _). destruct (Hk eq_refl) as [Hs Hj]. clear Hk.
    set (t1 := step LogAddress (EvAccept _ _ _) t) in *. clearbody t1. cbn [step]. rewrite Hj.
    rewrite list_lookup_middle by done. rewrite Hc, list_lookup_middle by done.
    unfold IngestPacket. rewrite Hc, list_lookup_middle by done. simpl.
    destruct b as [|x b]; simpl; rewrite ?Hp, ?Hj, ?Hc, ?list_insert_snoc, ?app_nil_r; split_and!; try done;
      rewrite ?delete_middle; try done; eauto using app_nil_r.
    all: try (by rewrite app_nil_r). all: by eexists.
  - exists (length (dl_conns w)), {| oc_addr := addr; oc_sent := tcpConnStream :: b; oc_closed := false; oc_fault := None |}.
    eexists _, _. unfold DialTimeout, DialAddressTimeout, mbind, M_bind, catch. rewrite DialWithDialer_ok by done.
    erewrite conn_Write_last by done. split; [done|]. erewrite conn_Write_last by done. split; [done|]. split; [done|].
    destruct (accept_routed i now (delivered {| oc_addr := addr; oc_sent := tcpConnStream :: b; oc_closed := false;
      oc_fault := None |} certs from) t lp certs tcpConnStream b Hl Hrun eq_refl eq_refl Hv eq_refl (or_intror eq_refl))
      as (Hc & Hp & _ & _ & Hk). destruct (Hk eq_refl) as [Hs Hj]. cbv zeta. rewrite Hc, Hs, Hp, Hj.
    split_and!; try done. by eexists.
Qed.
End framing.

(** ** Listening *)

Section listening_laws.
Context {K : Type} (Quote : bytes → bytes).
Implicit Types (cfg : TlsConfig K) (config : NetTransportConfig K) (w : Net).

(** The listener made for an address with a port, as a socket of the host. *)
Definition listens w (addr : bytes) (port : Z) (l : Listener) : Prop :=
  ln_addr l = {| ta_IP := ParseIP addr; ta_Port := port |} ∧
  ∃ p, sockets w !! ln_socket l = Some (TCPAddr_String (ln_addr l), p, true).

Lemma tls_Listen_spec addr cfg w r w' : tls_Listen addr cfg w = (r, w') →
  sk_bind w' = sk_bind w ∧
  match r with
  | inl k => k = length (sockets w) ∧ ∃ p, sk_bind w addr = inl p ∧ sockets w' = sockets w ++ [(addr, p, true)]
  | inr _ => w' = w
  end.
Proof.
  unfold tls_Listen. case_bool_decide; [by intros [= <- <-]|].
  destruct (sk_bind w addr) as [p|e]; intros [= <- <-]; simpl; eauto 6.
Qed.

(** The loop adds one open socket per listener; the first has the port that
    was asked for, the others that of the first when none was asked for. *)
Lemma build_listeners_spec cfg addrs port ls w err ls' w' :
  build_listeners Quote cfg addrs port ls w = (err, ls', w') →
  ∃ new, ls' = ls ++ new ∧ sk_bind w' = sk_bind w ∧
    sockets w `prefix_of` sockets w' ∧ (length (sockets w') = length (sockets w) + length new)%nat ∧
    map ln_socket new = seq (length (sockets w)) (length new) ∧
    (err = None → length new = length addrs) ∧
    (port ≠ 0 → ∀ j l, new !! j = Some l → ∃ addr, addrs !! j = Some addr ∧ listens w' addr port l).
Proof.
  revert port ls w. induction addrs as [|addr addrs IH]; intros port ls w Hb; simpl in Hb.
  { injection Hb as <- <- <-. exists []. rewrite app_nil_r, Nat.add_0_r. do 6 (split; [done|]). done. }
  destruct (tls_Listen _ cfg w) as [[k|e] w1] eqn:Hl; apply tls_Listen_spec in Hl as [Hbind Hl].
  2:{ injection Hb as <- <- <-. subst w1. exists []. rewrite app_nil_r, Nat.add_0_r. do 6 (split; [done|]). done. }
  destruct Hl as (-> & p & Hp & Hs1). apply IH in Hb as (new & -> & Hbind' & Hpre & Hlen & Hsock & Herr & Hports).
  rewrite Hs1 in Hpre, Hlen, Hsock. rewrite length_app in Hlen, Hsock. simpl in Hlen, Hsock.
  eexists (_ :: new). rewrite <-app_assoc. split; [done|].
  split; [congruence|]. split; [by eapply prefix_app_l|]. simpl. split; [lia|].
  split; [by rewrite Hsock, Nat.add_1_r|]. split; [intros He; by rewrite (Herr He)|].
  intros Hne [|j] l Hj; simpl in Hj.
  - injection Hj as <-. exists addr. split; [done|]. split; [done|]. exists p. simpl.
    eapply prefix_lookup_Some; [|done]. by apply list_lookup_middle.
  - destruct (Z.eqb_spec port 0) as [->|_]; [done|]. by apply Hports.
Qed.

Lemma build_listeners_head cfg addr addrs port w ls w' :
  build_listeners Quote cfg (addr :: addrs) port [] w = (None, ls, w') →
  ∃ l new p, ls = l :: new ∧ listens w' addr port l ∧ socket_port w' (ln_socket l) = p ∧
    ln_socket l = length (sockets w) ∧ sk_bind w (TCPAddr_String (ln_addr l)) = inl p ∧
    (let port' := if port =? 0 then p else port in
     port' ≠ 0 → ∀ j l, new !! j = Some l → ∃ addr, addrs !! j = Some addr ∧ listens w' addr port' l).
Proof.
  intros Hb. simpl in Hb. destruct (tls_Listen _ cfg w) as [[k|e] w1] eqn:Hl; [|done].
  apply tls_Listen_spec in Hl as [Hbind (-> & p & Hp & Hs1)].
  assert (socket_port w1 (length (sockets w)) = p) as Hsp by (unfold socket_port; by rewrite Hs1, list_lookup_middle).
  rewrite Hsp in Hb. apply build_listeners_spec in Hb as (new & -> & _ & Hpre & _ & _ & _ & Hports).
  rewrite Hs1 in Hpre. eexists _, new, p. split; [done|].
  assert (sockets w' !! length (sockets w) = Some (TCPAddr_String {| ta_IP := ParseIP addr; ta_Port := port |}, p, true)) as Hk.
  { eapply prefix_lookup_Some; [|done]. by apply list_lookup_middle. }
  split_and!; try done; simpl.
  - split; [done|]. exists p. done.
  - unfold socket_port. by rewrite Hk.
Qed.

(** Closing leaves no socket of the list open and opens none. *)
Lemma is_open_Close w k j : is_open (socket_Close w k) j = is_open w j && negb (j =? k)%nat.
Proof.
  unfold is_open, socket_Close. simpl. destruct (Nat.eqb_spec j k) as [->|Hne]; simpl.
  - rewrite list_lookup_alter_eq. destruct (sockets w !! k) as [[[??]?]|]; simpl; by rewrite ?andb_false_r.
  - rewrite list_lookup_alter_ne by done. by rewrite andb_true_r.
Qed.
Lemma is_open_close_all ls w j : is_open (close_all ls w) j = is_open w j && negb (bool_decide (j ∈ map ln_socket ls)).
Proof.
  unfold close_all. revert w. induction ls as [|l ls IH]; intros w; simpl; [by rewrite andb_true_r|].
  rewrite IH, is_open_Close, <-andb_assoc. f_equal. destruct (Nat.eqb_spec j (ln_socket l)) as [->|Hne]; simpl.
  - rewrite bool_decide_true by (by left). done.
  - f_equal. apply bool_decide_ext. rewrite elem_of_cons. naive_solver.
Qed.

(** C40. A transport that is made has one listener for each bind address, on
    pairwise different open sockets, asked for with the address's IP; the
    first is on the configured port, the others too, or on the port the
    first got when none was configured; and one accept loop per listener
    that has not slept yet.  When an address cannot be bound, every socket
    the attempt opened is closed again and no other is touched. *)
Theorem listeners_wf config w : (∀ a p, sk_bind w a = inl p → p ≠ 0) →
  match NewNetTransport Quote config w with
  | (Ok t, w') =>
      length (tcpListeners t) = length (BindAddrs config) ∧ BindAddrs config ≠ [] ∧
      NoDup (map ln_socket (tcpListeners t)) ∧
      t_loops t = map (λ _, new_loop) (tcpListeners t) ∧
      ∃ l0, head (tcpListeners t) = Some l0 ∧ ta_Port (ln_addr l0) = tc_BindPort config ∧
      ∀ j l, tcpListeners t !! j = Some l → ∃ addr port, BindAddrs config !! j = Some addr ∧
        listens w' addr port l ∧
        (j ≠ 0%nat → port = if tc_BindPort config =? 0 then socket_port w' (ln_socket l0) else tc_BindPort config)
  | (Err e, w') => ∀ k, is_open w' k = is_open w k
  | (Panic _, _) => False
  end.
Proof.
  intros Hbind. unfold NewNetTransport. case_bool_decide as Hlen; [done|].
  destruct (build_listeners Quote (TLSConfig config) (BindAddrs config) (tc_BindPort config) [] w) as [[[err|] ls] w'] eqn:Hb.
  - apply build_listeners_spec in Hb as (new & -> & _ & Hpre & Hlen' & Hsock & _). intros k.
    rewrite is_open_close_all. simpl. rewrite Hsock. destruct Hpre as [l Hl]. rewrite Hl, length_app in Hlen'.
    unfold is_open. rewrite Hl. destruct (decide (k < length (sockets w))%nat) as [Hlt|Hge].
    + rewrite lookup_app_l by done. rewrite bool_decide_false by (rewrite elem_of_seq; lia). by rewrite andb_true_r.
    + rewrite (lookup_ge_None_2 (sockets w)) by lia. destruct (decide (k < length (sockets w) + length new)%nat) as [Hlt|Hge'].
      * rewrite bool_decide_true by (rewrite elem_of_seq; lia). by rewrite andb_false_r.
      * rewrite lookup_ge_None_2 by (rewrite length_app; lia). done.
  - destruct (BindAddrs config) as [|addr addrs] eqn:Ha; [done|].
    pose proof (build_listeners_spec _ _ _ _ _ _ _ _ Hb) as (new' & Hnew & _ & _ & _ & Hsock & Hnl & _).
    simpl in Hnew. subst new'. specialize (Hnl eq_refl).
    apply build_listeners_head in Hb as (l0 & new & p & -> & Hl0 & Hp & _ & Hbp & Hports). simpl.
    split; [done|]. split; [done|]. split; [change (NoDup (map ln_socket (l0 :: new))); rewrite Hsock; apply NoDup_seq|].
    split. { simpl in Hnl. injection Hnl as <-. clear. f_equal. induction new; simpl; congruence. }
    exists l0. split; [done|]. split; [by destruct Hl0 as [-> _]|].
    pose proof (Hbind _ _ Hbp) as Hp0. intros [|j] l Hj; simpl in Hj.
    + injection Hj as <-. exists addr, (tc_BindPort config). split; [done|]. split; [done|]. done.
    + destruct (Hports ltac:(destruct (Z.eqb_spec (tc_BindPort config) 0); done) j l Hj) as (a & Haj & Hla).
      eexists a, _. split; [done|]. split; [exact Hla|]. intros _. by rewrite Hp.
Qed.

(** [GetAutoBindPort] is the port of the configuration: when that is 0 it is
    0 whatever port the kernel gave, and 0 is what [FinalAdvertiseAddr]
    advertises for a node without an explicit address. *)
Theorem auto_port_is_lost config w t w' GetPrivateIP port a p :
  NewNetTransport Quote config w = (Ok t, w') →
  GetAutoBindPort t = Ok (tc_BindPort config) ∧
  (FinalAdvertiseAddr Quote GetPrivateIP t [] port = Ok (a, p) → p = tc_BindPort config).
Proof.
  unfold NewNetTransport. case_bool_decide as Hlen; [done|].
  destruct (build_listeners Quote (TLSConfig config) (BindAddrs config) (tc_BindPort config) [] w) as [[[err|] ls] w1] eqn:Hb; [done|].
  intros [= <- <-]. destruct (BindAddrs config) as [|addr addrs] eqn:Ha; [done|].
  apply build_listeners_head in Hb as (l0 & new & q & -> & [Hl0 _] & _).
  match goal with |- GetAutoBindPort ?t = _ ∧ _ => assert (GetAutoBindPort t = Ok (tc_BindPort config)) as Hg end.
  { unfold GetAutoBindPort, first_listener. simpl. by rewrite Hl0. }
  split; [done|]. unfold FinalAdvertiseAddr. rewrite bool_decide_false by auto. intros Hf.
  apply res_bind_Ok in Hf as (? & _ & Hf). apply res_bind_Ok in Hf as (? & _ & Hf).
  rewrite Hg in Hf. by injection Hf.
Qed.
End listening_laws.

(** ** An example *)
Module ToyNet.
Import Toy ToyTls.

Definition good_cert : bytes :=
  match (NewNodeTlsConfig ($"node1") (Some toy_config) 1000 5%N).1 with Ok (SGXTlsConfig _ _ cert) => cert | _ => [] end.
Definition server_cfg : TlsConfig PrivateKey := ServerTlsConfig (SGXTlsConfig toy_config [x00] good_cert).
Definition config0 (port : Z) : NetTransportConfig PrivateKey :=
  {| BindAddrs := [$"127.0.0.1"; $"::1"]; tc_BindPort := port; TLSConfig := server_cfg; TLSClientConfig := server_cfg |}.
Definition quote (s : bytes) : bytes := s.
(** The host has ports from 40000 on. *)
Definition host : Net := {| sk_bind := λ _, inl 40000; sockets := [] |}.
Definition t0 : NetTransport PrivateKey :=
  {| t_config := config0 7946; packetCh := []; streamCh := []; tcpListeners := []; t_shutdown := false;
     t_conns := []; t_jobs := []; t_loops := [new_loop] |}.
Definition peer (hs : Handshake) (sends : bytes) (e : Ending) : Conn :=
  {| cn_tls := true; cn_RemoteAddr := $"10.0.0.2:5000"; cn_handshake := hs; cn_in := sends; cn_end := e;
     cn_handshakeErr := None; cn_closed := false |}.
Definition log (a : bytes) : bytes := $"from=" ++ a.

Lemma good_cert_ok : check_peer server_cfg 2000 [good_cert] = Ok tt.
Proof. vm_compute. reflexivity. Qed.

Lemma backoff_bounds_witness :
  lp_slept <$> t_loops (run log (replicate 10 (EvAcceptErr 0)) t0) !! 0%nat =
  Some (map (λ ms, ms * 1000000) [5; 10; 20; 40; 80; 160; 320; 640; 1000; 1000]).
Proof.
  destruct (backoff_bounds log t0 0 eq_refl eq_refl) as (_ & Hb & _).
  - repeat constructor.
  - rewrite (Hb 9%nat). vm_compute. reflexivity.
Defined.

Lemma silent_peer_blocks_witness :
  wg (run log [EvAcceptErr 0; EvShutdown; EvAcceptErr 0]
        (step log (EvAccept 0 2000 (peer HsSilent [] EndSilent)) t0)) ≠ 0%nat.
Proof.
  apply (silent_peer_blocks log 0 2000 (peer HsSilent [] EndSilent) t0 new_loop
           [EvAcceptErr 0; EvShutdown; EvAcceptErr 0] eq_refl eq_refl eq_refl (or_introl eq_refl)).
Defined.

(** A stream of an attested peer, one of a peer without certificate, and a
    packet. *)
Definition traffic : list event :=
  [EvAccept 0 2000 (peer (HsDone [good_cert]) [x00] EndSilent); EvAccept 0 2000 (peer (HsDone []) [x00] EndSilent);
   EvAccept 0 2000 (peer (HsDone [good_cert]) [x01; x2a] EndEOF); EvPacket 0 2001].
Lemma traffic_routed : streamCh (run log traffic t0) = [0%nat] ∧
  packetCh (run log traffic t0) = [{| pk_Buf := [x2a]; pk_From := $"10.0.0.2:5000"; pk_Timestamp := 2001 |}].
Proof. split; vm_compute; reflexivity. Qed.

Lemma only_attested_peers_are_routed_witness :
  ∃ c certs now, t_conns (run log traffic t0) !! 0%nat = Some c ∧ cn_handshake c = HsDone certs ∧
    certVerifier toy_config now certs = Ok tt.
Proof.
  apply (@only_attested_peers_are_routed N toy_enclave toy_x509 log toy_config [x00] good_cert traffic t0
           eq_refl eq_refl eq_refl eq_refl).
  rewrite (proj1 traffic_routed). by left.
Defined.

Definition dialer : Dialer := {| dl_dial := λ _ _, inr None; dl_conns := []; dl_now := 77 |}.
Lemma messages_are_routed_witness : ∃ o w', WriteTo ($"ping") ($"b:7946") dialer = (Ok (Some 77, None), w') ∧
  packetCh (step log (EvPacket 0 2001) (step log (EvAccept 0 2000 (delivered o [good_cert] ($"a"))) t0)) =
  [{| pk_Buf := $"ping"; pk_From := $"a"; pk_Timestamp := 2001 |}].
Proof.
  destruct (messages_are_routed log 0 2000 2001 t0 new_loop [good_cert] ($"a") ($"ping") ($"b:7946") second dialer
    eq_refl eq_refl good_cert_ok (λ _, eq_refl)) as [(o & w' & Hw & _ & Hp & _) _].
  exists o, w'. split; [exact Hw|exact Hp].
Defined.

Lemma listeners_wf_witness :
  match NewNetTransport quote (config0 0) host with
  | (Ok t, w') => length (tcpListeners t) = 2%nat
  | _ => False
  end.
Proof.
  pose proof (listeners_wf quote (config0 0) host) as Hw.
  assert (∀ a p, sk_bind host a = inl p → p ≠ 0) as Hb by (intros a p [= <-]; discriminate).
  specialize (Hw Hb).
  destruct (NewNetTransport quote (config0 0) host) as [[t|e|p] w'] eqn:Hn; [|discriminate Hn|exact Hw].
  exact (proj1 Hw).
Defined.

(** The kernel gave port 40000, the transport says 0. *)
Lemma auto_port_is_lost_witness : ∃ t w', NewNetTransport quote (config0 0) host = (Ok t, w') ∧
  GetAutoBindPort t = Ok 0 ∧ (λ l, socket_port w' (ln_socket l)) <$> tcpListeners t = [40000; 40000].
Proof.
  destruct (NewNetTransport quote (config0 0) host) as [[t|e|p] w'] eqn:Hn; [|discriminate Hn..].
  exists t, w'. split; [reflexivity|]. split.
  - apply (auto_port_is_lost quote (config0 0) host t w' (inr EOF) 0 None 0 Hn).
  - injection Hn as <- <-. reflexivity.
Defined.

(** The second listener asked for the port the first one got. *)
Example asked : (λ s, s.1.1) <$> sockets (NewNetTransport quote (config0 0) host).2 = [$"127.0.0.1:0"; $"[::1]:40000"].
Proof. vm_compute. reflexivity. Qed.
(** A bind address that is no IP address makes the node listen on all interfaces. *)
Example bad_bind_address :
  (λ s, s.1.1) <$> sockets (NewNetTransport quote {| BindAddrs := [$"localhost"]; tc_BindPort := 80;
    TLSConfig := server_cfg; TLSClientConfig := server_cfg |} host).2 = [$":80"].
Proof. vm_compute. reflexivity. Qed.
End ToyNet.

(** The advertised address of a node that is given an IPv4 address. *)
Lemma FinalAdvertiseAddr_dotted {K} Quote gp (t : NetTransport K) a b c d port :
  FinalAdvertiseAddr Quote gp t (dotted [a; b; c; d]) port = Ok (Some [a; b; c; d], port).
Proof.
  unfold FinalAdvertiseAddr. rewrite bool_decide_true, ParseIP_dotted; [done|].
  unfold dotted. cbn [map Join]. intros Hn. apply app_eq_nil in Hn as [Hn _]. by apply digits_aux_nonnil in Hn.
Qed.
