(* ===== verification/Bootstrap.v ===== *)
(** * internal/cluster/bootstrap.go: from a node to its key server

    [Bootstrap.Start] makes a node, waits until it has reported READY, reads
    its master key, starts the key server with it and waits for signals.
    [System] is a cluster in which every node is run by a bootstrap;
    [sys_step] interleaves the nodes' actions of Cluster.v with the
    bootstraps'.

    Go's default for a signal that nobody asked for is to end the process.
    [server.Start] asks for SIGINT only, and the bootstrap asks for SIGINT and
    SIGTERM after [server.Start] has returned. *)

From S2P Require Import Prelude GoBytes GoText Json Common KeyStore Api Crypto Valkey KeyService Server CommonSet MasterKey Seed Heartbeat Node Cluster.
From Stdlib Require Import ZArith Lia.

Local Open Scope Z_scope.

(** Where [Start] is: waiting for the node, inside [server.Start], waiting for
    the second signal, or done; or the process has ended. *)
Inductive Phase := PhWait | PhServe | PhSignal | PhDone | PhKilled.
#[export] Instance Phase_eq_dec : EqDecision Phase.
Proof. solve_decision. Defined.

Inductive Signal := SIGINT | SIGTERM.

Record Bootstrap (W : Type) := {
  bs_Cluster : ClusterConfig;
  bs_listener : NodeStateListener;
  bs_phase : Phase;
  bs_server : option (KeyServer W);   (* made by NewKeyServer *)
  bs_stopped : bool;                  (* the HTTP server has been shut down *)
  bs_node : bool                      (* the node runs: no Shutdown yet *)
}.
Arguments bs_Cluster {W}.
Arguments bs_listener {W}.
Arguments bs_phase {W}.
Arguments bs_server {W}.
Arguments bs_stopped {W}.
Arguments bs_node {W}.

Section bootstrap.
Context {W E : Type} `{Ecrypto E} `{Entropy E}.
Implicit Types (b : Bootstrap W) (w : World E).

(** [Start] up to [countdown.Wait()]. *)
Definition Start_node (c : ClusterConfig) : Bootstrap W :=
  {| bs_Cluster := c; bs_listener := NewNodeStateListener; bs_phase := PhWait; bs_server := None;
     bs_stopped := false; bs_node := true |}.

Definition set_listener b l : Bootstrap W :=
  {| bs_Cluster := bs_Cluster b; bs_listener := l; bs_phase := bs_phase b; bs_server := bs_server b;
     bs_stopped := bs_stopped b; bs_node := bs_node b |}.
Definition set_phase b p : Bootstrap W :=
  {| bs_Cluster := bs_Cluster b; bs_listener := bs_listener b; bs_phase := p; bs_server := bs_server b;
     bs_stopped := bs_stopped b; bs_node := bs_node b |}.

(** After the wait: the arguments of [NewKeyServer] are the node's key
    database, its status, which is not used, and the master key that is read
    now; then [server.Start]. *)
Definition start_server (kv : KeyStore W) b : M (World E) (Bootstrap W) :=
  nodeMeta ← NodeStatus;
  vault ← prov;
  mret {| bs_Cluster := bs_Cluster b; bs_listener := bs_listener b; bs_phase := PhServe;
          bs_server := Some (NewKeyServer (bs_Cluster b) kv vault);
          bs_stopped := bs_stopped b; bs_node := bs_node b |}.

(** [server.Stop] and the return of [server.Start]. *)
Definition stop_server b : Bootstrap W :=
  {| bs_Cluster := bs_Cluster b; bs_listener := bs_listener b; bs_phase := PhSignal; bs_server := bs_server b;
     bs_stopped := true; bs_node := bs_node b |}.
(** [node.Shutdown], the end of [Start]; [main] goes on to block in [select]. *)
Definition shutdown_node b : Bootstrap W :=
  {| bs_Cluster := bs_Cluster b; bs_listener := bs_listener b; bs_phase := PhDone; bs_server := bs_server b;
     bs_stopped := bs_stopped b; bs_node := false |}.
(** The default action of a signal. *)
Definition kill b : Bootstrap W :=
  {| bs_Cluster := bs_Cluster b; bs_listener := bs_listener b; bs_phase := PhKilled; bs_server := bs_server b;
     bs_stopped := bs_stopped b; bs_node := false |}.

Definition on_signal (s : Signal) b : Bootstrap W :=
  match bs_phase b, s with
  | PhWait, _ => kill b
  | PhServe, SIGINT => stop_server b
  | PhServe, SIGTERM => kill b
  | PhSignal, _ => shutdown_node b
  | PhDone, _ => b
  | PhKilled, _ => b
  end.

(** ** A cluster with its bootstraps *)

Record System := { sys_nodes : Cluster E; sys_boot : gmap bytes (Bootstrap W) }.

(** [kv i] is the key database of node [i]. *)
Inductive sys_step (cl : bytes) (kv : bytes → KeyStore W) (s : System) : System → Prop :=
  | sys_act i w a w' b :
      sys_nodes s !! i = Some w → sys_boot s !! i = Some b → bs_node b = true →
      allowed cl (sys_nodes s) i a → a ≠ AStateChange → act a w = Some (Ok tt, w') →
      sys_step cl kv s {| sys_nodes := <[i:=w']> (sys_nodes s); sys_boot := sys_boot s |}
  | sys_notify i w z rest w' b l :
      sys_nodes s !! i = Some w → sys_boot s !! i = Some b → bs_node b = true →
      n_stateChangeMessages (node w) = z :: rest → act AStateChange w = Some (Ok tt, w') →
      OnStateChanged (bs_listener b) z = Ok l →
      sys_step cl kv s {| sys_nodes := <[i:=w']> (sys_nodes s);
                          sys_boot := <[i:=set_listener b l]> (sys_boot s) |}
  | sys_serve i w w' b b' :
      sys_nodes s !! i = Some w → sys_boot s !! i = Some b → bs_phase b = PhWait →
      countdown (bs_listener b) = 0 → start_server (kv i) b w = (Ok b', w') →
      sys_step cl kv s {| sys_nodes := <[i:=w']> (sys_nodes s); sys_boot := <[i:=b']> (sys_boot s) |}
  | sys_signal i b sg :
      sys_boot s !! i = Some b →
      sys_step cl kv s {| sys_nodes := sys_nodes s; sys_boot := <[i:=on_signal sg b]> (sys_boot s) |}.

(** A script: a node's actions, and the bootstrap's steps. *)
Inductive sys_cmd := SCmd (c : cmd) | SNotify (i : bytes) | SServe (i : bytes).

Definition is_state_change (a : action) : bool := match a with AStateChange => true | _ => false end.
Definition sys_exec_cmd (kv : bytes → KeyStore W) (s : System) (c : sys_cmd) : option System :=
  match c with
  | SCmd c =>
      '(i, a) ← cmd_action (sys_nodes s) c;
      w ← sys_nodes s !! i;
      b ← sys_boot s !! i;
      if is_state_change a then None
      else match bs_node b, act a w with
           | true, Some (Ok _, w') => Some {| sys_nodes := <[i:=w']> (sys_nodes s); sys_boot := sys_boot s |}
           | _, _ => None
           end
  | SNotify i =>
      w ← sys_nodes s !! i;
      b ← sys_boot s !! i;
      match n_stateChangeMessages (node w), bs_node b, act AStateChange w with
      | z :: _, true, Some (Ok _, w') =>
          match OnStateChanged (bs_listener b) z with
          | Ok l => Some {| sys_nodes := <[i:=w']> (sys_nodes s); sys_boot := <[i:=set_listener b l]> (sys_boot s) |}
          | _ => None
          end
      | _, _, _ => None
      end
  | SServe i =>
      w ← sys_nodes s !! i;
      b ← sys_boot s !! i;
      match bs_phase b, countdown (bs_listener b), start_server (kv i) b w with
      | PhWait, 0, (Ok b', w') => Some {| sys_nodes := <[i:=w']> (sys_nodes s); sys_boot := <[i:=b']> (sys_boot s) |}
      | _, _, _ => None
      end
  end.
Definition sys_exec (kv : bytes → KeyStore W) (s : System) (l : list sys_cmd) : option System :=
  foldl (λ acc c, s ← acc; sys_exec_cmd kv s c) (Some s) l.

Lemma sys_exec_cmd_step cl kv s c s' : sys_exec_cmd kv s c = Some s' → sys_step cl kv s s'.
Proof.
  destruct c as [c|i|i]; cbn [sys_exec_cmd]; intros Hc.
  - apply bind_Some in Hc as ([i a] & Ha & Hc). apply bind_Some in Hc as (w & Hw & Hc).
    apply bind_Some in Hc as (b & Hb & Hc). destruct (is_state_change a) eqn:Hsc; [done|].
    destruct (bs_node b) eqn:Hn; [|done]. destruct (act a w) as [[[[]|?|?] w']|] eqn:Hact; [|done..].
    injection Hc as <-. pose proof (cmd_action_allowed cl _ _ _ _ Ha) as Hal.
    eapply sys_act; [done..| |done]. by intros ->.
  - apply bind_Some in Hc as (w & Hw & Hc). apply bind_Some in Hc as (b & Hb & Hc).
    destruct (n_stateChangeMessages (node w)) as [|z rest] eqn:Hz; [done|]. destruct (bs_node b) eqn:Hn; [|done].
    destruct (act AStateChange w) as [[[[]|?|?] w']|] eqn:Hact; [|done..].
    destruct (OnStateChanged _ z) as [l|?|?] eqn:Hl; [|done..]. injection Hc as <-. by eapply sys_notify.
  - apply bind_Some in Hc as (w & Hw & Hc). apply bind_Some in Hc as (b & Hb & Hc).
    destruct (bs_phase b) eqn:Hp; [|done..]. destruct (countdown (bs_listener b)) eqn:Hcd; [|done..].
    destruct (start_server (kv i) b w) as [[b'|?|?] w'] eqn:Hs; [|done..]. injection Hc as <-. by eapply sys_serve.
Qed.

Lemma sys_exec_reachable cl kv s l s' : sys_exec kv s l = Some s' → rtc (sys_step cl kv) s s'.
Proof.
  revert s'. induction l as [|c l IH] using rev_ind; intros s' Hl; [by injection Hl as <-|].
  unfold sys_exec in *. rewrite foldl_app in Hl. simpl in Hl.
  apply bind_Some in Hl as (s1 & Hl1 & Hl2). apply rtc_r with s1; [by apply IH|].
  by eapply sys_exec_cmd_step.
Qed.
End bootstrap.
Arguments System : clear implicits.

(** ** What an action does to a node's state and its key *)

Section effects.
Context {E : Type} `{Ecrypto E} `{Entropy E}.
Implicit Types (w : World E).

(** A key that is there stays. *)
Definition key_stays w w' : Prop := ¬ no_key w → ¬ no_key w'.
Lemma key_stays_refl w : key_stays w w.
Proof. intros Hk. exact Hk. Qed.
Lemma key_stays_trans w1 w2 w3 : key_stays w1 w2 → key_stays w2 w3 → key_stays w1 w3.
Proof. intros H12 H23 Hk. by apply H23, H12. Qed.
#[local] Hint Resolve key_stays_refl : core.
(** Nothing is reported. *)
Definition keeps {A} (m : M (World E) A) : Prop := ∀ w, key_stays w (m w).2 ∧
  n_stateChangeMessages (node (m w).2) = n_stateChangeMessages (node w) ∧ n_state (node (m w).2) = n_state (node w).
(** At most one state is reported, the one the node is in afterwards. *)
Definition settles {A} (m : M (World E) A) : Prop := ∀ w, key_stays w (m w).2 ∧
  ((n_stateChangeMessages (node (m w).2) = n_stateChangeMessages (node w) ∧ n_state (node (m w).2) = n_state (node w)) ∨
   n_stateChangeMessages (node (m w).2) = n_stateChangeMessages (node w) ++ [n_state (node (m w).2)]).

Lemma keeps_settles {A} (m : M (World E) A) : keeps m → settles m.
Proof. intros Hm w. destruct (Hm w) as (? & ? & ?). split; [done|by left]. Qed.

(** The worlds are related without running anything. *)
Lemma keeps_intro {A} (m : M (World E) A) :
  (∀ w, store_of (m w).2 = store_of w ∧ disk (m w).2 = disk w ∧
        n_stateChangeMessages (node (m w).2) = n_stateChangeMessages (node w) ∧
        n_state (node (m w).2) = n_state (node w)) → keeps m.
Proof.
  intros Hm w. destruct (Hm w) as (Hs & Hd & Hc & Hz). split; [|split; done].
  unfold key_stays, no_key. by rewrite Hs, Hd.
Qed.

Lemma keeps_ret {A} (a : A) : keeps (mret a).
Proof. by apply keeps_intro. Qed.
Lemma keeps_lift {A} (r : res A) : keeps (lift r).
Proof. by apply keeps_intro. Qed.
Lemma keeps_get {A} (f : Node → A) : keeps (get f).
Proof. by apply keeps_intro. Qed.
Lemma keeps_modify f : (∀ n, n_masterKs (f n) = n_masterKs n ∧ n_stateChangeMessages (f n) = n_stateChangeMessages n ∧
  n_state (f n) = n_state n) → keeps (modify f).
Proof. intros Hf. apply keeps_intro. intros w. destruct (Hf (node w)) as (? & ? & ?). by split_and!. Qed.
Lemma keeps_spawn t : keeps (spawn t).
Proof. by apply keeps_intro. Qed.
Lemma keeps_emit ms : keeps (emit ms).
Proof. by apply keeps_intro. Qed.
Lemma keeps_goto p : keeps (goto p).
Proof. by apply keeps_intro. Qed.
Lemma keeps_panic {A} msg : keeps (panic (A := A) msg).
Proof. by apply keeps_intro. Qed.
Lemma keeps_with_rng {A} (m : M E A) : keeps (with_rng m).
Proof. apply keeps_intro. intros w. unfold with_rng. by destruct (m (rng w)). Qed.
Lemma keeps_replace_task k rest : keeps (replace_task k rest).
Proof. by apply keeps_intro. Qed.

Lemma keeps_readKey : keeps readKey.
Proof.
  intros w. unfold readKey. destruct (mks_Read _ _) as [[m ks]|e|p] eqn:Hr; simpl; [|by split; [|split]..].
  split; [|split; done]. intros Hk Hn. apply Hk. unfold no_key, store_of in *. simpl in *.
  assert (File ks = File (n_masterKs (node w)) ∧
    (cachedMasterkey ks = None → cachedMasterkey (n_masterKs (node w)) = None)) as [HF Hc].
  { revert Hr. unfold mks_Read. destruct (cachedMasterkey (n_masterKs (node w))) eqn:Hcache.
    - intros [= <- <-]. by rewrite Hcache.
    - assert (∀ q, mks_load (n_masterKs (node w)) q = Ok (m, ks) → File ks = File (n_masterKs (node w))) as Hl.
      { intros q Hq. unfold mks_load in Hq. do 2 apply res_bind_Ok in Hq as (? & _ & Hq). by injection Hq as _ <-. }
      intros Hq. split; [|done]. destruct (ReadFile _ _) as [c|e|p]; [by apply Hl in Hq| |by apply Hl in Hq].
      destruct (errors_Is _ _); [by injection Hq as _ <-|]. destruct (hasSGX _); by apply Hl in Hq. }
  rewrite HF in Hn. naive_solver.
Qed.

Lemma keeps_writeKey secret : keeps (writeKey secret).
Proof.
  intros w. unfold writeKey. destruct (mks_Write _ _ _ _) as [[fs|e|p] r] eqn:Hr; simpl;
    [|split; [exact (key_stays_refl w)|done]..].
  split; [|split; done]. intros _ (_ & _ & Hn). unfold mks_Write in Hr.
  destruct (if hasSGX _ then _ else _) as [sealed r'] in Hr. injection Hr as Hw _.
  destruct sealed as [s|e|p]; simpl in Hw; [|done..]. unfold WriteFile in Hw.
  destruct (fs_fault (disk w) !! _); [done|]. injection Hw as <-. unfold store_of in Hn. simpl in Hn.
  by rewrite lookup_insert_eq in Hn.
Qed.

Lemma keeps_bind {A B} (m : M (World E) A) (f : A → M (World E) B) : keeps m → (∀ a, keeps (f a)) → keeps (m ≫= f).
Proof.
  intros Hm Hf w. unfold mbind, M_bind. destruct (Hm w) as (Hk & Hc & Hz).
  destruct (m w) as [[a|e|p] w1]; simpl in *; [|done..]. destruct (Hf a w1) as (Hk' & Hc' & Hz').
  split; [by eapply key_stays_trans|]. split; congruence.
Qed.
Lemma settles_bind {A B} (m : M (World E) A) (f : A → M (World E) B) : keeps m → (∀ a, settles (f a)) → settles (m ≫= f).
Proof.
  intros Hm Hf w. unfold mbind, M_bind. destruct (Hm w) as (Hk & Hc & Hz).
  destruct (m w) as [[a|e|p] w1]; simpl in *; [|by split; [|left]..]. destruct (Hf a w1) as (Hk' & Hs).
  split; [by eapply key_stays_trans|]. rewrite Hc, Hz in Hs. done.
Qed.
Lemma settles_then {A B} (m : M (World E) A) (f : A → M (World E) B) : settles m → (∀ a, keeps (f a)) → settles (m ≫= f).
Proof.
  intros Hm Hf w. unfold mbind, M_bind. destruct (Hm w) as (Hk & Hs).
  destruct (m w) as [[a|e|p] w1]; simpl in *; [|done..]. destruct (Hf a w1) as (Hk' & Hc' & Hz').
  split; [by eapply key_stays_trans|]. by rewrite Hc', Hz'.
Qed.
Lemma settles_setStatus z : settles (setStatus z).
Proof. intros w. split; [exact (key_stays_refl w)|by right]. Qed.
End effects.

#[export] Hint Resolve keeps_ret keeps_lift keeps_get keeps_spawn keeps_emit keeps_goto keeps_panic
  keeps_with_rng keeps_replace_task keeps_readKey keeps_writeKey settles_setStatus : betterkey.

(** Take a computation apart into its building blocks. *)
Ltac solve_keeps := repeat first
  [ solve [auto with betterkey nocore]
  | apply keeps_modify; solve [intros []; split_and!; reflexivity]
  | apply keeps_bind; [|intros]
  | case_match ].
Ltac solve_settles := repeat first
  [ solve [auto with betterkey nocore]
  | solve [apply keeps_settles; solve_keeps]
  | apply settles_bind; [solve [solve_keeps]|intros]
  | apply settles_then; [|intros; solve [solve_keeps]]
  | case_match ].

Section actions.
Context {E : Type} `{Ecrypto E} `{Entropy E}.
Implicit Types (w : World E).

Lemma keeps_NodeStatus : keeps (NodeStatus (E := E)).
Proof. unfold NodeStatus, prov. solve_keeps. Qed.
Hint Resolve keeps_NodeStatus : betterkey.

Lemma settles_loop_body msg now : settles (loop_body (E := E) msg now).
Proof.
  unfold loop_body, handleSeedKey, handleQueryKey, handleKeyChallengeRequest, handleKeyChallengeResponse,
    handleKeyResponse. solve_settles.
Qed.
Lemma settles_start_step joined err members p : settles (start_step (E := E) joined err members p).
Proof.
  unfold start_step, Start_begin, Start_joinSeed, validate_join, validate_wait, onNoKey_join, onNoKey_loop,
    queryKey, Node_seed. solve_settles.
Qed.
Lemma keeps_task_step send members t : keeps (task_step (E := E) send members t).
Proof.
  unfold task_step, forward_goroutine, query_goroutine, keyReply_goroutine, challenge_goroutine,
    challengeReply_goroutine. solve_keeps.
Qed.
Hint Resolve settles_loop_body settles_start_step keeps_task_step : betterkey.

(** Whatever a node does, its key stays and the states it reports end with
    the one it is in. *)
Lemma act_effect a w r w' : a ≠ AStateChange → act a w = Some (r, w') → key_stays w w' ∧
  ∀ z, z ∈ n_stateChangeMessages (node w') → z ∈ n_stateChangeMessages (node w) ∨ z = n_state (node w').
Proof.
  intros Hne Ha. assert (∀ m : M (World E) unit, settles m → Some (m w) = Some (r, w') → key_stays w w' ∧
    ∀ z, z ∈ n_stateChangeMessages (node w') → z ∈ n_stateChangeMessages (node w) ∨ z = n_state (node w')) as Hm.
  { intros m Hs [= Hr]. destruct (Hs w) as [Hk Hc]. rewrite Hr in Hk, Hc. simpl in *. split; [done|].
    intros z Hz. destruct Hc as [[Hc _]|Hc]; rewrite Hc in Hz; [by left|].
    apply elem_of_app in Hz as [?|Hz]; [by left|right]. by apply list_elem_of_singleton in Hz. }
  destruct a as [joined err members|k send members|now|b|b now| | |now]; simpl in Ha; [..|done|].
  - eapply Hm, Ha. solve_settles.
  - apply bind_Some in Ha as (t & _ & Ha). eapply Hm, Ha. solve_settles.
  - destruct (n_inMessages (node w)); [done|]. eapply Hm, Ha. solve_settles.
  - case_decide; [|done]. eapply Hm, Ha. unfold NotifyMsg. solve_settles.
  - eapply Hm, Ha. unfold MergeRemoteState. solve_settles.
  - eapply Hm, Ha. unfold LocalState. solve_settles.
  - eapply Hm, Ha. solve_settles.
Qed.

Lemma act_StateChange w z rest r w' : n_stateChangeMessages (node w) = z :: rest →
  act AStateChange w = Some (r, w') → key_stays w w' ∧ n_stateChangeMessages (node w') = rest.
Proof. intros Hc. simpl. rewrite Hc. intros [= _ <-]. split; [exact (key_stays_refl w)|done]. Qed.
End actions.

(** ** The invariant of the system *)

Section system.
Context {W E : Type} `{EC : Ecrypto E} `{EL : !EcryptoLaws E} `{EN : !Entropy E}.
Context (cl : bytes) (SS : Set_) (K0 : bytes) (KH : gset bytes) (kv : bytes → KeyStore W).
Context (cl_valid : valid_utf8 cl) (SS_ok : set_ok SS) (K0_length : length K0 = 32%nat).
Context (KH_seed : KH = ∅ ∨ ∃ s, s ∈ (SS : gset bytes) ∧ s ∈ KH).
Implicit Types (w : World E) (b : Bootstrap W) (s : System W E) (gk : option bytes).

Notation node_inv := (node_inv cl SS K0 KH).
Notation final := (final SS K0 KH).

Lemma has_key_some i w k : has_key cl i w k → ¬ no_key w.
Proof. intros Hk Hn. apply readKey_none in Hn. destruct (readKey_some cl i w k Hk) as (m & ks & Hr & _). congruence. Qed.

(** A node that holds a key holds the cluster's. *)
Lemma node_key gk i w : node_inv gk i w → ¬ no_key w → ∃ k, has_key cl i w k ∧ final gk = Some k.
Proof.
  intros Hinv Hn. pose proof (ni_store _ _ _ _ _ _ _ Hinv) as Hs. unfold store_ok in Hs.
  repeat case_decide; [by destruct Hs|done|done|]. destruct Hs as [Hi Hk]. exists K0. split; [done|by eapply final_K0].
Qed.

(** Reading the key does not disturb the node. *)
Lemma read_inv gk i w : node_inv gk i w → ¬ no_key w →
  ∃ m k w', readKey w = (Ok (Some m), w') ∧ member_with_key m k ∧ final gk = Some k ∧ node_inv gk i w' ∧
    ¬ no_key w' ∧ pc w' = pc w.
Proof.
  intros Hinv Hn. destruct (node_key gk i w Hinv Hn) as (k & Hk & Hf).
  assert (∀ ks, has_key cl i (touched w ks (rng w)) k →
    store_ok cl SS K0 KH gk i (n_state (node w)) (touched w ks (rng w))) as Hst.
  { intros ks Hk'. pose proof (ni_store _ _ _ _ _ _ _ Hinv) as Hs. unfold store_ok in *.
    repeat case_decide; [by destruct Hs|by exists k|done|]. destruct Hs as [Hi _]. split; [done|].
    rewrite (final_K0 SS K0 KH gk i Hi) in Hf. by injection Hf as ->. }
  destruct (readKey_touched cl SS K0 KH gk i w k Hinv Hk Hst) as (m & ks & Hr & _ & Hm & Hk' & Hinv').
  exists m, k, (touched w ks (rng w)). split_and!; try done. by eapply has_key_some.
Qed.

Lemma status_inv gk i w : node_inv gk i w → ¬ no_key w →
  ∃ nm w', NodeStatus w = (Ok nm, w') ∧ node_inv gk i w' ∧ ¬ no_key w' ∧ pc w' = pc w.
Proof.
  intros Hinv Hn. destruct (NodeStatus_ok cl SS K0 KH gk i w Hinv) as (nm & ks & e & Hr & _ & _ & Hinv').
  exists nm, (touched w ks e). pose proof (keeps_NodeStatus w) as (Hk & _). rewrite Hr in Hk. split_and!; try done. by apply Hk.
Qed.

Definition boot_inv gk i w b : Prop :=
  (NODE_STATE_READY ∈ n_stateChangeMessages (node w) → ¬ no_key w) ∧
  (countdown (bs_listener b) = 0 → ¬ no_key w) ∧
  ∀ sv, bs_server b = Some sv → ∃ m k, sv = NewKeyServer (bs_Cluster b) (kv i) (VaultMember (Some m)) ∧
    member_with_key m k ∧ final gk = Some k.
Definition sys_inv gk s : Prop :=
  cluster_inv cl SS K0 KH gk (sys_nodes s) ∧
  ∀ i w b, sys_nodes s !! i = Some w → sys_boot s !! i = Some b → boot_inv gk i w b.

Lemma boot_inv_mono gk gk' i w b : gk' = gk ∨ gk = None → boot_inv gk i w b → boot_inv gk' i w b.
Proof.
  intros Hg (H1 & H2 & H3). split; [done|]. split; [done|]. intros sv Hsv.
  destruct (H3 sv Hsv) as (m & k & ? & ? & ?). exists m, k. split_and!; [done..|by eapply final_mono].
Qed.

(** Updating one node and its bootstrap. *)
Lemma sys_inv_update gk gk' s i w' bs : sys_inv gk s → gk' = gk ∨ gk = None →
  cluster_inv cl SS K0 KH gk' (<[i:=w']> (sys_nodes s)) →
  (∀ j, j ≠ i → bs !! j = sys_boot s !! j) → (∀ b, bs !! i = Some b → boot_inv gk' i w' b) →
  sys_inv gk' {| sys_nodes := <[i:=w']> (sys_nodes s); sys_boot := bs |}.
Proof.
  intros [Hc Hb] Hg Hc' Hne Hi. split; [done|]. simpl. intros j w b.
  intros [[<- <-]|[Hj Hw]]%lookup_insert_Some Hbj; [by apply Hi|].
  rewrite Hne in Hbj by done. eapply boot_inv_mono; [done|by apply Hb].
Qed.

Lemma OnStateChanged_zero l z l' : OnStateChanged l z = Ok l' → countdown l' = 0 →
  countdown l = 0 ∨ z = NODE_STATE_READY.
Proof.
  unfold OnStateChanged. destruct (negb (done_ l) && (z =? NODE_STATE_READY)) eqn:Hz; [|intros [= <-]; by left].
  intros _ _. right. apply andb_true_iff in Hz as [_ Hz]. by apply Z.eqb_eq.
Qed.

Lemma sys_step_inv gk s s' : sys_inv gk s → sys_step cl kv s s' → ∃ gk', sys_inv gk' s'.
Proof.
  intros Hinv Hstep. pose proof Hinv as [Hc Hb].
  destruct Hstep as [i w a w' b Hi Hbi _ Hal Hne Hact|i w z rest w' b l Hi Hbi _ Hch Hact Hl
                    |i w w' b b' Hi Hbi _ Hcd Hsrv|i b sg Hbi].
  - destruct (act_inv cl SS K0 KH cl_valid SS_ok K0_length KH_seed gk _ i w a w' Hc Hi Hal Hact) as (gk' & Hc' & Hg).
    exists gk'. apply (sys_inv_update gk); [done..|]. intros b0 Hb0. simplify_eq.
    apply (boot_inv_mono gk); [done|]. destruct (Hb i w b Hi Hbi) as (Hr & Hcd & Hsv).
    destruct (act_effect a w _ w' Hne Hact) as [Hk Hz]. split; [|split; [|done]].
    + intros Hin. destruct (Hz _ Hin) as [?|Hready]; [by apply Hk, Hr|].
      pose proof (proj2 Hc' i w' (lookup_insert_eq _ _ _)) as Hw'.
      pose proof (ni_store _ _ _ _ _ _ _ Hw') as Hst. rewrite <- Hready in Hst.
      apply store_ready in Hst as (k & Hhk & _). by eapply has_key_some.
    + intros H0. by apply Hk, Hcd.
  - destruct (act_inv cl SS K0 KH cl_valid SS_ok K0_length KH_seed gk _ i w AStateChange w' Hc Hi
      (allowed_state_change _ _ _) Hact) as (gk' & Hc' & Hg).
    exists gk'. apply (sys_inv_update gk); [done..|by intros j Hj; rewrite lookup_insert_ne|].
    intros b0 Hb0. rewrite lookup_insert_eq in Hb0. injection Hb0 as <-. apply (boot_inv_mono gk); [done|].
    destruct (Hb i w b Hi Hbi) as (Hr & Hcd & Hsv). destruct (act_StateChange w z rest _ w' Hch Hact) as [Hk Hrest].
    split; [|split; [|done]]; simpl.
    + rewrite Hrest. intros Hin. apply Hk, Hr. rewrite Hch. by right.
    + intros H0. apply Hk. destruct (OnStateChanged_zero _ _ _ Hl H0) as [?| ->]; [by apply Hcd|].
      apply Hr. rewrite Hch. by left.
  - destruct (Hb i w b Hi Hbi) as (Hr & Hcd' & Hsv). specialize (Hcd' Hcd).
    destruct (status_inv gk i w (proj2 Hc i w Hi) Hcd') as (nm & w0 & Hns & Hw0 & Hk0 & Hpc0).
    destruct (read_inv gk i w0 Hw0 Hk0) as (m & k & w1 & Hrd & Hm & Hf & Hw1 & Hk1 & Hpc).
    unfold start_server, prov, mbind, M_bind in Hsrv. rewrite Hns, Hrd in Hsrv. injection Hsrv as <- <-.
    exists gk. apply (sys_inv_update gk); [done|by left| |by intros j Hj; rewrite lookup_insert_ne|].
    + destruct Hc as [Hg Hn]. split.
      * destruct gk as [k0|]; [|done]. destruct Hg as [Hlk Hm0]. split; [done|].
        intros j wj [[<- <-]|[Hj Hwj]]%lookup_insert_Some Hmj; [rewrite Hpc, Hpc0; by apply (Hm0 i)|by apply (Hm0 j)].
      * intros j wj [[<- <-]|[Hj Hwj]]%lookup_insert_Some; [done|by apply Hn].
    + intros b0 Hb0. rewrite lookup_insert_eq in Hb0. injection Hb0 as <-. split; [done|]. split; [done|].
      intros sv [= <-]. by exists m, k.
  - exists gk. split; [done|]. simpl. intros j w b0 Hj. intros [[<- <-]|[Hne Hbj]]%lookup_insert_Some; [|by apply Hb].
    destruct (Hb i w b Hj Hbi) as (Hr & Hcd & Hsv).
    assert (bs_listener (on_signal sg b) = bs_listener b ∧ bs_server (on_signal sg b) = bs_server b ∧
            bs_Cluster (on_signal sg b) = bs_Cluster b) as (E1 & E2 & E3).
    { unfold on_signal. by destruct (bs_phase b), sg. }
    unfold boot_inv. by rewrite E1, E2, E3.
Qed.
End system.

(** ** Theorems *)

Section agreement.
Context {W E : Type} `{EC : Ecrypto E} `{EL : !EcryptoLaws E} `{EN : !Entropy E}.
Context (cl : bytes) (kv : bytes → KeyStore W).

(** Every node of an honest cluster starts under a bootstrap. *)
Definition honest_system (seeds : list bytes) (K0 : bytes) (holders : gset bytes) (s : System W E) : Prop :=
  honest_start cl seeds K0 holders (sys_nodes s) ∧
  ∀ i b, sys_boot s !! i = Some b → is_Some (sys_nodes s !! i) ∧ ∃ c, b = Start_node c.

Lemma sys_start_inv seeds K0 holders s : honest_system seeds K0 holders s →
  sys_inv cl (AddAll NewSet seeds) K0 holders kv None s.
Proof.
  intros [(Hcl & HK & Hh & Hb) Hboot]. split; [split; [done|]; intros i w Hi; by apply booted_inv, Hb|].
  intros i w b Hi Hbi. destruct (Hboot i b Hbi) as [_ [c ->]]. split; [|split; [done|done]].
  destruct (Hb i w Hi) as (_ & (c' & ec & env & t & n & mc & fs & e & Hn & _ & _ & _ & ->) & _).
  apply NewNode_fields in Hn. subst n. by intros ?%not_elem_of_nil.
Qed.

Lemma sys_reachable_inv seeds K0 holders s0 s : honest_system seeds K0 holders s0 → rtc (sys_step cl kv) s0 s →
  ∃ gk, sys_inv cl (AddAll NewSet seeds) K0 holders kv gk s.
Proof.
  intros Hs Hr. pose proof (sys_start_inv _ _ _ _ Hs) as Hinv. destruct Hs as [(Hcl & HK & Hh & _) _].
  assert (holders = ∅ ∨ ∃ s, s ∈ (AddAll NewSet seeds : gset bytes) ∧ s ∈ holders) as Hh'.
  { destruct Hh as [|(x & Hx & Hne & Hin)]; [by left|]. right. exists x. split; [|done]. apply AddAll_spec. by right. }
  generalize dependent (@None bytes). induction Hr as [s|s s1 s2 Hstep _ IH]; intros gk Hinv; [by exists gk|].
  destruct (sys_step_inv cl (AddAll NewSet seeds) K0 holders kv Hcl (set_ok_AddAll _ _ set_ok_NewSet) HK Hh'
    gk s s1 Hinv Hstep) as [gk1 Hinv1]. by apply (IH gk1).
Qed.

Lemma sys_domain s s' i b' : (∀ i b, sys_boot s !! i = Some b → is_Some (sys_nodes s !! i)) →
  rtc (sys_step cl kv) s s' → sys_boot s' !! i = Some b' → is_Some (sys_nodes s' !! i).
Proof.
  intros Hd Hr. revert i b'. induction Hr as [s|s s1 s2 Hstep _ IH]; [done|]. apply IH. clear IH.
  destruct Hstep; simpl; intros j b0 Hj; try apply lookup_insert_is_Some';
    try (apply lookup_insert_Some in Hj as [[<- <-]|[_ Hj]]); eauto.
Qed.

(** The servers that have been started, with the one master key they hold. *)
Lemma started_servers seeds K0 holders s0 s : honest_system seeds K0 holders s0 → rtc (sys_step cl kv) s0 s →
  ∃ mk, ∀ i b sv, sys_boot s !! i = Some b → bs_server b = Some sv →
    length mk = 32%nat ∧ (holders ≠ ∅ → mk = K0) ∧
    ∃ m, sv = NewKeyServer (bs_Cluster b) (kv i) (VaultMember (Some m)) ∧
         vault_with_key (VaultMember (Some m)) mk.
Proof.
  intros Hs Hr. destruct (sys_reachable_inv _ _ _ _ _ Hs Hr) as [gk [[Hg _] Hb]].
  destruct Hs as [(_ & HK & _) Hboot]. exists (default [] (final (AddAll NewSet seeds) K0 holders gk)). intros i b sv Hbi Hsi.
  destruct (sys_domain s0 s i b (λ i b H, proj1 (Hboot i b H)) Hr Hbi) as [w Hw].
  destruct (Hb i w b Hw Hbi) as (_ & _ & Hi). destruct (Hi sv Hsi) as (m & k & -> & Hm & Hk).
  rewrite Hk. split; [by eapply final_length|]. split.
  - intros Hne. revert Hk. unfold final. rewrite decide_False by done. by intros [= ->].
  - exists m. split; [done|]. simpl. by exists m.
Qed.

Context `{HL : HkdfLaws} `{CVL : CurveLib} `{EE : EcEncoding} `{RL : RsaLib W}.

(** C3. One key for the cluster: however the nodes of an honest cluster and their
    bootstraps interleave, every key server that has been started holds the
    same master key of 32 bytes, the initial one if there was one; and two
    servers in the same mode derive the same symmetric, X25519 and ECDSA
    keys for any id, context and seed. *)
Theorem key_servers_agree seeds K0 holders s0 s i j bi bj si sj :
  honest_system seeds K0 holders s0 → rtc (sys_step cl kv) s0 s →
  sys_boot s !! i = Some bi → bs_server bi = Some si → sys_boot s !! j = Some bj → bs_server bj = Some sj →
  (∃ mk, length mk = 32%nat ∧ (holders ≠ ∅ → mk = K0) ∧
     vault_with_key (vault (sv_keyService si)) mk ∧ vault_with_key (vault (sv_keyService sj)) mk) ∧
  (DevMode (bs_Cluster bi) = DevMode (bs_Cluster bj) →
   ∀ id keyType ctx seed, keyType ≠ KT_RSA → derive_key si id keyType ctx seed = derive_key sj id keyType ctx seed).
Proof.
  intros Hs Hr Hbi Hsi Hbj Hsj. destruct (started_servers _ _ _ _ _ Hs Hr) as [k Hk].
  destruct (Hk i bi si Hbi Hsi) as (Hlen & Hini & mi & -> & Hvi).
  destruct (Hk j bj sj Hbj Hsj) as (_ & _ & mj & -> & Hvj).
  split; [by exists k|]. intros Hdev id t ctx seed Ht. unfold derive_key. simpl.
  set (vi := NewKeyGenService (VaultMember (Some mi)) _ _). set (vj := NewKeyGenService (VaultMember (Some mj)) _ _).
  assert (∀ d c, deriveHKDF vi id d c = deriveHKDF vj id d c) as Hd.
  { intros d c. symmetry. apply (deriveHKDF_same vi vj k). split; [done|]. split; [done|]. simpl. by rewrite Hdev. }
  unfold DeriveHKDF, DeriveX25519, DeriveECDSA. rewrite !Hd. by rewrite (bool_decide_false (t = KT_RSA)).
Qed.
End agreement.

(** What a sequence of signals does to a process that serves: SIGTERM ends it
    without any shutdown; the first SIGINT stops the server only, and the
    node goes on until another signal arrives. *)
Lemma signals_while_serving {W} (b : Bootstrap W) sgs : bs_phase b = PhServe →
  foldl (λ b sg, on_signal sg b) b sgs =
  match sgs with
  | [] => b
  | SIGTERM :: _ => kill b
  | [SIGINT] => stop_server b
  | SIGINT :: _ :: _ => shutdown_node (stop_server b)
  end.
Proof.
  intros Hb. assert (∀ b : Bootstrap W, bs_phase b = PhDone ∨ bs_phase b = PhKilled → ∀ l,
    foldl (λ b sg, on_signal sg b) b l = b) as Hend.
  { intros b' Hp l. induction l as [|sg l IH]; [done|]. simpl.
    by replace (on_signal sg b') with b' by (unfold on_signal; by destruct Hp as [-> | ->], sg). }
  destruct sgs as [|[] sgs]; [done|..]; cbn [foldl].
  - replace (on_signal SIGINT b) with (stop_server b) by (unfold on_signal; by rewrite Hb).
    destruct sgs as [|sg sgs]; [done|]. cbn [foldl].
    replace (on_signal sg (stop_server b)) with (shutdown_node (stop_server b)) by by destruct sg.
    apply Hend. by left.
  - replace (on_signal SIGTERM b) with (kill b) by (unfold on_signal; by rewrite Hb). apply Hend. by right.
Qed.

(** ** The example cluster with its key servers *)
Module ToyBoot.
Import Toy ToyDb ToyCurve ToyKeys ToyServer Demo.

Definition kvs_of (i : bytes) : KeyStore db := ToyServer.kvs.
Definition sys0 : System db N :=
  {| sys_nodes := st0; sys_boot := list_to_map (map (λ h, (h, Start_node (Demo.config seeds h))) hosts) |}.
Definition start_script (i : bytes) : list sys_cmd := [SNotify i; SNotify i; SNotify i; SServe i].
Definition script : list sys_cmd :=
  map SCmd (seeding_script ++ query_script) ++ start_script ($"n1") ++ start_script ($"n4").

Lemma sys0_honest : honest_system ($"prod") seeds key32 ∅ sys0.
Proof.
  split; [exact st0_honest|]. intros i b Hb. apply elem_of_list_to_map_2 in Hb.
  apply list_elem_of_fmap in Hb as (h & [= -> ->] & Hh). split; [|by eexists].
  assert (Forall (λ h, bool_decide (is_Some (st0 !! h)) = true) hosts) as HF by (vm_compute; repeat constructor).
  rewrite Forall_forall in HF. eapply bool_decide_eq_true, HF, Hh.
Qed.

(** Both servers run at the end, and do not before the listener was told. *)
Lemma script_serves : ∃ s b1 b4 s1 s4, rtc (sys_step ($"prod") kvs_of) sys0 s ∧
  sys_boot s !! ($"n1") = Some b1 ∧ bs_server b1 = Some s1 ∧ sys_boot s !! ($"n4") = Some b4 ∧ bs_server b4 = Some s4 ∧
  DevMode (bs_Cluster b1) = false ∧ DevMode (bs_Cluster b4) = false.
Proof.
  assert (match sys_exec kvs_of sys0 script with
          | Some s => match sys_boot s !! ($"n1"), sys_boot s !! ($"n4") with
                      | Some b1, Some b4 => bool_decide (is_Some (bs_server b1)) && bool_decide (is_Some (bs_server b4)) &&
                          negb (DevMode (bs_Cluster b1)) && negb (DevMode (bs_Cluster b4))
                      | _, _ => false end
          | None => false end = true) as HF by (vm_compute; reflexivity).
  destruct (sys_exec kvs_of sys0 script) as [s|] eqn:Hs; [|discriminate HF]. exists s.
  destruct (sys_boot s !! ($"n1")) as [b1|]; [|discriminate HF].
  destruct (sys_boot s !! ($"n4")) as [b4|]; [|discriminate HF].
  apply andb_true_iff in HF as [HF D4%negb_true_iff]. apply andb_true_iff in HF as [HF D1%negb_true_iff].
  apply andb_true_iff in HF as [H1 H4]. apply bool_decide_eq_true in H1 as [s1 H1]. apply bool_decide_eq_true in H4 as [s4 H4].
  exists b1, b4, s1, s4. split; [by eapply sys_exec_reachable|]. by split_and!.
Qed.

Example not_before_ready : sys_exec kvs_of sys0 [SServe ($"n1")] = None.
Proof. vm_compute. reflexivity. Qed.

Lemma key_servers_agree_witness : ∃ s1 s4 : KeyServer db, ∃ mk, length mk = 32%nat ∧
  vault_with_key (vault (sv_keyService s1)) mk ∧ vault_with_key (vault (sv_keyService s4)) mk.
Proof.
  destruct script_serves as (s & b1 & b4 & s1 & s4 & Hr & Hb1 & Hs1 & Hb4 & Hs4 & _ & _).
  destruct (key_servers_agree ($"prod") kvs_of seeds key32 ∅ sys0 s ($"n1") ($"n4") b1 b4 s1 s4
    sys0_honest Hr Hb1 Hs1 Hb4 Hs4) as [(mk & Hl & _ & H1 & H4) _].
  exists s1, s4, mk. split; [exact Hl|]. split; [exact H1|exact H4].
Defined.
End ToyBoot.
