(* ===== verification/Service.v ===== *)
(** * The key service of a whole cluster

    The parts put together: the nodes of a cluster agree on a master key
    (Cluster.v), each starts its key server with it (Bootstrap.v), the servers
    share one database (Valkey.v behind KeyStore.v), and a VM that opens its
    session at one of them may finalize it at another (Server.v). *)

From S2P Require Import Prelude GoBytes GoText Json Sha256 Common CommonSet MasterKey Enclave Seed Heartbeat Node Cluster KeyStore Api Crypto Aes Valkey Session Tdx KeyService Journal Server Bootstrap.
From Stdlib Require Import ZArith Lia.

Local Open Scope Z_scope.

(** [sv] is a server that some node of the system has started, in the mode
    [dev]. *)
Definition serves {W E} (s : System W E) (dev : bool) (sv : KeyServer W) : Prop :=
  ∃ i b, sys_boot s !! i = Some b ∧ bs_server b = Some sv ∧ DevMode (bs_Cluster b) = dev.

(** Opening a session needs the store only. *)
Lemma init_same {W} `{Clock W} `{UuidLib W} `{Entropy W} (s s' : KeyServer W) request w :
  av_sessions (sv_challengeResponse s) = av_sessions (sv_challengeResponse s') →
  handleKeyRequestInit s request w = handleKeyRequestInit s' request w.
Proof. intros Ha. unfold handleKeyRequestInit, keyRequestInit, Init. by rewrite Ha. Qed.

Section service.
Context {W E : Type} `{EC : Ecrypto E} `{EL : !EcryptoLaws E} `{ENE : !Entropy E}.
Context `{CL : Clock W} `{UL : UuidLib W} `{EN : !Entropy W} `{QL : QuoteLib} `{QV : QuoteVerifier W}.
Context `{CC : CcelLib} `{HL : HkdfLaws} `{CVL : CurveLaws} `{EE : EcEncoding} `{RL : RsaLib W} `{ED : EcdsaLib W}.
Context `{AL : AeadLaws} `{EEL : !EcEncodingLaws}.
Context (cl : bytes) (kv : bytes → KeyStore W) (kvs : KeyStore W) (dev : bool).
Context (one_database : ∀ i, kv i = kvs).
Local Notation ks := (NewSessionKeyStore kvs dev).
Context `{SL : !StoreLaws ks} `{WE : !WebEnv ks} `{RE : !RsaEnv ks}.

(** The servers of an honest cluster have the one key and the one store that
    the theorems on servers ask for. *)
Lemma started_wired seeds K0 holders s0 s : honest_system cl seeds K0 holders s0 → rtc (sys_step cl kv) s0 s →
  ∃ mk, ∀ sv, serves s dev sv → wired ks sv mk ∧ contextPrefix (sv_keyService sv) = if dev then $"dev-" else [].
Proof.
  intros Hs Hr. destruct (started_servers cl kv _ _ _ _ _ Hs Hr) as [mk Hmk]. exists mk.
  intros sv (i & b & Hb & Hsv & Hdev). destruct (Hmk i b sv Hb Hsv) as (_ & _ & m & -> & Hv).
  rewrite one_database. unfold NewKeyServer. rewrite Hdev. done.
Qed.

(** Servers with the same master key in the same mode come to the same
    outcome. *)
Lemma outcome_same s s' mk kreq seed w w2 o : same_keys (sv_keyService s) (sv_keyService s') mk →
  key_outcome ks s kreq seed w w2 o → key_outcome ks s' kreq seed w w2 o.
Proof.
  intros Hs. pose proof (λ d c, deriveHKDF_same _ _ mk (kr_Id kreq) d c Hs) as Hd.
  intros [k ? HE1|kp ? HE1|secret kp ? HE1 ? HE2|secret ? HE1 ?|?|kp ???|kp ????|?].
  - apply out_symmetric; [done|]. rewrite <- HE1. unfold DeriveHKDF. by rewrite Hd.
  - apply out_x25519; [done|]. rewrite <- HE1. unfold DeriveX25519. by rewrite Hd.
  - apply (out_p256 ks s' kreq seed w w2 secret); [done|by rewrite Hd|done|].
    rewrite <- HE2. unfold DeriveECDSA. by rewrite Hd.
  - apply (out_p256_short ks s' kreq seed w w2 secret); [done|by rewrite Hd|done].
  - by apply out_p384.
  - by apply out_rsa_stored.
  - by apply out_rsa_new.
  - by apply out_unknown.
Qed.

(** C2. The cluster is one key service, for calls that come one after the
    other to servers in one mode, on a store that keeps its laws.  However
    its nodes have got here: when a VM asks any started server for a key of
    any type, it gets a fresh nonce and a session; with a quote that carries
    the nonce and an accepted event log it gets from any other started
    server, within 60 seconds, the answer that every server of the cluster
    would give for its id, its context and its measurements.  The answer is
    the key for the types SYMMETRIC and X25519, for P256 unless the derived
    scalar is shorter than 32 bytes, and for RSA; the types P384 (500) and
    unknown ones (400) get none ([key_outcome]).  After that no server accepts
    the session.  (Requests that overlap may both be answered: see
    [Requests.double_release].) *)
Theorem cluster_serves_vms seeds K0 holders s0 s kreq sv w :
  honest_system cl seeds K0 holders s0 → rtc (sys_step cl kv) s0 s → serves s dev sv → st_ok w →
  KeyRequest_ok kreq → kr_Id kreq ≠ [] → kr_Type kreq ≠ [] →
  (length (json_Marshal kreq) ≤ body_limit)%nat →
  ∃ nonce id w1,
    handleKeyRequestInit sv (json_Marshal kreq) w =
      (Ok (respondJSON 200 (VerifyResponse_json
             {| vr_Nonce := b64_EncodeToString nonce; vr_SessionId := id |})), w1) ∧
    length nonce = 64%nat ∧ valid_utf8 id ∧
    ∀ sv' d q qb log64 log fw mrtd, serves s dev sv' → 0 ≤ d < 60 → attests ks qb nonce mrtd q →
      (kr_Type kreq = KT_RSA → rsa_stored ks (st_elapse d w1) (kr_Id kreq)) →
      valid_utf8 log64 → NewEventLog log64 = Ok log → EventLog_Verify log q = Ok fw →
      let request := json_Marshal (finalize_request id qb log64) in
      (length request ≤ body_limit)%nat →
      ∃ o reply w2,
        handleKeyRequestFinalize sv' request (st_elapse d w1) = (Ok reply, w2) ∧ answers reply o ∧
        ∀ sr, serves s dev sr →
          key_outcome ks sr kreq (DeriveSeedFromMeasurements mrtd fw) (st_elapse d w1) w2 o ∧
          (handleKeyRequestFinalize sr request w2).1 = Ok (keyResponseError 401 ($"Session expired or invalid")).
Proof.
  intros Hs Hr Hsv Hok Hk Hid Hty Hlen. destruct (started_wired _ _ _ _ _ Hs Hr) as [mk Hmk].
  destruct (Hmk sv Hsv) as [Hw _].
  destruct (key_round ks sv mk kreq w Hw Hok Hk Hid Hty Hlen) as (nonce & id & w1 & ? & ? & ? & Hfin).
  exists nonce, id, w1. split_and!; try done.
  intros sv' d q qb log64 log fw mrtd Hsv' Hd Hq Hrsa Hu Hlog Hfw request Hreq. destruct (Hmk sv' Hsv') as [Hw' Hp'].
  destruct (Hfin sv' mk d q qb log64 log fw mrtd Hw' Hd Hq Hrsa Hu Hlog Hfw Hreq)
    as (o & reply & w2 & Ho & ? & ? & Hagain).
  exists o, reply, w2. do 2 (split; [done|]). intros sr Hsr. destruct (Hmk sr Hsr) as [Hwr Hpr].
  split; [|by apply (Hagain sr mk)]. apply (outcome_same sv' sr mk); [|done].
  split; [by apply Hw'|]. split; [by apply Hwr|]. by rewrite Hp', Hpr.
Qed.
End service.

(** ** The example cluster serves a VM *)

Module ToyService.
Import Toy ToyDb ToyWeb ToyCurve ToyAead ToyKeys ToyTdx ToyServer Demo ToyBoot.

(** n1 opens the session and n4 releases the key, 59 seconds later. *)
Lemma cluster_serves_vms_witness : ∃ s sv sv' w1 reply w2, rtc (sys_step ($"prod") kvs_of) sys0 s ∧
  serves s false sv ∧ serves s false sv' ∧
  handleKeyRequestInit sv (json_Marshal key_request) db0 =
    (Ok (respondJSON 200 (VerifyResponse_json
           {| vr_Nonce := b64_EncodeToString first_nonce; vr_SessionId := first_id |})), w1) ∧
  handleKeyRequestFinalize sv' (json_Marshal (finalize_request first_id ("Q"%byte :: first_nonce) []))
    (st_elapse 59 w1) = (Ok reply, w2) ∧ rp_code reply = 200.
Proof.
  destruct script_serves as (s & b1 & b4 & s1 & s4 & Hr & Hb1 & Hs1 & Hb4 & Hs4 & Hd1 & Hd4).
  assert (serves s false s1 ∧ serves s false s4) as [Hv1 Hv4].
  { split; [exists ($"n1"), b1|exists ($"n4"), b4]; by split_and!. }
  destruct (cluster_serves_vms (SL := web_store_laws) (WE := web_store_env) (RE := web_rsa_env) ($"prod") kvs_of kvs false (λ _, eq_refl)
    seeds key32 ∅ sys0 s key_request s1 db0 sys0_honest Hr Hv1 db0_web key_request_ok)
    as (nonce & id & w1 & Hinit & _ & Hid & Hfin); [done|done|apply body_limit_le; by vm_compute|].
  destruct (started_wired ($"prod") kvs_of kvs false (λ _, eq_refl)
    seeds key32 ∅ sys0 s sys0_honest Hr) as [mk Hmk].
  rewrite (init_same s1 server) in Hinit by exact (w_challenge _ _ _ (proj1 (Hmk s1 Hv1))).
  destruct (session_of_reply _ _ _ Hid (f_equal fst Hinit)) as [-> ->]; [by vm_compute|].
  destruct (Hfin s4 59 vm ("Q"%byte :: first_nonce) [] tt ($"fw") ($"mrtd"))
    as (o & reply & w2 & Hf & Hc & Ho); [done|lia|apply vm_attests|done|constructor|done| | |].
  - by vm_compute.
  - apply body_limit_le. by vm_compute.
  - destruct (symmetric_outcome s4 key_request _ _ _ o eq_refl (proj1 (Ho s4 Hv4))) as (key & _ & ->).
    exists s, s1, s4, w1, reply, w2. rewrite (init_same s1 server) by exact (w_challenge _ _ _ (proj1 (Hmk s1 Hv1))).
    split; [exact Hr|]. split; [exact Hv1|]. split; [exact Hv4|]. split; [exact Hinit|]. split; [exact Hf|exact (proj1 Hc)].
Defined.
End ToyService.
