(* ===== verification/Lifecycle.v ===== *)
(** * internal/cluster/node.go: starting and shutting down

    Node.v describes a node whose channels are open and whose goroutines
    run.  Here a [Life] adds what [Start] spawns and [Shutdown] takes away:
    the goroutines of [loop], [notifyStateChange] and the heartbeat ticker,
    which of the two channels are closed, and how far a call of [Shutdown]
    has got; its two [close]s and [Stop] are steps of their own.

    Go's rules: a closed channel still delivers what it holds, and then says
    that it is closed, whereupon both loops return; a send on a closed channel
    and a second close are panics; a send on an unbuffered channel waits for
    its receiver, here [Stop] of the heartbeat manager for the ticker's
    [select]. *)

From S2P Require Import Prelude GoBytes GoText GoNet Json Sha256 Common CommonSet MasterKey Seed Heartbeat Node Cluster.
From Stdlib Require Import ZArith Lia.

Local Open Scope Z_scope.

(** ** The small methods of a node *)

Definition ConfiguredPeerAddresses (n : Node) : list bytes := n_configuredPeerAddresses n.
(** Nothing is ever broadcast by gossip. *)
Definition GetBroadcasts (n : Node) (overhead limit : Z) : list bytes := [].

(** *** Who is told of the states *)

(** A node and the listener that [notifyStateChange] calls; the bootstrap
    gives its own to [NewNode]. *)
Record Observed := { ob_node : Node; ob_listener : option NodeStateListener }.

Definition SetStateListener (o : Observed) (listener : NodeStateListener) : Observed :=
  {| ob_node := ob_node o; ob_listener := Some listener |}.

(** One round of the loop; [None]: it waits.  The error of memberlist's
    [UpdateNode] is only logged. *)
Definition notify_round (o : Observed) : option (res Observed) :=
  match n_stateChangeMessages (ob_node o) with
  | [] => None
  | st :: rest => Some (
      listener ← match ob_listener o with
                 | Some l => Some <$> OnStateChanged l st
                 | None => mret None
                 end;
      mret {| ob_node := set_status (ob_node o) (n_state (ob_node o)) rest; ob_listener := listener |})
  end.

(** At most [k] rounds. *)
Fixpoint notifyStateChange (k : nat) (o : Observed) : res Observed :=
  match k, notify_round o with
  | S k, Some r => o' ← r; notifyStateChange k o'
  | _, _ => Ok o
  end.

Lemma notifyStateChange_foldl o l l' states : n_stateChangeMessages (ob_node o) = states → ob_listener o = Some l →
  foldl (λ acc s, l ← acc; OnStateChanged l s) (Ok l) states = Ok l' →
  notifyStateChange (length states) o =
    Ok {| ob_node := set_status (ob_node o) (n_state (ob_node o)) []; ob_listener := Some l' |}.
Proof.
  revert o l. induction states as [|s states IH]; intros [n ol] l; simpl in *.
  - intros Hn -> [= <-]. destruct n. simpl in *. by subst.
  - intros Hn -> Hf. unfold notify_round. simpl. rewrite Hn. destruct (OnStateChanged l s) as [l1|e|m] eqn:Ho.
    + specialize (IH {| ob_node := set_status n (n_state n) states; ob_listener := Some l1 |} l1 eq_refl eq_refl Hf). exact IH.
    + exfalso. clear -Hf. induction states; [done|]. by apply IHstates.
    + exfalso. clear -Hf. induction states; [done|]. by apply IHstates.
Qed.

(** The states that a node has reported reach the bootstrap's listener once
    each: the channel is emptied, and the countdown is over just when READY
    was among them. *)
Lemma listener_is_told o : ob_listener o = Some NewNodeStateListener → ∃ o' l,
  notifyStateChange (length (n_stateChangeMessages (ob_node o))) o = Ok o' ∧
  n_stateChangeMessages (ob_node o') = [] ∧ n_state (ob_node o') = n_state (ob_node o) ∧ ob_listener o' = Some l ∧
  (countdown l = 0 ↔ NODE_STATE_READY ∈ n_stateChangeMessages (ob_node o)).
Proof.
  intros Ho. destruct (listener_releases_once (n_stateChangeMessages (ob_node o))) as (l & Hf & Hc).
  do 2 eexists. split; [by apply (notifyStateChange_foldl o NewNodeStateListener l)|].
  split_and!; try done. cbn [ob_listener]. destruct (decide _); rewrite Hc; naive_solver.
Qed.

(** ** The life of a node *)

Section life.
Context {E : Type} `{Ecrypto E} `{Entropy E}.
Implicit Types (w : World E).

(** Where a call of [Shutdown] is: before its second [close], in
    [heartbeatManager.Stop], or back. *)
Inductive SdPc := SdNone | SdClosing | SdStopping | SdDone.

Record Life := {
  lf_w : World E;
  lf_in_closed : bool;      (* inMessages *)
  lf_states_closed : bool;  (* stateChangeMessages *)
  lf_shutdown : SdPc;
  lf_loop : bool;           (* the goroutine of loop runs *)
  lf_notify : bool;         (* the goroutine of notifyStateChange runs *)
  lf_ticker : bool          (* the goroutine of heartbeatManager.Start runs *)
}.
Implicit Types (l : Life).

Definition with_w l w : Life :=
  {| lf_w := w; lf_in_closed := lf_in_closed l; lf_states_closed := lf_states_closed l;
     lf_shutdown := lf_shutdown l; lf_loop := lf_loop l; lf_notify := lf_notify l; lf_ticker := lf_ticker l |}.
Definition with_goroutines l (loop notify ticker : bool) : Life :=
  {| lf_w := lf_w l; lf_in_closed := lf_in_closed l; lf_states_closed := lf_states_closed l;
     lf_shutdown := lf_shutdown l; lf_loop := loop; lf_notify := notify; lf_ticker := ticker |}.
Definition with_closed l (inc statesc : bool) (sd : SdPc) : Life :=
  {| lf_w := lf_w l; lf_in_closed := inc; lf_states_closed := statesc; lf_shutdown := sd;
     lf_loop := lf_loop l; lf_notify := lf_notify l; lf_ticker := lf_ticker l |}.
(** The loops return. *)
Definition end_loop l : Life := with_goroutines l false (lf_notify l) (lf_ticker l).
Definition end_notify l : Life := with_goroutines l (lf_loop l) false (lf_ticker l).
(** The three [go] statements of [Start]. *)
Definition start_goroutines l : Life := with_goroutines l true true true.

Definition send_on_closed : bytes := $"send on closed channel".
Definition close_of_closed : bytes := $"close of closed channel".

(** What the step from [w] to [w'] has sent on. *)
Definition sent_state w w' : bool :=
  bool_decide (length (n_stateChangeMessages (node w)) < length (n_stateChangeMessages (node w')))%nat.
Definition sent_message w w' : bool :=
  bool_decide (length (n_inMessages (node w)) < length (n_inMessages (node w')))%nat.

(** A step of the open node, with its sends checked. *)
Definition sends_on_closed l w' : bool :=
  (lf_states_closed l && sent_state (lf_w l) w') || (lf_in_closed l && sent_message (lf_w l) w').
Definition checked l (rw : res unit * World E) : res unit * Life :=
  let '(r, w') := rw in
  (if sends_on_closed l w' then Panic send_on_closed else r, with_w l w').

(** [Shutdown]: memberlist's own shutdown, whose error is only logged, and
    [close(n.inMessages)]; then [close(n.stateChangeMessages)]. *)
Definition Shutdown_close l : res unit * Life :=
  if lf_in_closed l then (Panic close_of_closed, l)
  else (Ok tt, with_closed l true (lf_states_closed l) SdClosing).
Definition Shutdown_close_states l : option (res unit * Life) :=
  match lf_shutdown l with
  | SdClosing => Some (if lf_states_closed l then (Panic close_of_closed, l)
                       else (Ok tt, with_closed l (lf_in_closed l) true SdStopping))
  | _ => None
  end.
(** [hbm.stopC <- struct{}{}] meets the ticker's [select]: [Shutdown] and the
    ticker's goroutine return. *)
Definition Shutdown_stop l : option Life :=
  match lf_shutdown l with
  | SdStopping => if lf_ticker l
      then Some (with_closed (with_goroutines l (lf_loop l) (lf_notify l) false)
                   (lf_in_closed l) (lf_states_closed l) SdDone)
      else None
  | _ => None
  end.

Inductive life_action := LAct (a : action) | LShutdown | LCloseStates | LStop.

(** [None]: the action waits, or its goroutine does not run. *)
Definition life_act (a : life_action) l : option (res unit * Life) :=
  let w := lf_w l in
  match a with
  | LAct (ALoop now) =>
      if negb (lf_loop l) then None
      else match n_inMessages (node w) with
           | [] => if lf_in_closed l then Some (Ok tt, end_loop l) else None
           | _ => checked l <$> act (ALoop now) w
           end
  | LAct AStateChange =>
      if negb (lf_notify l) then None
      else match n_stateChangeMessages (node w) with
           | [] => if lf_states_closed l then Some (Ok tt, end_notify l) else None
           | _ => checked l <$> act AStateChange w
           end
  | LAct (ATick now) => if lf_ticker l then checked l <$> act (ATick now) w else None
  | LAct (ANotifyMsg b) =>
      if lf_in_closed l then Some (checked l (NotifyMsg b w)) else checked l <$> act (ANotifyMsg b) w
  | LAct (AStart joined err members) =>
      let l' := match pc w with PStart => start_goroutines l | _ => l end in
      checked l' <$> act (AStart joined err members) w
  | LAct a => checked l <$> act a w
  | LShutdown => Some (Shutdown_close l)
  | LCloseStates => Shutdown_close_states l
  | LStop => (λ l', (Ok tt, l')) <$> Shutdown_stop l
  end.

(** ** What the node's code does to its channels *)

Definition chans w : list PeerMessage * list Z * Z * Pc :=
  (n_inMessages (node w), n_stateChangeMessages (node w), n_state (node w), pc w).

(** [m] leaves alone what [g] shows of the channels, the state and where
    [Start] is. *)
Definition frames {A B} (g : list PeerMessage * list Z * Z * Pc → B) (m : M (World E) A) : Prop :=
  ∀ w, g (chans (m w).2) = g (chans w).

Section frames.
Context {B : Type} (g : list PeerMessage * list Z * Z * Pc → B).

Lemma frames_intro {A} (m : M (World E) A) : (∀ w, chans (m w).2 = chans w) → frames g m.
Proof. intros Hm w. by rewrite Hm. Qed.
Lemma frames_bind {A C} (m : M (World E) A) (f : A → M (World E) C) :
  frames g m → (∀ a, frames g (f a)) → frames g (m ≫= f).
Proof.
  intros Hm Hf w. unfold mbind, M_bind. specialize (Hm w). destruct (m w) as [[a|e|p] w1]; simpl in *; [|done..].
  by rewrite (Hf a w1).
Qed.
Lemma frames_ret {A} (a : A) : frames g (mret a).
Proof. by apply frames_intro. Qed.
Lemma frames_lift {A} (r : res A) : frames g (lift r).
Proof. by apply frames_intro. Qed.
Lemma frames_get {A} (f : Node → A) : frames g (get f).
Proof. by apply frames_intro. Qed.
Lemma frames_modify f : (∀ n, n_inMessages (f n) = n_inMessages n ∧
  n_stateChangeMessages (f n) = n_stateChangeMessages n ∧ n_state (f n) = n_state n) → frames g (modify f).
Proof. intros Hf. apply frames_intro. intros w. unfold chans. simpl. by destruct (Hf (node w)) as (-> & -> & ->). Qed.
Lemma frames_spawn t : frames g (spawn t).
Proof. by apply frames_intro. Qed.
Lemma frames_emit ms : frames g (emit ms).
Proof. by apply frames_intro. Qed.
Lemma frames_panic {A} msg : frames g (panic (A := A) msg).
Proof. by apply frames_intro. Qed.
Lemma frames_with_rng {A} (m : M E A) : frames g (with_rng m).
Proof. apply frames_intro. intros w. unfold with_rng. by destruct (m (rng w)). Qed.
Lemma frames_replace_task k rest : frames g (replace_task k rest).
Proof. by apply frames_intro. Qed.
Lemma frames_readKey : frames g readKey.
Proof. apply frames_intro. intros w. unfold readKey. by destruct (mks_Read _ _) as [[m ks]|e|p]. Qed.
Lemma frames_writeKey secret : frames g (writeKey secret).
Proof. apply frames_intro. intros w. unfold writeKey. by destruct (mks_Write _ _ _ _) as [[fs|e|p] r]. Qed.
Lemma frames_setStatus z : (∀ a b c d b' c', g (a, b, c, d) = g (a, b', c', d)) → frames g (setStatus z).
Proof. intros Hg w. apply Hg. Qed.
End frames.
End life.
Arguments Life : clear implicits.

#[export] Hint Resolve frames_ret frames_lift frames_get frames_spawn frames_emit frames_panic
  frames_with_rng frames_replace_task frames_readKey frames_writeKey : betterkey.

Ltac solve_frames := repeat first
  [ solve [auto with betterkey nocore]
  | apply frames_modify; solve [intros []; split_and!; reflexivity]
  | apply frames_setStatus; solve [intros; reflexivity]
  | apply frames_bind; [|intros]
  | case_match ].

Section laws.
Context {E : Type} `{Ecrypto E} `{Entropy E}.
Implicit Types (w : World E) (l : Life E).

Definition inbox (c : list PeerMessage * list Z * Z * Pc) : list PeerMessage := c.1.1.1.

Lemma frames_NodeStatus {B} (g : _ → B) : frames g (NodeStatus (E := E)).
Proof. unfold NodeStatus, prov. solve_frames. Qed.
Hint Resolve frames_NodeStatus : betterkey.

(** Handling a message receives nothing more. *)
Lemma loop_body_inbox msg now : frames inbox (loop_body (E := E) msg now).
Proof.
  unfold loop_body, handleSeedKey, handleQueryKey, handleKeyChallengeRequest, handleKeyChallengeResponse,
    handleKeyResponse. solve_frames.
Qed.

Lemma frames_task_step {B} (g : _ → B) send members t : frames g (task_step (E := E) send members t).
Proof.
  unfold task_step, forward_goroutine, query_goroutine, keyReply_goroutine, challenge_goroutine,
    challengeReply_goroutine. solve_frames.
Qed.

(** A node that is READY reports no more states. *)
Lemma loop_body_ready msg now w : n_state (node w) = NODE_STATE_READY →
  chans (loop_body (E := E) msg now w).2 = chans w.
Proof.
  intros Hs. unfold loop_body, mbind, M_bind.
  pose proof (frames_NodeStatus id w) as Hf. unfold id in Hf.
  destruct (NodeStatus w) as [[nm|e|p] w1] eqn:Hn; simpl in Hf; [|done..].
  assert (nm_State nm = NODE_STATE_READY) as ->.
  { revert Hn. unfold NodeStatus, mbind, M_bind, get. rewrite Hs. rewrite decide_True by done.
    destruct (prov w) as [[v|e|p] w2]; [|done..]. destruct (with_rng _ w2) as [[hb|e|p] w3]; by intros [= <- _]. }
  rewrite <- Hf. rewrite decide_False, decide_True by done.
  assert (frames id (if decide (pm_Type msg = MSG_TYPE_KEYQUERY) then handleQueryKey msg
    else if decide (pm_Type msg = MSG_TYPE_CHALLENGE) then handleKeyChallengeRequest msg
    else mret tt : M (World E) unit)) as Hh.
  { unfold handleQueryKey, handleKeyChallengeRequest. solve_frames. }
  apply (Hh w1).
Qed.

(** ** The channels drain *)

(** [m] only appends to the channel that [g] shows. *)
Definition grows {A B} (g : list PeerMessage * list Z * Z * Pc → list B) (m : M (World E) A) : Prop :=
  ∀ w, g (chans w) `prefix_of` g (chans (m w).2).

Lemma frames_grows {A B} g (m : M (World E) A) : frames g m → grows (B := B) g m.
Proof. intros Hm w. by rewrite Hm. Qed.
Lemma grows_bind {A B C} g (m : M (World E) A) (f : A → M (World E) C) :
  grows (B := B) g m → (∀ a, grows g (f a)) → grows g (m ≫= f).
Proof.
  intros Hm Hf w. unfold mbind, M_bind. specialize (Hm w). destruct (m w) as [[a|e|p] w1]; simpl in *; [|done..].
  etrans; [exact Hm|]. apply (Hf a w1).
Qed.

Definition reported (c : list PeerMessage * list Z * Z * Pc) : list Z := c.1.1.2.
Lemma grows_setStatus z : grows reported (setStatus (E := E) z).
Proof. intros w. unfold reported, chans. simpl. by eexists. Qed.

Ltac solve_grows := repeat first
  [ apply grows_setStatus
  | apply frames_grows; solve [solve_frames]
  | apply grows_bind; [|intros]
  | case_match ].

(** Handling a message may report states. *)
Lemma loop_body_reported msg now : grows reported (loop_body (E := E) msg now).
Proof.
  unfold loop_body, handleSeedKey, handleQueryKey, handleKeyChallengeRequest, handleKeyChallengeResponse,
    handleKeyResponse. solve_grows.
Qed.

(** A delivery appends to the inbox and reports nothing. *)
Lemma grows_NotifyMsg {B} (g : list PeerMessage * list Z * Z * Pc → list B) b :
  (∀ i s z p m, g (i, s, z, p) `prefix_of` g (i ++ [m], s, z, p)) → grows g (NotifyMsg (E := E) b).
Proof.
  intros Hg. unfold NotifyMsg. case_match; [|apply frames_grows; solve_frames..].
  apply grows_bind; [apply frames_grows; solve_frames|]. intros sender.
  apply grows_bind; [apply frames_grows; solve_frames|]. intros cluster.
  case_decide; [apply frames_grows; solve_frames|]. intros w. apply Hg.
Qed.

(** After a step that has sent nothing a channel that only grows is as it
    was. *)
Lemma prefix_not_longer {A} (k k' : list A) : k `prefix_of` k' → (length k' ≤ length k)%nat → k' = k.
Proof. intros [r ->] Hl. rewrite length_app in Hl. destruct r; [by rewrite app_nil_r|simpl in Hl; lia]. Qed.

(** What the two loops have left to do. *)
Definition pending l : nat :=
  length (n_inMessages (node (lf_w l))) + length (n_stateChangeMessages (node (lf_w l))) +
  (if lf_loop l then 1 else 0) + (if lf_notify l then 1 else 0).
Definition receives (a : life_action) : bool :=
  match a with LAct (ALoop _) | LAct AStateChange => true | _ => false end.
(** [Start] has returned. *)
Definition no_start (a : life_action) : bool := match a with LAct (AStart _ _ _) => false | _ => true end.

(** The message, and the state, that an action takes from its channel. *)
Definition took_message (a : life_action) l : list PeerMessage :=
  match a with LAct (ALoop _) => option_list (head (n_inMessages (node (lf_w l)))) | _ => [] end.
Definition took_state (a : life_action) l : list Z :=
  match a with LAct AStateChange => option_list (head (n_stateChangeMessages (node (lf_w l)))) | _ => [] end.

(** Both channels are closed. *)
Definition shut l : Prop := lf_in_closed l = true ∧ lf_states_closed l = true.

(** One step of a node that is shut. *)
Record drained (a : life_action) l l' : Prop := {
  dr_shut : shut l';
  dr_messages : n_inMessages (node (lf_w l)) = took_message a l ++ n_inMessages (node (lf_w l'));
  dr_states : n_stateChangeMessages (node (lf_w l)) = took_state a l ++ n_stateChangeMessages (node (lf_w l'));
  dr_loop : lf_loop l' = lf_loop l ∨ lf_loop l' = false ∧ n_inMessages (node (lf_w l)) = [];
  dr_notify : lf_notify l' = lf_notify l ∨ lf_notify l' = false ∧ n_stateChangeMessages (node (lf_w l)) = [];
  dr_pending : receives a = true → (pending l' < pending l)%nat
}.

Lemma checked_shut l r w' l' : shut l → checked l (r, w') = (Ok tt, l') →
  l' = with_w l w' ∧ r = Ok tt ∧
  (length (n_stateChangeMessages (node w')) ≤ length (n_stateChangeMessages (node (lf_w l))))%nat ∧
  (length (n_inMessages (node w')) ≤ length (n_inMessages (node (lf_w l))))%nat.
Proof.
  intros [Hi Hs]. unfold checked, sends_on_closed, sent_state, sent_message. rewrite Hi, Hs. cbn [andb].
  destruct (bool_decide (_ < length (n_stateChangeMessages (node w')))%nat) eqn:E1; [done|].
  destruct (bool_decide (_ < length (n_inMessages (node w')))%nat) eqn:E2; [done|].
  apply bool_decide_eq_false in E1, E2. intros [= -> <-]. split; [done|]. split; [done|]. lia.
Qed.

(** A step that takes nothing. *)
Lemma drained_grows a l (m : M (World E) unit) l' : shut l →
  took_message a l = [] → took_state a l = [] → receives a = false →
  grows inbox m → grows reported m → checked l (m (lf_w l)) = (Ok tt, l') → drained a l l'.
Proof.
  intros Hs Hm Hz Hr Hgi Hgs Hc. specialize (Hgi (lf_w l)). specialize (Hgs (lf_w l)).
  destruct (m (lf_w l)) as [r w']. cbn [snd] in *. apply checked_shut in Hc as (-> & _ & Hls & Hli); [|done].
  unfold inbox, reported, chans in *. cbn [fst snd] in *.
  apply prefix_not_longer in Hgi; [|done]. apply prefix_not_longer in Hgs; [|done].
  split; [done|rewrite Hm; symmetry; exact Hgi|rewrite Hz; symmetry; exact Hgs|by left|by left|by rewrite Hr].
Qed.

Lemma drained_act a b l l' (o : option (res unit * World E)) m : shut l → a = LAct b → o = Some (m (lf_w l)) →
  took_message a l = [] → took_state a l = [] → receives a = false →
  grows inbox m → grows reported m → checked l <$> o = Some (Ok tt, l') → drained a l l'.
Proof. intros Hs -> -> Hm Hz Hr Hgi Hgs [= Hc]. by eapply drained_grows. Qed.

Lemma drained_quiet a l l' : shut l → took_message a l = [] → took_state a l = [] → receives a = false →
  lf_w l' = lf_w l → shut l' → lf_loop l' = lf_loop l → lf_notify l' = lf_notify l → drained a l l'.
Proof. intros Hs Hm Hz Hr Hw Hs' Hl Hn. split; rewrite ?Hm, ?Hz, ?Hw, ?Hr; try done; by left. Qed.

(** The receives. *)
Lemma drained_loop now l l' : shut l → life_act (LAct (ALoop now)) l = Some (Ok tt, l') →
  drained (LAct (ALoop now)) l l'.
Proof.
  intros Hs. cbn [life_act]. destruct (lf_loop l) eqn:Hl; [|done]. cbn [negb].
  destruct (n_inMessages (node (lf_w l))) as [|m rest] eqn:Hin.
  - rewrite (proj1 Hs). intros [= <-]. split; [done|cbn; by rewrite Hin|done|by right|by left|].
    intros _. unfold pending. simpl. rewrite Hl. lia.
  - cbn [act]. rewrite Hin. intros Hch. apply (inj Some) in Hch.
    pose proof (loop_body_inbox m now (set_node (lf_w l) (set_in (node (lf_w l)) rest))) as Hf.
    pose proof (loop_body_reported m now (set_node (lf_w l) (set_in (node (lf_w l)) rest))) as Hg.
    unfold mbind, M_bind, modify in Hch. destruct (loop_body m now _) as [r w'] in Hch, Hf, Hg.
    unfold inbox, reported, chans in Hf, Hg. simpl in Hf, Hg.
    apply checked_shut in Hch as (-> & _ & Hls & _); [|done]. apply prefix_not_longer in Hg; [|done].
    split; [done|cbn; by rewrite Hin, Hf|cbn; by rewrite Hg|by left|by left|].
    intros _. unfold pending. cbn. rewrite Hf, Hg, Hin. simpl. lia.
Qed.

Lemma drained_state_change l l' : shut l → life_act (LAct AStateChange) l = Some (Ok tt, l') →
  drained (LAct AStateChange) l l'.
Proof.
  intros Hs. cbn [life_act]. destruct (lf_notify l) eqn:Hl; [|done]. cbn [negb].
  destruct (n_stateChangeMessages (node (lf_w l))) as [|z rest] eqn:Hin.
  - rewrite (proj2 Hs). intros [= <-]. split; [done|done|cbn; by rewrite Hin|by left|by right|].
    intros _. unfold pending. simpl. rewrite Hl. lia.
  - cbn [act]. rewrite Hin. intros Hch. apply (inj Some) in Hch. unfold modify in Hch.
    apply checked_shut in Hch as (-> & _); [|done].
    split; [done|done|cbn; by rewrite Hin|by left|by left|].
    intros _. unfold pending. cbn. rewrite Hin. simpl. lia.
Qed.

Lemma drain_step a l l' : shut l → no_start a = true → life_act a l = Some (Ok tt, l') → drained a l l'.
Proof.
  intros Hs Hst. destruct a as [[joined err members|k send members|now|b|b now| | |now]| | |].
  - done.
  - cbn [life_act act]. destruct (tasks (lf_w l) !! k) as [t|]; [|done]. cbn [mbind option_bind].
    eapply drained_act; try done; apply frames_grows, frames_bind; try apply frames_task_step;
      intros; apply frames_replace_task.
  - by apply drained_loop.
  - cbn [life_act]. rewrite (proj1 Hs). intros [= Hc]. eapply drained_grows; try done.
    + apply grows_NotifyMsg. intros. by eexists.
    + by apply grows_NotifyMsg.
  - cbn [life_act act]. eapply drained_act; try done; apply frames_grows; unfold MergeRemoteState; solve_frames.
  - cbn [life_act act]. eapply drained_act; try done; apply frames_grows; unfold LocalState; solve_frames.
  - by apply drained_state_change.
  - cbn [life_act act]. destruct (lf_ticker l); [|done].
    eapply drained_act; try done; apply frames_grows; solve_frames.
  - cbn [life_act]. unfold Shutdown_close. by rewrite (proj1 Hs).
  - cbn [life_act]. unfold Shutdown_close_states. destruct (lf_shutdown l); try done. by rewrite (proj2 Hs).
  - cbn [life_act]. unfold Shutdown_stop. destruct (lf_shutdown l); try done. destruct (lf_ticker l); [|done].
    intros [= <-]. by apply drained_quiet.
Qed.

(** A run: every action can be taken and none panics.  With it, what the loops
    take from the channels. *)
Definition life_exec l (acts : list life_action) : option (Life E) :=
  foldl (λ acc a, l ← acc; match life_act a l with Some (Ok _, l') => Some l' | _ => None end) (Some l) acts.
Fixpoint taken l (acts : list life_action) : list PeerMessage * list Z :=
  match acts with
  | [] => ([], [])
  | a :: acts =>
      match life_act a l with
      | Some (Ok _, l') =>
          let '(ms, zs) := taken l' acts in (took_message a l ++ ms, took_state a l ++ zs)
      | _ => ([], [])
      end
  end.

Lemma life_exec_cons l a acts l' : life_exec l (a :: acts) = Some l' →
  ∃ l1, life_act a l = Some (Ok tt, l1) ∧ life_exec l1 acts = Some l'.
Proof.
  unfold life_exec. cbn [foldl mbind option_bind].
  destruct (life_act a l) as [[[[]|e|p] l2]|]; [by exists l2|..];
    (intros He; exfalso; revert He; generalize acts; by induction 0).
Qed.

Lemma drain_run l acts l' : shut l → forallb no_start acts = true → life_exec l acts = Some l' →
  shut l' ∧ (pending l' + length (List.filter receives acts) ≤ pending l)%nat ∧
  n_inMessages (node (lf_w l)) = (taken l acts).1 ++ n_inMessages (node (lf_w l')) ∧
  n_stateChangeMessages (node (lf_w l)) = (taken l acts).2 ++ n_stateChangeMessages (node (lf_w l')) ∧
  (lf_loop l' = lf_loop l ∨ lf_loop l' = false ∧ n_inMessages (node (lf_w l')) = []) ∧
  (lf_notify l' = lf_notify l ∨ lf_notify l' = false ∧ n_stateChangeMessages (node (lf_w l')) = []).
Proof.
  revert l. induction acts as [|a acts IH]; intros l Hs Hns He.
  { injection He as <-. split; [done|]. simpl. split; [lia|]. split; [done|]. split; [done|]. split; by left. }
  simpl in Hns. apply andb_true_iff in Hns as [Hna Hns].
  apply life_exec_cons in He as (l1 & Ha & He). pose proof (drain_step a l l1 Hs Hna Ha) as [Hs1 Hm Hz Hl Hn Hp].
  destruct (IH l1 Hs1 Hns He) as (Hs' & Hp' & Hm' & Hz' & Hl' & Hn'). split; [done|].
  cbn [taken]. rewrite Ha. destruct (taken l1 acts) as [ms zs]. cbn [fst snd] in *. split; [|split; [|split; [|split]]].
  - assert (pending l1 ≤ pending l)%nat as Hle.
    { destruct (receives a) eqn:Hr; [specialize (Hp eq_refl); lia|]. unfold pending.
      rewrite Hm, Hz, !length_app. destruct Hl as [-> | [-> _]], Hn as [-> | [-> _]];
        repeat case_match; lia. }
    simpl. destruct (receives a) eqn:Hr; simpl; [specialize (Hp eq_refl)|]; lia.
  - by rewrite Hm, Hm', (assoc_L (++)).
  - by rewrite Hz, Hz', (assoc_L (++)).
  - destruct Hl' as [-> |?]; [|by right]. destruct Hl as [-> |[-> Hnil]]; [by left|right].
    rewrite Hnil in Hm. apply eq_sym, app_nil in Hm as [_ Hm]. rewrite Hm in Hm'.
    by apply eq_sym, app_nil in Hm' as [_ ->].
  - destruct Hn' as [-> |?]; [|by right]. destruct Hn as [-> |[-> Hnil]]; [by left|right].
    rewrite Hnil in Hz. apply eq_sym, app_nil in Hz as [_ Hz]. rewrite Hz in Hz'.
    by apply eq_sym, app_nil in Hz' as [_ ->].
Qed.

(** A node that runs: no [Shutdown] has been called. *)
Definition open l : Prop := lf_in_closed l = false ∧ lf_states_closed l = false ∧ lf_shutdown l = SdNone.
(** How far a single call of [Shutdown] has got. *)
Definition single_shutdown l : Prop :=
  match lf_shutdown l with
  | SdNone => lf_in_closed l = false ∧ lf_states_closed l = false
  | SdClosing => lf_in_closed l = true ∧ lf_states_closed l = false
  | SdStopping | SdDone => shut l
  end.

(** The fields that only [Shutdown] changes. *)
Definition closing l : bool * bool * SdPc := (lf_in_closed l, lf_states_closed l, lf_shutdown l).
Lemma checked_closing l rw r l' : checked l rw = (r, l') → closing l' = closing l.
Proof. destruct rw as [r0 w']. unfold checked. by intros [= _ <-]. Qed.
Lemma act_closing a l r l' : life_act (LAct a) l = Some (r, l') → closing l' = closing l.
Proof.
  assert (∀ o, checked l <$> o = Some (r, l') → closing l' = closing l) as Hch.
  { intros o (rw & _ & Hc%eq_sym)%fmap_Some. by eapply checked_closing. }
  destruct a as [joined err members|k send members|now|b|b now| | |now]; cbn [life_act]; try apply Hch.
  - intros (rw & _ & Hc%eq_sym)%fmap_Some. apply checked_closing in Hc. rewrite Hc. by destruct (pc (lf_w l)).
  - destruct (lf_loop l); [|done]. cbn [negb]. destruct (n_inMessages _); [|apply Hch].
    destruct (lf_in_closed l); [|done]. by intros [= _ <-].
  - destruct (lf_in_closed l); [|apply Hch]. intros [= Hc]. by eapply checked_closing.
  - destruct (lf_notify l); [|done]. cbn [negb]. destruct (n_stateChangeMessages _); [|apply Hch].
    destruct (lf_states_closed l); [|done]. by intros [= _ <-].
  - destruct (lf_ticker l); [apply Hch|done].
Qed.

Lemma closing_single l l' : closing l' = closing l → single_shutdown l → single_shutdown l'.
Proof. unfold single_shutdown, shut. by intros [= -> -> ->]. Qed.

Lemma single_shutdown_step a l r l' : single_shutdown l → life_act a l = Some (r, l') → single_shutdown l'.
Proof.
  intros Hs Ha. destruct a as [a| | |].
  - eapply closing_single; [by eapply act_closing|done].
  - simpl in Ha. unfold Shutdown_close in Ha. destruct (lf_in_closed l) eqn:Hi; injection Ha as _ <-; [done|].
    unfold single_shutdown, shut in *. simpl. destruct (lf_shutdown l); destruct Hs; solve [done | congruence].
  - simpl in Ha. unfold Shutdown_close_states in Ha. unfold single_shutdown, shut in *.
    destruct (lf_shutdown l) eqn:Hsd; try done. destruct Hs as [Hi Hst]. rewrite Hst in Ha.
    by injection Ha as _ <-.
  - simpl in Ha. unfold Shutdown_stop in Ha. unfold single_shutdown, shut in *.
    destruct (lf_shutdown l); try done. destruct (lf_ticker l); [|done]. by injection Ha as _ <-.
Qed.

Lemma single_shutdown_run l acts l' : single_shutdown l → life_exec l acts = Some l' → single_shutdown l'.
Proof.
  revert l. induction acts as [|a acts IH]; intros l Hs He; [by injection He as <-|].
  apply life_exec_cons in He as (l1 & Ha & He). apply (IH l1); [|done]. by eapply single_shutdown_step.
Qed.


(** ** Shutting down a node that is READY *)

(** Nothing is sent. *)
Definition silent w w' : Prop := sent_state w w' = false ∧ sent_message w w' = false.

Lemma framed_ready w w' : chans w' = chans w → silent w w' ∧ n_state (node w') = n_state (node w) ∧ pc w' = pc w.
Proof.
  intros [= Hin Hch Hst Hpc]. split; [|done]. unfold silent, sent_state, sent_message. rewrite Hin, Hch.
  by rewrite !bool_decide_false by lia.
Qed.

(** What a READY node does besides taking messages sends on no channel. *)
Lemma act_ready a w r w' : n_state (node w) = NODE_STATE_READY → pc w = PDone → (∀ b, a ≠ ANotifyMsg b) →
  act a w = Some (r, w') →
  silent w w' ∧ n_state (node w') = NODE_STATE_READY ∧ pc w' = PDone.
Proof.
  intros Hs Hpc Hne.
  assert (∀ m : M (World E) unit, frames id m → Some (m w) = Some (r, w') →
    silent w w' ∧ n_state (node w') = NODE_STATE_READY ∧ pc w' = PDone) as Hframe.
  { intros m Hm [= Hr]. specialize (Hm w). rewrite Hr in Hm. unfold id in Hm. cbn [snd] in Hm.
    apply framed_ready in Hm as (? & -> & ->). done. }
  destruct a as [joined err members|k send members|now|b|b now| | |now]; cbn [act].
  - rewrite Hpc. apply Hframe. apply frames_ret.
  - intros (t & _ & Ha)%bind_Some. revert Ha. apply Hframe.
    apply frames_bind; [apply frames_task_step|intros; apply frames_replace_task].
  - destruct (n_inMessages (node w)) as [|m rest] eqn:Hin; [done|]. intros [= Hr]. unfold mbind, M_bind, modify in Hr.
    pose proof (loop_body_ready m now (set_node w (set_in (node w) rest)) Hs) as Hl. rewrite Hr in Hl.
    unfold chans in Hl. simpl in Hl. injection Hl as Hin' Hch' Hst' Hpc'. rewrite Hst', Hpc'. split; [|done].
    unfold silent, sent_state, sent_message. rewrite Hin', Hch', Hin. simpl. by rewrite !bool_decide_false by lia.
  - by destruct (Hne b).
  - apply Hframe. unfold MergeRemoteState. solve_frames.
  - apply Hframe. unfold LocalState. pose proof (frames_NodeStatus id). solve_frames.
  - destruct (n_stateChangeMessages (node w)) as [|z rest] eqn:Hch; [done|]. intros [= <- <-]. simpl.
    split; [|done]. unfold silent, sent_state, sent_message. simpl. rewrite Hch. simpl. by rewrite !bool_decide_false by lia.
  - apply Hframe. solve_frames.
Qed.

Lemma checked_silent l r w' : silent (lf_w l) w' → checked l (r, w') = (r, with_w l w').
Proof. intros [E1 E2]. unfold checked, sends_on_closed. by rewrite E1, E2, !andb_false_r. Qed.

(** The ticker's goroutine only ends in [Stop]. *)
Lemma act_ticker a l r l' : life_act (LAct a) l = Some (r, l') → lf_ticker l = true → lf_ticker l' = true.
Proof.
  assert (∀ l rw, checked l rw = (r, l') → lf_ticker l = true → lf_ticker l' = true) as Hc
    by (intros l0 [r0 w'] [= _ <-]; done).
  assert (∀ l o, checked l <$> o = Some (r, l') → lf_ticker l = true → lf_ticker l' = true) as Hch
    by (intros l0 o (rw & _ & Hr%eq_sym)%fmap_Some; by eapply Hc).
  destruct a as [joined err members|k send members|now|b|b now| | |now]; cbn [life_act]; try apply Hch.
  - intros Ha Ht. eapply Hch; [exact Ha|]. by destruct (pc (lf_w l)).
  - destruct (lf_loop l); [|done]. cbn [negb]. destruct (n_inMessages _); [|apply Hch].
    destruct (lf_in_closed l); [|done]. by intros [= _ <-].
  - destruct (lf_in_closed l); [|apply Hch]. intros [= Ha]. by eapply Hc.
  - destruct (lf_notify l); [|done]. cbn [negb]. destruct (n_stateChangeMessages _); [|apply Hch].
    destruct (lf_states_closed l); [|done]. by intros [= _ <-].
  - destruct (lf_ticker l) eqn:Ht; [|done]. intros Ha _. by eapply Hch.
Qed.

Definition ready w : Prop := n_state (node w) = NODE_STATE_READY ∧ pc w = PDone.

Lemma ready_act l a r l' : ready (lf_w l) → (∀ b, a ≠ ANotifyMsg b) → life_act (LAct a) l = Some (r, l') →
  ready (lf_w l') ∧ (act a (lf_w l) = Some (r, lf_w l') ∨ r = Ok tt ∧ lf_w l' = lf_w l).
Proof.
  intros [Hs Hpc] Hne.
  assert (∀ o, o = act a (lf_w l) → checked l <$> o = Some (r, l') →
    ready (lf_w l') ∧ (act a (lf_w l) = Some (r, lf_w l') ∨ r = Ok tt ∧ lf_w l' = lf_w l)) as Hch.
  { intros o -> ([r1 w'] & Ha & Hch)%fmap_Some. destruct (act_ready a (lf_w l) r1 w' Hs Hpc Hne Ha) as (Hsent & ? & ?).
    rewrite checked_silent in Hch by done. injection Hch as -> ->. split; [by split|]. by left. }
  destruct a as [joined err members|k send members|now|b|b now| | |now]; cbn [life_act].
  - rewrite Hpc. by apply Hch.
  - by apply Hch.
  - destruct (lf_loop l); [|done]. cbn [negb]. destruct (n_inMessages (node (lf_w l))) eqn:Hin; [|by apply Hch].
    destruct (lf_in_closed l); [|done]. intros [= <- <-]. split; [by split|]. by right.
  - by destruct (Hne b).
  - by apply Hch.
  - by apply Hch.
  - destruct (lf_notify l); [|done]. cbn [negb]. destruct (n_stateChangeMessages (node (lf_w l))) eqn:Hin; [|by apply Hch].
    destruct (lf_states_closed l); [|done]. intros [= <- <-]. split; [by split|]. by right.
  - destruct (lf_ticker l); [by apply Hch|done].
Qed.

(** ** Shutting down too early *)

(** A status that is set after the channels are closed is a panic, whatever
    the state. *)
Lemma setStatus_late l z : lf_states_closed l = true → (checked l (setStatus z (lf_w l))).1 = Panic send_on_closed.
Proof.
  intros Hc. unfold checked, sends_on_closed, setStatus, modify. rewrite Hc. unfold sent_state. cbn.
  rewrite length_app. simpl. by rewrite bool_decide_true by lia.
Qed.

(** A second [Shutdown] is a panic. *)
Lemma Shutdown_twice l : lf_in_closed l = true → life_act LShutdown l = Some (Panic close_of_closed, l).
Proof. intros Hc. simpl. unfold Shutdown_close. by rewrite Hc. Qed.

(** [Shutdown] of a node that was not started: [Stop] never returns, since
    the ticker's goroutine does not run. *)
Lemma Shutdown_unstarted l : lf_ticker l = false → open l →
  ∃ l', life_exec l [LShutdown; LCloseStates] = Some l' ∧ lf_shutdown l' = SdStopping ∧ life_act LStop l' = None.
Proof.
  intros Ht (Hi & Hs & Hsd). unfold life_exec. simpl. unfold Shutdown_close. rewrite Hi. simpl.
  unfold Shutdown_close_states. simpl. rewrite Hs. eexists. split; [done|]. split; [done|].
  simpl. unfold Shutdown_stop. simpl. by rewrite Ht.
Qed.
End laws.

(** The answer to a key query that is still in the channel when [Shutdown]
    closes it: the key is written to the disk, and then the process dies. *)
Lemma late_answer_is_kept {E} `{Ecrypto E} `{Entropy E} (l : Life E) msg now w1 :
  lf_states_closed l = true → lf_loop l = true → n_state (node (lf_w l)) = NODE_STATE_QUERY_KEY →
  n_inMessages (node (lf_w l)) = [msg] → pm_Type msg = MSG_TYPE_KEYQUERY_RESP →
  writeKey (new_secret (data_of msg) now) (set_node (lf_w l) (set_in (node (lf_w l)) [])) = (Ok tt, w1) →
  ∃ l', life_act (LAct (ALoop now)) l = Some (Panic send_on_closed, l') ∧ disk (lf_w l') = disk w1.
Proof.
  intros Hc Hl Hs Hin Ht Hw. cbn [life_act act]. rewrite Hl, Hin. cbn [negb].
  unfold mbind at 1, M_bind at 1, modify at 1. set (w0 := set_node _ _) in *.
  assert (loop_body msg now w0 = handleKeyResponse msg now w0) as ->.
  { unfold loop_body, NodeStatus, mbind, M_bind, get, mret, M_ret. change (n_state (node w0)) with (n_state (node (lf_w l))).
    rewrite Hs, Ht. done. }
  unfold handleKeyResponse, mbind, M_bind. rewrite Hw.
  assert (n_stateChangeMessages (node w1) = n_stateChangeMessages (node (lf_w l))) as Hch.
  { pose proof (frames_writeKey (λ c, c.1.1.2) (new_secret (data_of msg) now) w0) as Hf. rewrite Hw in Hf. exact Hf. }
  exists (with_w l (set_node w1 (set_status (node w1) NODE_STATE_READY (n_stateChangeMessages (node w1) ++ [NODE_STATE_READY])))).
  split; [|done]. cbn [fmap option_fmap option_map]. f_equal. unfold checked, sends_on_closed, setStatus, modify. rewrite Hc.
  unfold sent_state. cbn [node set_node n_stateChangeMessages set_status]. rewrite Hch, length_app. simpl.
  by rewrite bool_decide_true by lia.
Qed.

(** ** Shutdown within the cluster *)

Section cluster.
Context {E : Type} `{EC : Ecrypto E} `{EL : !EcryptoLaws E} `{EN : Entropy E}.
Context (cl : bytes) (seeds : list bytes) (K0 : bytes) (holders : gset bytes) (st0 : Cluster E) (i : bytes).

(** What may happen while node [i] shuts down: it takes an action, other
    than receiving a message (memberlist has been shut down); [Shutdown]
    goes on; another node takes an action. *)
Inductive shutdown_step : Cluster E * Life E → Cluster E * Life E → Prop :=
  | sh_act st l a l' : allowed cl st i a → (∀ b, a ≠ ANotifyMsg b) → life_act (LAct a) l = Some (Ok tt, l') →
      shutdown_step (st, l) (<[i:=lf_w l']> st, l')
  | sh_close st l l' : life_act LCloseStates l = Some (Ok tt, l') → shutdown_step (st, l) (st, l')
  | sh_stop st l l' : life_act LStop l = Some (Ok tt, l') → shutdown_step (st, l) (st, l')
  | sh_other st l j w a w' : j ≠ i → st !! j = Some w → allowed cl st j a → act a w = Some (Ok tt, w') →
      shutdown_step (st, l) (<[j:=w']> st, l).

Definition shutdown_inv (s : Cluster E * Life E) : Prop :=
  let '(st, l) := s in
  reachable cl st0 st ∧ st !! i = Some (lf_w l) ∧ ready (lf_w l) ∧ single_shutdown l ∧
  lf_in_closed l = true ∧ (lf_shutdown l ≠ SdDone → lf_ticker l = true).

Lemma shutdown_act st l a r l' : honest_start cl seeds K0 holders st0 → shutdown_inv (st, l) →
  allowed cl st i a → (∀ b, a ≠ ANotifyMsg b) → life_act (LAct a) l = Some (r, l') →
  r = Ok tt ∧ shutdown_inv (<[i:=lf_w l']> st, l').
Proof.
  intros H0 (Hr & Hi & Hrd & Hs & Hc & Ht) Hal Hne Ha.
  pose proof (act_closing _ _ _ _ Ha) as Hcl. destruct (ready_act l a r l' Hrd Hne Ha) as [Hrd' Hw].
  assert (r = Ok tt ∧ reachable cl st0 (<[i:=lf_w l']> st)) as [-> Hr'].
  { destruct Hw as [Hact|[-> Hw]]; [|split; [done|]; by rewrite Hw, insert_id].
    assert (r = Ok tt) as -> by (by eapply honest_act). split; [done|].
    eapply rtc_r; [exact Hr|]. by eapply step_act. }
  split; [done|]. split; [done|]. split; [apply lookup_insert_eq|]. split; [done|].
  split; [by eapply closing_single|]. pose proof Hcl as [= -> _ ->]. split; [done|].
  intros Hd. eapply act_ticker; [exact Ha|by apply Ht].
Qed.

Lemma shutdown_step_inv s s' : honest_start cl seeds K0 holders st0 →
  shutdown_step s s' → shutdown_inv s → shutdown_inv s'.
Proof.
  intros H0 Hstep HI. destruct Hstep as [st l a l' Hal Hne Ha|st l l' Ha|st l l' Ha|st l j w a w' Hj Hw Hal Ha].
  - by destruct (shutdown_act st l a (Ok tt) l' H0 HI Hal Hne Ha).
  - destruct HI as (Hr & Hi & Hrd & Hs & Hc & Ht). pose proof (single_shutdown_step _ _ _ _ Hs Ha) as Hs'.
    simpl in Ha. unfold Shutdown_close_states in Ha. destruct (lf_shutdown l) eqn:Hsd; try done.
    destruct (lf_states_closed l); [done|]. injection Ha as <-. split_and!; try done. intros _. by apply Ht.
  - destruct HI as (Hr & Hi & Hrd & Hs & Hc & Ht). pose proof (single_shutdown_step _ _ _ _ Hs Ha) as Hs'.
    simpl in Ha. unfold Shutdown_stop in Ha. destruct (lf_shutdown l) eqn:Hsd; try done.
    destruct (lf_ticker l); [|done]. injection Ha as <-. by split_and!.
  - destruct HI as (Hr & Hi & Hrd & Hs & Hc & Ht). split; [|split; [by rewrite lookup_insert_ne|done]].
    eapply rtc_r; [exact Hr|]. by eapply step_act.
Qed.

(** C14. Shutting down a READY node of an honest cluster is clean.  From a
    running node whose [Start] has returned, [Shutdown] closes the first
    channel without panic; and in every state after that, whatever the node,
    the rest of [Shutdown] and the other nodes have done since, as long as
    memberlist delivers no further message to the node: no action of the node
    panics, [Shutdown] can always go on and closes the second channel and
    stops the ticker without panic, and the node stays READY and part of a
    reachable cluster. *)
Theorem honest_shutdown_is_clean st (l : Life E) :
  honest_start cl seeds K0 holders st0 → reachable cl st0 st → st !! i = Some (lf_w l) →
  ready (lf_w l) → open l → lf_ticker l = true →
  ∃ l1, life_act LShutdown l = Some (Ok tt, l1) ∧ lf_w l1 = lf_w l ∧
  ∀ st' l', rtc shutdown_step (st, l1) (st', l') →
    reachable cl st0 st' ∧ st' !! i = Some (lf_w l') ∧ ready (lf_w l') ∧ lf_in_closed l' = true ∧
    (∀ a r l'', allowed cl st' i a → (∀ b, a ≠ ANotifyMsg b) → life_act (LAct a) l' = Some (r, l'') → r = Ok tt) ∧
    match lf_shutdown l' with
    | SdClosing => ∃ l'', life_act LCloseStates l' = Some (Ok tt, l'') ∧ lf_states_closed l'' = true
    | SdStopping => ∃ l'', life_act LStop l' = Some (Ok tt, l'') ∧ lf_shutdown l'' = SdDone ∧ lf_ticker l'' = false
    | SdNone => False
    | SdDone => lf_states_closed l' = true
    end.
Proof.
  intros H0 Hr Hi Hrd (Hoi & Hos & Hsd) Ht. simpl. unfold Shutdown_close. rewrite Hoi.
  eexists. split; [done|]. split; [done|]. intros st' l' Hrun.
  assert (shutdown_inv (st', l')) as HI.
  { assert (∀ s s', rtc shutdown_step s s' → shutdown_inv s → shutdown_inv s') as Hrtc.
    { induction 1 as [|s1 s2 s3 H12 _ IH]; [done|]. intros HI. apply IH. by eapply shutdown_step_inv. }
    apply (Hrtc _ _ Hrun). split_and!; try done. }
  pose proof HI as (Hr' & Hi' & Hrd' & Hs' & Hc' & Ht'). do 4 (split; [done|]). split.
  - intros a r l'' Hal Hne Ha. by destruct (shutdown_act st' l' a r l'' H0 HI Hal Hne Ha).
  - unfold single_shutdown, shut in Hs'. simpl. unfold Shutdown_close_states, Shutdown_stop.
    destruct (lf_shutdown l'); [destruct Hs'; congruence| | |apply Hs'].
    + rewrite (proj2 Hs'). by eexists.
    + rewrite Ht' by done. by eexists.
Qed.
End cluster.

(** ** A node of the example cluster *)
Module ToyLife.
Import Toy Demo.

(** A node that runs, in the state [w]. *)
Definition running (w : World N) : Life N :=
  {| lf_w := w; lf_in_closed := false; lf_states_closed := false; lf_shutdown := SdNone;
     lf_loop := true; lf_notify := true; lf_ticker := true |}.

(** Node n1 after the whole script. *)
Lemma ready_node : ∃ st w, reachable ($"prod") Demo.st0 st ∧ st !! ($"n1") = Some w ∧ ready w.
Proof.
  assert (match final_state with
          | Some st => match st !! ($"n1") with
                       | Some w => (n_state (node w) =? NODE_STATE_READY) &&
                                   match pc w with PDone => true | _ => false end
                       | None => false end
          | None => false end = true) as HF by (vm_compute; reflexivity).
  unfold final_state in HF. destruct (exec Demo.st0 _) as [st|] eqn:Hst; [|done].
  destruct (st !! ($"n1")) as [w|] eqn:Hw; [|done].
  apply andb_true_iff in HF as [Hs%Z.eqb_eq Hpc].
  exists st, w. split; [exact (exec_reachable _ _ _ _ Hst)|]. split; [done|]. split; [done|]. by destruct (pc w).
Qed.

(** [Shutdown] runs to its end; then the node is asked for its state. *)
Lemma honest_shutdown_is_clean_witness : ∃ (w : World N) (l1 l2 l3 : Life N), ready w ∧
  life_act LShutdown (running w) = Some (Ok tt, l1) ∧ life_act LCloseStates l1 = Some (Ok tt, l2) ∧
  life_act LStop l2 = Some (Ok tt, l3) ∧ lf_ticker l3 = false ∧
  ∀ r l4, life_act (LAct ALocalState) l3 = Some (r, l4) → r = Ok tt.
Proof.
  destruct ready_node as (st & w & Hr & Hw & Hrd).
  destruct (honest_shutdown_is_clean ($"prod") seeds key32 ∅ Demo.st0 ($"n1") st (running w) st0_honest Hr Hw Hrd)
    as (l1 & H1 & _ & Hrun); [done|done|]. injection H1 as <-.
  destruct (Hrun st _ (rtc_refl _ _)) as (_ & _ & _ & _ & _ & l2 & H2 & _). injection H2 as <-.
  assert (rtc (shutdown_step ($"prod") ($"n1")) (st, with_closed (running w) true false SdClosing)
            (st, with_closed (with_closed (running w) true false SdClosing) true true SdStopping)) as Hs2
    by (apply rtc_once, sh_close; reflexivity).
  destruct (Hrun st _ Hs2) as (_ & _ & _ & _ & _ & l3 & H3 & _ & Ht3).
  exists w. do 2 eexists. exists l3. split; [exact Hrd|]. split; [reflexivity|]. split; [reflexivity|].
  split; [exact H3|]. split; [exact Ht3|]. intros r l4 Ha.
  destruct (Hrun st l3) as (_ & _ & _ & _ & Hno & _); [eapply rtc_r; [exact Hs2|by apply sh_stop]|].
  apply (Hno ALocalState r l4); [constructor|discriminate|exact Ha].
Defined.

(** Its three states are still in the channel: they are taken, and then both
    loops return. *)
Definition drain : list life_action :=
  [LAct AStateChange; LAct AStateChange; LAct AStateChange; LAct AStateChange; LAct (ALoop 8000)].
Definition after_close (w : World N) : Life N :=
  with_closed (with_closed (running w) true false SdClosing) true true SdStopping.

Lemma n1_drains : ∃ w l', life_exec (after_close w) drain = Some l' ∧ lf_loop l' = false ∧ lf_notify l' = false.
Proof.
  assert (match final_state ≫= (λ st, st !! ($"n1")) with
          | Some w => match life_exec (after_close w) drain with
                      | Some l' => negb (lf_loop l') && negb (lf_notify l') | None => false end
          | None => false end = true) as HF by (vm_compute; reflexivity).
  destruct (final_state ≫= (λ st, st !! ($"n1"))) as [w|]; [|done].
  destruct (life_exec (after_close w) drain) as [l'|] eqn:Hl; [|done]. exists w, l'.
  apply andb_true_iff in HF as [H1%negb_true_iff H2%negb_true_iff]. done.
Qed.

End ToyLife.
