(* ===== verification/Main.v ===== *)
(** * cmd/bootstrap/main.go: from the command line to a running server

    [ParseConfig] of internal/common/common.go reads the flag [-config], the
    TOML file it names and the environment; [main] hands the two
    configurations to [Bootstrap.Start], which makes the node and, once it is
    READY, a key server whose TLS is set up with a DNS provider or with the
    node's certificate (internal/web/server.go, providers/dns).

    The packages [env] and [toml] are not part of the repository: they are
    the parameters [EnvLib] and [TomlLib].  [EnvLaws] states what the
    documentation of [env] says of a variable that is set and of one that is
    not.  Go's own package [flag] is written out. *)

From S2P Require Import Prelude GoBytes GoText Json Sha256 Common CommonSet MasterKey Enclave Seed Heartbeat Node KeyStore Api Crypto Valkey Session Aes Tdx KeyService Journal Server CertStorage Cluster Bootstrap.
From Stdlib Require Import ZArith Lia.

Local Open Scope Z_scope.

(** ** Go: flag *)

(** A flag set in which [-config] is the one flag, as [ParseConfig] defines
    it.  [FlagExit] is [os.Exit] of [flag.ExitOnError]: 0 after a request
    for help, 2 after an error. *)
Inductive flag_result :=
  | FlagOk (path : bytes) (args : list bytes)
  | FlagExit (code : Z).

Definition minus : byte := "-"%byte.

(** The name after the minus signs; [None] for an argument that is no flag. *)
Definition flag_name (s : bytes) : option bytes :=
  match s with
  | m :: c :: name =>
      if bool_decide (m = minus) then Some (if bool_decide (c = minus) then name else c :: name) else None
  | _ => None
  end.

(** [name] and the value after the first [=] that is not its first byte. *)
Definition flag_value (name : bytes) : bytes * option bytes :=
  match name with
  | [] => ([], None)
  | c :: rest => let '(a, v, found) := Cut rest "="%byte in (c :: a, if found : bool then Some v else None)
  end.

Definition flag_unknown (name : bytes) : flag_result :=
  FlagExit (if bool_decide (name = $"help") || bool_decide (name = $"h") then 0 else 2).

(** [FlagSet.Parse] with the calls of [parseOne]. *)
Fixpoint flag_Parse (path : bytes) (args : list bytes) : flag_result :=
  match args with
  | [] => FlagOk path []
  | s :: rest =>
      if bool_decide (s = [minus; minus]) then FlagOk path rest
      else
        match flag_name s with
        | None => FlagOk path args
        | Some name =>
            if bool_decide (name = []) || bool_decide (head name = Some minus)
               || bool_decide (head name = Some "="%byte) then FlagExit 2
            else
              let '(name, value) := flag_value name in
              if bool_decide (name = $"config") then
                match value, rest with
                | Some v, _ => flag_Parse v rest
                | None, v :: rest => flag_Parse v rest
                | None, [] => FlagExit 2
                end
              else flag_unknown name
        end
  end.

Example flags_last : flag_Parse [] [$"-config"; $"a"; $"--config=b"; $"x"; $"-config=c"] =
  FlagOk ($"b") [$"x"; $"-config=c"].
Proof. vm_compute. reflexivity. Qed.
Example flags_missing : flag_Parse [] [$"-config"] = FlagExit 2 ∧ flag_Parse [] [$"-h"] = FlagExit 0 ∧
  flag_Parse [] [$"-v"] = FlagExit 2 ∧ flag_Parse [] [$"-"; $"-v"] = FlagOk [] [$"-"; $"-v"] ∧
  flag_Parse [] [$"--"; $"-v"] = FlagOk [] [$"-v"] ∧ flag_Parse [] [$"--=a"] = FlagExit 2.
Proof. vm_compute. split_and!; reflexivity. Qed.

(** ** common.go: reading the configuration *)

(** The types of the fields of [ClusterConfig]. *)
Inductive EnvType := EnvString | EnvStrings | EnvUint32 | EnvInt | EnvBool.

Definition env_val (t : EnvType) : Type :=
  match t with
  | EnvString => bytes
  | EnvStrings => list bytes
  | EnvUint32 | EnvInt => Z
  | EnvBool => bool
  end.
Definition env_zero (t : EnvType) : env_val t :=
  match t with
  | EnvString => []
  | EnvStrings => []
  | EnvUint32 | EnvInt => 0
  | EnvBool => false
  end.

(** The process environment. *)
Definition Environ : Type := bytes → option bytes.

(** What [env.Parse] does with one field: its type and the tags [env] and
    [envDefault] give its value and an error; the errors of all fields are
    collected into one.  [toml.DecodeFile] fills a structure from a file. *)
Class EnvLib := {
  env_field : ∀ t : EnvType, Environ → bytes → option bytes → env_val t * option error;
  env_aggregate : list error → error
}.
Class TomlLib := toml_DecodeFile : bytes → EnclaveConfig → EnclaveConfig * option error.

(** [strconv.ParseBool]. *)
Definition ParseBool (s : bytes) : option bool :=
  if bool_decide (s ∈ [$"1"; $"t"; $"T"; $"true"; $"TRUE"; $"True"]) then Some true
  else if bool_decide (s ∈ [$"0"; $"f"; $"F"; $"false"; $"FALSE"; $"False"]) then Some false
  else None.

Class EnvLaws `{EnvLib} := {
  env_unset : ∀ t e key, e key = None → env_field t e key None = (env_zero t, None);
  env_default : ∀ t e key d, e key = None → env_field t e key (Some d) = env_field t (λ _, Some d) key None;
  env_set_string : ∀ e key d v, e key = Some v → v ≠ [] → env_field EnvString e key d = (v, None);
  env_set_bool : ∀ e key d v, e key = Some v → v ≠ [] →
    match ParseBool v with
    | Some b => env_field EnvBool e key d = (b, None)
    | None => is_Some (env_field EnvBool e key d).2
    end
}.

Definition EnclaveConfig_zero : EnclaveConfig :=
  {| ProductId := 0; Debug := false; SignerId := []; SecurityVersions := [] |}.

Section config.
Context `{EnvLib} `{TomlLib}.
Implicit Types (e : Environ).

Definition field_value (t : EnvType) e (key : bytes) (d : option bytes) : env_val t := (env_field t e key d).1.
Definition field_error (t : EnvType) e (key : bytes) (d : option bytes) : list error :=
  option_list (env_field t e key d).2.

(** The tags of [ClusterConfig]. *)
Definition cluster_config e : ClusterConfig :=
  {| Id := field_value EnvString e ($"CLUSTER_ID") None;
     EncryptionKey := field_value EnvString e ($"CLUSTER_ENCRYPTIONKEY") None;
     Port := field_value EnvUint32 e ($"CLUSTER_PORT") None;
     PeerAddresses := field_value EnvStrings e ($"CLUSTER_PEERS") None;
     SeedNodes := field_value EnvStrings e ($"SEED_NODES") None;
     BindAddress := field_value EnvString e ($"BIND_ADDRESS") (Some ($"0.0.0.0"));
     NodeHost := field_value EnvString e ($"NODE_HOST") None;
     MasterKeyFolder := field_value EnvString e ($"MASTERKEY_FOLDER") (Some ($"/sealed"));
     ValkeyUris := field_value EnvStrings e ($"VALKEY_URIS") None;
     ValkeyUser := field_value EnvString e ($"VALKEY_USER") None;
     ValkeyPassword := field_value EnvString e ($"VALKEY_PASSWORD") None;
     ValkeyNamespace := field_value EnvString e ($"VALKEY_NAMESPACE") None;
     ValkeyTLS := field_value EnvBool e ($"VALKEY_TLS") (Some ($"false"));
     Domains := field_value EnvStrings e ($"SERVER_DOMAIN") None;
     ServerPort := field_value EnvInt e ($"SERVER_PORT") None;
     AcmeDnsToken := field_value EnvString e ($"ACME_DNS_API_TOKEN") None;
     AcmeOwner := field_value EnvString e ($"ACME_OWNER") None;
     AcmeRetryDelay := field_value EnvInt e ($"ACME_RETRY_DELAY") (Some ($"5"));
     AcmeRetryCount := field_value EnvInt e ($"ACME_RETRY_COUNT") (Some ($"10"));
     AcmeProvider := field_value EnvString e ($"ACME_PROVIDER")
       (Some ($"https://acme-v02.api.letsencrypt.org/directory"));
     DevMode := field_value EnvBool e ($"DEV_MODE") (Some ($"true"));
     EnforceSealQuoteVerify := field_value EnvBool e ($"TDX_SEAL_ENFORCE_QUOTE_VERIFY") (Some ($"true"));
     EnforceKeyRequestQuoteVerify :=
       field_value EnvBool e ($"TDX_KEYREQ_ENFORCE_QUOTE_VERIFY") (Some ($"true"));
     JournalEndpoint := field_value EnvString e ($"JOURNAL_S3_ENDPOINT") None;
     JournalRegion := field_value EnvString e ($"JOURNAL_S3_REGION") None;
     JournalAccessKey := field_value EnvString e ($"JOURNAL_S3_ACCESS_KEY") None;
     JournalSecretKey := field_value EnvString e ($"JOURNAL_S3_SECRET_KEY") None |}.

Definition cluster_config_errors e : list error :=
  field_error EnvString e ($"CLUSTER_ID") None ++
  field_error EnvString e ($"CLUSTER_ENCRYPTIONKEY") None ++
  field_error EnvUint32 e ($"CLUSTER_PORT") None ++
  field_error EnvStrings e ($"CLUSTER_PEERS") None ++
  field_error EnvStrings e ($"SEED_NODES") None ++
  field_error EnvString e ($"BIND_ADDRESS") (Some ($"0.0.0.0")) ++
  field_error EnvString e ($"NODE_HOST") None ++
  field_error EnvString e ($"MASTERKEY_FOLDER") (Some ($"/sealed")) ++
  field_error EnvStrings e ($"VALKEY_URIS") None ++
  field_error EnvString e ($"VALKEY_USER") None ++
  field_error EnvString e ($"VALKEY_PASSWORD") None ++
  field_error EnvString e ($"VALKEY_NAMESPACE") None ++
  field_error EnvBool e ($"VALKEY_TLS") (Some ($"false")) ++
  field_error EnvStrings e ($"SERVER_DOMAIN") None ++
  field_error EnvInt e ($"SERVER_PORT") None ++
  field_error EnvString e ($"ACME_DNS_API_TOKEN") None ++
  field_error EnvString e ($"ACME_OWNER") None ++
  field_error EnvInt e ($"ACME_RETRY_DELAY") (Some ($"5")) ++
  field_error EnvInt e ($"ACME_RETRY_COUNT") (Some ($"10")) ++
  field_error EnvString e ($"ACME_PROVIDER") (Some ($"https://acme-v02.api.letsencrypt.org/directory")) ++
  field_error EnvBool e ($"DEV_MODE") (Some ($"true")) ++
  field_error EnvBool e ($"TDX_SEAL_ENFORCE_QUOTE_VERIFY") (Some ($"true")) ++
  field_error EnvBool e ($"TDX_KEYREQ_ENFORCE_QUOTE_VERIFY") (Some ($"true")) ++
  field_error EnvString e ($"JOURNAL_S3_ENDPOINT") None ++
  field_error EnvString e ($"JOURNAL_S3_REGION") None ++
  field_error EnvString e ($"JOURNAL_S3_ACCESS_KEY") None ++
  field_error EnvString e ($"JOURNAL_S3_SECRET_KEY") None.

Definition ReadClusterConfig e : ClusterConfig * option error :=
  (cluster_config e,
   match cluster_config_errors e with [] => None | errs => Some (env_aggregate errs) end).

Definition ReadEnclaveConfig (path : bytes) : EnclaveConfig * option error :=
  toml_DecodeFile path EnclaveConfig_zero.

(** The left side is the exit code of a process that [flag] ends; the
    arguments are those after the program's name. *)
Definition ParseConfig (args : list bytes) e : res (Z + EnclaveConfig * ClusterConfig) :=
  match flag_Parse [] args with
  | FlagExit code => Ok (inl code)
  | FlagOk path _ =>
      match ReadEnclaveConfig path with
      | (_, Some err) => Panic (Error err)
      | (enclaveCfg, None) =>
          match ReadClusterConfig e with
          | (_, Some err) => Panic (Error err)
          | (clusterCfg, None) => Ok (inr (enclaveCfg, clusterCfg))
          end
      end
  end.

(** ** bootstrap.go and main.go *)

(** [Bootstrap.Start] up to the wait for the node: [NewNode], which may end
    the process, and the bootstrap that waits for it. *)
Definition Bootstrap_Start {W} (cluster : ClusterConfig) (enclave : EnclaveConfig) (env : NodeEnv) (now : Z)
    : res (Z + Node * MemberlistConfig * Bootstrap W) :=
  node ← NewNode (Some cluster) (Some enclave) env now;
  mret (match node with inl code => inl code | inr node => inr (node, Start_node cluster) end).

(** [main]: the exit status of a process that ends, or the node that runs; a
    panic of the goroutine that runs [Start] ends the process like one of
    [main] itself.  [env] makes the results of the calls of [NewNode]
    from the two configurations. *)
Definition main {W} (env : ClusterConfig → EnclaveConfig → NodeEnv) (now : Z) (args : list bytes) e
    : res (Z + Node * MemberlistConfig * Bootstrap W) :=
  cfg ← ParseConfig args e;
  match cfg with
  | inl code => mret (inl code)
  | inr (enclaveConfig, clusterConfig) =>
      Bootstrap_Start clusterConfig enclaveConfig (env clusterConfig enclaveConfig) now
  end.
End config.

(** ** providers/dns *)

(** default.go, the build without a provider's tag: there is no value of its
    interface. *)
Definition default_NewProvider {W D} (token : bytes) : M W D := λ w,
  (Panic ($"no DNS provider selected (build with -tags=<provider>)"), w).

(** ionos.go: the field of [ionos.Provider] that it sets. *)
Record ionos_Provider := { AuthAPIToken : bytes }.
Definition ionos_NewProvider {W} (token : bytes) : M W ionos_Provider := λ w, (Ok {| AuthAPIToken := token |}, w).

(** ** server.go: the HTTP server of NewKeyServer *)

(** [AcmeTLS] is [certMagic.TLSConfig()]. *)
Inductive tlsConfig (W D : Type) :=
  | NodeTLS
  | AcmeTLS (certMagic : AcmeDefaults W D).
Arguments NodeTLS {W D}.
Arguments AcmeTLS {W D} certMagic.

Section server.
Context {W D : Type} `{Certmagic W D} (NewProvider : bytes → M W D).

Definition acme_config (config : ClusterConfig) (kvStore : KeyStore W) (provider : D) : AcmeConfig W D :=
  {| ac_Domains := Domains config; ac_DnsProvider := provider; ac_AcmeOwner := AcmeOwner config;
     ac_AcmeProvider := AcmeProvider config; ac_KVStore := kvStore; ac_NodeId := NodeHost config;
     ac_RetryDelay := AcmeRetryDelay config; ac_RetryCount := AcmeRetryCount config |}.

Definition server_tls (config : ClusterConfig) (kvStore : KeyStore W) : M W (tlsConfig W D) :=
  if bool_decide (AcmeDnsToken config = []) then mret NodeTLS
  else
    provider ← NewProvider (AcmeDnsToken config);
    certMagic ← Setup (acme_config config kvStore provider);
    mret (AcmeTLS certMagic).

(** [http.Server]. *)
Record http_Server := { hs_Addr : bytes; hs_TLSConfig : tlsConfig W D }.

Definition journal_config (config : ClusterConfig) : Journal.Config :=
  {| jc_Endpoint := JournalEndpoint config; jc_Region := JournalRegion config;
     jc_AccessKey := JournalAccessKey config; jc_SecretKey := JournalSecretKey config |}.

(** [NewKeyServer] with its HTTP server and its journal, in the order of the
    code; what the handlers use of it is [Server.NewKeyServer]. *)
Definition NewKeyServer_http (new_journal : Journal.Config → Record_ → M W unit) (config : ClusterConfig)
    (kvStore : KeyStore W) (vault : Vault) : M W (http_Server * (Record_ → M W unit) * KeyServer W) :=
  tls ← server_tls config kvStore;
  let server := {| hs_Addr := ":"%byte :: FormatInt (ServerPort config); hs_TLSConfig := tls |} in
  mret (server, new_journal (journal_config config), NewKeyServer config kvStore vault).
End server.

(** ** What a configuration gives the program *)

(** [NewNode] ends in a node, which has what was configured, with the status 1
    when there is no transport, or in a panic. *)
Lemma NewNode_exit c ec env now code : NewNode (Some c) (Some ec) env now = Ok (inl code) →
  code = 1 ∧ ∃ err, env_NewNetTransport env = Err err.
Proof.
  unfold NewNode. repeat (case_decide; [done|]). intros Hn. inv_res.
  case_match; [done|]. injection Hn as <-. split; [done|].
  destruct (env_NewNetTransport env); simplify_eq/=; eauto.
Qed.
Lemma NewNode_inv c ec env now r : NewNode (Some c) (Some ec) env now = Ok (inr r) →
  Port c ≠ 0 ∧ PeerAddresses c ≠ [] ∧ ValkeyUris c ≠ [] ∧ BindAddress c ≠ [] ∧
  n_configuredPeerAddresses r.1 = PeerAddresses c ∧ BindPort r.2 = Port c ∧ n_state r.1 = 0.
Proof.
  unfold NewNode. repeat (case_decide; [done|]). intros Hn. inv_res.
  case_match; [|done]. injection Hn as <-. by split_and!.
Qed.
Lemma must_no_Err {A} (r : res A) err : must r ≠ Err err.
Proof. by destruct r. Qed.
Lemma bind_no_Err {A B} (r : res A) (f : A → res B) : (∀ err, r ≠ Err err) → (∀ a err, f a ≠ Err err) →
  ∀ err, r ≫= f ≠ Err err.
Proof. intros Hr Hf err. destruct r; [apply Hf|by specialize (Hr e)|done]. Qed.
Lemma NewNode_no_Err c ec env now err : NewNode c ec env now ≠ Err err.
Proof.
  unfold NewNode. destruct c as [c|]; [|done]. repeat (case_decide; [done|]).
  revert err. repeat (apply bind_no_Err; [intros err; apply must_no_Err|intros ?]).
  apply bind_no_Err; [by destruct (env_NewNetTransport env)|by intros []].
Qed.

Lemma flag_Parse_code path args code : flag_Parse path args = FlagExit code → code = 0 ∨ code = 2.
Proof.
  remember (length args) as n eqn:Hn. revert path args Hn.
  induction (lt_wf n) as [n _ IH]. intros path [|s rest] ->; [done|]. cbn [flag_Parse].
  case_bool_decide; [done|]. destruct (flag_name s) as [name|]; [|done].
  destruct (_ || _ || _); [intros [= <-]; by right|]. destruct (flag_value name) as [nm v].
  case_bool_decide.
  - destruct v as [v|].
    + apply (IH (length rest)); [simpl; lia|done].
    + destruct rest as [|v rest]; [intros [= <-]; by right|].
      apply (IH (length rest)); [simpl; lia|done].
  - unfold flag_unknown. destruct (_ || _); intros [= <-]; [by left|by right].
Qed.

Section defaults.
Context `{EV : EnvLib} `{EL : !EnvLaws} `{TL : TomlLib}.
Implicit Types (e : Environ).

Lemma ParseConfig_inv args e ec c : ParseConfig args e = Ok (inr (ec, c)) →
  c = cluster_config e ∧ cluster_config_errors e = [] ∧
  ∃ path rest, flag_Parse [] args = FlagOk path rest ∧ ReadEnclaveConfig path = (ec, None).
Proof.
  unfold ParseConfig. destruct (flag_Parse [] args) as [path rest|] eqn:Hf; [|done].
  destruct (ReadEnclaveConfig path) as [ec' [?|]] eqn:He; [done|]. unfold ReadClusterConfig.
  destruct (cluster_config_errors e) eqn:Hc; [|done]. intros [= <- <-]. naive_solver.
Qed.

Lemma bool_default e key d b : e key = None → d ≠ [] → ParseBool d = Some b →
  field_value EnvBool e key (Some d) = b.
Proof.
  intros Hk Hd Hp. unfold field_value. rewrite env_default by done.
  pose proof (env_set_bool (λ _, Some d) key None d eq_refl Hd) as Hs. rewrite Hp in Hs. by rewrite Hs.
Qed.
Lemma unset_zero t e key : field_value t e key None ≠ env_zero t → is_Some (e key).
Proof.
  intros Hz. destruct (e key) as [v|] eqn:Hk; [by eexists|]. destruct Hz.
  unfold field_value. by rewrite env_unset.
Qed.

End defaults.

(** ** The checks of a server that was configured by default *)

Section checks.
Context `{EV : EnvLib} `{EL : !EnvLaws} `{TL : TomlLib}.
Context {W : Type} `{Clock W} `{UuidLib W} `{Entropy W} `{QuoteLib} `{QuoteVerifier W} `{CcelLib}.
Context `{HkdfLib} `{CurveLib} `{EcEncoding} `{RsaLib W} `{EcdsaLib W} `{AeadLib} `{EnclaveLib W} `{Dialer W}.
Context (kv : KeyStore W) (vault : Vault).
Implicit Types (e : Environ).

(** C10. Quotes are verified by default: when [TDX_KEYREQ_ENFORCE_QUOTE_VERIFY]
    is not set, and whatever the rest of the environment says, [DEV_MODE]
    included, a server made from the configuration that the program read
    releases a key only for a quote whose signature chain was verified and
    which carries the nonce of the request's session. *)
Theorem quotes_verified_by_default args e ec c request w reply w' :
  ParseConfig args e = Ok (inr (ec, c)) → e ($"TDX_KEYREQ_ENFORCE_QUOTE_VERIFY") = None →
  handleKeyRequestFinalize (NewKeyServer c kv vault) request w = (Ok reply, w') → rp_code reply = 200 →
  ∃ req record qb q w1 w2, decodeRequest AttestationRequest request = Ok req ∧
    Get (sv_sessions (NewKeyServer c kv vault)) (ar_SessionId req) w = (Ok (inl record), w1) ∧
    b64_DecodeString (ar_Quote req) = Ok qb ∧ NewTdxQuote qb = Ok q ∧
    Quote_Verify q w1 = (Ok tt, w2) ∧ VerifyReportData q (default [] (rs_Nonce record)) = Ok tt.
Proof.
  intros Hp Hu Hf Hcode. apply ParseConfig_inv in Hp as (-> & _).
  apply key_release_inv in Hf as (req & record & kreq & q & log & fw & mrtd & m & k & w1 & w2 & ? & ? & _ & _ &
    (qb & ? & ? & Hv & Hn) & _); [|done].
  exists req, record, qb, q, w1, w2. split_and!; try done; [|by apply Hn]. apply Hv.
  by apply bool_default.
Qed.

(** Unless [DEV_MODE] is set to false, the sealing routes do not check the
    nonce: a quote that is genuine but carries another nonce than the
    session's is accepted by the sealing protocol and refused (401) by that
    of key requests. *)
Theorem seal_nonce_unchecked_by_default args e ec c record qb q err w w' :
  ParseConfig args e = Ok (inr (ec, c)) → e ($"DEV_MODE") = None →
  qb ≠ [] → NewTdxQuote qb = Ok q → Quote_Verify q w = (Ok tt, w') →
  VerifyReportData q (default [] (rs_Nonce record)) = Err err →
  let s := NewKeyServer c kv vault in
  AttVerify (sv_sealingChallengeResponse s) record (b64_EncodeToString qb) w = (Ok (inl q), w') ∧
  ∃ r401, AttVerify (sv_challengeResponse s) record (b64_EncodeToString qb) w = (Ok (inr r401), w') ∧
    ec_Code r401 = 401.
Proof.
  intros Hp Hu Hne Hq Hv Hn s. apply ParseConfig_inv in Hp as (-> & _).
  assert (DevMode (cluster_config e) = true) as Hdev by by apply bool_default.
  assert (∀ a, AttVerify a record (b64_EncodeToString qb) w = (check_nonce a record q, w')) as Ha.
  { intros a. unfold AttVerify. rewrite bool_decide_eq_false_2 by (intros E; apply Hne; by apply b64_empty).
    unfold catch, lift. by rewrite b64_round_trip, Hq, Hv. }
  rewrite !Ha. unfold check_nonce. rewrite Hn. split.
  - change (av_devMode (sv_sealingChallengeResponse s)) with (DevMode (cluster_config e)). by rewrite Hdev.
  - eexists. by split.
Qed.
End checks.

(** Without a token the server uses the node's certificate; with one, a build
    without a provider panics, and the provider of ionos gets the token. *)
Lemma server_tls_node {W D} `{Certmagic W D} NewProvider config kv (w : W) : AcmeDnsToken config = [] →
  server_tls NewProvider config kv w = (Ok NodeTLS, w).
Proof. intros Ht. unfold server_tls. by rewrite Ht. Qed.
Lemma server_tls_default {W D} `{Certmagic W D} config kv (w : W) : AcmeDnsToken config ≠ [] →
  ∃ msg, server_tls default_NewProvider config kv w = (Panic msg, w).
Proof. intros Ht. unfold server_tls. rewrite bool_decide_eq_false_2 by done. by eexists. Qed.
Lemma server_tls_ionos {W} `{Certmagic W ionos_Provider} config kv (w : W) : AcmeDnsToken config ≠ [] →
  (∀ cm ds w' p, (ManageSync cm ds w').1 ≠ Panic p) →
  (server_tls ionos_NewProvider config kv w).1 =
    Ok (AcmeTLS (acme_defaults (acme_config config kv {| AuthAPIToken := AcmeDnsToken config |}))).
Proof.
  intros Ht Hs. unfold server_tls. rewrite bool_decide_eq_false_2 by done.
  pose proof (Setup_ends (acme_config config kv {| AuthAPIToken := AcmeDnsToken config |}) w Hs) as Hr.
  unfold ionos_NewProvider, mbind, M_bind. by destruct (Setup _ w) as [[] ?]; simplify_eq/=.
Qed.

(** ** An environment *)

Module ToyMain.
Import Toy ToyDb ToyWeb ToyCurve ToyAead ToyKeys ToyTdx ToyServer.

(** [env] on the values below: lists are separated by commas. *)
Definition raw_value (e : Environ) (key : bytes) (d : option bytes) : bytes :=
  match e key with
  | None => default [] d
  | Some [] => default [] d
  | Some v => v
  end.
Definition parse_value (t : EnvType) (v : bytes) : option (env_val t) :=
  match t with
  | EnvString => Some v
  | EnvStrings => Some (Split v ","%byte)
  | EnvUint32 => Z.of_N <$> parse_nat v
  | EnvInt => match ParseInt v with Ok n => Some n | _ => None end
  | EnvBool => ParseBool v
  end.
#[export] Instance toy_env : EnvLib := {|
  env_field t e key d :=
    match raw_value e key d with
    | [] => (env_zero t, None)
    | v => match parse_value t v with
           | Some x => (x, None)
           | None => (env_zero t, Some (ErrString ($"parse error on field " ++ key)))
           end
    end;
  env_aggregate errs := ErrString ($"env: " ++ Join (Error <$> errs) ";"%byte) |}.
#[export] Instance toy_env_laws : EnvLaws.
Proof.
  split; unfold env_field, toy_env, raw_value.
  - intros t e key ->. done.
  - intros t e key d ->. by destruct d.
  - intros e key d v ->. by destruct v.
  - intros e key d v -> Hv. destruct v as [|c v]; [done|]. cbn [parse_value].
    by destruct (ParseBool (c :: v)).
Qed.
#[export] Instance toy_toml : TomlLib := λ path c,
  if bool_decide (path = $"enclave.toml")
  then ({| ProductId := 1; Debug := false; SignerId := $"83d7"; SecurityVersions := [1] |}, None)
  else (c, Some (ErrString ($"open " ++ path))).

Definition node_environ : Environ := λ key,
  if bool_decide (key = $"CLUSTER_ID") then Some ($"prod")
  else if bool_decide (key = $"NODE_HOST") then Some ($"node1")
  else if bool_decide (key = $"CLUSTER_PORT") then Some ($"6001")
  else if bool_decide (key = $"CLUSTER_PEERS") then Some ($"node1:6001,node2:6002")
  else if bool_decide (key = $"SEED_NODES") then Some ($"node1,node2")
  else if bool_decide (key = $"VALKEY_URIS") then Some ($"valkey:6379")
  else if bool_decide (key = $"VALKEY_NAMESPACE") then Some ($"prod")
  else if bool_decide (key = $"SERVER_PORT") then Some ($"7001")
  else None.
Definition environ_without (k : bytes) : Environ := λ key,
  if bool_decide (key = k) then None else node_environ key.
Definition args : list bytes := [$"-config"; $"enclave.toml"].
Definition node_env (c : ClusterConfig) (ec : EnclaveConfig) : NodeEnv :=
  {| env_Hostname := Ok ($"host"); env_NewNodeTlsConfig := Ok tt; env_NewValKeyKeyService := Ok tt;
     env_ResolveIP := λ _, Ok ($"10.0.0.1"); env_NewNetTransport := Ok tt |}.
Definition node_config : ClusterConfig := cluster_config node_environ.
Definition enclave : EnclaveConfig :=
  {| ProductId := 1; Debug := false; SignerId := $"83d7"; SecurityVersions := [1] |}.

Lemma parsed : ParseConfig args node_environ = Ok (inr (enclave, node_config)).
Proof. by vm_compute. Qed.

(** The environment is read, and what is missing or wrong is a panic. *)
Example node_config_values : Port node_config = 6001 ∧ PeerAddresses node_config = [$"node1:6001"; $"node2:6002"] ∧
  BindAddress node_config = $"0.0.0.0" ∧ DevMode node_config = true ∧
  EnforceKeyRequestQuoteVerify node_config = true ∧ AcmeRetryCount node_config = 10.
Proof. vm_compute. split_and!; reflexivity. Qed.
Example starts : is_ok (main (W := db) node_env 0 args node_environ) = true.
Proof. by vm_compute. Qed.
Example no_port : main (W := db) node_env 0 args (environ_without ($"CLUSTER_PORT")) = Panic ($"CLUSTER_PORT undefined").
Proof. by vm_compute. Qed.
Example no_file : main (W := db) node_env 0 [] node_environ = Panic ($"open ").
Proof. by vm_compute. Qed.
Example no_transport : main (W := db) (λ c ec,
    {| env_Hostname := Ok ($"host"); env_NewNodeTlsConfig := Ok tt; env_NewValKeyKeyService := Ok tt;
       env_ResolveIP := λ _, Ok ($"10.0.0.1");
       env_NewNetTransport := Err (ErrString ($"address already in use")) |}) 0 args node_environ = Ok (inl 1).
Proof. by vm_compute. Qed.
Example help : main (W := db) node_env 0 [$"--help"] node_environ = Ok (inl 0).
Proof. by vm_compute. Qed.


Definition kserver : KeyServer db := NewKeyServer node_config kvs (VaultMember (Some member1)).
Definition inited : db := (handleKeyRequestInit kserver (json_Marshal key_request) db0).2.
Definition released : db := (handleKeyRequestFinalize kserver first_request inited).2.
Lemma release : ∃ reply, handleKeyRequestFinalize kserver first_request inited = (Ok reply, released) ∧
  rp_code reply = 200.
Proof.
  assert (∃ reply, (handleKeyRequestFinalize kserver first_request inited).1 = Ok reply ∧
    rp_code reply = 200) as (reply & Hr & Hc) by (eexists; split; by vm_compute).
  exists reply. split; [|exact Hc]. exact (eq_trans (surjective_pairing _) (f_equal (λ r, (r, _)) Hr)).
Qed.
Lemma quotes_verified_by_default_witness : ∃ q w1 w2 nonce, Quote_Verify (W := db) q w1 = (Ok tt, w2) ∧
  VerifyReportData q nonce = Ok tt.
Proof.
  destruct release as (reply & Hrun & Hc).
  destruct (quotes_verified_by_default kvs (VaultMember (Some member1)) args node_environ enclave node_config
    first_request inited reply released parsed) as (req & record & qb & q & w1 & w2 & _ & _ & _ & _ & Hv & Hn);
    [reflexivity|exact Hrun|exact Hc|].
  exists q, w1, w2, (default [] (rs_Nonce record)). split; [exact Hv|exact Hn].
Defined.

(** A session whose nonce is not the one in the quote. *)
Definition other_session : AttestationRequestStore := {| rs_Nonce := Some [x01]; rs_Payload := [] |}.
Lemma seal_nonce_unchecked_by_default_witness :
  AttVerify (sv_sealingChallengeResponse kserver) other_session (b64_EncodeToString ("Q"%byte :: first_nonce)) db0 =
    (Ok (inl vm), db0) ∧
  ∃ e401, AttVerify (sv_challengeResponse kserver) other_session
    (b64_EncodeToString ("Q"%byte :: first_nonce)) db0 = (Ok (inr e401), db0) ∧ ec_Code e401 = 401.
Proof.
  assert (∃ err, VerifyReportData vm [x01] = Err err) as [err Herr] by (eexists; by vm_compute).
  exact (seal_nonce_unchecked_by_default kvs (VaultMember (Some member1)) args node_environ enclave node_config
    other_session ("Q"%byte :: first_nonce) vm err db0 db0 parsed eq_refl ltac:(discriminate) eq_refl eq_refl Herr).
Defined.
End ToyMain.
